(* ===== verification/_CoqProject ===== *)
-Q . S2P
Prelude.v
GoFloat.v
GoRand.v
GoStr.v
GoConv.v
GoText.v
Hash.v
Props.v
Row.v
Generators.v
AckCounter.v
Zipfian.v
GeneratorSpec.v
ConcurrentMap.v
Util.v
Ycsb.v
Registry.v
Core.v
CoreSpec.v
Client.v
System.v
Workers.v
KV.v
TikvRows.v
TikvRaw.v
TikvRawSpec.v
TikvTxn.v
TikvTxnSpec.v
Measurement.v
MeasurementSpec.v
Prometheus.v
PrometheusSpec.v
Report.v
ReportSpec.v
Sql.v
SqlSpec.v
Sqlite.v
Cassandra.v
LocalKV.v
Json.v
MapIter.v
Etcd.v
Redis.v
RedisSpec.v
LocalSpec.v
Basic.v
Cmd.v
CmdSpec.v
Main.v
S3.v
FoundationDB.v
Spanner.v
Mongo.v
Dynamo.v
Elastic.v
Aerospike.v
Minio.v
Pegasus.v
Scripts.v
Tls.v
Shell.v
Cli.v
