(* ===== verification/Prelude.v ===== *)
(** * A verification development of go-ycsb

    go-ycsb (Go) is the YCSB benchmark: it loads a database with generated records and
    runs a mix of generated operations against it, measures the latency of every call and
    reports it.  This development models the program's own logic, from the parsed command
    line to the bytes handed to a database client and the text of the reports, as
    executable Rocq functions, and proves what makes the parts correct.

    ** How the program works, and where it is modelled

    A command ([cmd/go-ycsb]: Cmd.v; the interactive shell: Shell.v) builds the properties
    ([pkg/prop]: Props.v), the measurement ([pkg/measurement]: Measurement.v,
    Prometheus.v), the workload ([pkg/workload/core.go]: Core.v) and the database driver
    ([db/...]) behind the measuring wrapper ([pkg/client/dbwrapper.go], with the interfaces
    of [pkg/ycsb]: Ycsb.v).  The client ([pkg/client/client.go]: Client.v) starts workers
    that call the workload; the workload draws operations and keys from the generators
    ([pkg/generator]: Generators.v, Zipfian.v, AckCounter.v), builds rows and calls the
    driver; the wrapper times the call and hands the latency to the measurement, which
    prints the reports in the end.  [tool/report.go] (Report.v) reads the printed logs.

    - Values and the language: this file (machine integers, bytes, outcomes and the state
      monad), GoFloat.v ([float64] on the standard library's specification floats),
      GoRand.v ([math/rand] on a scripted source), GoStr.v and GoConv.v ([strconv], [fmt],
      [strings]), GoText.v ([net/url], [encoding/csv], [regexp], [path], [bufio]).
    - [pkg/util]: Hash.v (hash.go), Row.v (the row codec of row.go and core.go), Util.v
      (sorted fields, random bytes, buffer pools, renderers), ConcurrentMap.v
      (concurrent_map.go) with MapIter.v (the goroutines and channels of its iterators as
      the step relation [iter_step]), Tls.v (tls.go); spinlock.go is part of AckCounter.v,
      the casts of hack.go are [bytes_of_string] and [string_of_bytes] below.
    - [pkg/generator]: Generators.v (constant, counter, sequential, uniform, hotspot,
      exponential, discrete, histogram), Zipfian.v (zipfian, scrambled, skewed latest, and
      the union [Generator] the workload stores), AckCounter.v (acknowledged_counter.go: a
      single caller as functions, any number of goroutines as the step relation
      [ack_step]); GeneratorSpec.v says which values those with a range return.
    - [pkg/workload], [pkg/client]: Core.v holds every operation of the core workload,
      CoreSpec.v its theorems, Client.v the workers and the throttle, System.v the whole
      load and run phases over the model of a driver, Workers.v the goroutines of a load as
      the step relation [run_step].
    - Registry.v: what the [init] functions of all packages enter into the registries of
      [pkg/ycsb].
    - Drivers: [db/tikv] in TikvRows.v (keys and rows), TikvRaw.v (raw.go) and TikvTxn.v
      (txn.go) over the client interfaces of KV.v, with their theorems in TikvRawSpec.v and
      TikvTxnSpec.v; further drivers in the files listed below.
    - [pkg/measurement]: Measurement.v and MeasurementSpec.v; the Prometheus export in
      Prometheus.v and PrometheusSpec.v.  [cmd/go-ycsb]: Cmd.v, CmdSpec.v, Shell.v,
      Cli.v (the commands and the flags they declare) and Main.v (main.go: the end of the
      process, with its signal goroutine, as a step relation).  [tool/report.go]: Report.v, ReportSpec.v.
    - SQL drivers: [db/mysql] and [db/pg] in Sql.v (statements, the cache of prepared
      statements, operations, [CREATE TABLE]) and SqlSpec.v, [db/sqlite] in Sqlite.v (the
      transactions it retries), [db/cassandra] in Cassandra.v.
    - Embedded stores: [db/badger], [db/boltdb] and [db/rocksdb] in LocalKV.v, with the
      abstract table they implement in LocalSpec.v.
    - Stores of JSON rows: [db/etcd] in Etcd.v, [db/redis] in Redis.v and RedisSpec.v, over
      [encoding/json] and base64 in Json.v.  [db/basic], which only prints: Basic.v.
    - Document and object stores: [db/mongodb] in Mongo.v, [db/dynamodb] in Dynamo.v,
      [db/elasticsearch] in Elastic.v, [db/aerospike] in Aerospike.v, [db/s3] in S3.v,
      [db/minio] in Minio.v, [db/pegasus] in Pegasus.v; transactional ones:
      [db/foundationdb] in FoundationDB.v, [db/spanner] in Spanner.v.
    - The programs of the root directory (cas_conflict_check.go, check_keys.go,
      key_size_check.go): Scripts.v, the goroutines of the first as a step relation.

    ** State, effects and interfaces

    A Go function that may fail returns [res]: [Ok], [Panic] (with Go's message), [Exit]
    ([util.Fatalf], [os.Exit]), or [Stuck] when the scripted environment runs out.
    Functions with effects run in the state monad [M S]; each component has its own state
    record ([Env] for drivers behind the wrapper, [IO] for measurement, the files of the
    report tool), and [zoom] runs one inside another.  Go objects shared by pointer are
    one field of that state.  Errors that the code returns are values ([option error]);
    errors it drops are dropped here too.

    Code that is not under src/ is a parameter: the properties store ([Properties]), the
    HDR histogram ([HDR]), the clients of the databases ([RawKV], [TxnKV], [SqlConn],
    [SqlTx], [CqlSession], [TxRunner] with [BadgerTx] and [BoltTx], [RocksDB],
    [EtcdClient], [RedisClient], [FdbDatabase] with [FdbTx], [SpannerClient] with
    [SpannerAdmin], [MongoClient], [DynamoClient] with [DynamoValues], [ElasticClient],
    [AerospikeClient], [S3Client] with [Msgpack], [MinioClient], [PegasusClient]), the HTTP
    transport ([HttpClient]), [math.Pow] and [math.Log] ([MathLib]), how a flag takes a
    value ([Pflag]), the creators of databases, which may change them.  Each comes as a
    class of operations and, where the code relies on behaviour, a class of laws
    ([PropertiesLaws], [HDRLaws], [RawKVLaws] and so on) with a reference instance on
    which the witnesses compute.  The clock, the random words, the pool's choices and the
    order in which Go ranges over a map are inputs, and the theorems hold for all of them.

    ** What is proved

    - Phases: a load run without insertion retries and batches inserts the records of the
      range, once, with rows that data integrity checking accepts, and beyond them one for
      every round made during the warm-up ([load_phase_complete]); without a warm-up also
      with its goroutines in any interleaving ([load_interleaved]); which calls a run makes,
      whatever errors occur, and when it exits or panics instead ([client_performs_total],
      [work_partition]); keys chosen uniformly were loaded.
    - Concurrency: the acknowledged counter under any interleaving
      ([ack_concurrent_safe], [acknowledge_refines]); the sharded map as one map
      ([concurrent_map_refines]) and its iterators, which end and deliver every item once
      ([map_iteration_complete]); the goroutines of the conflict check
      ([cas_counts_exact], [cas_run_ends]); signals and the end of the process
      ([main_shutdown]).
    - Data: the row codec's round trip and its panics; rows built and verified; the order
      of key names.
    - Generators: the values of those with a range and when they panic
      ([generators_in_range]); the incremental zeta, operations of positive proportion only.
    - Drivers: for raw and transactional TiKV the effect of every operation on the stored
      keys (update merges, batches are atomic, count and clean are exact and end, no
      transaction stays open); for the SQL drivers the cache of prepared statements and
      the binding of placeholders, for sqlite its transactions; for the embedded stores
      the refinement of an abstract table of rows ([local_tables_refine]) and what their
      scans return, and the same refinement for foundationdb, whose transactions may run
      again, and for mongodb; for redis and etcd what inserts, updates and reads do to the
      JSON rows; for s3 that scans end and are exact over any pages, but for the objects that were not
      delivered; for aerospike,
      dynamodb, elasticsearch, minio and pegasus what is lost between a write and a read.
    - Measurement: every measured call is recorded and reported under its heading; the
      Prometheus export's series, their aggregation, and what it loses; the report tool
      reads back what a run printed.
    - Commands: the effective value of every property, from files, [-p] settings and flags
      ([client_command_properties]), the names under which drivers and workloads are found
      ([registry_complete]), the consent needed by clean once the database is open
      ([clean_needs_consent]), the arguments of the shell.

    Several theorems state behaviour that the code or its comments do not intend; these are
    the findings of the manifest.

    ** Bounds and fuel

    Integers keep their width ([wrap64], [u64], [u32] are written where Go wraps).  Loops
    over data are structural.  Loops that end because a counter grows or a scan runs dry
    take fuel, return [Stuck] without it, and have theorems with an explicit sufficient
    fuel: the worker loop (the operations to do), the batches of count and clean (the keys
    stored), the pages of an s3 scan (one per key), the counter's window (its size).  Rejection loops of [math/rand] are
    structural on the words left; decimal digits use [log2] rounds; the JSON parser takes
    twice the length of its text, which always is enough ([parse_json_total]).  The retries
    of a sqlite transaction have no bound in the code: their theorems hold for any fuel.

    ** Not modelled

    Cobra's splitting of the command line into a command, flags and arguments, and its help
    texts; the printing of settings, of progress and of durations; the pprof server; the
    periodic summaries of a run, which only read the measurement; and the files and network
    configuration behind the opening of a client, which are parameters of the drivers'
    [Create].  The unsafe casts of hack.go keep the bytes; the memory they share is not
    modelled.  Client.v runs the workers one after the other, and Workers.v interleaves
    them for a load without batches: their only shared state is the counters
    (AckCounter.v), the driver and the measurement, whose calls take a lock. *)

From Stdlib Require Export ZArith Lia Strings.String Strings.Ascii Strings.Byte.
From stdpp Require Export base gmap sets list strings list_numbers numbers.
From stdpp Require Import options.

Open Scope Z_scope.

(** ** Machine integers

    Go's [int64] (and [int] on the 64-bit targets the project builds for) is a
    [Z] kept in range by [wrap64]; [uint64] and [uint32] by [u64] and [u32].
    Go's [/] and [%] truncate, so they are [Z.quot] and [Z.rem]. *)

Declare Scope go_scope.
Delimit Scope go_scope with go.
Open Scope go_scope.

Definition two63 : Z := 9223372036854775808.
Definition two64 : Z := 18446744073709551616.
Definition max_int64 : Z := 9223372036854775807.
Definition min_int64 : Z := -9223372036854775808.

Definition wrap64 (z : Z) : Z := (z + two63) mod two64 - two63.
Definition u64 (z : Z) : Z := z mod two64.
Definition u32 (z : Z) : Z := z mod 4294967296.

Definition int64_ok (z : Z) : Prop := min_int64 <= z <= max_int64.

#[global] Instance int64_ok_dec z : Decision (int64_ok z).
Proof. unfold int64_ok. apply _. Defined.

(** Wrapping arithmetic of [int64]. *)
Notation "x +! y" := (wrap64 (x + y)) (at level 50, left associativity) : go_scope.
Notation "x -! y" := (wrap64 (x - y)) (at level 50, left associativity) : go_scope.
Notation "x *! y" := (wrap64 (x * y)) (at level 40, left associativity) : go_scope.

Ltac unfold_width :=
  unfold wrap64, u64, u32, int64_ok, min_int64, max_int64, two63, two64 in *.

(** [width] closes linear goals about the machine-width constants. *)
Ltac width := unfold_width; Z.div_mod_to_equations; lia.

Lemma wrap64_range z : int64_ok (wrap64 z).
Proof. width. Qed.

Lemma wrap64_id z : int64_ok z → wrap64 z = z.
Proof. unfold_width. intros ?. rewrite Z.mod_small; lia. Qed.

Lemma wrap64_idemp z : wrap64 (wrap64 z) = wrap64 z.
Proof. apply wrap64_id, wrap64_range. Qed.

Lemma wrap64_mod z : wrap64 z mod two64 = z mod two64.
Proof.
  unfold wrap64. rewrite <- Zminus_mod_idemp_l, Z.mod_mod by done.
  rewrite Zminus_mod_idemp_l. f_equal. lia.
Qed.

Lemma wrap64_congr x y : x mod two64 = y mod two64 → wrap64 x = wrap64 y.
Proof.
  intros H. unfold wrap64. rewrite <- (Zplus_mod_idemp_l x), H, Zplus_mod_idemp_l. done.
Qed.

Lemma wrap64_add_l x y : wrap64 (wrap64 x + y) = wrap64 (x + y).
Proof.
  apply wrap64_congr. rewrite <- Zplus_mod_idemp_l, wrap64_mod, Zplus_mod_idemp_l. done.
Qed.

Lemma wrap64_sub_l x y : wrap64 (wrap64 x - y) = wrap64 (x - y).
Proof. rewrite <- !Z.add_opp_r. apply wrap64_add_l. Qed.

Lemma u64_range z : 0 <= u64 z < two64.
Proof. apply Z.mod_pos_bound. done. Qed.

Lemma u64_wrap64 z : u64 (wrap64 z) = u64 z.
Proof. apply wrap64_mod. Qed.

Lemma wrap64_u64 z : wrap64 (u64 z) = wrap64 z.
Proof. apply wrap64_congr. unfold u64. by rewrite Z.mod_mod. Qed.

Create HintDb go.
Create Rewrite HintDb go.
#[export] Hint Resolve wrap64_range u64_range : go.
#[export] Hint Rewrite wrap64_idemp wrap64_add_l wrap64_sub_l u64_wrap64 wrap64_u64 : go.

(** ** Sums over lists *)

Fixpoint total_of {A} (f : A → Z) (l : list A) : Z := match l with [] => 0 | x :: l => f x + total_of f l end.

Lemma total_of_insert {A} (f : A → Z) l i x y : l !! i = Some x → total_of f (<[i := y]> l) = total_of f l - f x + f y.
Proof.
  revert i. induction l as [|z l IH]; intros [|i] Hi; [done..| |].
  - injection Hi as ->. cbn. lia.
  - change (<[S i := y]> (z :: l)) with (z :: <[i := y]> l). cbn [total_of]. rewrite (IH i Hi). lia.
Qed.

Lemma total_of_bound {A} (f : A → Z) n l : (∀ x, 0 <= f x <= n) → 0 <= n → 0 <= total_of f l <= n * Z.of_nat (length l).
Proof. intros Hf Hn. induction l as [|x l IH]; cbn -[Z.mul]; [lia|]. specialize (Hf x). lia. Qed.

Lemma total_of_nonneg {A} (f : A → Z) l : (∀ x, x ∈ l → 0 <= f x) → 0 <= total_of f l.
Proof.
  induction l as [|x l IH]; intros Hf; cbn [total_of]; [lia|].
  pose proof (Hf x ltac:(by left)). assert (0 <= total_of f l); [|lia]. apply IH. intros y Hy. apply Hf. by right.
Qed.

(** Bounds and values per index. *)
Lemma total_of_index_le {A} (f : A → Z) (h : Z → Z) l k :
  (∀ i x, l !! i = Some x → f x <= h (k + Z.of_nat i)) → total_of f l <= foldr Z.add 0 (h <$> seqZ k (Z.of_nat (length l))).
Proof.
  revert k. induction l as [|x l IH]; intros k Hf; cbn [total_of length]; [done|].
  rewrite seqZ_cons by lia. rewrite fmap_cons. cbn [foldr]. pose proof (Hf 0%nat x eq_refl) as H0. rewrite Z.add_0_r in H0.
  replace (Z.pred (Z.of_nat (S (length l)))) with (Z.of_nat (length l)) by lia.
  specialize (IH (Z.succ k)). assert (total_of f l <= foldr Z.add 0 (h <$> seqZ (Z.succ k) (Z.of_nat (length l)))); [|lia].
  apply IH. intros i y Hi. specialize (Hf (S i) y Hi). by replace (Z.succ k + Z.of_nat i) with (k + Z.of_nat (S i)) by lia.
Qed.

Lemma total_of_index_eq {A} (f : A → Z) (h : Z → Z) l k :
  (∀ i x, l !! i = Some x → f x = h (k + Z.of_nat i)) → total_of f l = foldr Z.add 0 (h <$> seqZ k (Z.of_nat (length l))).
Proof.
  revert k. induction l as [|x l IH]; intros k Hf; cbn [total_of length]; [done|].
  rewrite seqZ_cons by lia. rewrite fmap_cons. cbn [foldr]. rewrite (Hf 0%nat x eq_refl), Z.add_0_r.
  replace (Z.pred (Z.of_nat (S (length l)))) with (Z.of_nat (length l)) by lia. rewrite (IH (Z.succ k)); [done|].
  intros i y Hi. rewrite (Hf (S i) y Hi). f_equal. lia.
Qed.

(** Lists collected from the elements of a list, one of which changes. *)
Lemma concat_insert {A B C} (f : A → list B) (g : A → list C) L i l l' :
  L !! i = Some l →
  ∃ rest rest', concat (f <$> L) ≡ₚ f l ++ rest ∧ concat (f <$> <[i := l']> L) ≡ₚ f l' ++ rest ∧
    concat (g <$> L) ≡ₚ g l ++ rest' ∧ concat (g <$> <[i := l']> L) ≡ₚ g l' ++ rest'.
Proof.
  revert i. induction L as [|x L IH]; intros [|i] Hi; [done..| |].
  - injection Hi as ->. exists (concat (f <$> L)), (concat (g <$> L)). done.
  - destruct (IH i Hi) as (r & r' & H1 & H2 & H3 & H4). exists (f x ++ r), (g x ++ r').
    change (<[S i := l']> (x :: L)) with (x :: <[i := l']> L). rewrite !fmap_cons. cbn [concat].
    rewrite H1, H2, H3, H4, !app_assoc. by rewrite !(Permutation_app_comm (f x)), !(Permutation_app_comm (g x)).
Qed.

Lemma count_occ_first {A} (d : ∀ x y : A, {x = y} + {x ≠ y}) a l x : count_occ d (a :: l) x = (count_occ d [a] x + count_occ d l x)%nat.
Proof. cbn. by destruct (d a x). Qed.

(** Permutations of sums of lists, by counting. *)
Ltac count_items :=
  rewrite (Permutation_count_occ (decide_rel (=))); let x := fresh "x" in intros x;
  repeat match goal with H : _ ≡ₚ _ |- _ => rewrite (Permutation_count_occ (decide_rel (=))) in H; specialize (H x) end;
  rewrite ?count_occ_app, ?count_occ_nil in *;
  repeat (match goal with
    | |- context [count_occ ?d (?a :: ?l) ?x] => lazymatch l with [] => fail | _ => rewrite (count_occ_first d a l x) end
    | H : context [count_occ ?d (?a :: ?l) ?x] |- _ => lazymatch l with [] => fail | _ => rewrite (count_occ_first d a l x) in H end
    end; rewrite ?count_occ_app, ?count_occ_nil in *);
  lia.

(** ** Bytes and Go strings

    A Go string is an immutable byte sequence, modelled by [string] (8-bit
    characters); a [[]byte] is a [list byte], and a slice that may be [nil] an
    [option (list byte)].  The conversions are the identity on the bytes, which is
    also what [util.String] and [util.Slice] compute. *)

Abbreviation bytes := (list byte).

Definition byte_to_Z (b : byte) : Z := Z.of_N (Byte.to_N b).

Definition byte_of_Z (z : Z) : byte :=
  match Byte.of_N (Z.to_N (z mod 256)) with
  | Some b => b
  | None => x00
  end.

Definition bytes_of_string (s : string) : bytes := String.list_byte_of_string s.
Definition string_of_bytes (b : bytes) : string := String.string_of_list_byte b.

#[global] Instance byte_eq_dec : EqDecision byte := Byte.byte_eq_dec.

Lemma byte_to_Z_range b : 0 <= byte_to_Z b < 256.
Proof. unfold byte_to_Z. pose proof (Byte.to_N_bounded b). lia. Qed.

Lemma byte_to_of_Z z : byte_to_Z (byte_of_Z z) = z mod 256.
Proof.
  unfold byte_to_Z, byte_of_Z.
  pose proof (Z.mod_pos_bound z 256 eq_refl).
  destruct (Byte.of_N _) as [b|] eqn:E.
  - apply Byte.to_of_N in E. rewrite E. lia.
  - apply Byte.of_N_None_iff in E. lia.
Qed.

Lemma byte_of_to_Z b : byte_of_Z (byte_to_Z b) = b.
Proof.
  unfold byte_of_Z. rewrite Z.mod_small by apply byte_to_Z_range.
  unfold byte_to_Z. by rewrite N2Z.id, Byte.of_to_N.
Qed.

#[global] Instance byte_to_Z_inj : Inj (=) (=) byte_to_Z.
Proof. intros a b H. rewrite <- (byte_of_to_Z a), <- (byte_of_to_Z b). by f_equal. Qed.

Lemma bytes_of_string_of_bytes b : bytes_of_string (string_of_bytes b) = b.
Proof. apply String.list_byte_of_string_of_list_byte. Qed.

Lemma string_of_bytes_of_string s : string_of_bytes (bytes_of_string s) = s.
Proof. apply String.string_of_list_byte_of_string. Qed.

#[global] Instance bytes_of_string_inj : Inj (=) (=) bytes_of_string.
Proof.
  intros a b H. rewrite <- (string_of_bytes_of_string a), <- (string_of_bytes_of_string b).
  by f_equal.
Qed.

Lemma bytes_of_string_app s t :
  bytes_of_string (s +:+ t) = bytes_of_string s ++ bytes_of_string t.
Proof.
  unfold bytes_of_string, String.list_byte_of_string.
  rewrite <- map_app. f_equal. induction s as [|c s IH]; [done|].
  by change (c :: String.list_ascii_of_string (s +:+ t) =
             c :: (String.list_ascii_of_string s ++ String.list_ascii_of_string t)); rewrite IH.
Qed.

(** ** Outcomes

    A call either returns, panics (with Go's message), exits the process
    ([util.Fatalf], [os.Exit]) or is [Stuck] because the scripted environment (the
    outputs of the random source) has no further item.  [M S] is the state monad
    over these outcomes. *)

Inductive res (A : Type) : Type :=
| Ok (a : A)
| Panic (msg : string)
| Exit (msg : string)
| Stuck.
Arguments Ok {A} a.
Arguments Panic {A} msg.
Arguments Exit {A} msg.
Arguments Stuck {A}.

#[global] Instance res_bind : MBind res := λ A B f m,
  match m with
  | Ok a => f a
  | Panic msg => Panic msg
  | Exit msg => Exit msg
  | Stuck => Stuck
  end.
#[global] Instance res_ret : MRet res := λ A a, Ok a.

Definition M (S A : Type) : Type := S → res (A * S).

#[global] Instance M_ret S : MRet (M S) := λ A a s, Ok (a, s).
#[global] Instance M_bind S : MBind (M S) := λ A B f m s,
  match m s with
  | Ok (a, s') => f a s'
  | Panic msg => Panic msg
  | Exit msg => Exit msg
  | Stuck => Stuck
  end.

Definition panic {S A} (msg : string) : M S A := λ _, Panic msg.
Definition exit {S A} (msg : string) : M S A := λ _, Exit msg.
Definition stuck {S A} : M S A := λ _, Stuck.
Definition get {S} : M S S := λ s, Ok (s, s).
Definition put {S} (s : S) : M S unit := λ _, Ok (tt, s).
Definition modify {S} (f : S → S) : M S unit := λ s, Ok (tt, f s).
Definition lift {S A} (r : res A) : M S A := λ s,
  match r with
  | Ok a => Ok (a, s)
  | Panic msg => Panic msg
  | Exit msg => Exit msg
  | Stuck => Stuck
  end.

(** Running a computation on a component of the state. *)
Definition zoom {S T A} (proj : S → T) (upd : T → S → S) (m : M T A) : M S A := λ s,
  match m (proj s) with
  | Ok (a, t) => Ok (a, upd t s)
  | Panic msg => Panic msg
  | Exit msg => Exit msg
  | Stuck => Stuck
  end.

Lemma res_bind_Ok {A B} (m : res A) (f : A → res B) b :
  (m ≫= f) = Ok b ↔ ∃ a, m = Ok a ∧ f a = Ok b.
Proof.
  unfold mbind, res_bind. destruct m; (split; [intros E|intros (a' & E & Ef)]); try done; [by eexists|].
  by simplify_eq.
Qed.

Lemma bind_Ok {S A B} (m : M S A) (f : A → M S B) s b s' :
  (m ≫= f) s = Ok (b, s') ↔ ∃ a s1, m s = Ok (a, s1) ∧ f a s1 = Ok (b, s').
Proof.
  unfold mbind, M_bind. destruct (m s) as [[a s1]|?|?|]; split; try done.
  - eauto.
  - intros (?&?&?&?); simplify_eq; done.
  - by intros (?&?&?&?).
  - by intros (?&?&?&?).
  - by intros (?&?&?&?).
Qed.

Lemma bind_Ok_1 {S A B} (m : M S A) (f : A → M S B) s a s1 :
  m s = Ok (a, s1) → (m ≫= f) s = f a s1.
Proof. unfold mbind, M_bind. by intros ->. Qed.

Lemma bind_ret {S A B} (a : A) (f : A → M S B) s : (mret a ≫= f) s = f a s.
Proof. done. Qed.

Lemma zoom_Ok {S T A} (proj : S → T) upd (m : M T A) s a s' :
  zoom proj upd m s = Ok (a, s') ↔ ∃ t, m (proj s) = Ok (a, t) ∧ s' = upd t s.
Proof.
  unfold zoom. destruct (m (proj s)) as [[a' t]|?|?|]; split; try done.
  - intros [= <- <-]; eauto.
  - intros (?&?&->); simplify_eq; done.
  - by intros (?&?&?).
  - by intros (?&?&?).
  - by intros (?&?&?).
Qed.

(** [run_inv] decomposes the successful run of a monadic computation in the
    context into the runs of its parts. *)
Ltac run_inv :=
  repeat match goal with
  | H : (_ ≫= _) _ = Ok (_, _) |- _ =>
      apply bind_Ok in H; destruct H as (? & ? & ? & H)
  | H : zoom _ _ _ _ = Ok (_, _) |- _ =>
      apply zoom_Ok in H; destruct H as (? & H & ?)
  | H : mret _ _ = Ok (_, _) |- _ =>
      unfold mret, M_ret in H
  | H : panic _ _ = Ok _ |- _ => discriminate H
  | H : exit _ _ = Ok _ |- _ => discriminate H
  | H : stuck _ = Ok _ |- _ => discriminate H
  | H : Ok _ = Ok _ |- _ => injection H as; subst
  | H : context [let '(_, _) := ?p in _] |- _ => destruct p eqn:?
  | _ => progress simplify_eq/=
  end.
