(* ===== verification/GoFloat.v ===== *)
(** * Go's [float64]

    IEEE-754 binary64 arithmetic as Go uses it, on the standard library's executable
    specification floats ([spec_float] at precision 53, exponent bound 1024).
    [math.Pow] and [math.Log] are transcendental routines whose last bits depend on
    the platform (some are assembly); they are the operations of the class
    [MathLib], an argument of every definition that calls them. *)

From Corelib Require Export Floats.SpecFloat.
From S2P Require Import Prelude.

Abbreviation float64 := spec_float.

Definition f64_add : float64 → float64 → float64 := SFadd 53 1024.
Definition f64_sub : float64 → float64 → float64 := SFsub 53 1024.
Definition f64_mul : float64 → float64 → float64 := SFmul 53 1024.
Definition f64_div : float64 → float64 → float64 := SFdiv 53 1024.
Definition f64_opp : float64 → float64 := SFopp.
Definition f64_ltb : float64 → float64 → bool := SFltb.
Definition f64_leb : float64 → float64 → bool := SFleb.
Definition f64_eqb : float64 → float64 → bool := SFeqb.

(** The conversion [float64(z)] of an integer: round to nearest, ties to even. *)
Definition f64_of_Z (z : Z) : float64 := binary_normalize 53 1024 z 0 false.

(** A decimal literal [n / 10^k]; correctly rounded because [n] and [10^k] are
    exactly representable for every literal used ([n < 2^53], [k <= 22]). *)
Definition f64_lit (n : Z) (k : Z) : float64 := f64_div (f64_of_Z n) (f64_of_Z (10 ^ k)).

(** Truncation toward zero; the value Go leaves implementation-defined (NaN, or a
    result that does not fit) is amd64's [math.MinInt64]. *)
Definition f64_trunc (f : float64) : option Z :=
  match f with
  | S754_zero _ => Some 0
  | S754_infinity _ | S754_nan => None
  | S754_finite s m e =>
      let v := if 0 <=? e then Zpos m * 2 ^ e else Zpos m / 2 ^ (- e) in
      Some (if s then - v else v)
  end.

Definition f64_to_int64 (f : float64) : Z :=
  match f64_trunc f with
  | Some z => if bool_decide (int64_ok z) then z else min_int64
  | None => min_int64
  end.

#[global] Arguments f64_add : simpl never.
#[global] Arguments f64_sub : simpl never.
#[global] Arguments f64_mul : simpl never.
#[global] Arguments f64_div : simpl never.
#[global] Arguments f64_ltb : simpl never.
#[global] Arguments f64_leb : simpl never.
#[global] Arguments f64_eqb : simpl never.
#[global] Arguments f64_of_Z : simpl never.
#[global] Arguments f64_lit : simpl never.
#[global] Arguments f64_to_int64 : simpl never.

(** [math.Pow] and [math.Log]. *)
Class MathLib := {
  Pow : float64 → float64 → float64;
  Log : float64 → float64
}.

Definition f64_zero : float64 := S754_zero false.
Definition f64_one : float64 := f64_of_Z 1.

Example f64_lit_099 : f64_lit 99 2 = S754_finite false 8917127262193582 (-53).
Proof. reflexivity. Qed.

Example f64_trunc_ex :
  f64_to_int64 (f64_mul (f64_of_Z 1000) (f64_lit 2 1)) = 200
  ∧ f64_to_int64 (f64_opp (f64_lit 25 1)) = -2
  ∧ f64_to_int64 S754_nan = min_int64.
Proof. vm_compute. done. Qed.

(** ** Positive floats are ordered *)

Definition f64_pos (f : float64) : Prop := f64_ltb f64_zero f = true.

Lemma f64_pos_cases f : f64_pos f → f = S754_infinity false ∨ ∃ m e, f = S754_finite false m e.
Proof. unfold f64_pos. destruct f as [[]|[]| |[] m e]; try discriminate; eauto. Qed.

Ltac pos_float H := apply f64_pos_cases in H as [->|(? & ? & ->)].

(** Mantissas and exponents of positive floats, compared as [SFcompare] does. *)
Lemma f64_leb_finite m1 e1 m2 e2 :
  f64_leb (S754_finite false m1 e1) (S754_finite false m2 e2) = true ↔ e1 < e2 ∨ (e1 = e2 ∧ (m1 <= m2)%positive).
Proof.
  unfold f64_leb, SFleb. cbn [SFcompare]. change (PosDef.Pos.compare_cont Eq m1 m2) with (m1 ?= m2)%positive.
  destruct (Z.compare_spec e1 e2), (Pos.compare_spec m1 m2); subst; split; intros; try done;
    try (by left); try (right; split; [done|]; lia); lia.
Qed.

Lemma f64_ltb_leb a b : f64_pos a → f64_pos b → f64_ltb a b = negb (f64_leb b a).
Proof.
  intros Ha Hb. pos_float Ha; pos_float Hb; try reflexivity.
  unfold f64_ltb, f64_leb, SFltb, SFleb. cbn [SFcompare].
  change (PosDef.Pos.compare_cont Eq ?a ?b) with (a ?= b)%positive.
  destruct (Z.compare_spec x0 x2), (Z.compare_spec x2 x0); subst; try lia; try reflexivity.
  rewrite (Pos.compare_antisym x1 x). by destruct (x1 ?= x)%positive.
Qed.

Lemma f64_leb_refl a : f64_pos a → f64_leb a a = true.
Proof. intros Ha. pos_float Ha; [done|]. apply f64_leb_finite. right. split; [done|lia]. Qed.

Lemma f64_leb_trans a b c : f64_pos a → f64_pos b → f64_pos c →
  f64_leb a b = true → f64_leb b c = true → f64_leb a c = true.
Proof.
  intros Ha Hb Hc. pos_float Ha; pos_float Hb; pos_float Hc; try done.
  rewrite !f64_leb_finite. intros [?|[-> ?]] [?|[-> ?]]; [left; lia..|right; split; [done|lia]].
Qed.

Lemma f64_leb_total a b : f64_pos a → f64_pos b → f64_leb a b = false → f64_leb b a = true.
Proof.
  intros Ha Hb E. pose proof (f64_ltb_leb b a Hb Ha) as Hl. rewrite E in Hl.
  pos_float Ha; pos_float Hb; try done. unfold f64_ltb, SFltb, f64_leb, SFleb in *.
  by destruct (SFcompare (S754_finite false x1 x2) _) as [[]|].
Qed.
