(* ===== verification/GoRand.v ===== *)
(** * Go's [math/rand]

    A [*rand.Rand] is seeded from the clock, so what it will produce is an input of
    every run: a [rand] is the list of the 64-bit words its source has still to
    deliver.  On top of the source the methods are translated from the Go library:
    [Int63], [Int31], [Int63n], [Int31n], [Intn] and [Float64], with their rejection
    loops (structural on the words consumed) and their panics. *)

From S2P Require Import Prelude GoFloat.

Abbreviation rand := (list Z).

(** [rngSource.Int63]: the source's word with the top bit cleared. *)
Definition Int63 : M rand Z := λ r,
  match r with
  | [] => Stuck
  | w :: r' => Ok (Z.land w max_int64, r')
  end.

Definition Int31 : M rand Z := v ← Int63; mret (Z.shiftr v 32).

(** [for v > max { v = draw() }; return v % n] on the words left in the source. *)
Fixpoint reject_loop (shift max n : Z) (r : rand) : res (Z * rand) :=
  match r with
  | [] => Stuck
  | w :: r' =>
      let v := Z.shiftr (Z.land w max_int64) shift in
      if max <? v then reject_loop shift max n r' else Ok (Z.rem v n, r')
  end.

Definition Int63n (n : Z) : M rand Z :=
  if n <=? 0 then panic "invalid argument to Int63n"
  else if Z.land n (n - 1) =? 0 then v ← Int63; mret (Z.land v (n - 1))
  else reject_loop 0 (two63 - 1 - two63 mod n) n.

Definition Int31n (n : Z) : M rand Z :=
  if n <=? 0 then panic "invalid argument to Int31n"
  else if Z.land n (n - 1) =? 0 then v ← Int31; mret (Z.land v (n - 1))
  else reject_loop 32 (2147483648 - 1 - 2147483648 mod n) n.

Definition Intn (n : Z) : M rand Z :=
  if n <=? 0 then panic "invalid argument to Intn"
  else if n <=? 2147483647 then Int31n n
  else Int63n n.

(** [f := float64(r.Int63()) / (1 << 63)], resampled while it is 1. *)
Fixpoint float64_loop (r : rand) : res (float64 * rand) :=
  match r with
  | [] => Stuck
  | w :: r' =>
      let f := f64_div (f64_of_Z (Z.land w max_int64)) (f64_of_Z two63) in
      if f64_eqb f f64_one then float64_loop r' else Ok (f, r')
  end.

Definition Float64 : M rand float64 := float64_loop.

(** ** Ranges *)

Lemma land_le_r v n : 0 <= n → 0 <= Z.land v n <= n.
Proof.
  intros Hn. split; [apply Z.land_nonneg; auto|].
  destruct (decide (n = 0)) as [->|]; [by rewrite Z.land_0_r|].
  apply Z.ldiff_le; [done|].
  apply Z.bits_inj'; intros i Hi. rewrite Z.ldiff_spec, Z.land_spec, Z.bits_0.
  by destruct (Z.testbit v i), (Z.testbit n i).
Qed.

Lemma reject_loop_range shift max n r v r' :
  0 < n → reject_loop shift max n r = Ok (v, r') → 0 <= v < n.
Proof.
  intros Hn. induction r as [|w r IH]; cbn [reject_loop]; [done|].
  case_match; [done|]. intros [= <- <-].
  apply Z.rem_bound_pos; [|done].
  apply Z.shiftr_nonneg, Z.land_nonneg. right. done.
Qed.

Lemma Int63n_range n r v r' : Int63n n r = Ok (v, r') → 0 <= v < n.
Proof.
  unfold Int63n. case_match eqn:Hn; [done|]. apply Z.leb_gt in Hn.
  case_match.
  - intros Hr. run_inv. pose proof (land_le_r x (n - 1)). lia.
  - by apply reject_loop_range.
Qed.

Lemma Int31n_range n r v r' : Int31n n r = Ok (v, r') → 0 <= v < n.
Proof.
  unfold Int31n. case_match eqn:Hn; [done|]. apply Z.leb_gt in Hn.
  case_match.
  - intros Hr. run_inv. pose proof (land_le_r x (n - 1)). lia.
  - by apply reject_loop_range.
Qed.

Lemma Intn_range n r v r' : Intn n r = Ok (v, r') → 0 <= v < n.
Proof.
  unfold Intn. case_match; [done|]. case_match; [apply Int31n_range|apply Int63n_range].
Qed.

(** A draw fails to return only by panicking on a non-positive bound or because
    the source is exhausted; it never exits the process. *)
Lemma reject_loop_outcome shift max n r :
  (∃ v r', reject_loop shift max n r = Ok (v, r')) ∨ reject_loop shift max n r = Stuck.
Proof. induction r; cbn [reject_loop]; [eauto|]. case_match; eauto. Qed.

Lemma Int63n_outcome n r :
  0 < n → (∃ v r', Int63n n r = Ok (v, r')) ∨ Int63n n r = Stuck.
Proof.
  intros Hn. unfold Int63n. rewrite (proj2 (Z.leb_gt n 0)) by done. case_match.
  - unfold mbind, M_bind, Int63. destruct r; [by right|left; eauto].
  - apply reject_loop_outcome.
Qed.

(** With a power-of-two bound one word is enough, and always enough. *)
Lemma Int63n_pow2 n w r :
  0 < n → Z.land n (n - 1) = 0 →
  Int63n n (w :: r) = Ok (Z.land (Z.land w max_int64) (n - 1), r).
Proof.
  intros Hn Hp. unfold Int63n. rewrite (proj2 (Z.leb_gt n 0)) by done. by rewrite Hp.
Qed.

#[export] Hint Resolve Int63n_range Int31n_range Intn_range : go.
