(* ===== verification/GoStr.v ===== *)
(** * Go's [strconv], [fmt] and [strings], as far as the code uses them

    Decimal formatting ([strconv.FormatInt], [FormatUint], [fmt]'s [%d] and
    zero-padded [%0*d]), [strconv.ParseInt], and the byte-wise operations of package
    [strings].  [ToLower] and [ToUpper] are the ASCII ones: the strings they are
    applied to are property values, field names and operation names. *)

From S2P Require Import Prelude.


(** ** Decimal formatting *)

Definition digit_char (d : Z) : ascii := ascii_of_N (Z.to_N (48 + d)).

(** Decimal digits, most significant first; a number below [2^k] has at most
    [k] of them, so [log2 n + 1] rounds are enough. *)
Fixpoint digits_go (fuel : nat) (n : Z) : list Z :=
  match fuel with
  | O => []
  | S f => (if n <? 10 then [] else digits_go f (n / 10)) ++ [n mod 10]
  end.

Definition digits (n : Z) : list Z := digits_go (S (Z.to_nat (Z.log2 n))) n.

Definition digits_str (l : list Z) : string := foldr (λ d s, String (digit_char d) s) "" l.

(** [strconv.FormatUint(n, 10)], for [0 <= n]. *)
Definition FormatUint (n : Z) : string := digits_str (digits n).

(** [strconv.FormatInt(n, 10)], [strconv.Itoa] and [fmt]'s [%d]. *)
Definition FormatInt (n : Z) : string :=
  if n <? 0 then "-" +:+ FormatUint (- n) else FormatUint n.

(** Zero padding of a digit list to at least [w] digits. *)
Definition pad (w : nat) (l : list Z) : list Z := replicate (w - length l) 0 ++ l.

(** Right padding with blanks to at least [w] characters. *)
Definition pad_right (w : nat) (s : string) : string :=
  s +:+ String.concat "" (replicate (w - String.length s) " ").

(** [fmt.Sprintf("%0*d", width, n)]: a width out of [fmt]'s range (more than 10^6 in
    absolute value) prints [%!(BADWIDTH)] and is ignored; a negative width means
    left-justified without zeros; otherwise zeros fill the field after the sign,
    which takes one column. *)
Definition fmt_0wd (width n : Z) : string :=
  if 1000000 <? Z.abs width then "%!(BADWIDTH)" +:+ FormatInt n
  else if width <? 0 then pad_right (Z.to_nat (- width)) (FormatInt n)
  else if n <? 0 then "-" +:+ digits_str (pad (Z.to_nat (width - 1)) (digits (- n)))
  else digits_str (pad (Z.to_nat width) (digits n)).

(** ** Parsing *)

Definition is_digit (c : ascii) : bool :=
  (48 <=? Z.of_N (N_of_ascii c)) && (Z.of_N (N_of_ascii c) <=? 57).

Definition char_digit (c : ascii) : Z := Z.of_N (N_of_ascii c) - 48.

Fixpoint parse_digits (acc : Z) (s : string) : option Z :=
  match s with
  | EmptyString => Some acc
  | String c s' => if is_digit c then parse_digits (10 * acc + char_digit c) s' else None
  end.

Inductive num_error := ErrSyntax | ErrRange.

(** [strconv.ParseInt(s, 10, 64)]: the value Go returns and the error, both, since
    callers may ignore the error (a syntax error comes with 0, a range error with
    the nearest [int64]). *)
Definition ParseInt (s : string) : Z * option num_error :=
  let '(neg, body) :=
    match s with
    | String "-" t => (true, t)
    | String "+" t => (false, t)
    | _ => (false, s)
    end in
  if String.eqb body "" then (0, Some ErrSyntax)
  else match parse_digits 0 body with
  | None => (0, Some ErrSyntax)
  | Some v =>
      let z := if neg then - v else v in
      if bool_decide (int64_ok z) then (z, None)
      else (if neg then min_int64 else max_int64, Some ErrRange)
  end.

(** ** Package [strings] *)

Fixpoint string_map (f : ascii → ascii) (s : string) : string :=
  match s with
  | EmptyString => EmptyString
  | String c s' => String (f c) (string_map f s')
  end.

Definition lower_char (c : ascii) : ascii :=
  let n := N_of_ascii c in
  if ((65 <=? n) && (n <=? 90))%N then ascii_of_N (n + 32) else c.

Definition upper_char (c : ascii) : ascii :=
  let n := N_of_ascii c in
  if ((97 <=? n) && (n <=? 122))%N then ascii_of_N (n - 32) else c.

Definition ToLower : string → string := string_map lower_char.
Definition ToUpper : string → string := string_map upper_char.

(** [strings.HasPrefix] *)
Definition HasPrefix (s p : string) : bool := String.prefix p s.

Fixpoint drop_str (n : nat) (s : string) : string :=
  match n, s with
  | O, _ => s
  | S n', EmptyString => EmptyString
  | S n', String _ s' => drop_str n' s'
  end.

Fixpoint take_str (n : nat) (s : string) : string :=
  match n, s with
  | O, _ => EmptyString
  | S n', EmptyString => EmptyString
  | S n', String c s' => String c (take_str n' s')
  end.

(** [strings.HasSuffix], [strings.TrimSuffix] *)
Definition HasSuffix (s suf : string) : bool :=
  Nat.leb (String.length suf) (String.length s)
  && String.eqb (drop_str (String.length s - String.length suf) s) suf.

Definition TrimSuffix (s suf : string) : string :=
  if HasSuffix s suf then take_str (String.length s - String.length suf) s else s.

(** [strings.Contains] *)
Fixpoint Contains (s sub : string) : bool :=
  String.prefix sub s ||
  match s with
  | EmptyString => false
  | String _ s' => Contains s' sub
  end.

(** [strings.Split] on a one-byte separator. *)
Fixpoint Split (s : string) (sep : ascii) : list string :=
  match s with
  | EmptyString => [""]
  | String c s' =>
      if Ascii.eqb c sep then "" :: Split s' sep
      else match Split s' sep with
           | [] => [String c ""]
           | w :: ws => String c w :: ws
           end
  end.

(** [strings.SplitN(s, sep, 2)] on a one-byte separator. *)
Fixpoint SplitN2 (s : string) (sep : ascii) : list string :=
  match s with
  | EmptyString => [""]
  | String c s' =>
      if Ascii.eqb c sep then [""; s']
      else match SplitN2 s' sep with
           | [] => [String c ""]
           | w :: ws => String c w :: ws
           end
  end.

(** [strings.ReplaceAll] of a one-byte pattern by one byte. *)
Definition ReplaceAll (s : string) (old new : ascii) : string :=
  string_map (λ c, if Ascii.eqb c old then new else c) s.

(** [strings.Join] *)
Definition Join (l : list string) (sep : string) : string := String.concat sep l.

(** [strings.TrimSpace] (ASCII white space). *)
Definition is_space (c : ascii) : bool :=
  let n := N_of_ascii c in ((n =? 32) || ((9 <=? n) && (n <=? 13)))%N.

Fixpoint trim_left (s : string) : string :=
  match s with
  | EmptyString => EmptyString
  | String c s' => if is_space c then trim_left s' else s
  end.

Definition str_rev (s : string) : string :=
  string_of_list_ascii (reverse (list_ascii_of_string s)).

Definition TrimSpace (s : string) : string := str_rev (trim_left (str_rev (trim_left s))).

(** ** Facts *)

Definition digits_val (l : list Z) : Z := foldl (λ a d, 10 * a + d) 0 l.

Lemma foldl_digits_acc l a :
  foldl (λ a d, 10 * a + d) a l = a * 10 ^ Z.of_nat (length l) + digits_val l.
Proof.
  unfold digits_val. revert a. induction l as [|d l IH]; intros a.
  - cbn [foldl length]. change (Z.of_nat 0) with 0. lia.
  - cbn [foldl length]. rewrite IH, (IH (10 * 0 + d)), Nat2Z.inj_succ, Z.pow_succ_r by lia.
    lia.
Qed.

Lemma digits_val_app l1 l2 :
  digits_val (l1 ++ l2) = digits_val l1 * 10 ^ Z.of_nat (length l2) + digits_val l2.
Proof. unfold digits_val at 1. by rewrite foldl_app, foldl_digits_acc. Qed.

Lemma digits_val_cons d l :
  digits_val (d :: l) = d * 10 ^ Z.of_nat (length l) + digits_val l.
Proof. unfold digits_val at 1. cbn [foldl]. rewrite foldl_digits_acc. lia. Qed.

Lemma digits_go_val fuel n :
  0 <= n < 2 ^ Z.of_nat fuel → digits_val (digits_go fuel n) = n.
Proof.
  revert n. induction fuel as [|f IH]; intros n Hn; cbn [digits_go].
  - change (2 ^ Z.of_nat 0) with 1 in Hn. unfold digits_val. cbn. lia.
  - rewrite digits_val_app. cbn [length]. change (10 ^ Z.of_nat 1) with 10.
    rewrite Nat2Z.inj_succ, Z.pow_succ_r in Hn by lia.
    assert (digits_val [n mod 10] = n mod 10) as -> by (unfold digits_val; cbn; lia).
    destruct (Z.ltb_spec n 10).
    + unfold digits_val. cbn [foldl]. rewrite Z.mod_small; lia.
    + rewrite IH; Z.div_mod_to_equations; lia.
Qed.

Lemma digits_fuel n : 0 <= n → 0 <= n < 2 ^ Z.of_nat (S (Z.to_nat (Z.log2 n))).
Proof.
  intros Hn. split; [done|]. destruct (decide (n = 0)) as [->|]; [done|].
  rewrite Nat2Z.inj_succ, Z2Nat.id by apply Z.log2_nonneg.
  apply Z.log2_spec. lia.
Qed.

Lemma digits_value n : 0 <= n → digits_val (digits n) = n.
Proof. intros. apply digits_go_val, digits_fuel. done. Qed.

Lemma digits_go_Forall fuel n : Forall (λ d, 0 <= d < 10) (digits_go fuel n).
Proof.
  revert n. induction fuel as [|f IH]; intros n; cbn [digits_go]; [constructor|].
  apply Forall_app. split; [case_match; [constructor|apply IH]|].
  repeat constructor; apply Z.mod_pos_bound; lia.
Qed.

Lemma digits_Forall n : Forall (λ d, 0 <= d < 10) (digits n).
Proof. apply digits_go_Forall. Qed.

Lemma digits_go_length fuel n w :
  0 <= n < 10 ^ Z.of_nat w → (1 ≤ w)%nat → (length (digits_go fuel n) ≤ w)%nat.
Proof.
  revert n w. induction fuel as [|f IH]; intros n w Hn Hw; cbn [digits_go length]; [lia|].
  rewrite length_app. cbn [length]. destruct (Z.ltb_spec n 10); cbn [length]; [lia|].
  destruct w as [|[|w]]; [lia| |].
  - change (10 ^ Z.of_nat 1) with 10 in Hn. lia.
  - rewrite Nat2Z.inj_succ, Z.pow_succ_r in Hn by lia.
    enough (length (digits_go f (n / 10)) ≤ S w)%nat by lia.
    apply IH; [|lia]. Z.div_mod_to_equations; lia.
Qed.

Lemma digits_length n w :
  0 <= n < 10 ^ Z.of_nat w → (1 ≤ w)%nat → (length (digits n) ≤ w)%nat.
Proof. apply digits_go_length. Qed.

Lemma digits_not_nil n : digits n ≠ [].
Proof. unfold digits. cbn [digits_go]. intros [_ ?]%app_nil. done. Qed.

Lemma pad_val w l : digits_val (pad w l) = digits_val l.
Proof.
  unfold pad. induction (w - length l)%nat as [|k IH]; [done|].
  cbn [replicate app].
  rewrite digits_val_cons. lia.
Qed.

Lemma pad_length w l : length (pad w l) = Nat.max w (length l).
Proof. unfold pad. rewrite length_app, length_replicate. lia. Qed.

Lemma pad_Forall w l : Forall (λ d, 0 <= d < 10) l → Forall (λ d, 0 <= d < 10) (pad w l).
Proof. intros. apply Forall_app. split; [|done]. apply Forall_replicate. lia. Qed.

Lemma digit_char_N d : 0 <= d < 10 → N_of_ascii (digit_char d) = Z.to_N (48 + d).
Proof. intros. unfold digit_char. apply N_ascii_embedding. lia. Qed.

Lemma digit_char_inj d e : 0 <= d < 10 → 0 <= e < 10 → digit_char d = digit_char e → d = e.
Proof. intros ?? H%(f_equal N_of_ascii). rewrite !digit_char_N in H by done. lia. Qed.

Lemma digits_str_inj l1 l2 :
  Forall (λ d, 0 <= d < 10) l1 → Forall (λ d, 0 <= d < 10) l2 →
  digits_str l1 = digits_str l2 → l1 = l2.
Proof.
  intros H1. revert l2. induction H1 as [|d l Hd _ IH]; intros [|e l2] H2; try done.
  inversion_clear H2 as [|?? He H2']. cbn. intros [= Heq Hr].
  f_equal; [|auto]. eapply digit_char_inj; eauto.
Qed.

Lemma FormatUint_inj n m : 0 <= n → 0 <= m → FormatUint n = FormatUint m → n = m.
Proof.
  intros Hn Hm H. apply digits_str_inj in H; [|apply digits_Forall..].
  by rewrite <- (digits_value n), <- (digits_value m), H by done.
Qed.

Lemma padded_inj w n m :
  0 <= n → 0 <= m → digits_str (pad w (digits n)) = digits_str (pad w (digits m)) → n = m.
Proof.
  intros Hn Hm H. apply digits_str_inj in H; [|apply pad_Forall, digits_Forall..].
  apply (f_equal digits_val) in H. rewrite !pad_val, !digits_value in H; done.
Qed.

Lemma digits_val_bounds l :
  Forall (λ d, 0 <= d < 10) l → 0 <= digits_val l < 10 ^ Z.of_nat (length l).
Proof.
  induction 1 as [|d l Hd _ IH]; [done|].
  rewrite digits_val_cons. cbn [length]. rewrite Nat2Z.inj_succ, Z.pow_succ_r by lia. nia.
Qed.

Lemma digit_char_compare d e :
  0 <= d < 10 → 0 <= e < 10 → Ascii.compare (digit_char d) (digit_char e) = (d ?= e).
Proof.
  intros. unfold Ascii.compare. rewrite !digit_char_N by done.
  rewrite Z2N.inj_compare by lia.
  destruct (Z.compare_spec d e); [apply Z.compare_eq_iff|apply Z.compare_lt_iff|apply Z.compare_gt_iff]; lia.
Qed.

(** Digit strings of one length compare as the numbers they denote. *)
Lemma digits_str_compare l1 l2 :
  Forall (λ d, 0 <= d < 10) l1 → Forall (λ d, 0 <= d < 10) l2 → length l1 = length l2 →
  String.compare (digits_str l1) (digits_str l2) = (digits_val l1 ?= digits_val l2).
Proof.
  intros H1. revert l2. induction H1 as [|d l Hd Hl IH]; intros [|e l2] H2 Hlen; try done.
  inversion_clear H2 as [|?? He H2']. cbn [length] in Hlen. injection Hlen as Hlen.
  cbn [digits_str foldr String.compare]. rewrite digit_char_compare by done.
  rewrite !digits_val_cons, <- Hlen.
  pose proof (digits_val_bounds l Hl) as B1.
  pose proof (digits_val_bounds l2 H2') as B2. rewrite <- Hlen in B2.
  destruct (Z.compare_spec d e) as [->| |].
  - change (foldr _ "" l) with (digits_str l). change (foldr _ "" l2) with (digits_str l2).
    rewrite IH by done.
    destruct (Z.compare_spec (digits_val l) (digits_val l2)); symmetry;
      [apply Z.compare_eq_iff|apply Z.compare_lt_iff|apply Z.compare_gt_iff]; lia.
  - symmetry. apply Z.compare_lt_iff. nia.
  - symmetry. apply Z.compare_gt_iff. nia.
Qed.

(** Padded to a width that holds both, names compare as numbers. *)
Lemma padded_compare w n m :
  (1 ≤ w)%nat → 0 <= n < 10 ^ Z.of_nat w → 0 <= m < 10 ^ Z.of_nat w →
  String.compare (digits_str (pad w (digits n))) (digits_str (pad w (digits m))) = (n ?= m).
Proof.
  intros Hw Hn Hm. pose proof (digits_length n w Hn Hw). pose proof (digits_length m w Hm Hw).
  rewrite digits_str_compare.
  - by rewrite !pad_val, !digits_value by lia.
  - apply pad_Forall, digits_Forall.
  - apply pad_Forall, digits_Forall.
  - rewrite !pad_length. lia.
Qed.

Lemma string_app_inj_l p s t : p +:+ s = p +:+ t → s = t.
Proof. apply (inj (String.append p)). Qed.

Lemma string_app_nil_r s : s +:+ "" = s.
Proof.
  induction s as [|c s IH]; [done|]. change (String c s +:+ "") with (String c (s +:+ "")). by rewrite IH.
Qed.

Lemma concat_cons s l : String.concat "" (s :: l) = s +:+ String.concat "" l.
Proof.
  destruct l; [|done]. symmetry. apply string_app_nil_r.
Qed.

Lemma drop_str_length n s : String.length (drop_str n s) = (String.length s - n)%nat.
Proof.
  revert s. induction n as [|n IH]; intros s; [by destruct s|]. destruct s as [|c s]; [done|]. apply IH.
Qed.

Lemma str_length_app s t : String.length (s +:+ t) = (String.length s + String.length t)%nat.
Proof. induction s as [|c s IH]; [done|]. change (String c s +:+ t) with (String c (s +:+ t)). simpl. by rewrite IH. Qed.

Lemma string_app_assoc a b c : a +:+ (b +:+ c) = (a +:+ b) +:+ c.
Proof.
  induction a as [|x a IH]; [done|].
  change (String x (a +:+ (b +:+ c)) = String x ((a +:+ b) +:+ c)). by rewrite IH.
Qed.

Lemma string_compare_app p s t : String.compare (p +:+ s) (p +:+ t) = String.compare s t.
Proof.
  induction p as [|c p IH]; [done|].
  change (String.compare (String c (p +:+ s)) (String c (p +:+ t)) = String.compare s t).
  cbn [String.compare]. unfold Ascii.compare. by rewrite N.compare_refl.
Qed.

Lemma digits_str_no_minus l s : Forall (λ d, 0 <= d < 10) l → l ≠ [] →
  digits_str l ≠ "-" +:+ s.
Proof.
  intros [|d l' Hd _] Hne; [done|]. change ("-" +:+ s) with (String "-" s). cbn.
  intros [= Heq _]. apply (f_equal N_of_ascii) in Heq. rewrite digit_char_N in Heq by done.
  cbn in Heq. lia.
Qed.

Lemma FormatInt_inj n m : FormatInt n = FormatInt m → n = m.
Proof.
  unfold FormatInt. destruct (Z.ltb_spec n 0), (Z.ltb_spec m 0); intros Heq.
  - apply string_app_inj_l, FormatUint_inj in Heq; lia.
  - symmetry in Heq. by apply digits_str_no_minus in Heq; [|apply digits_Forall|apply digits_not_nil].
  - by apply digits_str_no_minus in Heq; [|apply digits_Forall|apply digits_not_nil].
  - by apply FormatUint_inj.
Qed.

Example fmt_examples :
  FormatInt (-120) = "-120" ∧ FormatUint 0 = "0" ∧ fmt_0wd 8 42 = "00000042"
  ∧ fmt_0wd 8 (-42) = "-0000042" ∧ fmt_0wd 0 7 = "7" ∧ fmt_0wd (-4) 7 = "7   ".
Proof. vm_compute. done. Qed.

Example strings_examples :
  Split "a,b,,c" "," = ["a"; "b"; ""; "c"] ∧ SplitN2 "k=v=w" "=" = ["k"; "v=w"]
  ∧ TrimSpace "  a b " = "a b" ∧ ToLower "READ_x" = "read_x" ∧ TrimSuffix "u/" "/" = "u"
  ∧ ParseInt "-12" = (-12, None) ∧ ParseInt "99999999999999999999" = (max_int64, Some ErrRange).
Proof. vm_compute. done. Qed.

Lemma HasPrefix_app k p : HasPrefix k p = true → ∃ s, k = p +:+ s.
Proof.
  unfold HasPrefix. revert k. induction p as [|a p IH]; intros k Hp; [by exists k|].
  destruct k as [|b k]; [done|]. cbn in Hp. destruct (ascii_dec a b) as [->|]; [|done].
  destruct (IH k Hp) as [s ->]. by exists s.
Qed.

Lemma prefix_app p s : String.prefix p (p +:+ s) = true.
Proof. induction p as [|a p IH]; [by destruct s|]. change ((if ascii_dec a a then String.prefix p (p +:+ s) else false) = true). destruct (ascii_dec a a); [exact IH|congruence]. Qed.

Lemma drop_str_app p s : drop_str (String.length p) (p +:+ s) = s.
Proof. induction p as [|a p IH]; [by destruct s|]. exact IH. Qed.
