(* ===== verification/GoConv.v ===== *)
(** * Go's float formatting and parsing

    [fmt]'s [%.kf] and [strconv.ParseFloat(s, 64)] on the specification floats, both
    correctly rounded, and what a number printed by the one is read back as by the
    other.  [ParseFloat] covers the decimal syntax, infinities and NaN (not Go's
    hexadecimal floats, which nothing here prints). *)

From S2P Require Import Prelude GoFloat GoStr.

(** ** Printing *)

Definition round_half_even (num den : Z) : Z :=
  let q := num / den in
  let r := num mod den in
  if (den <? 2 * r) || ((2 * r =? den) && Z.odd q) then q + 1 else q.

(** [m * 2^e * 10^k], rounded to an integer, ties to even. *)
Definition scaled (k m e : Z) : Z :=
  if 0 <=? e then m * 2 ^ e * 10 ^ k else round_half_even (m * 10 ^ k) (2 ^ (- e)).

Definition sign_str (s : bool) : string := if s then "-" else "".

(** The decimal [n / 10^k]. *)
Definition fixed_str (k n : Z) : string :=
  if k =? 0 then FormatUint n
  else FormatUint (n / 10 ^ k) +:+ "." +:+ digits_str (pad (Z.to_nat k) (digits (n mod 10 ^ k))).

(** [fmt.Sprintf("%.kf", f)]: the exact value rounded to [k] decimals. *)
Definition fmt_fixed (k : Z) (f : float64) : string :=
  match f with
  | S754_zero s => sign_str s +:+ fixed_str k 0
  | S754_infinity s => (if s then "-" else "+") +:+ "Inf"
  | S754_nan => "NaN"
  | S754_finite s m e => sign_str s +:+ fixed_str k (scaled k (Zpos m) e)
  end.

(** ** Parsing *)

(** The longest prefix of digits, and the rest. *)
Fixpoint span_digits (s : string) : list Z * string :=
  match s with
  | String c s' => if is_digit c then let '(l, r) := span_digits s' in (char_digit c :: l, r) else ([], s)
  | EmptyString => ([], s)
  end.

(** [n * 10^e], correctly rounded; [None] when it overflows. *)
Definition f64_decimal (neg : bool) (n e : Z) : option float64 :=
  match n with
  | Zpos m =>
      let f := if 0 <=? e then binary_normalize 53 1024 (n * 10 ^ e) 0 false
               else match 10 ^ (- e) with
                    | Zpos d => SFdiv 53 1024 (S754_finite false m 0) (S754_finite false d 0)
                    | _ => S754_nan
                    end in
      match f with
      | S754_infinity _ => None
      | _ => Some (if neg then SFopp f else f)
      end
  | _ => Some (S754_zero neg)
  end.

(** An optional exponent that ends the string. *)
Definition parse_exponent (s : string) : option Z :=
  match s with
  | EmptyString => Some 0
  | String c s' =>
      if Ascii.eqb (lower_char c) "e" then
        let '(neg, body) := match s' with
                            | String "-" t => (true, t)
                            | String "+" t => (false, t)
                            | _ => (false, s')
                            end in
        match span_digits body with
        | ((d :: l), EmptyString) => Some (if neg then - digits_val (d :: l) else digits_val (d :: l))
        | _ => None
        end
      else None
  end.

Definition parse_unsigned (neg : bool) (s : string) : option float64 :=
  let low := ToLower s in
  if String.eqb low "inf" || String.eqb low "infinity" then Some (S754_infinity neg)
  else
    let '(ip, r) := span_digits s in
    let '(fp, r) := match r with String "." t => span_digits t | _ => ([], r) end in
    if decide (ip ++ fp = []) then None
    else e ← parse_exponent r; f64_decimal neg (digits_val (ip ++ fp)) (e - Z.of_nat (length fp)).

Definition ParseFloat (s : string) : option float64 :=
  match s with
  | String "-" t => parse_unsigned true t
  | String "+" t => parse_unsigned false t
  | _ => if String.eqb (ToLower s) "nan" then Some S754_nan else parse_unsigned false s
  end.

Example ParseFloat_ex :
  (ParseFloat "0.1", ParseFloat "-2.5e3", ParseFloat "9007199254740993", ParseFloat "1.", ParseFloat "1e400",
   ParseFloat ".", ParseFloat "+Inf", ParseFloat "12x") =
  (Some (f64_lit 1 1), Some (f64_opp (f64_of_Z 2500)), Some (f64_of_Z 9007199254740992), Some f64_one, None,
   None, Some (S754_infinity false), None).
Proof. vm_compute. reflexivity. Qed.

Example fmt_fixed_ex :
  (fmt_fixed 1 (f64_of_Z 12), fmt_fixed 1 (f64_lit 1234567 3), fmt_fixed 1 (f64_lit 25 2), fmt_fixed 0 (f64_lit 25 1),
   fmt_fixed 6 (f64_lit 15 1), fmt_fixed 1 (f64_div f64_one f64_zero)) =
  ("12.0", "1234.6", "0.2", "2", "1.500000", "+Inf").
Proof. vm_compute. reflexivity. Qed.

(** ** Reading back what was printed *)

Lemma is_digit_char d : 0 <= d < 10 → is_digit (digit_char d) = true ∧ char_digit (digit_char d) = d.
Proof.
  intros Hd. unfold is_digit, char_digit. rewrite digit_char_N, Z2N.id by lia. split; [|lia].
  apply andb_true_iff. split; apply Z.leb_le; lia.
Qed.

Lemma span_digits_str l r :
  Forall (λ d, 0 <= d < 10) l → (∀ c t, r = String c t → is_digit c = false) →
  span_digits (digits_str l +:+ r) = (l, r).
Proof.
  intros Hl Hr. induction Hl as [|d l Hd Hl IH].
  - change (digits_str [] +:+ r) with r. destruct r as [|c t]; [done|]. simpl. by rewrite (Hr c t).
  - change (digits_str (d :: l) +:+ r) with (String (digit_char d) (digits_str l +:+ r)).
    cbn [span_digits]. destruct (is_digit_char d Hd) as [-> ->]. by rewrite IH.
Qed.

Lemma digits_str_head l s : Forall (λ d, 0 <= d < 10) l → l ≠ [] →
  ∃ d t, 0 <= d < 10 ∧ digits_str l +:+ s = String (digit_char d) t.
Proof. intros Hl Hn. destruct Hl as [|d l Hd Hl]; [done|]. by exists d, (digits_str l +:+ s). Qed.

(** A string that starts with a digit is no special value and has no sign. *)
Lemma ParseFloat_digit d t :
  0 <= d < 10 → ParseFloat (String (digit_char d) t) =
  (let '(ip, r) := span_digits (String (digit_char d) t) in
   let '(fp, r) := match r with String "." t => span_digits t | _ => ([], r) end in
   if decide (ip ++ fp = []) then None
   else e ← parse_exponent r; f64_decimal false (digits_val (ip ++ fp)) (e - Z.of_nat (length fp))).
Proof.
  intros Hd. assert (d = 0 ∨ d = 1 ∨ d = 2 ∨ d = 3 ∨ d = 4 ∨ d = 5 ∨ d = 6 ∨ d = 7 ∨ d = 8 ∨ d = 9) as Hc by lia.
  destruct Hc as [->|[->|[->|[->|[->|[->|[->|[->|[->| ->]]]]]]]]]; reflexivity.
Qed.

Lemma fixed_digits k n : 1 <= k → 0 <= n →
  length (pad (Z.to_nat k) (digits (n mod 10 ^ k))) = Z.to_nat k ∧
  digits_val (digits (n / 10 ^ k) ++ pad (Z.to_nat k) (digits (n mod 10 ^ k))) = n.
Proof.
  intros Hk Hn. assert (Hp : 0 < 10 ^ k) by (apply Z.pow_pos_nonneg; lia).
  pose proof (Z.mod_pos_bound n (10 ^ k) Hp) as Hm.
  assert (length (pad (Z.to_nat k) (digits (n mod 10 ^ k))) = Z.to_nat k) as Hl.
  { rewrite pad_length. enough (length (digits (n mod 10 ^ k)) <= Z.to_nat k)%nat by lia.
    apply digits_length; [rewrite Z2Nat.id by lia; lia|lia]. }
  split; [done|]. rewrite digits_val_app, Hl, pad_val, Z2Nat.id, !digits_value by (try apply Z.div_pos; lia).
  rewrite Z.mul_comm. symmetry. apply Z.div_mod. lia.
Qed.

(** A printed decimal is read as its value, correctly rounded. *)
Lemma ParseFloat_fixed k n : 0 <= k → 0 <= n → ParseFloat (fixed_str k n) = f64_decimal false n (- k).
Proof.
  intros Hk Hn. unfold fixed_str, FormatUint. destruct (Z.eqb_spec k 0) as [->|Hk0].
  - destruct (digits_str_head (digits n) "" (digits_Forall n) (digits_not_nil n)) as (d & t & Hd & E).
    assert (digits_str (digits n) = digits_str (digits n) +:+ "") as Ea by (symmetry; apply string_app_nil_r).
    rewrite Ea, E, ParseFloat_digit, <- E by done. rewrite span_digits_str by (try apply digits_Forall; done).
    rewrite app_nil_r, decide_False by apply digits_not_nil.
    cbn -[digits digits_val f64_decimal]. by rewrite digits_value.
  - destruct (fixed_digits k n) as [Hl Hv]; [lia..|].
    destruct (digits_str_head (digits (n / 10 ^ k))
      ("." +:+ digits_str (pad (Z.to_nat k) (digits (n mod 10 ^ k)))) (digits_Forall _) (digits_not_nil _))
      as (d & t & Hd & E).
    rewrite E, ParseFloat_digit, <- E by done. rewrite span_digits_str;
      [|apply digits_Forall|by intros c u [= <- _]].
    set (fp := digits_str (pad _ _)). change ("." +:+ fp) with (String "." fp).
    cbv beta iota. subst fp.
    rewrite <- (string_app_nil_r (digits_str (pad _ _))), span_digits_str by
      (try done; apply pad_Forall, digits_Forall).
    rewrite decide_False.
    + cbn -[digits digits_val f64_decimal pad]. rewrite Hv, Hl, Z2Nat.id by lia. done.
    + intros [E0 _]%app_nil. by apply digits_not_nil in E0.
Qed.
