(* ===== verification/GoText.v ===== *)
(** * Go's text packages, as far as the reports use them

    [url.QueryEscape], the records written by [encoding/csv]'s Writer, and
    [regexp.FindStringSubmatch] on anchored patterns of literals and captured runs of a
    character class.  Go prefers the leftmost match and, for a greedy repetition, the
    longest run that lets the rest match: [rx_match] tries the runs in this order.
    Characters are bytes (ASCII text). *)

From S2P Require Import Prelude GoStr GoConv.

(** ** net/url *)

Definition is_alpha (c : ascii) : bool :=
  let n := Z.of_N (N_of_ascii c) in ((65 <=? n) && (n <=? 90)) || ((97 <=? n) && (n <=? 122)).

(** What [QueryEscape] keeps. *)
Definition unreserved (c : ascii) : bool :=
  is_alpha c || is_digit c || existsb (Ascii.eqb c) (list_ascii_of_string "-_.~").

Definition hex_char (d : Z) : ascii :=
  if d <? 10 then digit_char d else ascii_of_N (Z.to_N (55 + d)).

Fixpoint QueryEscape (s : string) : string :=
  match s with
  | EmptyString => ""
  | String c s' =>
      (if unreserved c then String c ""
       else if Ascii.eqb c " " then "+"
       else let n := Z.of_N (N_of_ascii c) in
            String "%" (String (hex_char (n / 16)) (String (hex_char (n mod 16)) "")))
      +:+ QueryEscape s'
  end.

(** ** encoding/csv *)

Definition line_feed : ascii := "010".
Definition dquote : ascii := "034".

(** A field is quoted if it holds a comma, a quote or a line break, or starts with
    white space; the empty field is not. *)
Definition fieldNeedsQuotes (field : string) : bool :=
  match field with
  | EmptyString => false
  | String c0 _ =>
      String.eqb field "\." || is_space c0 ||
      existsb (λ c, Ascii.eqb c "," || Ascii.eqb c dquote || Ascii.eqb c line_feed || Ascii.eqb c "013")
        (list_ascii_of_string field)
  end.

Fixpoint double_quotes (s : string) : string :=
  match s with
  | EmptyString => ""
  | String c s' =>
      if Ascii.eqb c dquote then String dquote (String dquote (double_quotes s')) else String c (double_quotes s')
  end.

Definition csv_field (field : string) : string :=
  if fieldNeedsQuotes field then String dquote (double_quotes field +:+ String dquote "") else field.

(** The line written by [Write]. *)
Definition csv_record (record : list string) : string :=
  Join (csv_field <$> record) "," +:+ String line_feed "".

(** ** regexp *)

(** One item of a pattern: a literal character (what [QuoteMeta] produces) or a
    captured, greedy, non-empty run of a class of characters: [(\d+)], [(\w+)]. *)
Inductive rx_item := RxChar (c : ascii) | RxGroup (cls : ascii → bool).

Definition rx_digit : ascii → bool := is_digit.
Definition rx_word (c : ascii) : bool := is_alpha c || is_digit c || Ascii.eqb c "_".

Definition rx_lit (s : string) : list rx_item := RxChar <$> list_ascii_of_string s.

(** The length of the longest run of [cls] at the start. *)
Fixpoint run_len (cls : ascii → bool) (s : string) : nat :=
  match s with
  | String c s' => if cls c then S (run_len cls s') else 0%nat
  | EmptyString => 0%nat
  end.

(** [^pattern$]: the captured texts. *)
Fixpoint rx_match (pat : list rx_item) (s : string) : option (list string) :=
  match pat with
  | [] => match s with EmptyString => Some [] | _ => None end
  | RxChar c :: pat =>
      match s with
      | String c' s' => if Ascii.eqb c c' then rx_match pat s' else None
      | EmptyString => None
      end
  | RxGroup cls :: pat =>
      (fix try (k : nat) : option (list string) :=
         match k with
         | O => None
         | S k' => match rx_match pat (drop_str k s) with
                   | Some groups => Some (take_str k s :: groups)
                   | None => try k'
                   end
         end) (run_len cls s)
  end.

Example rx_match_ex :
  (rx_match (rx_lit "a_" ++ [RxGroup rx_digit; RxChar "_"; RxGroup rx_word; RxChar "_"; RxGroup rx_word])
     "a_12_read_oper_count",
   rx_match [RxGroup rx_word; RxChar "_"; RxGroup rx_word] "abc",
   rx_match [RxGroup rx_digit; RxChar "_"; RxGroup rx_word] "12_34_x") =
  (Some ["12"; "read_oper"; "count"], None, Some ["12"; "34_x"]).
Proof. vm_compute. reflexivity. Qed.

Example text_ex :
  QueryEscape "{a=~.+ b}" = "%7Ba%3D~.%2B+b%7D" ∧
  csv_record ["raw"; "x,y"; ""] = "raw," +:+ String dquote ("x,y" +:+ String dquote ("," +:+ String line_feed "")).
Proof. vm_compute. done. Qed.

(** ** Facts *)

Lemma rx_match_lit l pat s : rx_match (rx_lit l ++ pat) (l +:+ s) = rx_match pat s.
Proof.
  induction l as [|c l IH]; [done|]. change (String c l +:+ s) with (String c (l +:+ s)).
  unfold rx_lit in *. simpl. by rewrite Ascii.eqb_refl.
Qed.

(** A literal prefix is needed. *)
Lemma rx_match_lit_inv l pat s gs :
  rx_match (rx_lit l ++ pat) s = Some gs → ∃ t, s = l +:+ t ∧ rx_match pat t = Some gs.
Proof.
  revert s. induction l as [|c l IH]; intros s E; [by exists s|].
  unfold rx_lit in *. simpl in E. destruct s as [|c' s]; [done|].
  destruct (Ascii.eqb_spec c c') as [<-|]; [|done]. destruct (IH s E) as (t & -> & Et). by exists t.
Qed.

Lemma take_drop_str n s : take_str n s +:+ drop_str n s = s.
Proof.
  revert s. induction n as [|n IH]; intros s; [done|]. destruct s as [|c s]; [done|].
  change (String c (take_str n s +:+ drop_str n s) = String c s). by rewrite IH.
Qed.

Lemma string_forall_app cls s t :
  forallb cls (list_ascii_of_string (s +:+ t)) =
  forallb cls (list_ascii_of_string s) && forallb cls (list_ascii_of_string t).
Proof.
  induction s as [|c s IH]; [done|]. change (String c s +:+ t) with (String c (s +:+ t)). simpl.
  by rewrite IH, andb_assoc.
Qed.

(** All characters of [s] are in the class. *)
Definition all_in (cls : ascii → bool) (s : string) : bool := forallb cls (list_ascii_of_string s).

Lemma run_len_app cls s t : all_in cls s = true → run_len cls (s +:+ t) = (String.length s + run_len cls t)%nat.
Proof.
  induction s as [|c s IH]; [done|]. change (String c s +:+ t) with (String c (s +:+ t)).
  unfold all_in in *. simpl. intros [-> Hs]%andb_true_iff. by rewrite IH.
Qed.

Lemma take_app_length s t : take_str (String.length s) (s +:+ t) = s.
Proof.
  induction s as [|c s IH]; [by destruct t|]. change (String c s +:+ t) with (String c (s +:+ t)). simpl. by rewrite IH.
Qed.

Lemma drop_app_length s t : drop_str (String.length s) (s +:+ t) = t.
Proof.
  induction s as [|c s IH]; [by destruct t|]. change (String c s +:+ t) with (String c (s +:+ t)). exact IH.
Qed.

Lemma run_len_take cls k s : (k <= run_len cls s)%nat → all_in cls (take_str k s) = true.
Proof.
  revert s. induction k as [|k IH]; intros s Hk; [by destruct s|].
  destruct s as [|c s]; simpl in *; [lia|]. destruct (cls c) eqn:Ec; [|lia].
  unfold all_in in *. simpl. rewrite Ec. apply IH. lia.
Qed.

(** The matcher as a search from the longest run down. *)
Fixpoint rx_try (pat : list rx_item) (s : string) (k : nat) : option (list string) :=
  match k with
  | O => None
  | S k' => match rx_match pat (drop_str k s) with
            | Some groups => Some (take_str k s :: groups)
            | None => rx_try pat s k'
            end
  end.

Lemma rx_match_group cls pat s : rx_match (RxGroup cls :: pat) s = rx_try pat s (run_len cls s).
Proof. cbn [rx_match]. generalize (run_len cls s). induction n as [|n IH]; [done|]. cbn [rx_try]. by rewrite IH. Qed.

Lemma rx_try_inv pat s k gs : rx_try pat s k = Some gs →
  ∃ j gs', gs = take_str j s :: gs' ∧ (0 < j <= k)%nat ∧ rx_match pat (drop_str j s) = Some gs' ∧
    ∀ i, (j < i <= k)%nat → rx_match pat (drop_str i s) = None.
Proof.
  induction k as [|k IH]; [done|]. cbn [rx_try]. destruct (rx_match pat (drop_str (S k) s)) as [gs'|] eqn:E.
  - intros [= <-]. exists (S k), gs'. split; [done|split; [lia|split; [done|lia]]].
  - intros (j & gs' & -> & Hj & Ej & Hno)%IH. exists j, gs'. split; [done|split; [lia|split; [done|]]].
    intros i Hi. destruct (decide (i = S k)) as [->|]; [done|apply Hno; lia].
Qed.

(** The longest run that lets the rest match is taken. *)
Lemma rx_try_first pat s k j gs :
  (0 < j <= k)%nat → rx_match pat (drop_str j s) = Some gs →
  (∀ i, (j < i <= k)%nat → rx_match pat (drop_str i s) = None) → rx_try pat s k = Some (take_str j s :: gs).
Proof.
  intros Hj E. induction k as [|k IH]; intros Hno; [lia|]. cbn [rx_try].
  destruct (decide (j = S k)) as [->|]; [by rewrite E|]. rewrite Hno by lia. apply IH; [lia|].
  intros i Hi. apply Hno. lia.
Qed.

(** ** strings.FieldsFunc, bufio.Scanner, path *)

(** The maximal runs of characters outside [sep], the empty ones left out. *)
Fixpoint fields_go (sep : ascii → bool) (cur : string) (s : string) : list string :=
  match s with
  | EmptyString => if String.eqb cur "" then [] else [cur]
  | String c s' =>
      if sep c then (if String.eqb cur "" then [] else [cur]) ++ fields_go sep "" s'
      else fields_go sep (cur +:+ String c "") s'
  end.

Definition FieldsFunc (s : string) (sep : ascii → bool) : list string := fields_go sep "" s.

(** The lines [bufio.ScanLines] finds: split at line feeds, one trailing carriage return
    dropped, no empty last line. *)
Definition drop_cr (s : string) : string := TrimSuffix s (String "013" "").

Fixpoint lines_go (l : list string) : list string :=
  match l with
  | [] => []
  | [last] => if String.eqb last "" then [] else [last]
  | s :: l => s :: lines_go l
  end.

Definition raw_lines (text : string) : list string := lines_go (Split text line_feed).

(** A scanner gives up with [ErrTooLong] at a line of 64 KiB. *)
Definition MaxScanTokenSize : Z := 65536.

Fixpoint scanned (l : list string) : list string * option string :=
  match l with
  | [] => ([], None)
  | s :: l =>
      if MaxScanTokenSize <=? Z.of_nat (String.length s) then ([], Some "bufio.Scanner: token too long")
      else let '(ls, err) := scanned l in (drop_cr s :: ls, err)
  end.

Definition Scan_all (text : string) : list string * option string := scanned (raw_lines text).

(** [path.Clean], on the components between the slashes: [out] is the result so far, in
    reverse. *)
Fixpoint clean_go (rooted : bool) (out : list string) (l : list string) : list string :=
  match l with
  | [] => reverse out
  | c :: l =>
      if String.eqb c "" || String.eqb c "." then clean_go rooted out l
      else if String.eqb c ".." then
        match out with
        | top :: out' => if String.eqb top ".." then clean_go rooted (c :: out) l else clean_go rooted out' l
        | [] => clean_go rooted (if rooted then [] else [c]) l
        end
      else clean_go rooted (c :: out) l
  end.

Definition path_Clean (p : string) : string :=
  let rooted := HasPrefix p "/" in
  let body := Join (clean_go rooted [] (Split p "/")) "/" in
  if rooted then "/" +:+ body else if String.eqb body "" then "." else body.

(** [path.Join] of two elements. *)
Definition path_Join (a b : string) : string :=
  if String.eqb a "" then (if String.eqb b "" then "" else path_Clean b)
  else path_Clean (if String.eqb b "" then a else a +:+ "/" +:+ b).

Fixpoint trim_slashes (fuel : nat) (s : string) : string :=
  match fuel with
  | O => s
  | S f => if HasSuffix s "/" then trim_slashes f (TrimSuffix s "/") else s
  end.

(** [path.Base] *)
Definition path_Base (p : string) : string :=
  if String.eqb p "" then "."
  else match reverse (Split (trim_slashes (String.length p) p) "/") with
       | last :: _ => if String.eqb last "" then "/" else last
       | [] => "/"
       end.

Example path_ex :
  (path_Join "./logs" "a.log", path_Join "/a/../../b" "c/./d", path_Base "logs/x_load.log", path_Base "a//",
   path_Base "//", path_Clean "../a/..") =
  ("logs/a.log", "/b/c/d", "x_load.log", "a", "/", "..").
Proof. vm_compute. reflexivity. Qed.

Example fields_ex : FieldsFunc "OPS: 1.0, a:" (λ c, Ascii.eqb c ":" || Ascii.eqb c ",") = ["OPS"; " 1.0"; " a"].
Proof. vm_compute. reflexivity. Qed.

(** ** Facts on trimming, splitting and scanning *)

Lemma all_in_app cls s t : all_in cls (s +:+ t) = all_in cls s && all_in cls t.
Proof. apply string_forall_app. Qed.

Lemma all_in_impl (cls cls' : ascii → bool) s : (∀ c, cls c = true → cls' c = true) → all_in cls s = true → all_in cls' s = true.
Proof.
  unfold all_in. intros Hc. induction s as [|c s IH]; [done|]. simpl. intros [H1 H2]%andb_true_iff.
  by rewrite (Hc c H1), IH.
Qed.

Lemma str_rev_app s t : str_rev (s +:+ t) = str_rev t +:+ str_rev s.
Proof.
  assert (Hl : ∀ a b, list_ascii_of_string (a +:+ b) = list_ascii_of_string a ++ list_ascii_of_string b).
  { intros a b. induction a as [|c a IH]; [done|]. change (String c a +:+ b) with (String c (a +:+ b)). simpl. by rewrite IH. }
  assert (Hs : ∀ a b, string_of_list_ascii (a ++ b) = string_of_list_ascii a +:+ string_of_list_ascii b).
  { intros a b. induction a as [|c a IH]; [done|]. simpl. by rewrite IH. }
  unfold str_rev. by rewrite Hl, reverse_app, Hs.
Qed.

Lemma str_rev_involutive s : str_rev (str_rev s) = s.
Proof.
  unfold str_rev. by rewrite list_ascii_of_string_of_list_ascii, reverse_involutive, string_of_list_ascii_of_string.
Qed.

Lemma all_in_rev cls s : all_in cls (str_rev s) = all_in cls s.
Proof.
  unfold all_in, str_rev. rewrite list_ascii_of_string_of_list_ascii.
  induction (list_ascii_of_string s) as [|c l IH]; [done|].
  rewrite reverse_cons, forallb_app, IH. simpl. by rewrite andb_true_r, andb_comm.
Qed.

(** Starts with a character that is no space. *)
Definition starts_solid (s : string) : Prop := match s with String c _ => is_space c = false | EmptyString => False end.

Lemma trim_left_spaces sp s : all_in is_space sp = true → trim_left (sp +:+ s) = trim_left s.
Proof.
  unfold all_in. induction sp as [|c sp IH]; [done|]. simpl. intros [-> Hsp]%andb_true_iff. by apply IH.
Qed.

Lemma trim_left_solid s t : starts_solid s → trim_left (s +:+ t) = s +:+ t.
Proof. destruct s as [|c s]; [done|]. simpl. by intros ->. Qed.

Lemma TrimSpace_solid a s b :
  all_in is_space a = true → all_in is_space b = true → starts_solid s → starts_solid (str_rev s) →
  TrimSpace (a +:+ s +:+ b) = s.
Proof.
  intros Ha Hb Hs Hr. unfold TrimSpace. rewrite trim_left_spaces, trim_left_solid, str_rev_app by done.
  rewrite trim_left_spaces by by rewrite all_in_rev. rewrite <- (string_app_nil_r (str_rev s)), trim_left_solid by done.
  by rewrite string_app_nil_r, str_rev_involutive.
Qed.

(** A string without spaces is solid. *)
Lemma starts_solid_all (cls : ascii → bool) s : (∀ c, cls c = true → is_space c = false) → s ≠ "" → all_in cls s = true → starts_solid s.
Proof.
  intros Hc Hs Ha. destruct s as [|c s]; [done|]. unfold all_in in Ha. simpl in *.
  apply andb_true_iff in Ha as [Ha _]. by apply Hc.
Qed.

Lemma str_rev_nil s : s ≠ "" → str_rev s ≠ "".
Proof. intros Hs E. apply Hs. by rewrite <- (str_rev_involutive s), E. Qed.

Lemma TrimSpace_all (cls : ascii → bool) a s b : (∀ c, cls c = true → is_space c = false) →
  all_in is_space a = true → all_in is_space b = true → s ≠ "" → all_in cls s = true → TrimSpace (a +:+ s +:+ b) = s.
Proof.
  intros Hc Ha Hb Hs Hall. apply TrimSpace_solid; [done|done|by eapply starts_solid_all|].
  eapply starts_solid_all; [exact Hc|by apply str_rev_nil|by rewrite all_in_rev].
Qed.

Definition without (c : ascii) (x : ascii) : bool := negb (Ascii.eqb x c).

Lemma Split_not_nil s c : Split s c ≠ [].
Proof. destruct s as [|x s]; [done|]. simpl. case_match; [done|]. by case_match. Qed.

Lemma Split_without s c : all_in (without c) s = true → Split s c = [s].
Proof.
  unfold all_in, without. induction s as [|x s IH]; [done|]. simpl. intros [Hx Hs]%andb_true_iff.
  apply negb_true_iff in Hx. by rewrite Hx, IH.
Qed.

Lemma Split_app s c t : all_in (without c) s = true → Split (s +:+ String c t) c = s :: Split t c.
Proof.
  unfold all_in, without. induction s as [|x s IH]; intros Hs.
  - change ("" +:+ String c t) with (String c t). simpl. by rewrite Ascii.eqb_refl.
  - change (String x s +:+ String c t) with (String x (s +:+ String c t)). simpl in *.
    apply andb_true_iff in Hs as [Hx Hs]. apply negb_true_iff in Hx. by rewrite Hx, IH.
Qed.

(** Lines that end in line feeds are scanned one by one. *)
Lemma raw_lines_app s t : all_in (without line_feed) s = true →
  raw_lines (s +:+ String line_feed t) = s :: raw_lines t.
Proof.
  intros Hs. unfold raw_lines. rewrite Split_app by done. pose proof (Split_not_nil t line_feed).
  by destruct (Split t line_feed).
Qed.

Lemma drop_cr_without s : all_in (without "013") s = true → drop_cr s = s.
Proof.
  intros Hs. unfold drop_cr, TrimSuffix. destruct (HasSuffix s _) eqn:E; [|done].
  unfold HasSuffix in E. apply andb_true_iff in E as [_ E%String.eqb_eq].
  pose proof (take_drop_str (String.length s - String.length (String "013" "")) s) as Ht.
  rewrite E in Ht. rewrite <- Ht, all_in_app in Hs. apply andb_true_iff in Hs as [_ Hs]. discriminate Hs.
Qed.

Lemma fields_go_app (sep : ascii → bool) cur s t : all_in (λ c, negb (sep c)) s = true →
  fields_go sep cur (s +:+ t) = fields_go sep (cur +:+ s) t.
Proof.
  unfold all_in. revert cur. induction s as [|c s IH]; intros cur Hs.
  - by rewrite string_app_nil_r.
  - change (String c s +:+ t) with (String c (s +:+ t)). simpl in *. apply andb_true_iff in Hs as [Hc Hs].
    apply negb_true_iff in Hc. rewrite Hc, IH by done. f_equal. by rewrite <- string_app_assoc.
Qed.

Lemma FieldsFunc_field (sep : ascii → bool) s c t : all_in (λ c, negb (sep c)) s = true → s ≠ "" → sep c = true →
  FieldsFunc (s +:+ String c t) sep = s :: FieldsFunc t sep.
Proof.
  intros Hs Hn Hc. unfold FieldsFunc. rewrite fields_go_app by done. simpl. rewrite Hc. change ("" +:+ s) with s.
  rewrite (proj2 (String.eqb_neq s "") Hn). done.
Qed.

Lemma FieldsFunc_last (sep : ascii → bool) s : all_in (λ c, negb (sep c)) s = true → s ≠ "" → FieldsFunc s sep = [s].
Proof.
  intros Hs Hn. unfold FieldsFunc. rewrite <- (string_app_nil_r s) at 1. rewrite fields_go_app by done. change ("" +:+ s) with s. simpl.
  by rewrite (proj2 (String.eqb_neq s "") Hn).
Qed.

(** ** Assignments *)

(** A text [name=value]: the first [=] ends the name. *)
Definition assignment (kv : string * string) : string := fst kv +:+ String "=" (snd kv).

Definition assignment_ok (kv : string * string) : Prop := all_in (without "=") (fst kv) = true.

Lemma SplitN2_assignment kv : assignment_ok kv → SplitN2 (assignment kv) "=" = [fst kv; snd kv].
Proof.
  destruct kv as [f v]. unfold assignment_ok, assignment, all_in, without. cbn [fst snd].
  induction f as [|c f IH]; intros Hf; [done|]. simpl in Hf. apply andb_true_iff in Hf as [Hc Hf].
  apply negb_true_iff in Hc. change ((String c f +:+ String "=" v)) with (String c (f +:+ String "=" v)).
  cbn [SplitN2]. by rewrite Hc, (IH Hf).
Qed.

Lemma SplitN2_without a : all_in (without "=") a = true → SplitN2 a "=" = [a].
Proof.
  unfold all_in, without. induction a as [|c a IH]; [done|]. simpl. intros [Hc Ha]%andb_true_iff.
  apply negb_true_iff in Hc. by rewrite Hc, (IH Ha).
Qed.

(** Every text is an assignment or has no [=] at all. *)
Lemma assignment_cases a : (∃ kv, a = assignment kv ∧ assignment_ok kv) ∨ all_in (without "=") a = true.
Proof.
  unfold assignment_ok, assignment, all_in, without. induction a as [|c a IH]; [by right|].
  destruct (Ascii.eqb c "=") eqn:Hc.
  - left. apply Ascii.eqb_eq in Hc as ->. by exists ("", a).
  - destruct IH as [([f v] & -> & Hf)|Ha]; [left|right].
    + exists (String c f, v). split; [done|]. cbn [fst] in *. simpl. by rewrite Hc, Hf.
    + simpl. by rewrite Hc, Ha.
Qed.
