(* ===== verification/Hash.v ===== *)
(** * pkg/util/hash.go: FNV-1a hashes

    [hash/fnv]'s 64-bit FNV-1a, and the three functions of [hash.go] over it. *)

From S2P Require Import Prelude.

(** [fnv.New64a]: the offset basis, and one round per byte. *)
Definition fnv_offset64 : Z := 14695981039346656037.
Definition fnv_prime64 : Z := 1099511628211.

Definition fnv_step (h : Z) (b : byte) : Z := u64 (Z.lxor h (byte_to_Z b) * fnv_prime64).
Definition fnv64a (b : bytes) : Z := foldl fnv_step fnv_offset64 b.

(** [binary.BigEndian.PutUint64(b[0:8], v)] *)
Definition PutUint64 (v : Z) : bytes :=
  map (λ k, byte_of_Z (Z.shiftr v (8 * k))) [7; 6; 5; 4; 3; 2; 1; 0].

Definition Hash64 (n : Z) : Z :=
  let b := PutUint64 (u64 n) in
  let result := wrap64 (fnv64a b) in
  if result <? 0 then wrap64 (- result) else result.

Definition BytesHash64 (b : bytes) : Z := wrap64 (fnv64a b).

Definition StringHash64 (s : string) : Z := wrap64 (fnv64a (bytes_of_string s)).

(** ** Properties *)

Lemma lxor_u64_range h c : 0 <= h < two64 → 0 <= c < two64 → 0 <= Z.lxor h c < two64.
Proof.
  intros Hh Hc. split; [apply Z.lxor_nonneg; lia|].
  destruct (decide (Z.lxor h c = 0)) as [->|Hne]; [done|].
  change two64 with (2 ^ 64). apply Z.log2_lt_pow2.
  { pose proof (proj2 (Z.lxor_nonneg h c)). lia. }
  eapply Z.le_lt_trans; [apply Z.log2_lxor; lia|].
  assert (∀ x, 0 <= x < two64 → Z.log2 x < 64) as Hlog.
  { intros x Hx. destruct (decide (x = 0)) as [->|]; [done|].
    apply Z.log2_lt_pow2; [lia|]. apply Hx. }
  pose proof (Hlog h Hh). pose proof (Hlog c Hc). lia.
Qed.

(** The FNV prime is odd, hence invertible modulo 2^64. *)
Definition fnv_prime_inv : Z := 14886173955864302971.

Lemma fnv_prime_inverse : (fnv_prime64 * fnv_prime_inv) mod two64 = 1.
Proof. reflexivity. Qed.

Lemma mul_prime_inj x y :
  0 <= x < two64 → 0 <= y < two64 →
  u64 (x * fnv_prime64) = u64 (y * fnv_prime64) → x = y.
Proof.
  unfold u64. intros Hx Hy H.
  assert (∀ z, 0 <= z < two64 →
    ((z * fnv_prime64) mod two64 * fnv_prime_inv) mod two64 = z) as Hinv.
  { intros z Hz. rewrite Zmult_mod_idemp_l, <- Z.mul_assoc, <- Zmult_mod_idemp_r,
      fnv_prime_inverse, Z.mul_1_r, Z.mod_small; done. }
  by rewrite <- (Hinv x Hx), <- (Hinv y Hy), H.
Qed.

Lemma byte_u64 b : 0 <= byte_to_Z b < two64.
Proof. pose proof (byte_to_Z_range b). unfold two64. lia. Qed.

Lemma lxor_cancel_r x y z : Z.lxor x z = Z.lxor y z → x = y.
Proof.
  intros H. apply (f_equal (λ w, Z.lxor w z)) in H.
  by rewrite !Z.lxor_assoc, !Z.lxor_nilpotent, !Z.lxor_0_r in H.
Qed.

Lemma fnv_step_inj_state b h h' :
  0 <= h < two64 → 0 <= h' < two64 → fnv_step h b = fnv_step h' b → h = h'.
Proof.
  intros Hh Hh' H. apply (lxor_cancel_r _ _ (byte_to_Z b)).
  apply mul_prime_inj; eauto using lxor_u64_range, byte_u64.
Qed.

Lemma fnv_step_inj_byte h b b' : 0 <= h < two64 → fnv_step h b = fnv_step h b' → b = b'.
Proof.
  intros Hh H. apply (inj byte_to_Z). apply mul_prime_inj in H; eauto using lxor_u64_range, byte_u64.
  rewrite !(Z.lxor_comm h) in H. by apply lxor_cancel_r in H.
Qed.

Lemma fnv_fold_range h b : 0 <= h < two64 → 0 <= foldl fnv_step h b < two64.
Proof.
  revert h. induction b as [|c b IH]; intros h Hh; cbn [foldl]; [done|].
  apply IH, u64_range.
Qed.

Lemma fnv_fold_inj b h h' :
  0 <= h < two64 → 0 <= h' < two64 → foldl fnv_step h b = foldl fnv_step h' b → h = h'.
Proof.
  revert h h'. induction b as [|c b IH]; intros h h' Hh Hh'; cbn [foldl]; [done|].
  intros H. apply (fnv_step_inj_state c); [done..|].
  apply IH; [apply u64_range..|done].
Qed.

Lemma wrap64_u64_inj x y : 0 <= x < two64 → 0 <= y < two64 → wrap64 x = wrap64 y → x = y.
Proof. intros ?? H%(f_equal u64). rewrite !u64_wrap64 in H. unfold u64 in H. by rewrite !Z.mod_small in H. Qed.

(** [BytesHash64] separates any two buffers that differ in exactly
    one byte: every FNV-1a round is a bijection of the hash state. *)
Lemma BytesHash64_single_byte p b b' s :
  BytesHash64 (p ++ b :: s) = BytesHash64 (p ++ b' :: s) → b = b'.
Proof.
  unfold BytesHash64, fnv64a. rewrite !foldl_app. cbn [foldl].
  pose proof (fnv_fold_range fnv_offset64 p ltac:(done)) as Hp.
  intros H. apply wrap64_u64_inj in H; [|apply fnv_fold_range, u64_range..].
  apply fnv_fold_inj in H; [|apply u64_range..]. by apply fnv_step_inj_byte in H.
Qed.


(** [Hash64] returns a non-negative number except in the one case where negation
    overflows, the hash [math.MinInt64]. *)
Lemma Hash64_sign n : 0 <= Hash64 n <= max_int64 ∨ Hash64 n = min_int64.
Proof.
  unfold Hash64. pose proof (wrap64_range (fnv64a (PutUint64 (u64 n)))) as Hr.
  set (h := wrap64 _) in *. destruct (Z.ltb_spec h 0).
  - destruct (decide (h = min_int64)) as [->|Hne]; [by right|]. left.
    rewrite wrap64_id; width.
  - left. width.
Qed.

Lemma Hash64_range n : int64_ok (Hash64 n).
Proof. unfold Hash64. case_match; apply wrap64_range. Qed.

(** The two hashed keys of [pkg/workload/core_test.go]. *)
Example Hash64_core_test :
  Hash64 227 = 6284890712318570100 ∧ Hash64 154 = 6284898408899967577.
Proof. vm_compute. done. Qed.
