(* ===== verification/Props.v ===== *)
(** * pkg/prop/prop.go and the properties store

    The property names and defaults of [pkg/prop/prop.go], and the interface of
    [github.com/magiconair/properties], the third-party store every component is
    configured from: a class of operations [Properties] with the documented laws
    the code relies on ([PropertiesLaws]: a getter returns its default when the key
    is absent, a set key is found; they are those of values without [${...}] expressions,
    which the store would expand).  [ref_props] is a reference implementation on
    which the laws are checked and the examples run. *)

From S2P Require Import Prelude GoFloat GoStr.

(** ** pkg/prop/prop.go *)

Module prop.
Definition InsertStart := "insertstart".
Definition InsertCount := "insertcount".
Definition InsertStartDefault : Z := 0.
Definition OperationCount := "operationcount".
Definition RecordCount := "recordcount".
Definition RecordCountDefault : Z := 0.
Definition Workload := "workload".
Definition DB := "db".
Definition Exporter := "exporter".
Definition ExportFile := "exportfile".
Definition ThreadCount := "threadcount".
Definition ThreadCountDefault : Z := 200.
Definition Target := "target".
Definition MaxExecutiontime := "maxexecutiontime".
Definition WarmUpTime := "warmuptime".
Definition DoTransactions := "dotransactions".
Definition Status := "status".
Definition Label := "label".
Definition BatchSize := "batch.size".
Definition DefaultBatchSize : Z := 1.
Definition TableName := "table".
Definition TableNameDefault := "usertable".
Definition FieldCount := "fieldcount".
Definition FieldCountDefault : Z := 10.
Definition FieldLengthDistribution := "fieldlengthdistribution".
Definition FieldLengthDistributionDefault := "constant".
Definition FieldLength := "fieldlength".
Definition FieldLengthDefault : Z := 100.
Definition FieldLengthHistogramFile := "fieldlengthhistogram".
Definition FieldLengthHistogramFileDefault := "hist.txt".
Definition ReadAllFields := "readallfields".
Definition ReadALlFieldsDefault : bool := true.
Definition WriteAllFields := "writeallfields".
Definition WriteAllFieldsDefault : bool := false.
Definition DataIntegrity := "dataintegrity".
Definition DataIntegrityDefault : bool := false.
Definition ReadProportion := "readproportion".
Definition ReadProportionDefault : float64 := f64_lit 95 2.
Definition UpdateProportion := "updateproportion".
Definition UpdateProportionDefault : float64 := f64_lit 5 2.
Definition InsertProportion := "insertproportion".
Definition InsertProportionDefault : float64 := f64_zero.
Definition ScanProportion := "scanproportion".
Definition ScanProportionDefault : float64 := f64_zero.
Definition ReadModifyWriteProportion := "readmodifywriteproportion".
Definition ReadModifyWriteProportionDefault : float64 := f64_zero.
Definition RequestDistribution := "requestdistribution".
Definition RequestDistributionDefault := "uniform".
Definition ZeroPadding := "zeropadding".
Definition ZeroPaddingDefault : Z := 1.
Definition MinScanLength := "minscanlength".
Definition MinScanLengthDefault : Z := 1.
Definition MaxScanLength := "maxscanlength".
Definition MaxScanLengthDefault : Z := 1000.
Definition ScanLengthDistribution := "scanlengthdistribution".
Definition ScanLengthDistributionDefault := "uniform".
Definition InsertOrder := "insertorder".
Definition InsertOrderDefault := "hashed".
Definition HotspotDataFraction := "hotspotdatafraction".
Definition HotspotDataFractionDefault : float64 := f64_lit 2 1.
Definition HotspotOpnFraction := "hotspotopnfraction".
Definition HotspotOpnFractionDefault : float64 := f64_lit 8 1.
Definition InsertionRetryLimit := "core_workload_insertion_retry_limit".
Definition InsertionRetryLimitDefault : Z := 0.
Definition InsertionRetryInterval := "core_workload_insertion_retry_interval".
Definition InsertionRetryIntervalDefault : Z := 3.
Definition ExponentialPercentile := "exponential.percentile".
Definition ExponentialPercentileDefault : float64 := f64_of_Z 95.
Definition ExponentialFrac := "exponential.frac".
Definition ExponentialFracDefault : float64 := f64_lit 8571428571 10.
Definition DebugPprof := "debug.pprof".
Definition DebugPprofDefault := ":6060".
Definition Verbose := "verbose".
Definition VerboseDefault : bool := false.
Definition DropData := "dropdata".
Definition DropDataDefault : bool := false.
Definition Silence := "silence".
Definition SilenceDefault : bool := true.
Definition KeyPrefix := "keyprefix".
Definition KeyPrefixDefault := "user".
Definition LogInterval := "measurement.interval".
Definition MeasurementType := "measurementtype".
Definition MeasurementTypeDefault := "histogram".
Definition MeasurementRawOutputFile := "measurement.output_file".
Definition Command := "command".
Definition OutputStyle := "outputstyle".
Definition MeasurementHistogramPercentileExport := "histogram.percentiles.export".
Definition MeasurementHistogramPercentileExportDefault : bool := false.
Definition MeasurementHistogramPercentileExportFilepath := "histogram.percentiles.export.filepath".
Definition MeasurementHistogramPercentileExportFilepathDefault := "./".
End prop.

(** ** The properties store *)

Class Properties (P : Type) := {
  Get : P → string → option string;
  GetString : P → string → string → string;
  GetInt64 : P → string → Z → Z;
  GetInt : P → string → Z → Z;
  GetBool : P → string → bool → bool;
  GetFloat64 : P → string → float64 → float64;
  Set_ : P → string → string → P;
  Set_error : P → string → string → option string
}.

Class PropertiesLaws (P : Type) `{Properties P} := {
  GetString_Get : ∀ p k d, GetString p k d = default d (Get p k);
  GetInt64_absent : ∀ p k d, Get p k = None → GetInt64 p k d = d;
  GetInt64_range : ∀ p k d, int64_ok d → int64_ok (GetInt64 p k d);
  GetInt_absent : ∀ p k d, Get p k = None → GetInt p k d = d;
  GetBool_absent : ∀ p k d, Get p k = None → GetBool p k d = d;
  GetFloat64_absent : ∀ p k d, Get p k = None → GetFloat64 p k d = d;
  Get_Set_eq : ∀ p k v, Get (Set_ p k v) k = Some v;
  Get_Set_ne : ∀ p k k' v, k ≠ k' → Get (Set_ p k v) k' = Get p k'
}.

(** ** Settings of the libraries

    The options a driver sets in the configuration of its library, by the option's name. *)
Inductive setting_value :=
  SString (s : string) | SBool (b : bool) | SInt (z : Z) | SFloat (f : float64) | SDuration (ns : Z) | SMode (s : string).

Abbreviation settings := (list (string * setting_value)).

(** The getters that only the configurations use; [Must] ends the program when the
    property is missing. *)
Class MoreProperties (P : Type) := {
  GetUint64 : P → string → Z → Z;
  GetDuration : P → string → Z → Z;
  MustGetString : P → string → res string;
  MustGetInt : P → string → res Z
}.

(** ** A reference implementation *)

(** Key/value pairs, the latest setting of a key first. *)
Abbreviation ref_props := (list (string * string)).

Fixpoint assoc {A} (l : list (string * A)) (k : string) : option A :=
  match l with
  | [] => None
  | (k', v) :: l => if String.eqb k k' then Some v else assoc l k
  end.

Definition parse_bool (v : string) : bool :=
  let v := ToLower v in
  String.eqb v "1" || String.eqb v "true" || String.eqb v "yes" || String.eqb v "on".

(** Decimal literals [d...d.d...d]. *)
Definition parse_float (v : string) : option float64 :=
  match Split v "." with
  | [i] => f64_of_Z <$> parse_digits 0 i
  | [i; f] =>
      n ← parse_digits 0 (i +:+ f); Some (f64_lit n (Z.of_nat (String.length f)))
  | _ => None
  end.

Definition ref_int (p : ref_props) (k : string) (d : Z) : Z :=
  match assoc p k with
  | Some v => match ParseInt v with (z, None) => z | _ => d end
  | None => d
  end.

#[global] Instance ref_Properties : Properties ref_props := {
  Get p k := assoc p k;
  GetString p k d := default d (assoc p k);
  GetInt64 := ref_int;
  GetInt := ref_int;
  GetBool p k d := match assoc p k with Some v => parse_bool v | None => d end;
  GetFloat64 p k d := default d (assoc p k ≫= parse_float);
  Set_ p k v := (k, v) :: p;
  Set_error p k v := None
}.

Lemma ParseInt_range s z : ParseInt s = (z, None) → int64_ok z.
Proof. unfold ParseInt. intros. repeat case_match; simplify_eq; case_bool_decide; by simplify_eq. Qed.

#[global] Instance ref_PropertiesLaws : PropertiesLaws ref_props.
Proof.
  split; cbn; unfold ref_int; intros.
  - done.
  - by rewrite H.
  - case_match; [|done]. destruct (ParseInt _) as [z [e|]] eqn:E; [done|]. eauto using ParseInt_range.
  - by rewrite H.
  - by rewrite H.
  - by rewrite H.
  - by rewrite String.eqb_refl.
  - by rewrite (proj2 (String.eqb_neq _ _)) by congruence.
Qed.
