(* ===== verification/Row.v ===== *)
(** * pkg/util/row.go and the codec of pkg/util/core.go

    The TiDB-style row format: a sequence of (varint column id, length-prefixed
    value) pairs.  [encoding/binary]'s varints are translated bit by bit, slices that
    Go bounds-checks panic, and [RowCodec] maps field names to column ids. *)

From S2P Require Import Prelude GoFloat GoStr Props.

(** ** encoding/binary *)

(** [binary.MaxVarintLen64] *)
Definition MaxVarintLen64 : nat := 10.

(** [binary.PutUvarint]: at most [MaxVarintLen64] bytes for a [uint64]. *)
Fixpoint PutUvarint_go (fuel : nat) (x : Z) : bytes :=
  match fuel with
  | O => []
  | S f =>
      if 128 <=? x then byte_of_Z (Z.lor (x mod 256) 128) :: PutUvarint_go f (Z.shiftr x 7)
      else [byte_of_Z x]
  end.

Definition PutUvarint (x : Z) : bytes := PutUvarint_go MaxVarintLen64 x.

(** [ux := uint64(x) << 1; if x < 0 { ux = ^ux }] *)
Definition zigzag (x : Z) : Z :=
  let ux := u64 (Z.shiftl (u64 x) 1) in
  if x <? 0 then u64 (Z.lnot ux) else ux.

Definition PutVarint (x : Z) : bytes := PutUvarint (zigzag x).

(** [binary.Uvarint]: the value and the number of bytes read; 0 bytes when the buffer
    is too small, a negative count on overflow. *)
Fixpoint Uvarint_go (i : nat) (s x : Z) (buf : bytes) : Z * Z :=
  match buf with
  | [] => (0, 0)
  | b :: buf' =>
      if decide (i = MaxVarintLen64) then (0, - (Z.of_nat i + 1))
      else
        let v := byte_to_Z b in
        if v <? 128 then
          if bool_decide (i = 9%nat) && (1 <? v) then (0, - (Z.of_nat i + 1))
          else (Z.lor x (u64 (Z.shiftl v s)), Z.of_nat i + 1)
        else Uvarint_go (S i) (s + 7) (Z.lor x (u64 (Z.shiftl (Z.land v 127) s))) buf'
  end.

Definition Uvarint (buf : bytes) : Z * Z := Uvarint_go 0 0 0 buf.

(** [x := int64(ux >> 1); if ux&1 != 0 { x = ^x }] *)
Definition unzigzag (ux : Z) : Z :=
  let x := wrap64 (Z.shiftr ux 1) in
  if Z.land ux 1 =? 0 then x else wrap64 (Z.lnot x).

Definition Varint (buf : bytes) : Z * Z :=
  let '(ux, n) := Uvarint buf in (unzigzag ux, n).

(** ** row.go *)

Definition compactBytesFlag : byte := byte_of_Z 2.
Definition varintFlag : byte := byte_of_Z 8.

Definition appendVarint (b : bytes) (v : Z) : bytes := b ++ PutVarint v.

Definition encodeInt64 (b : bytes) (v : Z) : bytes := appendVarint (b ++ [varintFlag]) v.

Definition encodeBytes (b v : bytes) : bytes :=
  appendVarint (b ++ [compactBytesFlag]) (Z.of_nat (length v)) ++ v.

(** The loop [for i := range cols], over the columns and their ids. *)
Fixpoint encode_cols (valBuf : bytes) (cols : list bytes) (colIDs : list Z) : bytes :=
  match cols, colIDs with
  | c :: cols', i :: colIDs' => encode_cols (encodeBytes (encodeInt64 valBuf i) c) cols' colIDs'
  | _, _ => valBuf
  end.

Definition EncodeRow (cols : list bytes) (colIDs : list Z) (valBuf : bytes) : string + bytes :=
  if decide (length cols ≠ length colIDs) then
    inl ("EncodeRow error: cols and colIDs count not match " +:+
         FormatInt (Z.of_nat (length cols)) +:+ " vs " +:+ FormatInt (Z.of_nat (length colIDs)))
  else
    let valBuf := take 0 valBuf in
    if decide (length cols = 0%nat) then inr (valBuf ++ [x00])
    else inr (encode_cols valBuf cols colIDs).

(** [b[n:]] of a slice whose capacity is its length. *)
Definition slice_from (b : bytes) (n : Z) : res bytes :=
  if (0 <=? n) && (n <=? Z.of_nat (length b)) then Ok (drop (Z.to_nat n) b)
  else Panic "slice bounds out of range".

(** [b[:n]] *)
Definition slice_to (b : bytes) (n : Z) : res bytes :=
  if (0 <=? n) && (n <=? Z.of_nat (length b)) then Ok (take (Z.to_nat n) b)
  else Panic "slice bounds out of range".

Definition decodeVarint (b : bytes) : res (string + bytes * Z) :=
  let '(v, n) := Varint b in
  if 0 <? n then rest ← slice_from b n; mret (inr (rest, v))
  else if n <? 0 then mret (inl "value larger than 64 bits")
  else mret (inl "insufficient bytes to decode value").

Definition decodeInt64 (b : bytes) : res (string + bytes * Z) :=
  b1 ← slice_from b 1; decodeVarint b1.

Definition decodeBytes (b : bytes) : res (string + bytes * bytes) :=
  b1 ← slice_from b 1;
  r ← decodeVarint b1;
  match r with
  | inl err => mret (inl err)
  | inr (remain, n) =>
      if Z.of_nat (length remain) <? n then
        mret (inl ("insufficient bytes to decode value, expected length: " +:+ FormatInt n))
      else
        rest ← slice_from remain n;
        v ← slice_to remain n;
        mret (inr (rest, v))
  end.

(** The loop [for len(b) > 0]; every round consumes at least one byte, so the length
    of the row is enough fuel. *)
Fixpoint decode_loop (fuel : nat) (b : bytes) (row : gmap Z bytes)
    : res (gmap Z bytes * option string) :=
  match fuel with
  | O => mret (row, None)
  | S f =>
      if decide (b = []) then mret (row, None)
      else
        r ← decodeInt64 b;
        match r with
        | inl err => mret (row, Some err)
        | inr (remain, rowID) =>
            r' ← decodeBytes remain;
            match r' with
            | inl err => mret (row, Some err)
            | inr (remain', v) => decode_loop f remain' (<[rowID:=v]> row)
            end
        end
  end.

Definition DecodeRow (b : bytes) : res (gmap Z bytes * option string) :=
  if decide (length b = 0%nat) then mret (∅, None)
  else if decide (b = [x00]) then mret (∅, None)
  else decode_loop (length b) b ∅.

(** ** RowCodec (pkg/util/core.go) *)

Definition field_name (i : Z) : string := "field" +:+ FormatInt i.

(** [for i := int64(0); i < n; i++] *)
Definition range0 (n : Z) : list Z := seqZ 0 n.

Section codec.
Context {P : Type} `{Properties P}.

Definition createFieldIndices (p : P) : gmap string Z :=
  let fieldCount := GetInt64 p prop.FieldCount prop.FieldCountDefault in
  foldl (λ m i, <[field_name i := i]> m) ∅ (range0 fieldCount).

Definition allFields (p : P) : list string :=
  let fieldCount := GetInt64 p prop.FieldCount prop.FieldCountDefault in
  map field_name (range0 fieldCount).
End codec.

Record RowCodec := { fieldIndices : gmap string Z; fields : list string }.

Definition NewRowCodec `{Properties P} (p : P) : RowCodec :=
  {| fieldIndices := createFieldIndices p; fields := allFields p |}.

(** A Go map read of a missing key yields the zero value. *)
Definition field_index (r : RowCodec) (field : string) : Z := default 0 (fieldIndices r !! field).

Definition Decode (r : RowCodec) (row : bytes) (fs : list string)
    : res (string + gmap string bytes) :=
  let fs := if decide (length fs = 0%nat) then fields r else fs in
  d ← DecodeRow row;
  match d with
  | (_, Some err) => mret (inl err)
  | (data, None) =>
      mret (inr (foldl (λ res field,
        match data !! field_index r field with
        | Some v => <[field := v]> res
        | None => res
        end) ∅ fs))
  end.

(** The map [values] in the order the [range] statement visits it. *)
Definition Encode (r : RowCodec) (buf : bytes) (values : list (string * bytes)) : string + bytes :=
  EncodeRow (map snd values) (map (λ kv, field_index r kv.1) values) buf.

(** ** Varints *)

Lemma lor_low_high x k : 0 <= k → Z.lor (x mod 2 ^ k) (Z.shiftl (Z.shiftr x k) k) = x.
Proof.
  intros Hk. apply Z.bits_inj'. intros i Hi. rewrite Z.lor_spec, Z.shiftl_spec by done.
  destruct (decide (i < k)).
  - rewrite Z.mod_pow2_bits_low, (Z.testbit_neg_r _ (i - k)) by lia. by rewrite orb_false_r.
  - rewrite Z.mod_pow2_bits_high, Z.shiftr_spec by lia. cbn. f_equal. lia.
Qed.

Lemma cont_byte x :
  byte_to_Z (byte_of_Z (Z.lor (x mod 256) 128)) = 128 + x mod 128.
Proof.
  rewrite byte_to_of_Z.
  assert (Z.lor (x mod 256) 128 = 128 + x mod 128) as ->; [|rewrite Z.mod_small; Z.div_mod_to_equations; lia].
  replace (128 + x mod 128) with (Z.lor (x mod 128) 128).
  - apply Z.bits_inj'. intros i Hi. rewrite !Z.lor_spec.
    change 256 with (2 ^ 8). change 128 with (2 ^ 7).
    destruct (decide (i < 7)); [by rewrite !Z.mod_pow2_bits_low by lia|].
    destruct (decide (i = 7)) as [->|]; [by rewrite Z.pow2_bits_true, !orb_true_r|].
    by rewrite !Z.mod_pow2_bits_high by lia.
  - rewrite Z.lor_comm. symmetry. rewrite <- Z.lxor_lor, <- Z.add_nocarry_lxor; try done.
    all: change 128 with (2 ^ 7); apply Z.bits_inj'; intros i Hi;
      rewrite Z.land_spec, Z.bits_0;
      destruct (decide (i = 7)) as [->|]; [by rewrite Z.mod_pow2_bits_high, andb_false_r by lia|];
      by rewrite Z.pow2_bits_false by lia.
Qed.

Lemma cont_byte_low x : Z.land (128 + x mod 128) 127 = x mod 128.
Proof.
  change 127 with (Z.ones 7). rewrite Z.land_ones by lia. change (2 ^ 7) with 128.
  Z.div_mod_to_equations. lia.
Qed.

Lemma shiftl_small v s : 0 <= s → 0 <= v → v * 2 ^ s < two64 → u64 (Z.shiftl v s) = v * 2 ^ s.
Proof. intros. unfold u64. rewrite Z.shiftl_mul_pow2, Z.mod_small; [done| |done]. nia. Qed.

Lemma PutUvarint_go_not_nil fuel x : fuel ≠ 0%nat → PutUvarint_go fuel x ≠ [].
Proof. destruct fuel; [done|]. intros _. cbn. by case_match. Qed.

Lemma Uvarint_go_put i x acc rest :
  (i ≤ 9)%nat → 0 <= x < 2 ^ (64 - 7 * Z.of_nat i) →
  Uvarint_go i (7 * Z.of_nat i) acc (PutUvarint_go (10 - i) x ++ rest) =
  (Z.lor acc (Z.shiftl x (7 * Z.of_nat i)),
   Z.of_nat (i + length (PutUvarint_go (10 - i) x))).
Proof.
  remember (10 - i)%nat as f eqn:Hf. revert i x acc Hf.
  induction f as [|f IH]; intros i x acc Hf Hi Hx; [lia|].
  assert (x * 2 ^ (7 * Z.of_nat i) < two64) as Hov.
  { change two64 with (2 ^ 64).
    replace 64 with ((64 - 7 * Z.of_nat i) + 7 * Z.of_nat i) by lia.
    rewrite Z.pow_add_r by lia. apply Z.mul_lt_mono_pos_r; [apply Z.pow_pos_nonneg; lia|lia]. }
  cbn [PutUvarint_go]. destruct (Z.leb_spec 128 x).
  - assert (i < 9)%nat as Hi9.
    { destruct (decide (i = 9%nat)) as [->|]; [|lia]. change (2 ^ _) with 2 in Hx. lia. }
    cbn [app Uvarint_go length]. rewrite decide_False by (unfold MaxVarintLen64; lia).
    rewrite cont_byte, (proj2 (Z.ltb_ge _ 128)) by (Z.div_mod_to_equations; lia).
    replace (7 * Z.of_nat i + 7) with (7 * Z.of_nat (S i)) by lia.
    rewrite IH; [|lia|lia|].
    + rewrite cont_byte_low, shiftl_small; [|lia|apply Z.mod_pos_bound; lia|].
      * f_equal; [|lia].
        rewrite <- Z.shiftl_mul_pow2, <- Z.lor_assoc by lia. f_equal.
        replace (7 * Z.of_nat (S i)) with (7 + 7 * Z.of_nat i) by lia.
        rewrite <- Z.shiftl_shiftl, <- Z.shiftl_lor by lia. f_equal.
        change 128 with (2 ^ 7). apply lor_low_high. lia.
      * eapply Z.le_lt_trans; [|exact Hov].
        apply Z.mul_le_mono_nonneg_r; [apply Z.pow_nonneg; lia|apply Z.mod_le; lia].
    + rewrite Z.shiftr_div_pow2 by lia.
      replace (64 - 7 * Z.of_nat i) with (7 + (64 - 7 * Z.of_nat (S i))) in Hx by lia.
      rewrite Z.pow_add_r in Hx by lia. split; [apply Z.div_pos; lia|].
      apply Z.div_lt_upper_bound; lia.
  - cbn [app Uvarint_go length]. rewrite decide_False by (unfold MaxVarintLen64; lia).
    rewrite byte_to_of_Z, Z.mod_small by lia.
    rewrite (proj2 (Z.ltb_lt x 128)) by lia.
    replace (bool_decide (i = 9%nat) && (1 <? x)) with false.
    + rewrite shiftl_small, Z.shiftl_mul_pow2 by lia. f_equal. lia.
    + case_bool_decide as Hi9; [|done]. subst i. change (2 ^ _) with 2 in Hx.
      symmetry. apply Z.ltb_ge. lia.
Qed.

Lemma Uvarint_PutUvarint x rest :
  0 <= x < two64 → Uvarint (PutUvarint x ++ rest) = (x, Z.of_nat (length (PutUvarint x))).
Proof.
  intros Hx. unfold Uvarint, PutUvarint.
  pose proof (Uvarint_go_put 0 x 0 rest ltac:(lia) Hx) as H.
  change (10 - 0)%nat with MaxVarintLen64 in H. change (7 * Z.of_nat 0) with 0 in H.
  rewrite H. by rewrite Z.shiftl_0_r, Z.lor_0_l.
Qed.

Lemma zigzag_nonneg x : 0 <= x <= max_int64 → zigzag x = 2 * x.
Proof.
  intros Hx. unfold zigzag. rewrite (proj2 (Z.ltb_ge x 0)) by lia.
  rewrite Z.shiftl_mul_pow2 by lia. change (2 ^ 1) with 2. unfold_width.
  rewrite (Z.mod_small x) by lia. rewrite Z.mod_small; lia.
Qed.

Lemma zigzag_neg x : min_int64 <= x < 0 → zigzag x = - 2 * x - 1.
Proof.
  intros Hx. unfold zigzag. rewrite (proj2 (Z.ltb_lt x 0)) by lia.
  rewrite Z.shiftl_mul_pow2 by lia. unfold Z.lnot, u64. change (2 ^ 1) with 2.
  assert ((x mod two64 * 2) mod two64 = two64 + 2 * x) as ->; [width|].
  replace (Z.pred (- (two64 + 2 * x))) with (- 2 * x - 1 + (-1) * two64) by lia.
  rewrite Z.mod_add, Z.mod_small; width.
Qed.

Lemma unzigzag_zigzag x : int64_ok x → unzigzag (zigzag x) = x.
Proof.
  intros Hx. unfold unzigzag. change (Z.land ?a 1) with (Z.land a (Z.ones 1)). rewrite Z.land_ones by lia.
  rewrite Z.shiftr_div_pow2 by lia. change (2 ^ 1) with 2. unfold int64_ok in Hx.
  destruct (decide (0 <= x)).
  - rewrite zigzag_nonneg by lia. rewrite Z.mul_comm, Z.mod_mul, Z.div_mul by lia.
    cbn. apply wrap64_id. done.
  - rewrite zigzag_neg by lia.
    replace (- 2 * x - 1) with (1 + (- x - 1) * 2) by lia.
    rewrite Z.mod_add, Z.div_add by lia. change (1 mod 2) with 1. change (1 / 2) with 0.
    cbn [Z.eqb]. rewrite (wrap64_id (0 + _)) by width. unfold Z.lnot.
    rewrite wrap64_id; width.
Qed.

Lemma zigzag_range x : 0 <= zigzag x < two64.
Proof. unfold zigzag. case_match; apply u64_range. Qed.

Lemma Varint_PutVarint x rest :
  int64_ok x → Varint (PutVarint x ++ rest) = (x, Z.of_nat (length (PutVarint x))).
Proof.
  intros Hx. unfold Varint, PutVarint. rewrite Uvarint_PutUvarint by apply zigzag_range.
  by rewrite unzigzag_zigzag.
Qed.

(** ** Rows *)

Lemma slice_from_app (b1 b2 : bytes) : slice_from (b1 ++ b2) (Z.of_nat (length b1)) = Ok b2.
Proof.
  unfold slice_from. rewrite length_app, (proj2 (Z.leb_le 0 _)), (proj2 (Z.leb_le _ _)) by lia.
  cbn. by rewrite Nat2Z.id, drop_app_length.
Qed.

Lemma slice_to_app (b1 b2 : bytes) : slice_to (b1 ++ b2) (Z.of_nat (length b1)) = Ok b1.
Proof.
  unfold slice_to. rewrite length_app, (proj2 (Z.leb_le 0 _)), (proj2 (Z.leb_le _ _)) by lia.
  cbn. by rewrite Nat2Z.id, take_app_length.
Qed.

Lemma decodeVarint_put x rest :
  int64_ok x → decodeVarint (PutVarint x ++ rest) = Ok (inr (rest, x)).
Proof.
  intros Hx. unfold decodeVarint. rewrite Varint_PutVarint by done.
  assert (0 < Z.of_nat (length (PutVarint x))) as Hpos.
  { pose proof (PutUvarint_go_not_nil MaxVarintLen64 (zigzag x) ltac:(done)) as Hn.
    unfold PutVarint, PutUvarint. destruct (PutUvarint_go _ _); [done|cbn; lia]. }
  rewrite (proj2 (Z.ltb_lt 0 _)) by done. by rewrite slice_from_app.
Qed.

Lemma slice_from_1 (c : byte) (b : bytes) : slice_from (c :: b) 1 = Ok b.
Proof. change (c :: b) with ([c] ++ b). apply (slice_from_app [c]). Qed.

Lemma decodeInt64_enc c x rest :
  int64_ok x → decodeInt64 (c :: PutVarint x ++ rest) = Ok (inr (rest, x)).
Proof. intros. unfold decodeInt64. rewrite slice_from_1. by apply decodeVarint_put. Qed.

Lemma decodeBytes_enc c v rest :
  Z.of_nat (length v) <= max_int64 →
  decodeBytes (c :: PutVarint (Z.of_nat (length v)) ++ v ++ rest) = Ok (inr (rest, v)).
Proof.
  intros Hv. unfold decodeBytes. rewrite slice_from_1. cbn [mbind res_bind].
  rewrite decodeVarint_put by width. cbn [mbind res_bind].
  rewrite length_app, (proj2 (Z.ltb_ge _ _)) by lia.
  by rewrite slice_from_app, slice_to_app.
Qed.

(** The bytes of one encoded column. *)
Definition enc_col (i : Z) (c : bytes) : bytes :=
  varintFlag :: PutVarint i ++ compactBytesFlag :: PutVarint (Z.of_nat (length c)) ++ c.

Lemma encode_cols_app valBuf cols ids :
  encode_cols valBuf cols ids = valBuf ++ mjoin (zip_with enc_col ids cols).
Proof.
  revert valBuf ids. induction cols as [|c cols IH]; intros valBuf [|i ids];
    cbn; rewrite ?app_nil_r; try done.
  rewrite IH. unfold encodeBytes, encodeInt64, appendVarint, enc_col.
  rewrite <- !app_assoc. cbn [app]. by rewrite <- !app_assoc.
Qed.

(** What [DecodeRow] can represent: [int64] ids and values whose length is one. *)
Definition col_ok (ic : Z * bytes) : Prop :=
  int64_ok ic.1 ∧ Z.of_nat (length ic.2) <= max_int64.

Lemma decode_loop_enc ics fuel row :
  Forall col_ok ics → (length (mjoin (map (λ ic, enc_col ic.1 ic.2) ics)) ≤ fuel)%nat →
  decode_loop fuel (mjoin (map (λ ic, enc_col ic.1 ic.2) ics)) row =
  Ok (foldl (λ m ic, <[ic.1 := ic.2]> m) row ics, None).
Proof.
  intros Hok. revert fuel row. induction Hok as [|[i c] ics [Hi Hc] Hok IH]; intros fuel row Hf.
  - by destruct fuel.
  - cbn [map mjoin foldl] in *. cbn [mjoin list_join] in *. set (tl := mjoin _) in *.
    rewrite length_app in Hf. destruct fuel as [|f].
    { unfold enc_col in Hf. cbn in Hf. lia. }
    cbn [decode_loop]. rewrite decide_False by done.
    unfold enc_col at 1. cbn [fst snd app]. rewrite <- app_assoc, decodeInt64_enc by done.
    cbn [mbind res_bind app]. rewrite <- app_assoc, decodeBytes_enc by done.
    cbn [mbind res_bind fst snd]. apply IH.
    unfold enc_col in Hf. cbn [length fst snd] in Hf. lia.
Qed.

(** *** Termination of the decoding loop *)

Lemma slice_from_length b n b' : slice_from b n = Ok b' → 0 < n → (length b' < length b)%nat.
Proof.
  unfold slice_from. destruct (_ && _) eqn:E; [|done]. intros [= <-] Hn.
  apply andb_true_iff in E as [_ E%Z.leb_le]. rewrite length_drop. lia.
Qed.

Lemma slice_from_length_le b n b' : slice_from b n = Ok b' → (length b' ≤ length b)%nat.
Proof.
  unfold slice_from. destruct (_ && _); [|done]. intros [= <-]. rewrite length_drop. lia.
Qed.

Lemma decodeVarint_length b r v :
  decodeVarint b = Ok (inr (r, v)) → (length r < length b)%nat.
Proof.
  unfold decodeVarint. destruct (Varint b) as [x n]. destruct (Z.ltb_spec 0 n); [|by case_match].
  unfold mbind, res_bind. destruct (slice_from b n) eqn:E; try done. intros [= <- <-].
  eauto using slice_from_length.
Qed.

Lemma decodeInt64_length b r v :
  decodeInt64 b = Ok (inr (r, v)) → (length r < length b)%nat.
Proof.
  unfold decodeInt64, mbind, res_bind. destruct (slice_from b 1) as [b1|?|?|] eqn:E; try done.
  intros ?%decodeVarint_length. apply slice_from_length_le in E. lia.
Qed.

Lemma decodeBytes_length b r v :
  decodeBytes b = Ok (inr (r, v)) → (length r < length b)%nat.
Proof.
  unfold decodeBytes, mbind, res_bind. destruct (slice_from b 1) as [b1|?|?|] eqn:E; try done.
  destruct (decodeVarint b1) as [[?|[r1 n]]|?|?|] eqn:E1; try done.
  case_match; [done|]. destruct (slice_from r1 n) as [r2|?|?|] eqn:E2; try done.
  destruct (slice_to r1 n); try done. intros [= <- <-].
  apply slice_from_length_le in E, E2. apply decodeVarint_length in E1. lia.
Qed.

(** The loop of [DecodeRow] terminates within as many rounds as the row has
    bytes: giving it more rounds never changes its outcome, on any input. *)
Lemma decode_loop_fuel f b row :
  (length b ≤ f)%nat → decode_loop f b row = decode_loop (length b) b row.
Proof.
  remember (length b) as n eqn:Hn. revert f b row Hn.
  induction n as [n IH] using lt_wf_ind; intros f b row -> Hf.
  destruct f as [|f]; [by replace (length b) with 0%nat by lia|].
  destruct b as [|c b]; [done|]. cbn [length] in *. cbn [decode_loop].
  rewrite !decide_False by done. unfold mbind, res_bind.
  destruct (decodeInt64 (c :: b)) as [[?|[r i]]|?|?|] eqn:E1; try done.
  destruct (decodeBytes r) as [[?|[r' v]]|?|?|] eqn:E2; try done.
  apply decodeInt64_length in E1. apply decodeBytes_length in E2. cbn [length] in E1.
  rewrite (IH (length r') ltac:(lia) f r' _ eq_refl ltac:(lia)).
  by rewrite (IH (length r') ltac:(lia) (length b) r' _ eq_refl ltac:(lia)).
Qed.

(** *** Round trips *)

Lemma foldl_insert_NoDup {A} (ics : list (Z * A)) (m : gmap Z A) :
  NoDup ics.*1 → foldl (λ m ic, <[ic.1 := ic.2]> m) m ics = list_to_map ics ∪ m.
Proof.
  revert m. induction ics as [|[i c] ics IH]; intros m Hnd; cbn [foldl].
  - by rewrite list_to_map_nil, (left_id_L ∅ (∪)).
  - apply list.NoDup_cons in Hnd as [Hni Hnd]. rewrite IH by done. cbn [fst snd]. rewrite list_to_map_cons.
    by rewrite <- insert_union_l, <- insert_union_r by (by apply not_elem_of_list_to_map_1).
Qed.

Lemma encode_cols_pairs ics :
  encode_cols [] (map snd ics) (map fst ics) = mjoin (map (λ ic, enc_col ic.1 ic.2) ics).
Proof.
  rewrite encode_cols_app. cbn [app]. f_equal.
  induction ics as [|[i c] ics IH]; cbn; [done|by f_equal].
Qed.

Lemma EncodeRow_DecodeRow ics buf :
  Forall col_ok ics → NoDup ics.*1 →
  ∃ row, EncodeRow (map snd ics) (map fst ics) buf = inr row
    ∧ DecodeRow row = Ok (list_to_map ics, None).
Proof.
  intros Hok Hnd. unfold EncodeRow. rewrite decide_False by (rewrite !length_map; lia).
  destruct ics as [|ic ics].
  - exists [x00]. done.
  - rewrite decide_False by done. eexists. split; [done|].
    rewrite take_0, encode_cols_pairs. set (l := ic :: ics) in *.
    unfold DecodeRow. rewrite decide_False by done.
    rewrite decide_False by (unfold l; cbn; done).
    rewrite decode_loop_enc by done.
    by rewrite foldl_insert_NoDup, (right_id_L ∅ (∪)) by done.
Qed.

(** [DecodeRow] inverts [EncodeRow]: any row of distinct [int64] column ids,
    encoded into whatever scratch buffer, decodes without error to exactly those
    columns (the layout of [TestCodec], for all rows). *)
Lemma row_roundtrip cols ids buf :
  length cols = length ids → NoDup ids →
  Forall int64_ok ids → Forall (λ c, Z.of_nat (length c) <= max_int64) cols →
  ∃ row, EncodeRow cols ids buf = inr row
    ∧ DecodeRow row = Ok (list_to_map (zip ids cols), None).
Proof.
  intros Hlen Hnd Hids Hcols.
  assert (map fst (zip ids cols) = ids) as E1 by (apply (fst_zip ids cols); lia).
  assert (map snd (zip ids cols) = cols) as E2 by (apply (snd_zip ids cols); lia).
  replace (EncodeRow cols ids buf) with
    (EncodeRow (map snd (zip ids cols)) (map fst (zip ids cols)) buf) by (by rewrite E1, E2).
  apply EncodeRow_DecodeRow; [|change ((zip ids cols).*1) with (map fst (zip ids cols)); by rewrite E1].
  clear -Hlen Hids Hcols. revert cols Hlen Hcols.
  induction Hids as [|i ids Hi _ IH]; intros [|c cols] Hlen Hcols; cbn in *; try done.
  inversion_clear Hcols. constructor; [done|]. apply IH; [lia|done].
Qed.

(** ** The codec *)

Lemma field_name_inj i j : field_name i = field_name j → i = j.
Proof. intros H%string_app_inj_l. by apply FormatInt_inj. Qed.

Lemma lookup_field_indices l i (m : gmap string Z) :
  foldl (λ m i, <[field_name i := i]> m) m l !! field_name i =
  if decide (i ∈ l) then Some i else m !! field_name i.
Proof.
  revert m. induction l as [|j l IH]; intros m; cbn [foldl]; [by rewrite decide_False by set_solver|].
  rewrite IH. destruct (decide (i ∈ l)); [by rewrite decide_True by set_solver|].
  destruct (decide (i = j)) as [->|Hne]; [by rewrite decide_True, lookup_insert_eq by set_solver|].
  rewrite decide_False by set_solver. apply lookup_insert_ne. by intros ?%field_name_inj.
Qed.

Lemma lookup_field_indices_other l f (m : gmap string Z) :
  (∀ i, i ∈ l → field_name i ≠ f) →
  foldl (λ m i, <[field_name i := i]> m) m l !! f = m !! f.
Proof.
  revert m. induction l as [|j l IH]; intros m Hf; cbn [foldl]; [done|].
  rewrite IH by set_solver. apply lookup_insert_ne. apply Hf. set_solver.
Qed.

Section codec_facts.
Context {P : Type} `{Properties P}.
Implicit Types p : P.

Lemma elem_of_allFields p f :
  f ∈ fields (NewRowCodec p) ↔
  ∃ i, f = field_name i ∧ 0 <= i < GetInt64 p prop.FieldCount prop.FieldCountDefault.
Proof.
  cbn. unfold allFields. rewrite list_elem_of_fmap.
  split; intros (i & -> & Hi); exists i; unfold range0 in *; rewrite ?elem_of_seqZ in *; split; try done; lia.
Qed.

Lemma field_index_known p i :
  0 <= i < GetInt64 p prop.FieldCount prop.FieldCountDefault →
  field_index (NewRowCodec p) (field_name i) = i.
Proof.
  intros Hi. unfold field_index. cbn. unfold createFieldIndices.
  rewrite lookup_field_indices, decide_True; [done|]. unfold range0. apply elem_of_seqZ. lia.
Qed.

Lemma field_index_unknown p f :
  f ∉ fields (NewRowCodec p) → field_index (NewRowCodec p) f = 0.
Proof.
  intros Hf. unfold field_index. cbn. unfold createFieldIndices.
  rewrite lookup_field_indices_other, lookup_empty; [done|].
  intros i Hi <-. apply Hf, elem_of_allFields. exists i. split; [done|].
  unfold range0 in Hi. apply elem_of_seqZ in Hi. lia.
Qed.

Lemma field_index_inj p f g :
  f ∈ fields (NewRowCodec p) → g ∈ fields (NewRowCodec p) →
  field_index (NewRowCodec p) f = field_index (NewRowCodec p) g → f = g.
Proof.
  rewrite !elem_of_allFields. intros (i & -> & Hi) (j & -> & Hj).
  rewrite !field_index_known by done. by intros ->.
Qed.
End codec_facts.

Lemma decode_fields_lookup (f : string → option bytes) fs (m : gmap string bytes) g :
  foldl (λ res field, match f field with Some v => <[field := v]> res | None => res end) m fs !! g
  = if decide (g ∈ fs) then f g ∪ m !! g else m !! g.
Proof.
  revert m. induction fs as [|h fs IH]; intros m; cbn [foldl]; [by rewrite decide_False by set_solver|].
  rewrite IH. destruct (decide (g = h)) as [->|Hne].
  - rewrite (decide_True (P := h ∈ h :: fs)) by set_solver.
    destruct (f h) as [v|] eqn:E; [rewrite lookup_insert_eq|]; by case_decide; destruct (m !! h).
  - assert (match f h with Some v => <[h := v]> m | None => m end !! g = m !! g) as ->.
    { destruct (f h); [|done]. by apply lookup_insert_ne. }
    destruct (decide (g ∈ fs)); [by rewrite decide_True by set_solver|].
    by rewrite decide_False by set_solver.
Qed.

Section codec_roundtrip.
Context {P : Type} `{PropertiesLaws P}.
Implicit Types p : P.

Lemma fieldCount_range p : int64_ok (GetInt64 p prop.FieldCount prop.FieldCountDefault).
Proof. apply GetInt64_range. done. Qed.

Lemma codec_columns p (values : gmap string bytes) kvs :
  kvs ≡ₚ map_to_list values →
  (∀ f, f ∈ dom values → f ∈ fields (NewRowCodec p)) →
  map_Forall (λ _ v, Z.of_nat (length v) <= max_int64) values →
  let ics := map (λ kv, (field_index (NewRowCodec p) kv.1, kv.2)) kvs in
  Forall col_ok ics ∧ NoDup ics.*1
  ∧ ∀ f, f ∈ fields (NewRowCodec p) →
      (list_to_map ics : gmap Z bytes) !! field_index (NewRowCodec p) f = values !! f.
Proof.
  intros Hp Hdom Hlen ics.
  assert (∀ k v, (k, v) ∈ kvs ↔ values !! k = Some v) as Hin
    by (intros; by rewrite Hp, elem_of_map_to_list).
  assert (NoDup ics.*1) as Hnd.
  { assert (NoDup kvs.*1) as Hk by (rewrite Hp; apply NoDup_fst_map_to_list).
    subst ics. rewrite <- list_fmap_compose.
    assert (∀ k, k ∈ kvs.*1 → k ∈ fields (NewRowCodec p)) as Hkn.
    { intros k ([k' v] & -> & Hkv)%list_elem_of_fmap. apply Hdom, elem_of_dom. exists v. by apply Hin. }
    clear -Hk Hkn. induction kvs as [|[k v] kvs IH]; [constructor|].
    cbn in *. apply list.NoDup_cons in Hk as [Hni Hk]. apply list.NoDup_cons. split.
    - intros ([k' v'] & Heq & Hin)%list_elem_of_fmap. cbn in Heq.
      apply field_index_inj in Heq; [|apply Hkn; set_solver|].
      + subst k'. apply Hni, list_elem_of_fmap. by exists (k, v').
      + apply Hkn. apply list_elem_of_further, list_elem_of_fmap. by exists (k', v').
    - apply IH; [done|]. intros. apply Hkn. set_solver. }
  split_and!; [|done|].
  - apply list.Forall_forall. intros [i c] ([k v] & [= -> ->] & Hkv)%list_elem_of_fmap.
    cbn in *. apply Hin in Hkv. split; cbn; [|by apply (Hlen k)].
    assert (k ∈ fields (NewRowCodec p)) as (j & -> & Hj)%elem_of_allFields
      by (apply Hdom, elem_of_dom; eauto).
    rewrite field_index_known by done. pose proof (fieldCount_range p). width.
  - intros f Hf. destruct (values !! f) as [v|] eqn:E.
    + apply elem_of_list_to_map_1; [done|]. apply list_elem_of_fmap. exists (f, v).
      split; [done|]. by apply Hin.
    + apply not_elem_of_list_to_map_1. intros (ic & Hi & Hic)%list_elem_of_fmap.
      apply list_elem_of_fmap in Hic as ([k v] & -> & Hkv). cbn in *.
      apply Hin in Hkv. apply field_index_inj in Hi; [|done|apply Hdom, elem_of_dom; eauto].
      subst k. congruence.
Qed.

(** Encoding and decoding a row. *)
Lemma Encode_Decode p (values : gmap string bytes) kvs buf fs :
  kvs ≡ₚ map_to_list values →
  (∀ f, f ∈ dom values → f ∈ fields (NewRowCodec p)) →
  map_Forall (λ _ v, Z.of_nat (length v) <= max_int64) values →
  (∀ f, f ∈ fs → f ∈ fields (NewRowCodec p)) →
  ∃ row, Encode (NewRowCodec p) buf kvs = inr row
    ∧ Decode (NewRowCodec p) row fs =
      Ok (inr (if decide (fs = []) then values else filter (λ kv, kv.1 ∈ fs) values)).
Proof.
  intros Hp Hdom Hlen Hfs.
  destruct (codec_columns p values kvs Hp Hdom Hlen) as (Hok & Hnd & Hlook).
  set (ics := map _ kvs) in *.
  destruct (EncodeRow_DecodeRow ics buf Hok Hnd) as (row & Henc & Hdec).
  exists row. split.
  { unfold Encode. rewrite <- Henc. unfold ics. by rewrite !map_map. }
  unfold Decode. rewrite Hdec. unfold mbind, res_bind, mret, res_ret. do 2 f_equal.
  apply map_eq. intros g. rewrite decode_fields_lookup, lookup_empty.
  destruct fs as [|f fs]; cbn [length].
  - rewrite (decide_True (P := 0%nat = 0%nat)), (decide_True (P := [] = [])) by done.
    case_decide as Hg.
    + rewrite Hlook by done. by destruct (values !! g).
    + symmetry. apply not_elem_of_dom. auto.
  - rewrite !(decide_False (P := _ = _)) by done. rewrite map_lookup_filter. case_decide as Hg.
    + rewrite Hlook by auto. destruct (values !! g); cbn; [|done]. by rewrite option_guard_True.
    + destruct (values !! g); cbn; [|done]. by rewrite option_guard_False.
Qed.

(** C14: The codec round trip: a record whose fields are the workload's, encoded in
    any iteration order of the Go map and into any scratch buffer, decodes to the
    record restricted to the requested fields (all fields when none are named). *)
Theorem codec_roundtrip p (values : gmap string bytes) kvs buf fs :
  kvs ≡ₚ map_to_list values →
  (∀ f, f ∈ dom values → f ∈ fields (NewRowCodec p)) →
  map_Forall (λ _ v, Z.of_nat (length v) <= max_int64) values →
  (∀ f, f ∈ fs → f ∈ fields (NewRowCodec p)) →
  ∃ row, Encode (NewRowCodec p) buf kvs = inr row
    ∧ Decode (NewRowCodec p) row fs =
      Ok (inr (if decide (fs = []) then values else filter (λ kv, kv.1 ∈ fs) values)).
Proof. apply Encode_Decode. Qed.
End codec_roundtrip.

Definition demo_props : ref_props := [(prop.FieldCount, "3")].

Lemma codec_roundtrip_witness :
  ∃ row, Encode (NewRowCodec demo_props) [xff]
           (map_to_list ({["field2" := [x61]; "field0" := [x62; x63]]} : gmap string bytes)) = inr row
    ∧ Decode (NewRowCodec demo_props) row ["field0"] =
      Ok (inr (if decide (["field0"] = []) then {["field2" := [x61]; "field0" := [x62; x63]]}
               else filter (λ kv : string * bytes, kv.1 ∈ ["field0"])
                 {["field2" := [x61]; "field0" := [x62; x63]]})).
Proof.
  apply (codec_roundtrip demo_props {["field2" := [x61]; "field0" := [x62; x63]]}).
  - done.
  - intros f. rewrite dom_insert_L, dom_singleton_L.
    change (fields (NewRowCodec demo_props)) with ["field0"; "field1"; "field2"]. set_solver.
  - apply map_Forall_insert_2; [done|]. by apply map_Forall_singleton.
  - change (fields (NewRowCodec demo_props)) with ["field0"; "field1"; "field2"]. set_solver.
Defined.

(** A field the codec does not know is read and written as column 0: [Decode]
    asked for it returns the value of [field0] under the unknown name. *)
Lemma codec_unknown_field `{PropertiesLaws P} (p : P) (values : gmap string bytes) kvs buf f :
  kvs ≡ₚ map_to_list values →
  (∀ f, f ∈ dom values → f ∈ fields (NewRowCodec p)) →
  map_Forall (λ _ v, Z.of_nat (length v) <= max_int64) values →
  f ∉ fields (NewRowCodec p) → field_name 0 ∈ fields (NewRowCodec p) →
  ∃ row, Encode (NewRowCodec p) buf kvs = inr row
    ∧ ∃ m, Decode (NewRowCodec p) row [f] = Ok (inr m) ∧ m !! f = values !! field_name 0.
Proof.
  intros Hp Hdom Hlen Hf Hf0.
  destruct (codec_columns p values kvs Hp Hdom Hlen) as (Hok & Hnd & Hlook).
  set (ics := map _ kvs) in *.
  destruct (EncodeRow_DecodeRow ics buf Hok Hnd) as (row & Henc & Hdec).
  exists row. split.
  { unfold Encode. rewrite <- Henc. unfold ics. by rewrite !map_map. }
  unfold Decode. rewrite decide_False by done. rewrite Hdec. unfold mbind, res_bind.
  eexists. split; [done|]. rewrite decode_fields_lookup, decide_True by set_solver.
  rewrite field_index_unknown, lookup_empty by done.
  apply elem_of_allFields in Hf0 as Hr. destruct Hr as (i & <-%field_name_inj & Hr).
  rewrite <- (Hlook _ Hf0), field_index_known by done. by destruct (_ !! 0).
Qed.

(** A row cut off after a column id makes [DecodeRow] panic on the slice
    expression of [decodeBytes] instead of returning its "insufficient bytes" error,
    whatever the id. *)
Lemma decode_truncated_panics i :
  int64_ok i → DecodeRow (encodeInt64 [] i) = Panic "slice bounds out of range".
Proof.
  intros Hi. unfold encodeInt64, appendVarint. cbn [app].
  unfold DecodeRow. rewrite !decide_False by done. cbn [length decode_loop].
  rewrite decide_False by done. rewrite <- (app_nil_r (PutVarint i)), decodeInt64_enc by done. done.
Qed.

