(* ===== verification/Generators.v ===== *)
(** * pkg/generator: the request and value distributions

    Every generator is a record with the Go struct's fields; [T_Next g] runs in the
    random source and returns the value together with the updated generator, [T_Last]
    reads it.  [math/rand] is [GoRand], [float64] is [GoFloat].
    [AcknowledgedCounter] is in [AckCounter.v], the zipfian family in [Zipfian.v]. *)

From S2P Require Import Prelude GoFloat GoRand GoStr.

(** ** number.go *)

Record Number := { LastValue : Z }.

Definition SetLastValue (n : Number) (value : Z) : Number := {| LastValue := value |}.
Definition Number_Last (n : Number) : Z := LastValue n.

(** ** constant.go *)

Record Constant := { constant_value : Z }.

Definition NewConstant (value : Z) : Constant := {| constant_value := value |}.
Definition Constant_Next (c : Constant) : M rand (Z * Constant) := mret (constant_value c, c).
Definition Constant_Last (c : Constant) : Z := constant_value c.

(** ** counter.go *)

Record Counter := { counter : Z }.

Definition NewCounter (start : Z) : Counter := {| counter := start |}.

(** [atomic.AddInt64(&c.counter, 1) - 1] *)
Definition Counter_Next (c : Counter) : M rand (Z * Counter) :=
  let c' := {| counter := counter c +! 1 |} in
  mret (counter c' -! 1, c').

Definition Counter_Last (c : Counter) : Z := counter c -! 1.

(** ** sequential.go *)

Record Sequential := { seq_counter : Z; seq_interval : Z; seq_start : Z }.

Definition NewSequential (countStart countEnd : Z) : Sequential :=
  {| seq_counter := 0; seq_interval := countEnd -! countStart +! 1; seq_start := countStart |}.

Definition Sequential_Next (s : Sequential) : M rand (Z * Sequential) :=
  let c := seq_counter s +! 1 in
  if seq_interval s =? 0 then panic "runtime error: integer divide by zero"
  else mret (seq_start s +! Z.rem c (seq_interval s),
             {| seq_counter := c; seq_interval := seq_interval s; seq_start := seq_start s |}).

Definition Sequential_Last (s : Sequential) : Z := seq_counter s +! 1.

(** ** uniform.go *)

Record Uniform := { uni_last : Number; lb : Z; ub : Z; uni_interval : Z }.

Definition NewUniform (l u : Z) : Uniform :=
  {| uni_last := {| LastValue := 0 |}; lb := l; ub := u; uni_interval := u -! l +! 1 |}.

Definition Uniform_Next (u : Uniform) : M rand (Z * Uniform) :=
  v ← Int63n (uni_interval u);
  let n := v +! lb u in
  mret (n, {| uni_last := SetLastValue (uni_last u) n; lb := lb u; ub := ub u;
              uni_interval := uni_interval u |}).

Definition Uniform_Last (u : Uniform) : Z := Number_Last (uni_last u).

(** ** hotspot.go *)

Record Hotspot := {
  hot_last : Number; lowerBound : Z; upperBound : Z;
  hotInterval : Z; coldInterval : Z;
  hotsetFraction : float64; hotOpnFraction : float64
}.

Definition out_of_unit (f : float64) : bool := f64_ltb f f64_zero || f64_ltb f64_one f.

Definition NewHotspot (lower upper : Z) (setFraction opnFraction : float64) : Hotspot :=
  let setFraction := if out_of_unit setFraction then f64_zero else setFraction in
  let opnFraction := if out_of_unit opnFraction then f64_zero else opnFraction in
  let '(lower, upper) := if upper <? lower then (upper, lower) else (lower, upper) in
  let interval := upper -! lower +! 1 in
  let hot := f64_to_int64 (f64_mul (f64_of_Z interval) setFraction) in
  {| hot_last := {| LastValue := 0 |}; lowerBound := lower; upperBound := upper;
     hotInterval := hot; coldInterval := interval -! hot;
     hotsetFraction := setFraction; hotOpnFraction := opnFraction |}.

Definition Hotspot_Next (h : Hotspot) : M rand (Z * Hotspot) :=
  f ← Float64;
  value ← (if f64_ltb f (hotOpnFraction h) then
             v ← Int63n (hotInterval h); mret (lowerBound h +! v)
           else
             v ← Int63n (coldInterval h); mret (lowerBound h +! hotInterval h +! v));
  mret (value, {| hot_last := SetLastValue (hot_last h) value;
                  lowerBound := lowerBound h; upperBound := upperBound h;
                  hotInterval := hotInterval h; coldInterval := coldInterval h;
                  hotsetFraction := hotsetFraction h; hotOpnFraction := hotOpnFraction h |}).

(** ** exponential.go *)

Record Exponential := { exp_last : Number; gamma : float64 }.

Definition NewExponentialWithMean (mean : float64) : Exponential :=
  {| exp_last := {| LastValue := 0 |}; gamma := f64_div f64_one mean |}.

Definition NewExponential `{MathLib} (percentile rng : float64) : Exponential :=
  {| exp_last := {| LastValue := 0 |};
     gamma := f64_div (f64_opp (Log (f64_sub f64_one (f64_div percentile (f64_of_Z 100))))) rng |}.

Definition Exponential_Next `{MathLib} (e : Exponential) : M rand (Z * Exponential) :=
  f ← Float64;
  let v := f64_to_int64 (f64_div (f64_opp (Log f)) (gamma e)) in
  mret (v, {| exp_last := SetLastValue (exp_last e) v; gamma := gamma e |}).

(** ** discrete.go *)

Record discretePair := { Weight : float64; Value : Z }.

Record Discrete := { disc_last : Number; disc_values : list discretePair }.

Definition NewDiscrete : Discrete := {| disc_last := {| LastValue := 0 |}; disc_values := [] |}.

Definition Discrete_sum (l : list discretePair) : float64 :=
  foldl (λ sum p, f64_add sum (Weight p)) f64_zero l.

(** The second loop of [Next]: the value chosen, if any. *)
Fixpoint discrete_pick (sum val : float64) (l : list discretePair) : option Z :=
  match l with
  | [] => None
  | p :: l' =>
      let pw := f64_div (Weight p) sum in
      if f64_ltb val pw then Some (Value p) else discrete_pick sum (f64_sub val pw) l'
  end.

Definition Discrete_Next (d : Discrete) : M rand (Z * Discrete) :=
  let sum := Discrete_sum (disc_values d) in
  val ← Float64;
  match discrete_pick sum val (disc_values d) with
  | Some v => mret (v, {| disc_last := SetLastValue (disc_last d) v; disc_values := disc_values d |})
  | None => panic "oops, should not get here."
  end.

Definition Discrete_Add (d : Discrete) (weight : float64) (value : Z) : Discrete :=
  {| disc_last := disc_last d;
     disc_values := disc_values d ++ [{| Weight := weight; Value := value |}] |}.

(** ** histogram.go *)

Record Histogram := {
  hist_last : Number; blockSize : Z; buckets : list Z; area : Z; weightedArea : Z
}.

(** [for i, b := range buckets { area += b; weightedArea += int64(i) * b }] *)
Fixpoint histogram_areas (i area wArea : Z) (bs : list Z) : Z * Z :=
  match bs with
  | [] => (area, wArea)
  | b :: bs' => histogram_areas (i + 1) (area +! b) (wArea +! (i *! b)) bs'
  end.

Definition NewHistogram (bs : list Z) (blockSize : Z) : Histogram :=
  let '(a, wa) := histogram_areas 0 0 0 bs in
  {| hist_last := {| LastValue := 0 |}; blockSize := blockSize; buckets := bs;
     area := a; weightedArea := wa |}.

Record bucketInfo := { location : Z; bucket_value : Z }.

(** [line[i]] *)
Definition index_str (l : list string) (i : nat) : res string :=
  match l !! i with
  | Some s => Ok s
  | None => Panic "runtime error: index out of range"
  end.

(** The loop over [lines[1:]]: the buckets read and the largest location. *)
Fixpoint histogram_lines (lines : list string) (ay : list bucketInfo) (maxLocation : Z)
    : res (list bucketInfo * Z) :=
  match lines with
  | [] => mret (ay, maxLocation)
  | s :: lines' =>
      let s := TrimSpace s in
      if decide (String.length s = 0%nat) then mret (ay, maxLocation)
      else
        let line := Split s (Ascii.ascii_of_nat 9) in
        l0 ← index_str line 0;
        let location := fst (ParseInt l0) in
        let maxLocation := if maxLocation <? location then location else maxLocation in
        l1 ← index_str line 1;
        let value := fst (ParseInt l1) in
        histogram_lines lines' (ay ++ [{| location := location; bucket_value := value |}]) maxLocation
  end.

(** [buckets[b.location] = b.value], bounds-checked. *)
Fixpoint histogram_fill (bs : list Z) (ay : list bucketInfo) : res (list Z) :=
  match ay with
  | [] => mret bs
  | b :: ay' =>
      if (0 <=? location b) && (location b <? Z.of_nat (length bs))
      then histogram_fill (<[Z.to_nat (location b) := bucket_value b]> bs) ay'
      else Panic "runtime error: index out of range"
  end.

(** [NewHistogramFromFile], given what [ioutil.ReadFile(name)] returned. *)
Definition NewHistogramFromFile (name : string) (file : string + string) : res Histogram :=
  match file with
  | inl err => Exit ("load histogram file " +:+ name +:+ " failed " +:+ err)
  | inr data =>
      let lines := Split (TrimSpace data) (Ascii.ascii_of_nat 10) in
      line0 ← index_str lines 0;
      let line := Split (TrimSpace line0) (Ascii.ascii_of_nat 9) in
      l0 ← index_str line 0;
      if negb (String.eqb l0 "BlockSize") then
        Exit ("First line of histogram is not the BlockSize but " +:+ Join line " ")
      else
        l1 ← index_str line 1;
        match ParseInt l1 with
        | (_, Some _) => Exit "parse BlockSize failed"
        | (blockSize, None) =>
            r ← histogram_lines (drop 1 lines) [] 0;
            let '(ay, maxLocation) := r in
            let n := maxLocation +! 1 in
            if n <? 0 then Panic "runtime error: makeslice: len out of range"
            else
              bs ← histogram_fill (replicate (Z.to_nat n) 0) ay;
              mret (NewHistogram bs blockSize)
        end
  end.

(** The loop of [Next] over all buckets but the last: [inl v] returns [v], [inr i]
    leaves the loop at index [i]. *)
Fixpoint histogram_scan (i n blockSize : Z) (bs : list Z) : Z + Z :=
  match bs with
  | [] => inr i
  | [_] => inr i
  | b :: bs' =>
      let n := n -! b in
      if n <=? 0 then inl ((i + 1) *! blockSize) else histogram_scan (i + 1) n blockSize bs'
  end.

Definition Histogram_Next (h : Histogram) : M rand (Z * Histogram) :=
  n ← Int63n (area h);
  match histogram_scan 0 n (blockSize h) (buckets h) with
  | inl v => mret (v, h)
  | inr i =>
      let v := i *! blockSize h in
      mret (v, {| hist_last := SetLastValue (hist_last h) v; blockSize := blockSize h;
                  buckets := buckets h; area := area h; weightedArea := weightedArea h |})
  end.

Definition Histogram_Last (h : Histogram) : Z := Number_Last (hist_last h).

(** ** Iterating a generator *)

Lemma seqZ_of_nat_S m k : seqZ m (Z.of_nat (S k)) = m :: seqZ (m + 1) (Z.of_nat k).
Proof.
  rewrite seqZ_cons by lia.
  replace (Z.pred (Z.of_nat (S k))) with (Z.of_nat k) by lia. done.
Qed.

(** The values of [k] successive calls of [Next]. *)
Fixpoint draws {G} (next : G → M rand (Z * G)) (k : nat) (g : G) : M rand (list Z * G) :=
  match k with
  | O => mret ([], g)
  | S k' => '(v, g1) ← next g; '(vs, g2) ← draws next k' g1; mret (v :: vs, g2)
  end.

Lemma draws_step {G} (next : G → M rand (Z * G)) k g v g' r r' :
  next g r = Ok ((v, g'), r') →
  draws next (S k) g r = ('(vs, g2) ← draws next k g'; mret (v :: vs, g2)) r'.
Proof. intros H. cbn [draws]. by rewrite (bind_Ok_1 _ _ _ _ _ H). Qed.

(** ** Counter *)

Lemma Counter_Next_eq c r :
  int64_ok (counter c) → Counter_Next c r = Ok ((counter c, {| counter := counter c +! 1 |}), r).
Proof.
  intros Hc. unfold Counter_Next. cbn [counter]. rewrite wrap64_sub_l.
  replace (counter c + 1 - 1) with (counter c) by lia. by rewrite wrap64_id.
Qed.

(** [Counter] hands out consecutive numbers: [k] calls of [Next] return
    [start, start+1, ..., start+k-1], without consuming randomness, and [Last] is then
    the last of them, as long as the counter does not pass [math.MaxInt64]. *)
Lemma counter_consecutive start k r :
  int64_ok start → start + Z.of_nat k <= max_int64 →
  ∃ c, draws Counter_Next k (NewCounter start) r = Ok ((seqZ start (Z.of_nat k), c), r)
    ∧ Counter_Last c = start + Z.of_nat k -! 1.
Proof.
  unfold NewCounter. revert start. induction k as [|k IH]; intros start Hs Hk.
  - exists {| counter := start |}. split; [done|]. unfold Counter_Last. f_equal. cbn [counter]. lia.
  - destruct (IH (start + 1)) as (c & Hd & Hl); [width|lia|].
    exists c. split; [|rewrite Hl; f_equal; lia].
    rewrite (draws_step _ _ _ _ _ _ _ (Counter_Next_eq {| counter := start |} r Hs)). cbn [counter].
    rewrite wrap64_id by width. rewrite (bind_Ok_1 _ _ _ _ _ Hd).
    by rewrite seqZ_of_nat_S.
Qed.


(** ** Sequential *)

Definition seq_wf (s : Sequential) : Prop :=
  0 < seq_interval s ∧ int64_ok (seq_start s) ∧ seq_start s + seq_interval s - 1 <= max_int64
  ∧ 0 <= seq_counter s.

Lemma Sequential_Next_eq s r :
  seq_wf s → seq_counter s < max_int64 →
  Sequential_Next s r =
  Ok ((seq_start s + (seq_counter s + 1) mod seq_interval s,
       {| seq_counter := seq_counter s + 1; seq_interval := seq_interval s;
          seq_start := seq_start s |}), r).
Proof.
  intros (Hi & Hs & He & Hc) Hlt. unfold Sequential_Next.
  rewrite (proj2 (Z.eqb_neq _ 0)) by lia. rewrite (wrap64_id (seq_counter s + 1)) by width.
  rewrite Z.rem_mod_nonneg by lia.
  pose proof (Z.mod_pos_bound (seq_counter s + 1) (seq_interval s) Hi).
  rewrite wrap64_id; [done|]. unfold int64_ok in *. lia.
Qed.

Lemma draws_Sequential s k r :
  seq_wf s → seq_counter s + Z.of_nat k <= max_int64 →
  ∃ s', draws Sequential_Next k s r =
    Ok ((map (λ j, seq_start s + j mod seq_interval s) (seqZ (seq_counter s + 1) (Z.of_nat k)), s'), r).
Proof.
  revert s. induction k as [|k IH]; intros s Hwf Hk; [by exists s|].
  rewrite (draws_step _ _ _ _ _ _ _ (Sequential_Next_eq s r Hwf ltac:(lia))).
  destruct (IH {| seq_counter := seq_counter s + 1; seq_interval := seq_interval s;
    seq_start := seq_start s |}) as (s' & Hd).
  { destruct Hwf as (?&?&?&?). split_and!; cbn; try done. lia. }
  { cbn. lia. }
  exists s'. rewrite (bind_Ok_1 _ _ _ _ _ Hd). cbn [seq_counter seq_interval seq_start].
  by rewrite seqZ_of_nat_S.
Qed.

(** [Sequential] cycles through its range: the [k]-th call returns
    [countStart + k mod (countEnd - countStart + 1)], so every value stays in
    [[countStart, countEnd]], the first one is [countStart + 1] when the range has
    more than one element, and one period visits every number of the range. *)
Lemma sequential_cycles lo hi k r :
  int64_ok lo → int64_ok hi → lo <= hi → hi - lo < max_int64 → Z.of_nat k <= max_int64 →
  ∃ s vs, draws Sequential_Next k (NewSequential lo hi) r = Ok ((vs, s), r)
    ∧ vs = map (λ j, lo + j mod (hi - lo + 1)) (seqZ 1 (Z.of_nat k))
    ∧ Forall (λ v, lo <= v <= hi) vs
    ∧ (lo < hi → vs !! 0%nat = if decide (k = 0%nat) then None else Some (lo + 1))
    ∧ (hi - lo + 1 <= Z.of_nat k → ∀ v, lo <= v <= hi → v ∈ vs).
Proof.
  intros Hlo Hhi Hle Hw Hk. unfold NewSequential.
  rewrite (wrap64_id (hi - lo)), (wrap64_id (hi - lo + 1)) by width.
  destruct (draws_Sequential {| seq_counter := 0; seq_interval := hi - lo + 1; seq_start := lo |} k r)
    as (s & Hd); [split_and!; cbn; width|cbn; lia|].
  cbn [seq_start seq_interval seq_counter] in Hd. change (0 + 1) with 1 in Hd.
  exists s. eexists. split_and!; [exact Hd|done|..].
  - apply list.Forall_forall. intros v (j & -> & _)%list_elem_of_fmap.
    pose proof (Z.mod_pos_bound j (hi - lo + 1)). lia.
  - intros Hlt. destruct k as [|k]; [done|]. rewrite seqZ_of_nat_S. cbn [map lookup list_lookup].
    rewrite decide_False by done. rewrite Z.mod_small by lia. done.
  - intros Hper v Hv. apply list_elem_of_fmap.
    destruct (decide (v = lo)) as [->|].
    + exists (hi - lo + 1). rewrite Z.mod_same, elem_of_seqZ by lia. split; lia.
    + exists (v - lo). rewrite Z.mod_small, elem_of_seqZ by lia. split; lia.
Qed.


(** ** Uniform *)

Definition uniform_wf (l u : Z) (g : Uniform) : Prop :=
  lb g = l ∧ ub g = u ∧ uni_interval g = u - l + 1
  ∧ int64_ok l ∧ int64_ok u ∧ l <= u ∧ u - l < max_int64.

Lemma NewUniform_wf l u :
  int64_ok l → int64_ok u → l <= u → u - l < max_int64 → uniform_wf l u (NewUniform l u).
Proof.
  intros. split_and!; try done. cbn. rewrite (wrap64_id (u - l)), wrap64_id; width.
Qed.

Lemma Uniform_Next_wf l u g r v g' r' :
  uniform_wf l u g → Uniform_Next g r = Ok ((v, g'), r') →
  uniform_wf l u g' ∧ l <= v <= u ∧ Uniform_Last g' = v.
Proof.
  intros (Hl & Hu & Hi & ? & ? & ? & ?) Hn. unfold Uniform_Next in Hn. run_inv.
  match goal with H : Int63n _ _ = Ok _ |- _ => apply Int63n_range in H end.
  rewrite Hi in *. rewrite wrap64_id by width. split_and!; cbn; try done; lia.
Qed.

(** [Uniform] keeps to its bounds: from [NewUniform lb ub] every sequence of calls
    that returns yields values of [[lb, ub]], and [Last] always reports the value just
    returned. *)
Lemma uniform_in_range l u k r vs g r' :
  int64_ok l → int64_ok u → l <= u → u - l < max_int64 →
  draws Uniform_Next k (NewUniform l u) r = Ok ((vs, g), r') →
  length vs = k ∧ Forall (λ v, l <= v <= u) vs ∧ (k ≠ 0%nat → list.last vs = Some (Uniform_Last g)).
Proof.
  intros Hl Hu Hle Hw. pose proof (NewUniform_wf l u Hl Hu Hle Hw) as Hwf.
  revert Hwf. generalize (NewUniform l u) as g0. clear Hl Hu Hle Hw. revert r vs g r'.
  induction k as [|k IH]; intros r vs g r' g0 Hwf Hd.
  - cbn in Hd. run_inv. done.
  - cbn [draws] in Hd. run_inv.
    match goal with H : Uniform_Next _ _ = Ok _ |- _ =>
      destruct (Uniform_Next_wf _ _ _ _ _ _ _ Hwf H) as (Hwf' & Hv & Hlast) end.
    match goal with H : draws _ _ _ _ = Ok _ |- _ =>
      destruct (IH _ _ _ _ _ Hwf' H) as (Hlen & Hall & Hl); rename H into Hd' end.
    split_and!; [cbn; lia|by constructor|]. intros _. destruct k as [|k].
    + cbn in Hd'. run_inv. done.
    + specialize (Hl ltac:(done)). by rewrite list.last_cons, Hl.
Qed.


(** ** Hotspot *)

(** The generator's parts tile its range. *)
Definition hotspot_wf (h : Hotspot) : Prop :=
  0 <= hotInterval h ∧ 0 <= coldInterval h
  ∧ int64_ok (lowerBound h) ∧ int64_ok (upperBound h)
  ∧ lowerBound h + hotInterval h + coldInterval h = upperBound h + 1.

Lemma NewHotspot_wf lower upper sf opf :
  int64_ok lower → int64_ok upper → Z.abs (upper - lower) < max_int64 →
  let interval := Z.abs (upper - lower) + 1 in
  0 <= f64_to_int64 (f64_mul (f64_of_Z interval) (if out_of_unit sf then f64_zero else sf)) <= interval →
  hotspot_wf (NewHotspot lower upper sf opf)
  ∧ lowerBound (NewHotspot lower upper sf opf) = Z.min lower upper
  ∧ upperBound (NewHotspot lower upper sf opf) = Z.max lower upper.
Proof.
  intros Hl Hu Hw interval Hh. unfold NewHotspot, hotspot_wf.
  destruct (Z.ltb_spec upper lower); cbn.
  - assert (wrap64 (wrap64 (lower - upper) + 1) = interval) as ->
      by (rewrite (wrap64_id (lower - upper)), wrap64_id; subst interval; width).
    rewrite wrap64_id by (subst interval; width). subst interval. split_and!; (done || lia).
  - assert (wrap64 (wrap64 (upper - lower) + 1) = interval) as ->
      by (rewrite (wrap64_id (upper - lower)), wrap64_id; subst interval; width).
    rewrite wrap64_id by (subst interval; width). subst interval. split_and!; (done || lia).
Qed.

(** [Hotspot] keeps to its range whatever order the bounds are given in: when the
    hot interval computed in floating point lies within the range, [Next] returns a
    value between the two bounds, from the hot part when the first draw is below
    [hotOpnFraction] and from the cold part otherwise, and preserves the tiling. *)
Lemma hotspot_in_range lower upper sf opf r v g r' :
  int64_ok lower → int64_ok upper → Z.abs (upper - lower) < max_int64 →
  0 <= f64_to_int64 (f64_mul (f64_of_Z (Z.abs (upper - lower) + 1))
         (if out_of_unit sf then f64_zero else sf)) <= Z.abs (upper - lower) + 1 →
  Hotspot_Next (NewHotspot lower upper sf opf) r = Ok ((v, g), r') →
  Z.min lower upper <= v <= Z.max lower upper ∧ hotspot_wf g
  ∧ ∃ f r1, Float64 r = Ok (f, r1) ∧
      (v < Z.min lower upper + hotInterval g ↔ f64_ltb f (hotOpnFraction g) = true).
Proof.
  intros Hl Hu Hw Hh Hn.
  destruct (NewHotspot_wf lower upper sf opf Hl Hu Hw Hh) as (Hwf & El & Eu).
  set (h := NewHotspot lower upper sf opf) in *. rewrite <- El, <- Eu.
  destruct Hwf as (W1 & W2 & W3 & W4 & W5).
  unfold Hotspot_Next in Hn. run_inv.
  match goal with H : Float64 _ = Ok (?f, _) |- _ =>
    rename H into HF; destruct (f64_ltb f (hotOpnFraction h)) eqn:Ef end; run_inv.
  - match goal with H : Int63n _ _ = Ok _ |- _ => apply Int63n_range in H end.
    rewrite wrap64_id by (unfold int64_ok in *; lia).
    split_and!; try lia; [done|]. do 2 eexists. split; [exact HF|]. cbn. rewrite Ef. split; [done|lia].
  - match goal with H : Int63n _ _ = Ok _ |- _ => apply Int63n_range in H end.
    rewrite (wrap64_id (lowerBound h + hotInterval h)) by (unfold int64_ok in *; lia).
    rewrite wrap64_id by (unfold int64_ok in *; lia).
    split_and!; try lia; [done|]. do 2 eexists. split; [exact HF|]. cbn. rewrite Ef. split; [lia|done].
Qed.


(** ** Discrete *)

Lemma discrete_pick_elem sum val l v :
  discrete_pick sum val l = Some v → ∃ p, p ∈ l ∧ Value p = v.
Proof.
  revert val. induction l as [|p l IH]; intros val; cbn [discrete_pick]; [done|].
  case_match.
  - intros [= <-]. exists p. split; [apply list_elem_of_here|done].
  - intros (q & Hq & Hv)%IH. exists q. split; [by apply list_elem_of_further|done].
Qed.

Lemma Discrete_Next_inv d r v d' r' :
  Discrete_Next d r = Ok ((v, d'), r') →
  disc_values d' = disc_values d ∧ LastValue (disc_last d') = v
  ∧ ∃ p, p ∈ disc_values d ∧ Value p = v.
Proof.
  unfold Discrete_Next. intros Hn. run_inv. case_match eqn:E; run_inv.
  split_and!; [done|done|]. by eapply discrete_pick_elem.
Qed.

(** The weights a workload with [readproportion=0.3], [updateproportion=0.7] gives its
    operation chooser. *)
Definition discrete_30_70 : Discrete :=
  Discrete_Add (Discrete_Add NewDiscrete (f64_lit 3 1) 1) (f64_lit 7 1) 2.

(** The panic "oops, should not get here." is reachable: with the weights 0.3 and
    0.7 the rounded differences leave the largest value [Float64] can return
    (1 - 2^-53) unassigned, so a source word of 2^63 - 1024 makes [Next] panic. *)
Lemma discrete_can_panic r :
  Discrete_Next discrete_30_70 ((two63 - 1024) :: r) = Panic "oops, should not get here.".
Proof. reflexivity. Qed.

(** ** Histogram *)

Definition sumZ (l : list Z) : Z := foldr Z.add 0 l.

Lemma sumZ_cons b l : sumZ (b :: l) = b + sumZ l.
Proof. done. Qed.

Lemma sumZ_nonneg l : Forall (λ b, 0 <= b) l → 0 <= sumZ l.
Proof. induction 1; [done|]. rewrite sumZ_cons. lia. Qed.

Lemma histogram_areas_sum i a wa bs :
  Forall (λ b, 0 <= b) bs → 0 <= a → a + sumZ bs <= max_int64 →
  fst (histogram_areas i a wa bs) = a + sumZ bs.
Proof.
  intros Hb. revert i a wa. induction Hb as [|b bs Hb Hbs IH]; intros i a wa Ha Hs;
    [cbn; lia|]. cbn [histogram_areas]. rewrite sumZ_cons in *.
  pose proof (sumZ_nonneg bs Hbs). rewrite wrap64_id by width. rewrite IH; lia.
Qed.

Lemma area_NewHistogram bs k :
  Forall (λ b, 0 <= b) bs → sumZ bs <= max_int64 → area (NewHistogram bs k) = sumZ bs.
Proof.
  intros Hb Hs. unfold NewHistogram. pose proof (histogram_areas_sum 0 0 0 bs Hb ltac:(lia) Hs) as H.
  destruct (histogram_areas 0 0 0 bs). cbn in *. lia.
Qed.

Lemma histogram_scan_cons i n k b b' bs :
  histogram_scan i n k (b :: b' :: bs) =
  if n -! b <=? 0 then inl ((i + 1) *! k) else histogram_scan (i + 1) (n -! b) k (b' :: bs).
Proof. done. Qed.

Lemma histogram_scan_spec i n k bs :
  Forall (λ b, 0 <= b) bs → bs ≠ [] → sumZ bs <= max_int64 → 0 <= n <= max_int64 →
  match histogram_scan i n k bs with
  | inl v => ∃ j, (S j < length bs)%nat ∧ v = (i + Z.of_nat j + 1) *! k
      ∧ n <= sumZ (take (S j) bs) ∧ (j = 0%nat ∨ sumZ (take j bs) < n)
  | inr e => e = i + Z.of_nat (length bs) - 1 ∧ (length bs = 1%nat ∨ sumZ (take (length bs - 1) bs) < n)
  end.
Proof.
  intros Hb. revert i n. induction Hb as [|b bs Hb Hbs IH]; intros i n Hne Hs Hn; [done|].
  destruct bs as [|b' bs]; [cbn; split; [lia|by left]|]. rewrite histogram_scan_cons.
  pose proof (sumZ_nonneg (b' :: bs) Hbs) as Hpos. rewrite !sumZ_cons in *.
  rewrite wrap64_id by width. destruct (Z.leb_spec (n - b) 0).
  - exists 0%nat. split_and!; [cbn; lia|f_equal; lia|cbn; lia|by left].
  - specialize (IH (i + 1) (n - b) ltac:(done)).
    destruct (histogram_scan (i + 1) (n - b) k (b' :: bs)) as [v|e].
    + destruct IH as (j & Hj & -> & Hle & Hlt); [lia|lia|].
      exists (S j). split_and!; [cbn in *; lia|f_equal; lia| |right].
      * change (sumZ (take (S (S j)) (b :: b' :: bs))) with (b + sumZ (take (S j) (b' :: bs))). lia.
      * destruct Hlt as [->|Hlt]; [cbn; lia|].
        change (sumZ (take (S j) (b :: b' :: bs))) with (b + sumZ (take j (b' :: bs))). lia.
    + destruct IH as (-> & Hlt); [lia|lia|]. split; [cbn [length]; lia|right].
      replace (length (b :: b' :: bs) - 1)%nat with (S (length bs)) by (cbn; lia).
      cbn [length] in Hlt. destruct Hlt as [Hlt|Hlt].
      * destruct bs; [|done]. cbn. lia.
      * replace (S (length bs) - 1)%nat with (length bs) in Hlt by lia.
        change (sumZ (take (S (length bs)) (b :: b' :: bs))) with (b + sumZ (take (length bs) (b' :: bs))). lia.
Qed.

(** [Histogram] draws by cumulated weight: for non-negative buckets, with
    [n = Int63n(area)], [Next] returns [(j+1)*blockSize] for the first bucket [j] before
    the last whose cumulated weight reaches [n], and [(len-1)*blockSize] when there is
    none; the area is the sum of the buckets. *)
Lemma histogram_quantile bs k r v h r' :
  Forall (λ b, 0 <= b) bs → sumZ bs <= max_int64 →
  Histogram_Next (NewHistogram bs k) r = Ok ((v, h), r') →
  ∃ n, Int63n (sumZ bs) r = Ok (n, r') ∧ 0 <= n < sumZ bs ∧
    ((∃ j, (S j < length bs)%nat ∧ v = (Z.of_nat j + 1) *! k
        ∧ n <= sumZ (take (S j) bs) ∧ (j = 0%nat ∨ sumZ (take j bs) < n))
     ∨ (v = (Z.of_nat (length bs) - 1) *! k
        ∧ (length bs = 1%nat ∨ sumZ (take (length bs - 1) bs) < n))).
Proof.
  intros Hb Hs Hn. unfold Histogram_Next in Hn. rewrite area_NewHistogram in Hn by done. run_inv.
  match goal with H : Int63n _ _ = Ok (?m, _) |- _ =>
    pose proof (Int63n_range _ _ _ _ H) as Hm; rename H into HI; rename m into n end.
  exists n.
  assert (buckets (NewHistogram bs k) = bs ∧ blockSize (NewHistogram bs k) = k) as [Eb Ek]
    by (unfold NewHistogram; by destruct (histogram_areas 0 0 0 bs)).
  rewrite Eb, Ek in Hn.
  assert (bs ≠ []) as Hne by (intros ->; cbn in Hm; lia).
  pose proof (histogram_scan_spec 0 n k bs Hb Hne Hs ltac:(lia)) as Hspec.
  destruct (histogram_scan 0 n k bs) as [v'|e]; run_inv.
  - split_and!; [done|lia|lia|]. left. destruct Hspec as (j & ? & -> & ? & ?). exists j. split_and!; done.
  - split_and!; [done|lia|lia|]. right. destruct Hspec as (-> & ?). split; [f_equal; lia|done].
Qed.


(** [Histogram.Last] can report a value that was not the last one generated: a
    draw that ends inside the loop of [Next] returns without [SetLastValue], contrary to
    the [Generator] interface.  The same input shows that a bucket of weight 0 is
    chosen when the draw is 0. *)
Lemma histogram_last_stale :
  ∃ h r v h' r', Histogram_Next h r = Ok ((v, h'), r') ∧ Histogram_Last h' ≠ v
    ∧ buckets h !! 0%nat = Some 0 ∧ v = 1 * blockSize h.
Proof.
  exists (NewHistogram [0; 4; 4] 10), [8], 10, (NewHistogram [0; 4; 4] 10), [].
  split_and!; (reflexivity || discriminate).
Qed.
