(* ===== verification/AckCounter.v ===== *)
(** * pkg/util/spinlock.go and pkg/generator/acknowledged_counter.go

    [SpinLock] and [AcknowledgedCounter] as executable definitions (one goroutine
    calling), the abstract counter they implement ([AckSpec]), and a step relation
    ([ack_step]) in which any number of goroutines run [Next] and [Acknowledge]
    interleaved at the granularity of their shared-memory accesses. *)

From S2P Require Import Prelude GoFloat GoRand Generators.

(** ** spinlock.go *)

Record SpinLock := { lock_f : Z }.

(** The zero value is an unlocked spinlock. *)
Definition NewSpinLock : SpinLock := {| lock_f := 0 |}.

(** [atomic.CompareAndSwapUint32(&sl.f, 0, 1)] *)
Definition TryLock (sl : SpinLock) : bool * SpinLock :=
  if lock_f sl =? 0 then (true, {| lock_f := 1 |}) else (false, sl).

Definition Unlock (sl : SpinLock) : SpinLock := {| lock_f := 0 |}.

(** [Lock] spins on [TryLock]; for a single goroutine it returns at once or never. *)
Definition Lock (sl : SpinLock) : res SpinLock :=
  match TryLock sl with (true, sl') => Ok sl' | (false, _) => Stuck end.

Definition SpinLock_String (sl : SpinLock) : string :=
  if lock_f sl =? 1 then "Locked" else "Unlocked".

(** ** acknowledged_counter.go *)

Definition WindowSize : Z := Z.shiftl 1 20.
Definition WindowMask : Z := WindowSize - 1.

(** The window, a [[]bool] of [WindowSize] elements, as the set of the slots that
    hold [true]; [slot_range] shows every index used is in bounds. *)
Record AcknowledgedCounter := {
  ack_c : Counter; ack_lock : SpinLock; window : gset Z; limit : Z
}.

Definition NewAcknowledgedCounter (start : Z) : AcknowledgedCounter :=
  {| ack_c := {| counter := start |}; ack_lock := NewSpinLock; window := ∅; limit := start -! 1 |}.

Definition Ack_Next (a : AcknowledgedCounter) : M rand (Z * AcknowledgedCounter) :=
  '(v, c') ← Counter_Next (ack_c a);
  mret (v, {| ack_c := c'; ack_lock := ack_lock a; window := window a; limit := limit a |}).

Definition Ack_Last (a : AcknowledgedCounter) : Z := limit a.

Definition slot (v : Z) : Z := Z.land v WindowMask.

(** [for ; index != beforeFirstSlot; index++]: every round that continues clears a
    slot, so one round more than there are set slots is enough. *)
Fixpoint ack_loop (fuel : nat) (beforeFirstSlot index : Z) (w : gset Z) : Z * gset Z :=
  match fuel with
  | O => (index, w)
  | S f =>
      if index =? beforeFirstSlot then (index, w)
      else if bool_decide (slot index ∈ w)
      then ack_loop f beforeFirstSlot (index +! 1) (w ∖ {[slot index]})
      else (index, w)
  end.

Definition Acknowledge (a : AcknowledgedCounter) (value : Z) : res AcknowledgedCounter :=
  let currentSlot := slot value in
  if bool_decide (currentSlot ∈ window a) then Panic "Too many unacknowledged insertion keys."
  else
    let w := {[currentSlot]} ∪ window a in
    match TryLock (ack_lock a) with
    | (false, _) => Ok {| ack_c := ack_c a; ack_lock := ack_lock a; window := w; limit := limit a |}
    | (true, sl) =>
        let '(index, w') := ack_loop (S (size w)) (slot (limit a)) (limit a +! 1) w in
        Ok {| ack_c := ack_c a; ack_lock := Unlock sl; window := w'; limit := index -! 1 |}
    end.

(** ** Slots *)

Lemma slot_mod v : slot v = v mod WindowSize.
Proof. unfold slot. change WindowMask with (Z.ones 20). by rewrite Z.land_ones by lia. Qed.

Lemma slot_inj v w : slot v = slot w → Z.abs (v - w) < WindowSize → v = w.
Proof.
  rewrite !slot_mod. change WindowSize with 1048576. intros H Hd. Z.div_mod_to_equations. lia.
Qed.

Lemma slot_le v : 0 <= v → slot v <= v.
Proof. intros. rewrite slot_mod. by apply Z.mod_le. Qed.

(** [slots X] are the slots of the values [X]. *)
Definition slots (X : gset Z) : gset Z := set_map slot X.

Lemma elem_of_slots s X : s ∈ slots X ↔ ∃ v, s = slot v ∧ v ∈ X.
Proof. unfold slots. by rewrite elem_of_map. Qed.

(** Values within one window have distinct slots. *)
Lemma slot_in_slots lo v X :
  lo < v <= lo + WindowSize → (∀ x, x ∈ X → lo < x <= lo + WindowSize) →
  slot v ∈ slots X ↔ v ∈ X.
Proof.
  intros Hv HX. rewrite elem_of_slots. split; [|by eauto].
  intros (x & Hs & Hx). apply HX in Hx as Hr. by rewrite (slot_inj v x Hs) by lia.
Qed.

Lemma slots_remove lo v X :
  lo < v <= lo + WindowSize → (∀ x, x ∈ X → lo < x <= lo + WindowSize) →
  slots X ∖ {[slot v]} = slots (X ∖ {[v]}).
Proof.
  intros Hv HX. apply set_eq. intros s.
  rewrite elem_of_difference, elem_of_singleton, !elem_of_slots. split.
  - intros ((x & -> & Hx) & Hne). exists x. split; [done|]. set_solver.
  - intros (x & -> & [Hx Hne]%elem_of_difference). split; [by eauto|].
    intros Hs. apply Hne, elem_of_singleton. apply slot_inj; [done|]. apply HX in Hx. lia.
Qed.

(** ** Termination *)

Lemma ack_loop_fuel f bf i w :
  (S (size w) ≤ f)%nat → ack_loop f bf i w = ack_loop (S (size w)) bf i w.
Proof.
  remember (size w) as n eqn:Hn. revert f i w Hn.
  induction n as [|n IH]; intros f i w Hn Hf; (destruct f as [|f]; [lia|]); cbn [ack_loop].
  - case_match; [done|]. case_bool_decide as Hs; [|done]. exfalso.
    symmetry in Hn. apply size_empty_inv in Hn. set_solver.
  - case_match; [done|]. case_bool_decide as Hs; [|done].
    assert (size (w ∖ {[slot i]}) = n) as Hsz.
    { rewrite size_difference by set_solver. rewrite size_singleton. lia. }
    apply IH; [done|lia].
Qed.

(** ** The contract

    The values that have been acknowledged but are not yet covered by [Last] form a
    finite set [pending]; [Last] is the end of the contiguous run of acknowledged
    values.  [ack_rep a X] says that [a] holds the pending set [X] between two calls
    (the lock is free, nothing is ready to move). *)
Record ack_rep (a : AcknowledgedCounter) (X : gset Z) : Prop := {
  rep_window : window a = slots X;
  rep_range : ∀ x, x ∈ X → limit a < x <= limit a + WindowSize;
  rep_gap : limit a + 1 ∉ X;
  rep_lock : lock_f (ack_lock a) = 0;
  rep_limit : 0 <= limit a <= max_int64 - WindowSize - 1
}.

(** Values of [X] above [l]. *)
Definition above (l : Z) (X : gset Z) : gset Z := filter (λ x, l < x) X.

Lemma above_all l X : (∀ x, x ∈ X → l < x) → above l X = X.
Proof. intros H. unfold above. set_solver. Qed.

Lemma above_add l v X : l < v → above l ({[v]} ∪ X) = {[v]} ∪ above l X.
Proof. intros H. unfold above. set_solver. Qed.

Lemma size_slots lo X :
  (∀ x, x ∈ X → lo < x <= lo + WindowSize) → size (slots X) = size X.
Proof.
  induction X as [|x X Hx IH] using set_ind_L; intros HX; [done|].
  assert (HX' : ∀ y, y ∈ X → lo < y <= lo + WindowSize) by set_solver.
  assert (Hxr : lo < x <= lo + WindowSize) by set_solver.
  assert (slots ({[x]} ∪ X) = {[slot x]} ∪ slots X) as ->.
  { unfold slots. by rewrite set_map_union_L, set_map_singleton_L. }
  rewrite !size_union, !size_singleton, IH; [done|done|set_solver|].
  apply disjoint_singleton_l. by rewrite (slot_in_slots lo).
Qed.

(** The loop moves exactly the contiguous run that starts at [index]. *)
Lemma ack_loop_spec lo f index X :
  0 <= lo <= max_int64 - WindowSize - 1 →
  lo < index → (∀ x, x ∈ X → index <= x <= lo + WindowSize) → index <= lo + WindowSize + 1 →
  (size X < f)%nat →
  ∃ i, ack_loop f (slot lo) index (slots X) = (i, slots (above (i - 1) X)) ∧
       index <= i <= lo + WindowSize + 1 ∧ i ∉ X ∧ (∀ x, index <= x < i → x ∈ X).
Proof.
  intros Hlo. revert index X. induction f as [|f IH]; intros index X Hi HX Hle Hf; [lia|].
  assert (HX' : ∀ x, x ∈ X → lo < x <= lo + WindowSize) by (intros x Hx; specialize (HX x Hx); lia).
  cbn [ack_loop]. pose proof (slot_le lo ltac:(lia)).
  destruct (Z.eqb_spec index (slot lo)) as [?|_]; [lia|].
  assert (Hin : slot index ∈ slots X ↔ index ∈ X).
  { destruct (decide (index = lo + WindowSize + 1)) as [->|]; [|apply (slot_in_slots lo); [lia|done]].
    assert (X = ∅) as -> by (apply set_eq; intros y; split; [intros Hy; apply HX in Hy; lia|set_solver]).
    unfold slots. set_solver. }
  case_bool_decide as Hs.
  - apply Hin in Hs. rewrite (slots_remove lo) by (auto with lia; apply HX' in Hs; lia).
    assert (index +! 1 = index + 1) as -> by (apply wrap64_id; apply HX in Hs; width).
    destruct (IH (index + 1) (X ∖ {[index]})) as (i & -> & Hr & Hn & Hc).
    + lia.
    + intros x [Hx Hne]%elem_of_difference. apply HX in Hx.
      assert (x ≠ index) by set_solver. lia.
    + apply HX in Hs. lia.
    + rewrite size_difference, size_singleton by set_solver.
      assert (size X ≠ 0%nat) by (intros E%size_empty_inv; set_solver). lia.
    + exists i. split; [|split; [lia|split]].
      * do 2 f_equal. unfold above. apply set_eq. intros x. rewrite !elem_of_filter, elem_of_difference, elem_of_singleton.
        split; [tauto|]. intros [? ?]. split; [done|]. split; [done|lia].
      * intros Hx. apply Hn. apply elem_of_difference. split; [done|]. rewrite elem_of_singleton. lia.
      * intros x Hx. destruct (decide (x = index)) as [->|]; [done|].
        assert (x ∈ X ∖ {[index]}) by (apply Hc; lia). set_solver.
  - exists index. split; [|split; [lia|split]].
    + rewrite above_all; [done|]. intros x Hx. apply HX in Hx. lia.
    + by rewrite <- Hin.
    + lia.
Qed.

(** One call from a represented state. *)
Lemma Acknowledge_rep a X v :
  ack_rep a X → limit a < v <= limit a + WindowSize → v ∉ X →
  limit a + WindowSize <= max_int64 - WindowSize - 1 →
  ∃ a', Acknowledge a v = Ok a' ∧
        ack_rep a' (above (limit a') ({[v]} ∪ X)) ∧
        limit a <= limit a' ∧
        (∀ x, limit a < x <= limit a' → x ∈ {[v]} ∪ X) ∧
        limit a' + 1 ∉ {[v]} ∪ X ∧
        ack_c a' = ack_c a.
Proof.
  intros [Hw Hr Hg Hl Hlim] Hv HvX Hmax. unfold Acknowledge, TryLock. rewrite Hw, Hl, Z.eqb_refl.
  rewrite bool_decide_false by (by rewrite (slot_in_slots (limit a))).
  assert (HX : ∀ x, x ∈ {[v]} ∪ X → limit a + 1 <= x <= limit a + WindowSize).
  { intros x [->%elem_of_singleton|Hx%Hr]%elem_of_union; lia. }
  assert ({[slot v]} ∪ slots X = slots ({[v]} ∪ X)) as ->.
  { unfold slots. by rewrite set_map_union_L, set_map_singleton_L. }
  assert (limit a +! 1 = limit a + 1) as -> by (apply wrap64_id; width).
  destruct (ack_loop_spec (limit a) (S (size (slots ({[v]} ∪ X)))) (limit a + 1) ({[v]} ∪ X))
    as (i & -> & Hi & Hn & Hc); [lia|lia|done|change WindowSize with 1048576; lia| |].
  { rewrite (size_slots (limit a)); [lia|]. intros x Hx%HX. lia. }
  assert (i -! 1 = i - 1) as E by (change WindowSize with 1048576 in *; apply wrap64_id; width).
  eexists. split; [done|]. simpl. rewrite E.
  replace (i - 1 + 1) with i by lia.
  split; [|split; [lia|split; [intros; apply Hc; lia|split; done]]].
  split; simpl; rewrite ?E.
  - done.
  - intros x [? Hx%HX]%elem_of_filter. lia.
  - intros [? ?]%elem_of_filter. replace (i - 1 + 1) with i in * by lia. done.
  - done.
  - change WindowSize with 1048576 in *; lia.
Qed.

(** C5: [Acknowledge] refines the abstract counter.  From a state that holds the
    pending set [X], acknowledging a new value of the current window returns without
    a panic, with the lock free again and [Next] unaffected; [Last] becomes the end
    of the longest contiguous run of acknowledged values (everything up to it is
    acknowledged, the value after it is not), and exactly the acknowledged values
    beyond it stay pending. *)
Theorem acknowledge_refines a X v :
  ack_rep a X → limit a < v <= limit a + WindowSize → v ∉ X →
  limit a + WindowSize <= max_int64 - WindowSize - 1 →
  ∃ a', Acknowledge a v = Ok a' ∧
        ack_rep a' (above (limit a') ({[v]} ∪ X)) ∧
        limit a <= limit a' ∧
        (∀ x, limit a < x <= limit a' → x ∈ {[v]} ∪ X) ∧
        limit a' + 1 ∉ {[v]} ∪ X ∧
        ack_c a' = ack_c a.
Proof. apply Acknowledge_rep. Qed.

Lemma acknowledge_refines_witness :
  let a := {| ack_c := {| counter := 5 |}; ack_lock := NewSpinLock; window := slots {[2; 4]}; limit := 0 |} in
  ack_rep a {[2; 4]} ∧
  ∃ a', Acknowledge a 1 = Ok a' ∧
        ack_rep a' (above (limit a') ({[1]} ∪ {[2; 4]})) ∧
        limit a <= limit a' ∧
        (∀ x, limit a < x <= limit a' → x ∈ ({[1]} ∪ {[2; 4]} : gset Z)) ∧
        limit a' + 1 ∉ ({[1]} ∪ {[2; 4]} : gset Z) ∧
        ack_c a' = ack_c a.
Proof.
  intros a. assert (H : ack_rep a {[2; 4]}).
  { split; unfold a; simpl; [done| |set_solver|done|change WindowSize with 1048576; width].
    change WindowSize with 1048576. intros x Hx.
    apply elem_of_union in Hx. rewrite !elem_of_singleton in Hx. lia. }
  split; [done|]. apply (acknowledge_refines a {[2; 4]} 1 H); unfold a; simpl.
  - change WindowSize with 1048576. lia.
  - set_solver.
  - change WindowSize with 1048576. width.
Defined.

(** The panic that should stop a goroutine from running more than a window ahead
    only looks at the slot's own flag.  With nothing acknowledged, acknowledging the
    value one window after the next expected one does not panic: it moves [Last] past
    the expected value [limit a + 1], which no one has acknowledged. *)
Lemma acknowledge_window_overrun a :
  ack_rep a ∅ → limit a + WindowSize <= max_int64 - WindowSize - 1 →
  ∃ a', Acknowledge a (limit a + 1 + WindowSize) = Ok a' ∧ limit a' = limit a + 1.
Proof.
  intros Ha Hm. destruct (Acknowledge_rep a ∅ (limit a + 1) Ha) as (a' & E & _ & Hle & Hin & Hn & _).
  - change WindowSize with 1048576. lia.
  - set_solver.
  - done.
  - exists a'. split.
    + rewrite <- E. unfold Acknowledge. replace (slot (limit a + 1 + WindowSize)) with (slot (limit a + 1)); [done|].
      rewrite !slot_mod. change WindowSize with 1048576. Z.div_mod_to_equations; lia.
    + assert (limit a ≠ limit a') by (intros Hq; rewrite <- Hq in Hn; set_solver).
      assert (¬ limit a + 1 < limit a'); [|lia]. intros ?.
      assert (limit a + 2 ∈ ({[limit a + 1]} ∪ ∅ : gset Z)) as H2 by (apply Hin; lia).
      assert (limit a + 2 ≠ limit a + 1) by lia. set_solver.
Qed.

(** ** Many goroutines

    A goroutine that inserts calls [Next], works, and calls [Acknowledge] with the
    value it got.  [pc] is where it is in that code, between two accesses to shared
    memory. *)
Inductive pc :=
| Idle                            (* outside *)
| Have (v : Z)                    (* between Next and Acknowledge(v) *)
| Checked (v : Z)                 (* the flag of v's slot was seen clear *)
| Flagged                         (* the flag is set, TryLock comes next *)
| Holding                         (* lock held, limit not read yet *)
| Looping (index bf : Z)          (* at the loop head *)
| Clearing (index bf : Z)         (* the flag of index was seen set *)
| Storing (index : Z)             (* the loop is left *)
| Unlocking                       (* limit stored *)
| Panicked.

#[global] Instance pc_eq_dec : EqDecision pc.
Proof. solve_decision. Defined.

(** Shared memory, the goroutines, and two ghosts: the values whose flag was ever
    set, and the first value whose flag no one has cleared. *)
Record sys := {
  s_counter : Z; s_lock : SpinLock; s_window : gset Z; s_limit : Z;
  s_pc : gmap nat pc;
  s_acked : gset Z; s_pos : Z
}.

Definition init_sys (start : Z) (goroutines : nat) : sys := {|
  s_counter := start; s_lock := NewSpinLock; s_window := ∅; s_limit := start - 1;
  s_pc := list_to_map ((λ t, (t, Idle)) <$> seq 0 goroutines);
  s_acked := ∅; s_pos := start
|}.

(** One access of goroutine [t]: its new program counter, and the rest of the state. *)
Definition goto (t : nat) (p : pc) (s : sys) : sys := {|
  s_counter := s_counter s; s_lock := s_lock s; s_window := s_window s; s_limit := s_limit s;
  s_pc := <[t := p]> (s_pc s); s_acked := s_acked s; s_pos := s_pos s |}.
Definition set_counter (c : Z) (s : sys) : sys := {|
  s_counter := c; s_lock := s_lock s; s_window := s_window s; s_limit := s_limit s;
  s_pc := s_pc s; s_acked := s_acked s; s_pos := s_pos s |}.
Definition set_lock (l : SpinLock) (s : sys) : sys := {|
  s_counter := s_counter s; s_lock := l; s_window := s_window s; s_limit := s_limit s;
  s_pc := s_pc s; s_acked := s_acked s; s_pos := s_pos s |}.
Definition set_flag (v : Z) (s : sys) : sys := {|
  s_counter := s_counter s; s_lock := s_lock s; s_window := {[slot v]} ∪ s_window s;
  s_limit := s_limit s; s_pc := s_pc s; s_acked := {[v]} ∪ s_acked s; s_pos := s_pos s |}.
Definition clear_flag (i : Z) (s : sys) : sys := {|
  s_counter := s_counter s; s_lock := s_lock s; s_window := s_window s ∖ {[slot i]};
  s_limit := s_limit s; s_pc := s_pc s; s_acked := s_acked s; s_pos := i + 1 |}.
Definition set_limit (l : Z) (s : sys) : sys := {|
  s_counter := s_counter s; s_lock := s_lock s; s_window := s_window s; s_limit := l;
  s_pc := s_pc s; s_acked := s_acked s; s_pos := s_pos s |}.

Inductive ack_step (s : sys) (t : nat) : sys → Prop :=
| step_next :
    s_pc s !! t = Some Idle →
    ack_step s t (goto t (Have (s_counter s)) (set_counter (s_counter s +! 1) s))
| step_check v :
    s_pc s !! t = Some (Have v) → slot v ∉ s_window s →
    ack_step s t (goto t (Checked v) s)
| step_panic v :
    s_pc s !! t = Some (Have v) → slot v ∈ s_window s →
    ack_step s t (goto t Panicked s)
| step_flag v :
    s_pc s !! t = Some (Checked v) →
    ack_step s t (goto t Flagged (set_flag v s))
| step_trylock sl :
    s_pc s !! t = Some Flagged → TryLock (s_lock s) = (true, sl) →
    ack_step s t (goto t Holding (set_lock sl s))
| step_trylock_fail sl :
    s_pc s !! t = Some Flagged → TryLock (s_lock s) = (false, sl) →
    ack_step s t (goto t Idle s)
| step_load :
    s_pc s !! t = Some Holding →
    ack_step s t (goto t (Looping (s_limit s +! 1) (slot (s_limit s))) s)
| step_loop_stop i :
    s_pc s !! t = Some (Looping i i) →
    ack_step s t (goto t (Storing i) s)
| step_loop_break i bf :
    s_pc s !! t = Some (Looping i bf) → i ≠ bf → slot i ∉ s_window s →
    ack_step s t (goto t (Storing i) s)
| step_loop_go i bf :
    s_pc s !! t = Some (Looping i bf) → i ≠ bf → slot i ∈ s_window s →
    ack_step s t (goto t (Clearing i bf) s)
| step_clear i bf :
    s_pc s !! t = Some (Clearing i bf) →
    ack_step s t (goto t (Looping (i +! 1) bf) (clear_flag i s))
| step_store i :
    s_pc s !! t = Some (Storing i) →
    ack_step s t (goto t Unlocking (set_limit (i -! 1) s))
| step_unlock :
    s_pc s !! t = Some Unlocking →
    ack_step s t (goto t Idle (set_lock (Unlock (s_lock s)) s)).

(** Whether a goroutine is between a successful [TryLock] and [Unlock]. *)
Definition in_cs (p : pc) : bool :=
  match p with
  | Holding | Looping _ _ | Clearing _ _ | Storing _ | Unlocking => true
  | _ => false
  end.

(** The value a goroutine holds and has not flagged yet. *)
Definition held (p : pc) : option Z :=
  match p with Have v | Checked v => Some v | _ => None end.

(** The use the window is made for: at most [WindowSize] values beyond [Last] are
    out, and the values stay far from the end of [int64]. *)
Definition tight (s : sys) : Prop :=
  s_counter s <= s_limit s + 1 + WindowSize ∧ s_counter s < max_int64 - WindowSize.

(** Runs of the system in which every state is [tight]. *)
Definition run_step (s s' : sys) : Prop := ∃ t, ack_step s t s' ∧ tight s'.
Definition reachable (start : Z) (goroutines : nat) (s : sys) : Prop :=
  rtc run_step (init_sys start goroutines) s.

Section concurrent.
Context (start : Z) (Hstart : 1 <= start).

(** The invariant: what holds of the shared memory, ... *)
Record mem_ok (s : sys) : Prop := {
  mem_window : s_window s = slots (above (s_pos s - 1) (s_acked s));
  mem_acked : ∀ x, x ∈ s_acked s → start <= x < s_counter s;
  mem_prefix : ∀ x, start <= x < s_pos s → x ∈ s_acked s;
  mem_pos : start - 1 <= s_limit s < s_pos s ∧ s_pos s <= s_counter s;
  mem_free : lock_f (s_lock s) = 0 → s_pos s = s_limit s + 1;
  mem_tight : tight s
}.

(** ... of each goroutine, ... *)
Definition pc_ok (s : sys) (p : pc) : Prop :=
  (in_cs p = true → lock_f (s_lock s) = 1) ∧
  match p with
  | Have v | Checked v => start <= v < s_counter s ∧ v ∉ s_acked s
  | Looping i bf => i = s_pos s ∧ bf = slot (s_limit s)
  | Clearing i bf => i = s_pos s ∧ bf = slot (s_limit s) ∧ i ∈ s_acked s
  | Storing i => i = s_pos s
  | Holding | Unlocking => s_pos s = s_limit s + 1
  | Idle | Flagged => True
  | Panicked => False
  end.

(** ... and of two different ones. *)
Definition compat (p q : pc) : Prop :=
  (∀ v, held p = Some v → held q ≠ Some v) ∧ (in_cs p = true → in_cs q = false).

Record sys_inv (s : sys) : Prop := {
  inv_mem : mem_ok s;
  inv_pc : ∀ t p, s_pc s !! t = Some p → pc_ok s p;
  inv_pair : ∀ t u p q, s_pc s !! t = Some p → s_pc s !! u = Some q → t ≠ u → compat p q
}.

Lemma compat_sym p q : compat p q → compat q p.
Proof.
  intros [H1 H2]. split; [intros v Hq Hp; by apply (H1 v)|].
  intros Hq. destruct (in_cs p); [|done]. rewrite H2 in Hq; done.
Qed.

(** One goroutine moves: the memory, the goroutine and every other one have to be
    checked. *)
Lemma inv_goto s s' t p p' :
  sys_inv s → s_pc s !! t = Some p → s_pc s' = s_pc s → mem_ok (goto t p' s') → pc_ok s' p' →
  (∀ q, compat p q → pc_ok s q → pc_ok s' q ∧ compat p' q) →
  sys_inv (goto t p' s').
Proof.
  intros [Hm Hp Hc] Ht Hpc Hm' Hp' Ho. split; [done| |]; simpl; rewrite Hpc.
  - intros u q [[<- <-]|[Hne Hu]]%lookup_insert_Some; [done|].
    apply Ho; [by eapply Hc|by eapply Hp].
  - intros u v q r Hu Hv Huv.
    apply lookup_insert_Some in Hu as [[<- <-]|[Hne Hu]];
      apply lookup_insert_Some in Hv as [[<- <-]|[Hne' Hv]]; try done.
    + apply Ho; [by eapply Hc|by eapply Hp].
    + apply compat_sym, Ho; [by eapply Hc|by eapply Hp].
    + by eapply Hc.
Qed.

(** Pending values lie in one window, so a flag identifies its value. *)
Lemma flag_pending s v :
  mem_ok s → s_limit s < v < s_counter s →
  slot v ∈ s_window s ↔ s_pos s <= v ∧ v ∈ s_acked s.
Proof.
  intros [Hw Ha _ Hpos _ [Ht _]] Hv. rewrite Hw.
  rewrite (slot_in_slots (s_limit s)); [|lia|].
  - unfold above. rewrite elem_of_filter. intuition lia.
  - intros x [? Hx%Ha]%elem_of_filter. lia.
Qed.

(** A value that is out and not flagged is beyond [limit]. *)
Lemma held_range s v :
  mem_ok s → start <= v < s_counter s → v ∉ s_acked s → s_pos s <= v.
Proof.
  intros Hm Hv Hn. destruct (decide (v < s_pos s)) as [Hlt|]; [|lia].
  destruct Hn. eapply mem_prefix; [done|lia].
Qed.

Lemma inv_next s t :
  sys_inv s → s_pc s !! t = Some Idle → tight (set_counter (s_counter s +! 1) s) →
  sys_inv (goto t (Have (s_counter s)) (set_counter (s_counter s +! 1) s)).
Proof.
  intros Hi Ht Htt. pose proof (inv_mem _ Hi) as [Hw Ha Hp Hpos Hf Hti].
  assert (s_counter s +! 1 = s_counter s + 1) as E.
  { destruct Hti. change WindowSize with 1048576 in *. apply wrap64_id. width. }
  rewrite E in *.
  apply (inv_goto s _ t Idle); try done.
  - split; simpl; try done; [|lia]. intros x Hx%Ha. lia.
  - split; simpl; [done|]. split; [lia|]. intros Hx%Ha. lia.
  - intros q Hc [Hq1 Hq2]. split; [split; [done|]|].
    + destruct q; simpl in *; intuition lia.
    + split; [|done]. intros v [= <-] Hq. destruct q; simplify_eq/=; lia.
Qed.

Lemma inv_flag s t v :
  sys_inv s → s_pc s !! t = Some (Checked v) → sys_inv (goto t Flagged (set_flag v s)).
Proof.
  intros Hi Ht. pose proof (inv_mem _ Hi) as Hm. destruct (inv_pc _ Hi _ _ Ht) as [_ [Hv Hn]].
  pose proof (held_range _ _ Hm Hv Hn) as Hpv. destruct Hm as [Hw Ha Hp Hpos Hf Hti].
  apply (inv_goto s _ t (Checked v)); try done.
  - split; simpl; try done.
    + rewrite Hw. rewrite above_add by lia. unfold slots. by rewrite set_map_union_L, set_map_singleton_L.
    + intros x [->%elem_of_singleton|?%Ha]%elem_of_union; lia.
    + intros x Hx%Hp. set_solver.
  - intros q [Hc1 Hc2] [Hq1 Hq2]. split; [split; [done|]|done].
    destruct q as [|w|w| | | | | | |]; simpl in *; try done; [..|set_solver];
      (split; [lia|]; specialize (Hc1 v eq_refl); set_solver).
Qed.

Lemma inv_clear s t i bf :
  sys_inv s → s_pc s !! t = Some (Clearing i bf) →
  sys_inv (goto t (Looping (i +! 1) bf) (clear_flag i s)).
Proof.
  intros Hi Ht. pose proof (inv_mem _ Hi) as [Hw Ha Hp Hpos Hf Hti].
  destruct (inv_pc _ Hi _ _ Ht) as [Hl (-> & -> & Hin)]. specialize (Hl eq_refl).
  pose proof (Ha _ Hin). assert (s_pos s +! 1 = s_pos s + 1) as ->.
  { destruct Hti. change WindowSize with 1048576 in *. apply wrap64_id. width. }
  apply (inv_goto s _ t (Clearing (s_pos s) (slot (s_limit s)))); try done.
  - split; simpl; try done; [|intros x Hx|lia|rewrite Hl; done].
    + rewrite Hw, (slots_remove (s_limit s)).
      * f_equal. unfold above. apply set_eq. intros x.
        rewrite elem_of_difference, !elem_of_filter, elem_of_singleton. intuition lia.
      * destruct Hti. lia.
      * intros x [? Hx%Ha]%elem_of_filter. destruct Hti. lia.
    + destruct (decide (x = s_pos s)) as [->|]; [done|]. apply Hp. lia.
  - intros q [Hc1 Hc2] [Hq1 Hq2]. specialize (Hc2 eq_refl). split; [split; [done|]|done].
    destruct q; simpl in *; try done.
Qed.

Lemma inv_store s t i :
  sys_inv s → s_pc s !! t = Some (Storing i) → tight (set_limit (i -! 1) s) →
  sys_inv (goto t Unlocking (set_limit (i -! 1) s)).
Proof.
  intros Hi Ht Htt. pose proof (inv_mem _ Hi) as [Hw Ha Hp Hpos Hf Hti].
  destruct (inv_pc _ Hi _ _ Ht) as [Hl ->]. specialize (Hl eq_refl).
  assert (s_pos s -! 1 = s_pos s - 1) as E.
  { destruct Hti. change WindowSize with 1048576 in *. apply wrap64_id. width. }
  rewrite E in *.
  apply (inv_goto s _ t (Storing (s_pos s))); try done.
  - split; simpl; try done; lia.
  - split; simpl; [done|lia].
  - intros q [Hc1 Hc2] [Hq1 Hq2]. specialize (Hc2 eq_refl). split; [split; [done|]|done].
    destruct q; simpl in *; try done.
Qed.

(** Steps that change the goroutine's position and perhaps the lock. *)
Lemma inv_move s t p p' l :
  sys_inv s → s_pc s !! t = Some p → held p' = held p ∨ held p' = None →
  pc_ok (set_lock l s) p' →
  (lock_f l = 0 → s_pos s = s_limit s + 1) →
  (l = s_lock s ∧ in_cs p' = in_cs p ∨ lock_f l = 1 ∧ lock_f (s_lock s) = 0 ∨
   in_cs p = true ∧ in_cs p' = false) →
  sys_inv (goto t p' (set_lock l s)).
Proof.
  intros Hi Ht Hh Hp' Hf Hl. pose proof (inv_mem _ Hi) as [Hw Ha Hp Hpos _ Hti].
  apply (inv_goto s _ t p); try done.
  intros q [Hc1 Hc2] [Hq1 Hq2].
  assert (Hcs : in_cs q = true → lock_f l = 1 ∧ in_cs p' = false).
  { intros Hq. destruct Hl as [[-> E]|[[??]|[E ?]]].
    - split; [auto|]. destruct (in_cs p); [|congruence]. rewrite Hc2 in Hq; done.
    - rewrite Hq1 in *; done.
    - rewrite Hc2 in Hq; done. }
  split; [split; [by intros [??]%Hcs|]|split].
  - by destruct q.
  - intros v Hv. destruct Hh as [E|E]; rewrite E in Hv; [by apply Hc1|done].
  - intros E. destruct (in_cs q); [|done]. destruct Hcs as [_ E']; [done|]. congruence.
Qed.

Lemma set_lock_id s : set_lock (s_lock s) s = s.
Proof. by destruct s. Qed.

Lemma inv_move_same s t p p' :
  sys_inv s → s_pc s !! t = Some p → held p' = held p ∨ held p' = None →
  pc_ok s p' → in_cs p' = in_cs p →
  sys_inv (goto t p' s).
Proof.
  intros Hi Ht Hh Hp Hcs. rewrite <- (set_lock_id s). apply (inv_move s t p); try done.
  - apply Hi.
  - by left.
Qed.

Lemma inv_step s t s' : sys_inv s → ack_step s t s' → tight s' → sys_inv s'.
Proof.
  intros Hi Hs Htt. pose proof (inv_mem _ Hi) as Hm.
  destruct Hs as [Ht|v Ht Hn|v Ht Hin|v Ht|sl Ht Hl|sl Ht Hl|Ht|i Ht|i bf Ht Hne Hn
    |i bf Ht Hne Hin|i bf Ht|i Ht|Ht]; pose proof (inv_pc _ Hi _ _ Ht) as [Hcs Hpc]; simpl in Hpc, Hcs.
  - by apply inv_next.
  - apply (inv_move_same s t (Have v)); auto. by split.
  - destruct Hpc as [Hv Hna]. pose proof (held_range _ _ Hm Hv Hna).
    destruct (mem_pos _ Hm). rewrite (flag_pending s v Hm) in Hin by lia. tauto.
  - by apply inv_flag.
  - unfold TryLock in Hl. destruct (Z.eqb_spec (lock_f (s_lock s)) 0) as [E|]; simplify_eq.
    apply (inv_move s t Flagged); simpl; auto; [|done]. split; simpl; [done|]. by apply Hm.
  - apply (inv_move_same s t Flagged); auto. by split.
  - apply (inv_move_same s t Holding); auto. split; [done|]. split; [|done].
    rewrite Hpc. destruct Hm as [? ? ? [??] ? [??]]. change WindowSize with 1048576 in *. apply wrap64_id; width.
  - apply (inv_move_same s t (Looping i i)); auto. split; [done|]. apply Hpc.
  - apply (inv_move_same s t (Looping i bf)); auto. split; [done|]. apply Hpc.
  - apply (inv_move_same s t (Looping i bf)); auto. split; [done|]. destruct Hpc as [-> ->].
    split; [done|split; [done|]].
    rewrite (mem_window _ Hm) in Hin. apply elem_of_slots in Hin as (x & E & [Hx Hxa]%elem_of_filter).
    pose proof (mem_acked _ Hm _ Hxa). destruct (mem_tight _ Hm), (mem_pos _ Hm).
    by rewrite (slot_inj _ _ E) by lia.
  - by apply inv_clear.
  - by apply inv_store.
  - apply (inv_move s t Unlocking); simpl; auto. by split.
Qed.

Lemma inv_init n : start < max_int64 - WindowSize → sys_inv (init_sys start n).
Proof.
  intros Hs. assert (Hidle : ∀ t p, s_pc (init_sys start n) !! t = Some p → p = Idle).
  { intros t p Hp. simpl in Hp. apply elem_of_list_to_map_2, list_elem_of_fmap in Hp.
    by destruct Hp as (? & [= <- <-] & _). }
  split.
  - split; simpl; try done; [lia..|]. split; simpl; [|done]. change WindowSize with 1048576. lia.
  - by intros t p ->%Hidle.
  - by intros t u p q ->%Hidle ->%Hidle.
Qed.

Lemma inv_reachable n s :
  start < max_int64 - WindowSize → reachable start n s → sys_inv s.
Proof.
  intros Hs Hr. pose proof (inv_init n Hs) as H. unfold reachable in Hr.
  induction Hr as [|s1 s2 s3 (t & Hstep & Htt) _ IH]; [done|]. apply IH. by eapply inv_step.
Qed.

End concurrent.

(** C3: Any number of goroutines call [Next] and [Acknowledge] concurrently.  As long
    as at most a window of values beyond [Last] is out, then whatever the
    interleaving: [Last] never reports a value before every value up to it has been
    acknowledged, [Acknowledge] never panics, and no two goroutines move the limit at
    the same time. *)
Theorem ack_concurrent_safe start n s :
  1 <= start < max_int64 - WindowSize → reachable start n s →
  (∀ v, start <= v <= s_limit s → v ∈ s_acked s) ∧
  (∀ t, s_pc s !! t ≠ Some Panicked) ∧
  (∀ t u p q, s_pc s !! t = Some p → s_pc s !! u = Some q →
     in_cs p = true → in_cs q = true → t = u).
Proof.
  intros [Hs Hs'] Hr. destruct (inv_reachable start Hs n s Hs' Hr) as [Hm Hp Hc].
  split; [|split].
  - intros v Hv. apply (mem_prefix _ _ Hm). destruct (mem_pos _ _ Hm). lia.
  - intros t Ht. by apply Hp in Ht as [_ ?].
  - intros t u p q Ht Hu Htp Huq. destruct (decide (t = u)) as [|Hne]; [done|].
    destruct (Hc t u p q Ht Hu Hne) as [_ Hx]. specialize (Hx Htp). congruence.
Qed.

(** A run of [n] steps, named by the goroutine that makes each: the executable reading
    of [ack_step]. *)
Definition ack_exec (s : sys) (t : nat) : option sys :=
  match s_pc s !! t with
  | Some Idle => Some (goto t (Have (s_counter s)) (set_counter (s_counter s +! 1) s))
  | Some (Have v) =>
      Some (if bool_decide (slot v ∈ s_window s) then goto t Panicked s else goto t (Checked v) s)
  | Some (Checked v) => Some (goto t Flagged (set_flag v s))
  | Some Flagged =>
      Some (match TryLock (s_lock s) with
            | (true, sl) => goto t Holding (set_lock sl s)
            | (false, _) => goto t Idle s
            end)
  | Some Holding => Some (goto t (Looping (s_limit s +! 1) (slot (s_limit s))) s)
  | Some (Looping i bf) =>
      Some (if i =? bf then goto t (Storing i) s
            else if bool_decide (slot i ∈ s_window s) then goto t (Clearing i bf) s
            else goto t (Storing i) s)
  | Some (Clearing i bf) => Some (goto t (Looping (i +! 1) bf) (clear_flag i s))
  | Some (Storing i) => Some (goto t Unlocking (set_limit (i -! 1) s))
  | Some Unlocking => Some (goto t Idle (set_lock (Unlock (s_lock s)) s))
  | _ => None
  end.

Lemma ack_exec_step s t s' : ack_exec s t = Some s' → ack_step s t s'.
Proof.
  unfold ack_exec. destruct (s_pc s !! t) as [[]|] eqn:E; intros; simplify_eq;
    repeat case_match; repeat case_bool_decide; simplify_eq; try by econstructor.
  - destruct (Z.eqb_spec index bf); simplify_eq. by constructor.
  - eapply step_loop_go; [done|by apply Z.eqb_neq|done].
  - eapply step_loop_break; [done|by apply Z.eqb_neq|done].
Qed.

Fixpoint ack_trace (ts : list nat) (s : sys) : option sys :=
  match ts with
  | [] => Some s
  | t :: ts' =>
      match ack_exec s t with
      | Some s' => if bool_decide (s_counter s' <= s_limit s' + 1 + WindowSize ∧
                                   s_counter s' < max_int64 - WindowSize)
                   then ack_trace ts' s' else None
      | None => None
      end
  end.

Lemma ack_trace_run ts s s' : ack_trace ts s = Some s' → rtc run_step s s'.
Proof.
  revert s. induction ts as [|t ts IH]; simpl; intros s E; simplify_eq; [done|].
  destruct (ack_exec s t) as [s1|] eqn:E1; [|done]. case_bool_decide as Ht; [|done].
  eapply rtc_l; [|by apply IH]. exists t. split; [by apply ack_exec_step|done].
Qed.

(** Two goroutines: 0 takes the value 10 and is about to store the new limit when 1
    acknowledges 11; 1 finds the lock taken and returns. *)
Definition lag_schedule : list nat :=
  [0; 1; 0; 0; 0; 0; 0; 0; 0; 1; 1; 1; 0; 0]%nat.

Lemma ack_concurrent_safe_witness :
  match ack_trace lag_schedule (init_sys 10 2) with
  | Some s =>
      (∀ v, 10 <= v <= s_limit s → v ∈ s_acked s) ∧
      (∀ t, s_pc s !! t ≠ Some Panicked) ∧
      (∀ t u p q, s_pc s !! t = Some p → s_pc s !! u = Some q →
         in_cs p = true → in_cs q = true → t = u)
  | None => False
  end.
Proof.
  destruct (ack_trace lag_schedule (init_sys 10 2)) as [s|] eqn:E.
  - apply (ack_concurrent_safe 10 2 s); [change WindowSize with 1048576; width|].
    by apply (ack_trace_run lag_schedule).
  - vm_compute in E. discriminate E.
Defined.

(** [Last] may stay behind when everyone is idle.  In this run both values were
    acknowledged and both goroutines have returned, yet [Last] reports only the first:
    the second goroutine found the lock held after the holder had already looked at
    its flag, so its value waits for the next call of [Acknowledge]. *)
Lemma ack_last_lags :
  ∃ s, reachable 10 2 s ∧ s_acked s = {[10; 11]} ∧ s_limit s = 10 ∧
       s_pc s !! 0%nat = Some Idle ∧ s_pc s !! 1%nat = Some Idle.
Proof.
  destruct (ack_trace lag_schedule (init_sys 10 2)) as [s|] eqn:E; [|by vm_compute in E].
  exists s. split; [by apply (ack_trace_run lag_schedule)|].
  vm_compute in E. by simplify_eq.
Qed.
