(* ===== verification/Zipfian.v ===== *)
(** * pkg/generator: zipfian.go, scrambled_zipfian.go, skewedlatest.go, and ycsb.Generator

    The skewed distributions, and [gen], the closed union of the generators the core
    workload stores in variables of the interface type [ycsb.Generator].  A
    constructor that draws once from a throw-away source seeded with the clock takes
    that source's outputs as an argument ([seed]). *)

From S2P Require Import Prelude GoFloat GoRand Hash Generators AckCounter.

(** ** zipfian.go *)

Definition ZipfianConstant : float64 := f64_lit 99 2.

Record Zipfian := {
  zipf_last : Number;
  zipf_lock : SpinLock;
  items : Z;
  base : Z;
  zipfianConstant : float64;
  alpha : float64;
  zetan : float64;
  theta : float64;
  eta : float64;
  zeta2Theta : float64;
  countForZeta : Z;
  allowItemCountDecrease : bool
}.

Section zipfian.
Context `{MathLib}.

(** One term of the sum, [1 / math.Pow(float64(i+1), theta)]. *)
Definition zeta_term (theta : float64) (i : Z) : float64 :=
  f64_div f64_one (Pow (f64_of_Z (i +! 1)) theta).

(** [for i := st; i < n; i++], which makes [n - st] rounds. *)
Fixpoint zeta_loop (rounds : nat) (i : Z) (theta sum : float64) : float64 :=
  match rounds with
  | O => sum
  | S k => zeta_loop k (i +! 1) theta (f64_add sum (zeta_term theta i))
  end.

Definition zetaStatic (st n : Z) (theta initialSum : float64) : float64 :=
  zeta_loop (Z.to_nat (n - st)) st theta initialSum.

(** [z.zeta] also records the count; the caller stores the sum. *)
Definition Zipfian_zeta (st n : Z) (thetaVal initialSum : float64) : Z * float64 :=
  (n, zetaStatic st n thetaVal initialSum).

Definition eta_of (items : Z) (theta zeta2Theta zetan : float64) : float64 :=
  f64_div (f64_sub f64_one (Pow (f64_div (f64_of_Z 2) (f64_of_Z items)) (f64_sub f64_one theta)))
          (f64_sub f64_one (f64_div zeta2Theta zetan)).

(** [z.zetan, z.eta, z.countForZeta] after one of the two recomputations. *)
Definition set_zeta (z : Zipfian) (p : Z * float64) : Zipfian := {|
  zipf_last := zipf_last z; zipf_lock := zipf_lock z; items := items z; base := base z;
  zipfianConstant := zipfianConstant z; alpha := alpha z;
  zetan := p.2; theta := theta z;
  eta := eta_of (items z) (theta z) (zeta2Theta z) p.2; zeta2Theta := zeta2Theta z;
  countForZeta := p.1; allowItemCountDecrease := allowItemCountDecrease z |}.

Definition set_zlock (z : Zipfian) (l : SpinLock) : Zipfian := {|
  zipf_last := zipf_last z; zipf_lock := l; items := items z; base := base z;
  zipfianConstant := zipfianConstant z; alpha := alpha z; zetan := zetan z; theta := theta z;
  eta := eta z; zeta2Theta := zeta2Theta z; countForZeta := countForZeta z;
  allowItemCountDecrease := allowItemCountDecrease z |}.

Definition set_zlast (z : Zipfian) (v : Z) : Zipfian := {|
  zipf_last := SetLastValue (zipf_last z) v; zipf_lock := zipf_lock z; items := items z;
  base := base z; zipfianConstant := zipfianConstant z; alpha := alpha z; zetan := zetan z;
  theta := theta z; eta := eta z; zeta2Theta := zeta2Theta z; countForZeta := countForZeta z;
  allowItemCountDecrease := allowItemCountDecrease z |}.

(** The part of [next] inside [if itemCount != z.countForZeta]. *)
Definition Zipfian_resize (z : Zipfian) (itemCount : Z) : res Zipfian :=
  if itemCount =? countForZeta z then Ok z
  else
    l ← Lock (zipf_lock z);
    let z := set_zlock z l in
    let z :=
      if countForZeta z <? itemCount
      then set_zeta z (Zipfian_zeta (countForZeta z) itemCount (theta z) (zetan z))
      else if (itemCount <? countForZeta z) && allowItemCountDecrease z
      then set_zeta z (Zipfian_zeta 0 itemCount (theta z) f64_zero)
      else z in
    Ok (set_zlock z (Unlock l)).

Definition Zipfian_next (z : Zipfian) (itemCount : Z) : M rand (Z * Zipfian) :=
  z ← lift (Zipfian_resize z itemCount);
  u ← Float64;
  let uz := f64_mul u (zetan z) in
  if f64_ltb uz f64_one then mret (base z, z)
  else if f64_ltb uz (f64_add f64_one (Pow (f64_lit 5 1) (theta z))) then mret (base z +! 1, z)
  else
    let ret := base z +! f64_to_int64
      (f64_mul (f64_of_Z itemCount)
               (Pow (f64_add (f64_sub (f64_mul (eta z) u) (eta z)) f64_one) (alpha z))) in
    mret (ret, set_zlast z ret).

Definition Zipfian_Next (z : Zipfian) : M rand (Z * Zipfian) := Zipfian_next z (items z).
Definition Zipfian_Last (z : Zipfian) : Z := Number_Last (zipf_last z).

(** The fields before the first draw. *)
Definition zipf_init (min max : Z) (constant zetan0 : float64) : Zipfian :=
  let n := max -! min +! 1 in
  let z2 := (Zipfian_zeta 0 2 constant f64_zero).2 in
  {| zipf_last := {| LastValue := 0 |}; zipf_lock := NewSpinLock; items := n; base := min;
     zipfianConstant := constant; alpha := f64_div f64_one (f64_sub f64_one constant);
     zetan := zetan0; theta := constant; eta := eta_of n constant z2 zetan0; zeta2Theta := z2;
     countForZeta := n; allowItemCountDecrease := false |}.

Definition NewZipfian (min max : Z) (constant zetan0 : float64) (seed : rand) : res Zipfian :=
  '(_, z, _) ← Zipfian_Next (zipf_init min max constant zetan0) seed;
  Ok z.

Definition NewZipfianWithRange (min max : Z) (constant : float64) (seed : rand) : res Zipfian :=
  NewZipfian min max constant (zetaStatic 0 (max -! min +! 1) constant f64_zero) seed.

Definition NewZipfianWithItems (n : Z) (constant : float64) (seed : rand) : res Zipfian :=
  NewZipfianWithRange 0 (n -! 1) constant seed.

(** ** scrambled_zipfian.go *)

Record ScrambledZipfian := {
  scr_last : Number; scr_gen : Zipfian; scr_min : Z; scr_max : Z; scr_itemCount : Z
}.

Definition scr_zetan : float64 := f64_lit 2646902820178302 14.
Definition scr_usedZipfianConstant : float64 := f64_lit 99 2.
Definition scr_items : Z := 10000000000.

Definition NewScrambledZipfian (min max : Z) (constant : float64) (seed : rand)
  : res ScrambledZipfian :=
  g ← (if f64_eqb constant scr_usedZipfianConstant
       then NewZipfian 0 scr_items constant scr_zetan seed
       else NewZipfianWithRange 0 scr_items constant seed);
  Ok {| scr_last := {| LastValue := 0 |}; scr_gen := g; scr_min := min; scr_max := max;
        scr_itemCount := max -! min +! 1 |}.

Definition ScrambledZipfian_Next (s : ScrambledZipfian) : M rand (Z * ScrambledZipfian) :=
  '(n, g) ← Zipfian_Next (scr_gen s);
  if scr_itemCount s =? 0 then panic "integer divide by zero"
  else
    let n := scr_min s +! Z.rem (Hash64 n) (scr_itemCount s) in
    mret (n, {| scr_last := SetLastValue (scr_last s) n; scr_gen := g; scr_min := scr_min s;
                scr_max := scr_max s; scr_itemCount := scr_itemCount s |}).

(** ** skewedlatest.go

    [basis] is the acknowledged counter of the workload, which other operations move;
    the definitions take the value that [s.basis.Last()] returns at the call. *)

Record SkewedLatest := { skew_last : Number; skew_zipfian : Zipfian }.

Definition SkewedLatest_Next (basisLast : Z) (s : SkewedLatest) : M rand (Z * SkewedLatest) :=
  '(v, z) ← Zipfian_next (skew_zipfian s) basisLast;
  let next := basisLast -! v in
  mret (next, {| skew_last := SetLastValue (skew_last s) next; skew_zipfian := z |}).

Definition NewSkewedLatest (basisLast : Z) (seed1 seed2 : rand) : res SkewedLatest :=
  z ← NewZipfianWithItems basisLast ZipfianConstant seed1;
  '(_, s, _) ← SkewedLatest_Next basisLast {| skew_last := {| LastValue := 0 |}; skew_zipfian := z |} seed2;
  Ok s.

(** ** ycsb.Generator *)

Inductive gen :=
| GConstant (c : Constant)
| GCounter (c : Counter)
| GSequential (s : Sequential)
| GUniform (u : Uniform)
| GHotspot (h : Hotspot)
| GExponential (e : Exponential)
| GDiscrete (d : Discrete)
| GHistogram (h : Histogram)
| GZipfian (z : Zipfian)
| GScrambledZipfian (s : ScrambledZipfian)
| GSkewedLatest (s : SkewedLatest).

Definition wrap_gen {G} (c : G → gen) (m : M rand (Z * G)) : M rand (Z * gen) :=
  '(v, g) ← m; mret (v, c g).

(** The dynamic dispatch of [Next]; [basisLast] is read by [SkewedLatest] only. *)
Definition gen_Next (basisLast : Z) (g : gen) : M rand (Z * gen) :=
  match g with
  | GConstant c => wrap_gen GConstant (Constant_Next c)
  | GCounter c => wrap_gen GCounter (Counter_Next c)
  | GSequential s => wrap_gen GSequential (Sequential_Next s)
  | GUniform u => wrap_gen GUniform (Uniform_Next u)
  | GHotspot h => wrap_gen GHotspot (Hotspot_Next h)
  | GExponential e => wrap_gen GExponential (Exponential_Next e)
  | GDiscrete d => wrap_gen GDiscrete (Discrete_Next d)
  | GHistogram h => wrap_gen GHistogram (Histogram_Next h)
  | GZipfian z => wrap_gen GZipfian (Zipfian_Next z)
  | GScrambledZipfian s => wrap_gen GScrambledZipfian (ScrambledZipfian_Next s)
  | GSkewedLatest s => wrap_gen GSkewedLatest (SkewedLatest_Next basisLast s)
  end.

Definition gen_Last (basisLast : Z) (g : gen) : Z :=
  match g with
  | GConstant c => Constant_Last c
  | GCounter c => Counter_Last c
  | GSequential s => Sequential_Last s
  | GUniform u => Uniform_Last u
  | GHotspot h => Number_Last (hot_last h)
  | GExponential e => Number_Last (exp_last e)
  | GDiscrete d => Number_Last (disc_last d)
  | GHistogram h => Histogram_Last h
  | GZipfian z => Zipfian_Last z
  | GScrambledZipfian s => Number_Last (scr_last s)
  | GSkewedLatest s => Number_Last (skew_last s)
  end.

(** ** The zeta sum *)

Lemma zeta_loop_add k1 k2 i t s :
  int64_ok i → i + Z.of_nat k1 <= max_int64 →
  zeta_loop (k1 + k2) i t s = zeta_loop k2 (i + Z.of_nat k1) t (zeta_loop k1 i t s).
Proof.
  revert i s. induction k1 as [|k1 IH]; intros i s Hi Hk.
  - by rewrite Z.add_0_r.
  - cbn [Nat.add zeta_loop]. rewrite wrap64_id by width. rewrite IH by width. f_equal. lia.
Qed.

Lemma zetaStatic_split a b t s :
  0 <= a <= b → b <= max_int64 →
  zetaStatic 0 b t s = zetaStatic a b t (zetaStatic 0 a t s).
Proof.
  intros Hab Hb. unfold zetaStatic.
  replace (Z.to_nat (b - 0)) with (Z.to_nat (a - 0) + Z.to_nat (b - a))%nat by lia.
  rewrite zeta_loop_add by width. f_equal. lia.
Qed.

(** [zetan] is the sum for the first [countForZeta] items, whatever the history. *)
Record zipf_wf (z : Zipfian) : Prop := {
  wf_zetan : zetan z = zetaStatic 0 (countForZeta z) (theta z) f64_zero;
  wf_eta : eta z = eta_of (items z) (theta z) (zeta2Theta z) (zetan z);
  wf_count : 0 <= countForZeta z <= max_int64;
  wf_lock : lock_f (zipf_lock z) = 0;
  wf_decrease : allowItemCountDecrease z = false
}.

Lemma Zipfian_resize_wf z n :
  zipf_wf z → n <= max_int64 →
  ∃ z', Zipfian_resize z n = Ok z' ∧ zipf_wf z' ∧ countForZeta z' = Z.max (countForZeta z) n ∧
        items z' = items z ∧ theta z' = theta z ∧ base z' = base z ∧ zipf_last z' = zipf_last z.
Proof.
  intros [Hz He Hc Hl Hd] Hn. unfold Zipfian_resize, Lock, TryLock.
  destruct (Z.eqb_spec n (countForZeta z)) as [->|Hne].
  { exists z. repeat split; try done; lia. }
  rewrite Hl. simpl. rewrite Hd, andb_false_r.
  destruct (Z.ltb_spec (countForZeta z) n); (eexists; split; [done|]); simpl.
  - split; [|repeat split; lia]. split; simpl; try done; [|lia].
    rewrite Hz. symmetry. apply zetaStatic_split; lia.
  - split; [|repeat split; lia]. split; simpl; done.
Qed.

Lemma Zipfian_next_wf z n r v z' r' :
  zipf_wf z → n <= max_int64 → Zipfian_next z n r = Ok ((v, z'), r') →
  zipf_wf z' ∧ countForZeta z' = Z.max (countForZeta z) n ∧ items z' = items z ∧ theta z' = theta z.
Proof.
  intros Hw Hn. destruct (Zipfian_resize_wf z n Hw Hn) as (z1 & E & Hw1 & Hc & Hi & Ht & _).
  unfold Zipfian_next. rewrite E. intros Hr. run_inv. case_match; [by run_inv|]. case_match; [by run_inv|].
  run_inv.   split; [|done]. destruct Hw1. by split.
Qed.

(** Calls of [next] with a growing or shrinking number of items. *)
Fixpoint zipf_calls (counts : list Z) (z : Zipfian) : M rand (list Z * Zipfian) :=
  match counts with
  | [] => mret ([], z)
  | n :: ns => '(v, z) ← Zipfian_next z n; '(vs, z) ← zipf_calls ns z; mret (v :: vs, z)
  end.

Lemma zipf_calls_wf counts z r vs z' r' :
  zipf_wf z → Forall (λ n, n <= max_int64) counts →
  zipf_calls counts z r = Ok ((vs, z'), r') →
  zipf_wf z' ∧ countForZeta z' = foldl Z.max (countForZeta z) counts ∧ items z' = items z ∧ theta z' = theta z.
Proof.
  intros Hw Hns. revert z r vs z' r' Hw.
  induction Hns as [|n ns Hn _ IH]; intros z r vs z' r' Hw E; cbn [zipf_calls] in E; run_inv; [done|].
  match goal with Hn : Zipfian_next _ _ _ = _, Hc : zipf_calls _ _ _ = _ |- _ =>
    apply (Zipfian_next_wf z n) in Hn as (Hw1 & Hc1 & Hi1 & Ht1); [|done..]; apply IH in Hc as (Hw2 & Hc2 & Hi2 & Ht2); [|done] end. by rewrite Hc2, Hc1, Hi2, Hi1, Ht2, Ht1.
Qed.

Lemma NewZipfianWithRange_wf min max c seed z :
  int64_ok min → 0 <= max - min + 1 <= max_int64 →
  NewZipfianWithRange min max c seed = Ok z →
  zipf_wf z ∧ countForZeta z = max - min + 1 ∧ items z = max - min + 1 ∧ theta z = c.
Proof.
  intros Hmin Hn. unfold NewZipfianWithRange, NewZipfian.
  assert (max -! min +! 1 = max - min + 1) as En.
  { rewrite wrap64_add_l. apply wrap64_id. width. }
  destruct (Zipfian_Next _ seed) as [[[v z1] r']|?|?|] eqn:E; intros [= ->].
  unfold Zipfian_Next in E. apply Zipfian_next_wf in E as (Hw & Hc & Hi & Ht).
  - unfold zipf_init in *; simpl in *. rewrite En in *. split; [done|]. rewrite Hc. split; [lia|done].
  - unfold zipf_init; rewrite En in *. split; simpl; try done.
  - unfold zipf_init; simpl. rewrite En. lia.
Qed.

End zipfian.

(** A concrete [MathLib] for the examples: [Pow x y] at exponent one. *)
Definition math_exp1 : MathLib := {| Pow x _ := x; Log x := f64_sub x f64_one |}.

(** C26: The incremental zeta is the exact zeta.  After any sequence of calls of [next]
    with any item counts (what [SkewedLatest] does while records are inserted), the
    [zetan] a zipfian generator uses is, to the last bit, the sum computed from
    scratch over the largest count seen so far, and [eta] is the value for it. *)
Theorem zipfian_zeta_incremental `{MathLib} min max c seed counts z0 r vs z r' :
  int64_ok min → 0 <= max - min + 1 <= max_int64 → Forall (λ n, n <= max_int64) counts →
  NewZipfianWithRange min max c seed = Ok z0 →
  zipf_calls counts z0 r = Ok ((vs, z), r') →
  zetan z = zetaStatic 0 (foldl Z.max (max - min + 1) counts) c f64_zero ∧
  eta z = eta_of (max - min + 1) c (zeta2Theta z) (zetan z).
Proof.
  intros Hmin Hn Hns E0 E. apply NewZipfianWithRange_wf in E0 as (Hw0 & Hc0 & Hi0 & Ht0); [|done..].
  apply zipf_calls_wf in E as (Hw & Hc & Hi & Ht); [|done..].
  rewrite (wf_zetan _ Hw), (wf_eta _ Hw), Hc, Hc0, Ht, Ht0, Hi, Hi0, (wf_zetan _ Hw), Hc, Hc0, Ht, Ht0.
  done.
Qed.

Lemma zipfian_zeta_incremental_witness :
  ∃ z0 vs z r',
    @NewZipfianWithRange math_exp1 0 4 ZipfianConstant [5] = Ok z0 ∧
    @zipf_calls math_exp1 [5; 8; 3; 9] z0 [1; 2 ^ 62; 3; 2 ^ 61] = Ok ((vs, z), r') ∧
    zetan z = @zetaStatic math_exp1 0 (foldl Z.max (4 - 0 + 1) [5; 8; 3; 9]) ZipfianConstant f64_zero ∧
    eta z = @eta_of math_exp1 (4 - 0 + 1) ZipfianConstant (zeta2Theta z) (zetan z).
Proof.
  assert (∃ z0 vs z r',
    @NewZipfianWithRange math_exp1 0 4 ZipfianConstant [5] = Ok z0 ∧
    @zipf_calls math_exp1 [5; 8; 3; 9] z0 [1; 2 ^ 62; 3; 2 ^ 61] = Ok ((vs, z), r'))
    as (z0 & vs & z & r' & E0 & E).
  { eexists _, _, _, _. split; [vm_compute; reflexivity|vm_compute; reflexivity]. }
  exists z0, vs, z, r'. split; [exact E0|split; [exact E|]].
  refine (@zipfian_zeta_incremental math_exp1 0 4 ZipfianConstant [5] [5; 8; 3; 9] z0 _ vs z r' _ _ _ E0 E); clear.
  - done.
  - done.
  - repeat constructor; done.
Defined.

(** A scrambled zipfian generator stays in its range: whenever the underlying
    zipfian draws an item, [Next] returns a value of [[min, max]] (it does not panic
    on the remainder) and [Last] reports it, except if the item's hash is
    [math.MinInt64], whose negation overflows. *)
Lemma scrambled_in_range `{MathLib} s r item g r' :
  int64_ok (scr_min s) → scr_min s <= scr_max s <= max_int64 → scr_max s - scr_min s < max_int64 →
  scr_itemCount s = scr_max s -! scr_min s +! 1 →
  Zipfian_Next (scr_gen s) r = Ok ((item, g), r') → Hash64 item ≠ min_int64 →
  ∃ n s', ScrambledZipfian_Next s r = Ok ((n, s'), r') ∧ scr_min s <= n <= scr_max s ∧
          Number_Last (scr_last s') = n ∧ scr_gen s' = g.
Proof.
  intros Hmin Hmm Hi Hc E Hh. unfold ScrambledZipfian_Next. rewrite (bind_Ok_1 _ _ _ _ _ E).
  assert (scr_itemCount s = scr_max s - scr_min s + 1) as Hc'.
  { rewrite Hc, wrap64_add_l. apply wrap64_id. width. }
  destruct (Z.eqb_spec (scr_itemCount s) 0) as [|_]; [lia|].
  pose proof (Z.rem_bound_pos (Hash64 item) (scr_itemCount s)) as Hr.
  destruct (Hash64_sign item) as [Hp|Hneg]; [|done].
  specialize (Hr ltac:(lia) ltac:(lia)).
  eexists _, _. split; [done|]. simpl. rewrite wrap64_id by width. split; [lia|done].
Qed.

(** [Last] of a zipfian generator is stale after a draw of one of the two most
    popular items: when the scaled draw is below [1 + 0.5^theta], [Next] returns the
    base or the base plus one without recording it. *)
Lemma zipfian_last_stale `{MathLib} z r u r' :
  countForZeta z = items z → Float64 r = Ok (u, r') →
  f64_ltb (f64_mul u (zetan z)) f64_one = true ∨
  f64_ltb (f64_mul u (zetan z)) (f64_add f64_one (Pow (f64_lit 5 1) (theta z))) = true →
  ∃ v z', Zipfian_Next z r = Ok ((v, z'), r') ∧ (v = base z ∨ v = base z +! 1) ∧
          Zipfian_Last z' = Zipfian_Last z.
Proof.
  intros Hc Hu Hz. unfold Zipfian_Next, Zipfian_next, Zipfian_resize.
  rewrite Hc, Z.eqb_refl. cbn [lift]. rewrite (bind_Ok_1 _ _ r z r) by done.
  rewrite (bind_Ok_1 _ _ _ _ _ Hu).
  destruct (f64_ltb (f64_mul u (zetan z)) f64_one); [eauto 6|].
  destruct Hz as [?|Hz]; [done|]. rewrite Hz. eauto 6.
Qed.

