(* ===== verification/GeneratorSpec.v ===== *)
(** * The values the generators return

    [gen_typed P pn g]: generator [g] is in a state from which the [k]-th value to come
    satisfies [P k], and from which a call may panic only where [pn] holds.  The
    constructors of [pkg/generator] give typed generators, a call of [Next] keeps the type
    for the values that follow, and [gen_calls] repeats it.  [Exponential], [Zipfian] and
    [SkewedLatest] take their values from [math.Log] and [math.Pow], which are parameters,
    and have no range here. *)

From S2P Require Import Prelude GoFloat GoRand Hash Generators AckCounter Zipfian.

(** ** Postconditions of runs *)

(** The run returns a value that satisfies [Q], or uses up its source, or panics where
    [panics] allows it; it does not end the process. *)
Definition run_post {A S} (Q : A → Prop) (panics : Prop) (x : res (A * S)) : Prop :=
  match x with Ok (a, _) => Q a | Panic _ => panics | Exit _ => False | Stuck => True end.

Lemma run_post_bind {A B S} (Q : B → Prop) panics (m : M S A) (f : A → M S B) (R : A → Prop) s :
  run_post R panics (m s) → (∀ a s', R a → run_post Q panics (f a s')) → run_post Q panics ((m ≫= f) s).
Proof. unfold mbind, M_bind. destruct (m s) as [[a s']|?|?|]; cbn; auto. Qed.

Lemma Int63n_post n r p : 0 < n → run_post (λ v, 0 <= v < n) p (Int63n n r).
Proof.
  intros Hn. destruct (Int63n_outcome n r Hn) as [(v & r' & E)|E]; rewrite E; cbn; [|done].
  by apply Int63n_range in E.
Qed.

Lemma Float64_post r p : run_post (λ _, True) p (Float64 r).
Proof. unfold Float64. induction r as [|w r IH]; cbn [float64_loop]; [done|]. by case_match. Qed.

(** ** Types of generators *)

Definition zipf_typed (z : Zipfian) : Prop := lock_f (zipf_lock z) = 0 ∧ int64_ok (base z).

(** Where the remainder of a hash moves a scrambled generator's value; the hash
    [math.MinInt64] is the only negative one. *)
Definition scrambled_range (min max v : Z) : Prop :=
  min <= v <= max ∨ v = min +! Z.rem min_int64 (max - min + 1).

Definition gen_typed (P : nat → Z → Prop) (pn : Prop) (g : gen) : Prop :=
  match g with
  | GConstant c => int64_ok (constant_value c) ∧ ∀ k, P k (constant_value c)
  | GCounter c => ∀ k : nat, P k (counter c +! Z.of_nat k)
  | GSequential s =>
      seq_interval s ≠ 0 ∧ ∀ k : nat, P k (seq_start s +! Z.rem (seq_counter s +! (Z.of_nat k + 1)) (seq_interval s))
  | GUniform u =>
      int64_ok (lb u) ∧ lb u + uni_interval u - 1 <= max_int64 ∧ (uni_interval u <= 0 → pn)
      ∧ ∀ k v, lb u <= v < lb u + uni_interval u → P k v
  | GHotspot h =>
      hotspot_wf h ∧ (hotInterval h = 0 ∨ coldInterval h = 0 → pn)
      ∧ ∀ k v, lowerBound h <= v <= upperBound h → P k v
  | GDiscrete d =>
      pn ∧ Forall (λ p, int64_ok (Value p)) (disc_values d) ∧ ∀ k p, p ∈ disc_values d → P k (Value p)
  | GHistogram h =>
      (area h <= 0 → pn) ∧ (0 < area h → buckets h ≠ [])
      ∧ ∀ k i, 0 <= i < Z.of_nat (length (buckets h)) → P k (i *! blockSize h)
  | GScrambledZipfian s =>
      zipf_typed (scr_gen s) ∧ scr_itemCount s = scr_max s - scr_min s + 1
      ∧ int64_ok (scr_min s) ∧ int64_ok (scr_max s) ∧ scr_min s <= scr_max s
      ∧ ∀ k v, scrambled_range (scr_min s) (scr_max s) v → P k v
  | _ => False
  end.

(** ** One call of Next *)

Section next.
Context `{MathLib}.

(** Tactic steps through the binds of a generator: draws, then the returned value. *)
Ltac post_step :=
  match goal with
  | |- run_post _ _ ((Float64 ≫= _) _) => eapply run_post_bind; [apply Float64_post|]; intros ? ? _
  | |- run_post _ _ (mret _ _) => cbn [run_post mret M_ret]
  end.

Lemma Zipfian_resize_typed z n : zipf_typed z → ∃ z', Zipfian_resize z n = Ok z' ∧ zipf_typed z'.
Proof.
  intros [Hl Hb]. unfold Zipfian_resize, Lock, TryLock. case_match; [by eexists|]. rewrite Hl.
  eexists. split; [done|]. repeat case_match; by split.
Qed.

Lemma Zipfian_next_post z n r p :
  zipf_typed z → run_post (λ '(v, z'), int64_ok v ∧ zipf_typed z') p (Zipfian_next z n r).
Proof.
  intros Hz. unfold Zipfian_next. destruct (Zipfian_resize_typed z n Hz) as (z' & -> & Hl' & Hb').
  eapply run_post_bind; [by apply (eq_refl : z' = z')|]. intros ? r1 <-. post_step.
  repeat case_match; post_step; split_and!; first [done|apply wrap64_range].
Qed.

(** The value and the next state of a typed generator. *)
Definition next_typed (P : nat → Z → Prop) (pn : Prop) (r : Z * gen) : Prop :=
  P 0%nat r.1 ∧ int64_ok r.1 ∧ gen_typed (λ k, P (S k)) pn r.2.

Lemma wrap_post {G} (c : G → gen) (m : M rand (Z * G)) P pn r :
  run_post (λ '(v, g), next_typed P pn (v, c g)) pn (m r) → run_post (next_typed P pn) pn (wrap_gen c m r).
Proof. intros Hm. eapply run_post_bind; [exact Hm|]. by intros [v g] r' ?. Qed.

(** A draw from an interval that may be empty. *)
Lemma Int63n_post_or n r (pn : Prop) : (n <= 0 → pn) → run_post (λ v, 0 <= v < n) pn (Int63n n r).
Proof.
  intros Hp. destruct (Z.leb_spec n 0) as [Hn|Hn]; [|by apply Int63n_post].
  unfold Int63n. rewrite (proj2 (Z.leb_le n 0) Hn). by apply Hp.
Qed.

Lemma Uniform_Next_post P pn u r :
  gen_typed P pn (GUniform u) → run_post (λ '(v, u), next_typed P pn (v, GUniform u)) pn (Uniform_Next u r).
Proof.
  intros (Hl & Hu & Hp & HP). unfold Uniform_Next. eapply run_post_bind; [by apply Int63n_post_or|].
  intros v r' Hv. cbn beta in Hv. post_step. unfold int64_ok in *. rewrite wrap64_id by (unfold int64_ok; lia).
  split_and!; cbn [fst snd]; [apply HP; lia|unfold int64_ok; lia|].
  split_and!; [done..|]. intros k w. apply HP.
Qed.

Lemma Hotspot_Next_post P pn h r :
  gen_typed P pn (GHotspot h) → run_post (λ '(v, h), next_typed P pn (v, GHotspot h)) pn (Hotspot_Next h r).
Proof.
  intros (Hw & Hp & HP). pose proof Hw as (Hh & Hc & Hl & Hu & Ht). unfold Hotspot_Next. post_step.
  apply run_post_bind with (R := λ v, lowerBound h <= v <= upperBound h).
  - case_match; (eapply run_post_bind; [apply Int63n_post_or; intros; apply Hp; lia|]); intros v r' Hv; cbn beta in Hv; post_step;
      rewrite ?(wrap64_id (lowerBound h + hotInterval h)), wrap64_id; unfold int64_ok in *; lia.
  - intros v r' Hv. post_step. split; [by apply HP|]. split; [unfold int64_ok in *; cbn; lia|].
    split_and!; [done..|]. intros k w. apply HP.
Qed.

Lemma histogram_scan_values i n k bs :
  match histogram_scan i n k bs with
  | inl v => ∃ j, i <= j < i + Z.of_nat (length bs) ∧ v = j *! k
  | inr j => i <= j ∧ (bs ≠ [] → j < i + Z.of_nat (length bs))
  end.
Proof.
  revert i n. induction bs as [|b [|b' bs] IH]; intros i n; [done|cbn; split; [lia|intros _; lia]|].
  rewrite histogram_scan_cons. destruct (n -! b <=? 0).
  - exists (i + 1). split; [cbn [length]; lia|done].
  - specialize (IH (i + 1) (n -! b)). cbn [length] in *. case_match.
    + destruct IH as (j & Hj & ->). exists j. split; [lia|done].
    + destruct IH as [Hj Hn]. specialize (Hn ltac:(done)). split; [lia|intros _; lia].
Qed.

Lemma Histogram_Next_post P pn h r :
  gen_typed P pn (GHistogram h) → run_post (λ '(v, h), next_typed P pn (v, GHistogram h)) pn (Histogram_Next h r).
Proof.
  intros (Hp & Hb & HP). unfold Histogram_Next. eapply run_post_bind; [by apply Int63n_post_or|].
  intros n r' Hn. cbn beta in Hn. specialize (Hb ltac:(lia)).
  pose proof (histogram_scan_values 0 n (blockSize h) (buckets h)) as Hs.
  destruct (histogram_scan 0 n (blockSize h) (buckets h)) as [v|i]; post_step.
  - destruct Hs as (j & Hj & ->). split; [apply HP; lia|]. split; [apply wrap64_range|].
    split_and!; [done..|]. intros k w. apply HP.
  - destruct Hs as [Hi Hl]. specialize (Hl Hb). split; [apply HP; lia|]. split; [apply wrap64_range|].
    split_and!; [done..|]. intros k w. apply HP.
Qed.

Lemma ScrambledZipfian_Next_post P pn s r :
  gen_typed P pn (GScrambledZipfian s) →
  run_post (λ '(v, s), next_typed P pn (v, GScrambledZipfian s)) pn (ScrambledZipfian_Next s r).
Proof.
  intros (Hz & Hcount & Hmin & Hmax & Hle & HP). unfold ScrambledZipfian_Next.
  eapply run_post_bind; [by apply Zipfian_next_post|]. intros [n g] r' [_ Hg].
  destruct (Z.eqb_spec (scr_itemCount s) 0) as [|_]; [lia|]. post_step.
  split; [|split; [apply wrap64_range|]].
  - apply HP. cbn [fst]. unfold scrambled_range. destruct (Hash64_sign n) as [Hp| ->]; [left|right; by rewrite Hcount].
    pose proof (Z.rem_bound_pos (Hash64 n) (scr_itemCount s) ltac:(lia) ltac:(lia)).
    unfold int64_ok in *. rewrite wrap64_id by (unfold int64_ok; lia). lia.
  - split_and!; [done..|]. intros k v. apply HP.
Qed.

Lemma gen_Next_post b P pn g r : gen_typed P pn g → run_post (next_typed P pn) pn (gen_Next b g r).
Proof.
  intros Hg. destruct g as [c|c|s|u|h|e|d|h|z|s|s]; try done; cbn [gen_Next]; apply wrap_post.
  - destruct Hg as [Hc HP]. cbn. split; [apply HP|]. split; [done|]. split; [done|]. intros k. apply HP.
  - unfold Counter_Next. post_step. cbn [counter]. rewrite wrap64_sub_l. replace (counter c + 1 - 1) with (counter c + Z.of_nat 0) by lia.
    split; [apply Hg|]. split; [apply wrap64_range|]. intros k. cbn [counter snd].
    rewrite wrap64_add_l. replace (counter c + 1 + Z.of_nat k) with (counter c + Z.of_nat (S k)) by lia. apply Hg.
  - destruct Hg as [Hi HP]. unfold Sequential_Next. rewrite (proj2 (Z.eqb_neq _ 0)) by done. post_step.
    split; [exact (HP 0%nat)|]. split; [apply wrap64_range|]. split; [done|]. intros k. cbn [snd seq_start seq_counter seq_interval].
    rewrite wrap64_add_l. replace (seq_counter s + 1 + (Z.of_nat k + 1)) with (seq_counter s + (Z.of_nat (S k) + 1)) by lia. apply HP.
  - by apply Uniform_Next_post.
  - by apply Hotspot_Next_post.
  - destruct Hg as (Hpn & Hv & HP). unfold Discrete_Next. post_step. case_match eqn:E; [|done]. post_step.
    apply discrete_pick_elem in E as (q & Hq & <-). split; [by apply HP|]. split; [by eapply list.Forall_forall in Hv|].
    split_and!; [done..|]. intros k p. apply HP.
  - by apply Histogram_Next_post.
  - by apply ScrambledZipfian_Next_post.
Qed.

(** ** Constructors *)

(** The generators the constructors give, the [k]-th value each of them returns, and when
    it may panic. *)
Inductive gen_built : (nat → Z → Prop) → Prop → gen → Prop :=
| built_constant c : int64_ok c → gen_built (λ _ v, v = c) False (GConstant (NewConstant c))
| built_counter start : gen_built (λ k v, v = start +! Z.of_nat k) False (GCounter (NewCounter start))
| built_sequential l u : int64_ok l → int64_ok u → l <= u → u - l < max_int64 →
    gen_built (λ k v, Z.of_nat k < max_int64 → v = l + (Z.of_nat k + 1) mod (u - l + 1)) False
      (GSequential (NewSequential l u))
| built_uniform l u : int64_ok l → int64_ok u → Z.abs (u - l) < max_int64 →
    gen_built (λ _ v, l <= v <= u) (u < l) (GUniform (NewUniform l u))
| built_hotspot l u sf opf hot :
    hot = f64_to_int64 (f64_mul (f64_of_Z (Z.abs (u - l) + 1)) (if out_of_unit sf then f64_zero else sf)) →
    int64_ok l → int64_ok u → Z.abs (u - l) < max_int64 → 0 <= hot <= Z.abs (u - l) + 1 →
    gen_built (λ _ v, Z.min l u <= v <= Z.max l u) (hot = 0 ∨ hot = Z.abs (u - l) + 1) (GHotspot (NewHotspot l u sf opf))
| built_discrete (l : list (float64 * Z)) : Forall int64_ok (map snd l) →
    gen_built (λ _ v, v ∈ map snd l) True (GDiscrete (foldl (λ d '(w, v), Discrete_Add d w v) NewDiscrete l))
| built_histogram bs k :
    gen_built (λ _ v, ∃ i, 0 <= i < Z.of_nat (length bs) ∧ v = i *! k) (area (NewHistogram bs k) <= 0)
      (GHistogram (NewHistogram bs k))
| built_scrambled min max c seed s : int64_ok min → int64_ok max → min <= max → max - min < max_int64 →
    NewScrambledZipfian min max c seed = Ok s → gen_built (λ _, scrambled_range min max) False (GScrambledZipfian s).

Lemma NewZipfian_typed min max c zetan0 seed z : int64_ok min → NewZipfian min max c zetan0 seed = Ok z → zipf_typed z.
Proof.
  intros Hmin. unfold NewZipfian. pose proof (Zipfian_next_post (zipf_init min max c zetan0) (items (zipf_init min max c zetan0)) seed False) as Hp.
  unfold Zipfian_Next. destruct (Zipfian_next _ _ seed) as [[[v z'] r']|?|?|]; [|done..]. intros [= <-]. by apply Hp.
Qed.

Lemma disc_values_built l d :
  disc_values (foldl (λ d '(w, v), Discrete_Add d w v) d l) =
  disc_values d ++ map (λ '(w, v), {| Weight := w; Value := v |}) l.
Proof.
  revert d. induction l as [|[w v] l IH]; intros d; cbn [foldl map]; [by rewrite app_nil_r|].
  rewrite IH. cbn [disc_values Discrete_Add]. by rewrite <- app_assoc.
Qed.

Lemma NewSequential_typed l u :
  int64_ok l → int64_ok u → l <= u → u - l < max_int64 →
  gen_typed (λ k v, Z.of_nat k < max_int64 → v = l + (Z.of_nat k + 1) mod (u - l + 1)) False (GSequential (NewSequential l u)).
Proof.
  intros Hl Hu Hle Hw. cbn. rewrite (wrap64_id (u - l)), (wrap64_id (u - l + 1)) by width. split; [lia|].
  intros k Hk. rewrite Z.add_0_l, (wrap64_id (Z.of_nat k + 1)) by width. rewrite Z.rem_mod_nonneg by lia.
  pose proof (Z.mod_pos_bound (Z.of_nat k + 1) (u - l + 1) ltac:(lia)).
  unfold int64_ok in *. rewrite wrap64_id by (unfold int64_ok; lia). done.
Qed.

Lemma NewHotspot_typed l u sf opf hot :
  hot = f64_to_int64 (f64_mul (f64_of_Z (Z.abs (u - l) + 1)) (if out_of_unit sf then f64_zero else sf)) →
  int64_ok l → int64_ok u → Z.abs (u - l) < max_int64 → 0 <= hot <= Z.abs (u - l) + 1 →
  gen_typed (λ _ v, Z.min l u <= v <= Z.max l u) (hot = 0 ∨ hot = Z.abs (u - l) + 1) (GHotspot (NewHotspot l u sf opf)).
Proof.
  intros Ehot Hl Hu Hw Hh. destruct (NewHotspot_wf l u sf opf Hl Hu Hw ltac:(by rewrite <- Ehot)) as (Hwf & Hlo & Hhi).
  assert (hotInterval (NewHotspot l u sf opf) = hot) as Hhot.
  { rewrite Ehot. unfold NewHotspot. destruct (Z.ltb_spec u l); cbn; do 2 f_equal; rewrite ?(wrap64_id (l - u)), ?(wrap64_id (u - l)), wrap64_id; try width; f_equal; lia. }
  pose proof Hwf as (_ & _ & _ & _ & Ht). split; [done|]. rewrite Hlo, Hhi in *. split; [lia|done].
Qed.

Lemma NewScrambledZipfian_typed min max c seed s :
  int64_ok min → int64_ok max → min <= max → max - min < max_int64 → NewScrambledZipfian min max c seed = Ok s →
  gen_typed (λ _, scrambled_range min max) False (GScrambledZipfian s).
Proof.
  intros Hmin Hmax Hle Hw E. unfold NewScrambledZipfian in E.
  match type of E with (?m ≫= _) = _ => destruct m as [gz|?|?|] eqn:Eg; [|done..] end. cbn in E. injection E as <-.
  assert (zipf_typed gz) by (case_match; eapply NewZipfian_typed; [|done|..|done]; by vm_compute).
  cbn. rewrite (wrap64_id (max - min)), (wrap64_id (max - min + 1)) by width. split_and!; done.
Qed.

Lemma gen_built_typed P pn g : gen_built P pn g → gen_typed P pn g.
Proof.
  intros [c Hc|start|l u Hl Hu Hle Hw|l u Hl Hu Hw|l u sf opf hot Ehot Hl Hu Hw Hh|l Hl|bs k|min max c seed s Hmin Hmax Hle Hw E].
  - done.
  - done.
  - by apply NewSequential_typed.
  - cbn. rewrite (wrap64_id (u - l)), (wrap64_id (u - l + 1)) by width. unfold int64_ok in *. split_and!; try done; try lia.
  - by apply NewHotspot_typed.
  - cbn. rewrite disc_values_built. cbn [disc_values NewDiscrete app]. split; [done|]. split.
    + clear -Hl. induction l as [|[w v] l IH]; cbn in *; [done|]. inversion Hl; subst. constructor; [done|by apply IH].
    + intros _ p Hp. apply list_elem_of_fmap in Hp as ([w v] & -> & Hin). by apply (list_elem_of_fmap_2 snd l (w, v)).
  - assert (buckets (NewHistogram bs k) = bs ∧ blockSize (NewHistogram bs k) = k) as [Hb Hk]
      by (unfold NewHistogram; by destruct (histogram_areas 0 0 0 bs)).
    cbn. rewrite Hb, Hk. split; [done|]. split; [|by intros _ i Hi; exists i]. intros Ha ->. cbn in Ha. lia.
  - by eapply NewScrambledZipfian_typed.
Qed.

(** ** Histories *)

(** Calls of [Next]; the workload's counter has moved to [bs] at each of them. *)
Fixpoint gen_calls (bs : list Z) (g : gen) : M rand (list Z) :=
  match bs with
  | [] => mret []
  | b :: bs => '(v, g) ← gen_Next b g; vs ← gen_calls bs g; mret (v :: vs)
  end.

Lemma gen_calls_post bs P pn g r :
  gen_typed P pn g →
  run_post (λ vs, length vs = length bs ∧ ∀ k v, vs !! k = Some v → P k v ∧ int64_ok v) pn (gen_calls bs g r).
Proof.
  revert P g r. induction bs as [|b bs IH]; intros P g r Hg; cbn [gen_calls]; [done|].
  eapply run_post_bind; [by apply gen_Next_post|]. intros [v g'] r' (Hv & Hi & Hg').
  eapply run_post_bind; [by apply (IH (λ k, P (S k)) g' r')|]. intros vs r1 [Hlen Hvs].
  cbn. split; [lia|]. intros [|k] w; [by intros [= <-]|]. apply Hvs.
Qed.

End next.

