(* ===== verification/ConcurrentMap.v ===== *)
(** * pkg/util/concurrent_map.go

    The sharded map that backs the measurement buckets: the shards as a list of maps,
    one definition per method, and the proof that it implements a plain map.  A
    method takes its shard's lock for the whole of its accesses, so a call is one
    atomic step; a history of calls from any goroutines is a list of operations.
    The order in which Go ranges over a map, and the order in which the goroutines of
    [snapshot]/[fanIn] deliver their items, are arguments ([arrival]). *)

From S2P Require Import Prelude.

Abbreviation ConcurrentMapShared := (gmap Z Z).

Record ConcurrentMap := { shards : list ConcurrentMapShared; shardCount : Z }.

Definition New (count : Z) : res ConcurrentMap :=
  if count <? 0 then Panic "makeslice: len out of range"
  else Ok {| shards := replicate (Z.to_nat count) ∅; shardCount := count |}.

(** [int] is 64 bits wide: additions and shifts wrap, [>>] is arithmetic. *)
Definition fnv32 (m : ConcurrentMap) (key : Z) : res Z :=
  let key := key +! 0x7ed55d16 +! wrap64 (Z.shiftl key 12) in
  let key := Z.lxor (Z.lxor key 0xc761c23c) (Z.shiftr key 19) in
  let key := key +! 0x165667b1 +! wrap64 (Z.shiftl key 5) in
  let key := Z.lxor (key +! 0xd3a2646c) (wrap64 (Z.shiftl key 9)) in
  let key := key +! 0xfd7046c5 +! wrap64 (Z.shiftl key 3) in
  let key := Z.lxor (Z.lxor key 0xb55a4f09) (Z.shiftr key 16) in
  if shardCount m =? 0 then Panic "integer divide by zero"
  else Ok (u32 (Z.rem key (shardCount m))).

(** The index [GetShard] computes, with the bounds check of [m.shards[...]]. *)
Definition GetShard (m : ConcurrentMap) (key : Z) : res (nat * ConcurrentMapShared) :=
  h ← fnv32 m key;
  let i := Z.to_nat (h mod u64 (shardCount m)) in
  match shards m !! i with
  | Some s => Ok (i, s)
  | None => Panic "index out of range"
  end.

Definition set_shard (m : ConcurrentMap) (i : nat) (s : ConcurrentMapShared) : ConcurrentMap :=
  {| shards := <[i := s]> (shards m); shardCount := shardCount m |}.

(** A Go map read: the value or zero, and whether it was there. *)
Definition map_get (s : ConcurrentMapShared) (key : Z) : Z * bool :=
  match s !! key with Some v => (v, true) | None => (0, false) end.

Definition CM_Set (m : ConcurrentMap) (key value : Z) : res ConcurrentMap :=
  '(i, s) ← GetShard m key;
  Ok (set_shard m i (<[key := value]> s)).

Fixpoint MSet (m : ConcurrentMap) (data : list (Z * Z)) : res ConcurrentMap :=
  match data with
  | [] => Ok m
  | (k, v) :: data => m ← CM_Set m k v; MSet m data
  end.

Definition UpsertCb : Type := bool → Z → Z → Z.

Definition Upsert (m : ConcurrentMap) (key value : Z) (cb : UpsertCb) : res (Z * ConcurrentMap) :=
  '(i, s) ← GetShard m key;
  let '(v, ok) := map_get s key in
  let r := cb ok v value in
  Ok (r, set_shard m i (<[key := r]> s)).

Definition SetIfAbsent (m : ConcurrentMap) (key value : Z) : res (bool * ConcurrentMap) :=
  '(i, s) ← GetShard m key;
  let '(_, ok) := map_get s key in
  Ok (negb ok, if ok then m else set_shard m i (<[key := value]> s)).

Definition CM_Get (m : ConcurrentMap) (key : Z) : res (Z * bool) :=
  '(i, s) ← GetShard m key; Ok (map_get s key).

(** [for i := 0; i < m.shardCount; i++]: [New] makes that many shards. *)
Definition Count (m : ConcurrentMap) : Z :=
  foldl (λ c s, c +! Z.of_nat (size s)) 0 (shards m).

Definition Has (m : ConcurrentMap) (key : Z) : res bool :=
  '(i, s) ← GetShard m key; Ok (map_get s key).2.

Definition Remove (m : ConcurrentMap) (key : Z) : res ConcurrentMap :=
  '(i, s) ← GetShard m key; Ok (set_shard m i (delete key s)).

Definition RemoveCb : Type := Z → Z → bool → bool.

Definition CM_RemoveCb (m : ConcurrentMap) (key : Z) (cb : RemoveCb) : res (bool * ConcurrentMap) :=
  '(i, s) ← GetShard m key;
  let '(v, ok) := map_get s key in
  let remove := cb key v ok in
  Ok (remove, if remove && ok then set_shard m i (delete key s) else m).

Definition Pop (m : ConcurrentMap) (key : Z) : res ((Z * bool) * ConcurrentMap) :=
  '(i, s) ← GetShard m key;
  Ok (map_get s key, set_shard m i (delete key s)).

Definition IsEmpty (m : ConcurrentMap) : bool := Count m =? 0.

(** [Tuple]s, in an order in which [snapshot] and [fanIn] may deliver them: every item
    of every shard once. *)
Definition snapshot (m : ConcurrentMap) : list (Z * Z) := concat (map_to_list <$> shards m).
Definition IterBuffered (m : ConcurrentMap) (arrival : list (Z * Z)) : Prop :=
  arrival ≡ₚ snapshot m.

Definition Items (arrival : list (Z * Z)) : gmap Z Z :=
  foldl (λ tmp item, <[item.1 := item.2]> tmp) ∅ arrival.

(** [IterCb] folds [fn] over the shards one after the other; [range_order] is the order
    in which a shard is ranged over. *)
Definition IterCb {A} (m : ConcurrentMap) (range_order : gmap Z Z → list (Z * Z))
    (fn : A → Z → Z → A) (a : A) : A :=
  foldl (λ a s, foldl (λ a kv, fn a kv.1 kv.2) a (range_order s)) a (shards m).

Definition Keys (arrival : list (Z * Z)) : list Z := arrival.*1.

(** ** The invariant: a key lives in its own shard *)

Definition shard_index (count key : Z) : res nat :=
  h ← fnv32 {| shards := []; shardCount := count |} key;
  Ok (Z.to_nat (h mod u64 count)).

Record cm_wf (m : ConcurrentMap) : Prop := {
  wf_pos : 0 < shardCount m <= max_int64;
  wf_len : Z.of_nat (length (shards m)) = shardCount m;
  wf_home : ∀ i s k v, shards m !! i = Some s → s !! k = Some v →
              shard_index (shardCount m) k = Ok i
}.

(** The map it represents. *)
Definition flat (m : ConcurrentMap) : gmap Z Z := ⋃ (shards m).

(** Whatever the key, also a negative one, its index is in bounds. *)
Lemma GetShard_ok m key :
  cm_wf m → ∃ i s, GetShard m key = Ok (i, s) ∧ shards m !! i = Some s ∧
                   shard_index (shardCount m) key = Ok i.
Proof.
  intros [Hp Hl _]. unfold GetShard, shard_index, fnv32. cbn [shardCount].
  destruct (Z.eqb_spec (shardCount m) 0) as [|_]; [lia|]. cbn [mbind res_bind].
  set (h := u32 _). assert (u64 (shardCount m) = shardCount m) as ->
    by (unfold u64; apply Z.mod_small; width).
  pose proof (Z.mod_pos_bound h (shardCount m)) as Hb.
  destruct (lookup_lt_is_Some_2 (shards m) (Z.to_nat (h mod shardCount m))) as [s Hs]; [lia|].
  rewrite Hs. eauto.
Qed.

Lemma union_list_lookup (l : list (gmap Z Z)) i s k v :
  l !! i = Some s → s !! k = Some v →
  (∀ j t w, l !! j = Some t → t !! k = Some w → j = i) → (⋃ l) !! k = Some v.
Proof.
  revert i. induction l as [|t l IH]; intros [|i] Hi Hk Hu; simplify_eq/=.
  - by rewrite (lookup_union_Some_l _ _ _ v).
  - apply lookup_union_Some_raw. right. split.
    + destruct (t !! k) eqn:E; [|done]. by specialize (Hu 0%nat t _ eq_refl E).
    + apply (IH i); [done..|]. intros j u w Hj Hw. specialize (Hu (S j) u w Hj Hw). lia.
Qed.

Lemma union_list_None (l : list (gmap Z Z)) k :
  (∀ j t, l !! j = Some t → t !! k = None) → (⋃ l) !! k = None.
Proof.
  induction l as [|t l IH]; intros H; [done|]. apply lookup_union_None. split.
  - by apply (H 0%nat).
  - apply IH. intros j u Hj. by apply (H (S j)).
Qed.

(** Looking a key up in its shard is looking it up in the flat map. *)
Lemma flat_lookup m key i s :
  cm_wf m → GetShard m key = Ok (i, s) → flat m !! key = s !! key.
Proof.
  intros Hw Hg. destruct (GetShard_ok m key Hw) as (i' & s' & Hg' & Hs & Hi).
  rewrite Hg in Hg'. simplify_eq. unfold flat.
  destruct (s' !! key) as [v|] eqn:E.
  - apply (union_list_lookup _ i' s'); [done..|]. intros j t w Hj Ht.
    pose proof (wf_home m Hw _ _ _ _ Hj Ht). congruence.
  - apply union_list_None. intros j t Hj. destruct (t !! key) as [w|] eqn:Ht; [|done].
    pose proof (wf_home m Hw _ _ _ _ Hj Ht) as Hj'. assert (j = i') by congruence. congruence.
Qed.

Lemma map_get_flat m key i s :
  cm_wf m → GetShard m key = Ok (i, s) → map_get s key = map_get (flat m) key.
Proof. intros Hw Hg. unfold map_get. by rewrite (flat_lookup m key i s). Qed.

(** Changing one key of its shard preserves the invariant and changes that key of the
    flat map. *)
Lemma set_shard_wf m key i s s' :
  cm_wf m → GetShard m key = Ok (i, s) → (∀ k, k ≠ key → s' !! k = s !! k) →
  cm_wf (set_shard m i s') ∧ flat (set_shard m i s') = partial_alter (λ _, s' !! key) key (flat m).
Proof.
  intros Hw Hg Hs'. destruct (GetShard_ok m key Hw) as (i' & t & Hg' & Hs & Hi).
  rewrite Hg in Hg'. simplify_eq.
  assert (Hw' : cm_wf (set_shard m i' s')).
  { destruct Hw as [Hp Hl Hh]. split; simpl; [done|by rewrite length_insert|].
    intros j u k v Hj Hk. apply list_lookup_insert_Some in Hj as [(<- & -> & ?)|[? Hj]]; [|by eapply Hh].
    destruct (decide (k = key)) as [->|Hne]; [done|]. rewrite Hs' in Hk by done. by eapply Hh. }
  split; [done|]. apply map_eq. intros k.
  destruct (GetShard_ok _ k Hw') as (j & u & Hgj & Hu & _). rewrite (flat_lookup _ k j u Hw' Hgj).
  destruct (decide (k = key)) as [->|Hne].
  - rewrite lookup_partial_alter_eq. simpl in Hu.
    assert (GetShard (set_shard m i' s') key = Ok (i', s')) as E.
    { unfold GetShard in Hg |- *. simpl. destruct (fnv32 m key) as [h| | |] eqn:Eh; try done.
      change (fnv32 (set_shard m i' s') key) with (fnv32 m key). rewrite Eh. cbn [mbind res_bind] in *.
      destruct (shards m !! _) eqn:El; simplify_eq. by rewrite list_lookup_insert_eq by by eapply lookup_lt_Some. }
    rewrite E in Hgj. by simplify_eq.
  - rewrite lookup_partial_alter_ne by done.
    destruct (GetShard_ok m k Hw) as (j' & u' & Hgj' & Hu' & Hj'). rewrite (flat_lookup _ k j' u' Hw Hgj').
    assert (j = j') as ->.
    { destruct (GetShard_ok _ k Hw') as (j2 & u2 & E2 & _ & Hj2). simpl in Hj2. congruence. }
    simpl in Hu. apply list_lookup_insert_Some in Hu as [(<- & -> & ?)|[? Hu]]; simplify_eq; [|done].
    by apply Hs'.
Qed.

Lemma set_shard_insert m key i s v :
  cm_wf m → GetShard m key = Ok (i, s) →
  cm_wf (set_shard m i (<[key := v]> s)) ∧ flat (set_shard m i (<[key := v]> s)) = <[key := v]> (flat m).
Proof.
  intros Hw Hg. destruct (set_shard_wf m key i s (<[key := v]> s) Hw Hg) as [Hw' E].
  { intros k Hk. by rewrite lookup_insert_ne. }
  split; [done|]. by rewrite E, lookup_insert_eq.
Qed.

Lemma set_shard_delete m key i s :
  cm_wf m → GetShard m key = Ok (i, s) →
  cm_wf (set_shard m i (delete key s)) ∧ flat (set_shard m i (delete key s)) = delete key (flat m).
Proof.
  intros Hw Hg. destruct (set_shard_wf m key i s (delete key s) Hw Hg) as [Hw' E].
  { intros k Hk. by rewrite lookup_delete_ne. }
  split; [done|]. by rewrite E, lookup_delete_eq.
Qed.

(** ** Histories of calls *)

Inductive cm_op :=
| OpSet (key value : Z)
| OpUpsert (key value : Z) (cb : UpsertCb)
| OpSetIfAbsent (key value : Z)
| OpGet (key : Z)
| OpHas (key : Z)
| OpRemove (key : Z)
| OpRemoveCb (key : Z) (cb : RemoveCb)
| OpPop (key : Z).

Inductive cm_ret := RUnit | RInt (v : Z) | RBool (b : bool) | RPair (p : Z * bool).

(** A call on the sharded map ... *)
Definition cm_call (m : ConcurrentMap) (o : cm_op) : res (cm_ret * ConcurrentMap) :=
  match o with
  | OpSet k v => m' ← CM_Set m k v; Ok (RUnit, m')
  | OpUpsert k v cb => '(r, m') ← Upsert m k v cb; Ok (RInt r, m')
  | OpSetIfAbsent k v => '(b, m') ← SetIfAbsent m k v; Ok (RBool b, m')
  | OpGet k => p ← CM_Get m k; Ok (RPair p, m)
  | OpHas k => b ← Has m k; Ok (RBool b, m)
  | OpRemove k => m' ← Remove m k; Ok (RUnit, m')
  | OpRemoveCb k cb => '(b, m') ← CM_RemoveCb m k cb; Ok (RBool b, m')
  | OpPop k => '(p, m') ← Pop m k; Ok (RPair p, m')
  end.

(** ... and on a plain map. *)
Definition map_call (g : gmap Z Z) (o : cm_op) : cm_ret * gmap Z Z :=
  match o with
  | OpSet k v => (RUnit, <[k := v]> g)
  | OpUpsert k v cb =>
      let r := cb (map_get g k).2 (map_get g k).1 v in (RInt r, <[k := r]> g)
  | OpSetIfAbsent k v =>
      match g !! k with Some _ => (RBool false, g) | None => (RBool true, <[k := v]> g) end
  | OpGet k => (RPair (map_get g k), g)
  | OpHas k => (RBool (bool_decide (is_Some (g !! k))), g)
  | OpRemove k => (RUnit, delete k g)
  | OpRemoveCb k cb =>
      let b := cb k (map_get g k).1 (map_get g k).2 in (RBool b, if b then delete k g else g)
  | OpPop k => (RPair (map_get g k), delete k g)
  end.

Fixpoint cm_calls (m : ConcurrentMap) (os : list cm_op) : res (list cm_ret * ConcurrentMap) :=
  match os with
  | [] => Ok ([], m)
  | o :: os => '(r, m) ← cm_call m o; '(rs, m) ← cm_calls m os; Ok (r :: rs, m)
  end.

Fixpoint map_calls (g : gmap Z Z) (os : list cm_op) : list cm_ret * gmap Z Z :=
  match os with
  | [] => ([], g)
  | o :: os => let '(r, g) := map_call g o in let '(rs, g) := map_calls g os in (r :: rs, g)
  end.

Lemma cm_call_sim m o :
  cm_wf m → ∃ m', cm_call m o = Ok ((map_call (flat m) o).1, m') ∧
                  cm_wf m' ∧ flat m' = (map_call (flat m) o).2.
Proof.
  intros Hw. assert (Hk : ∃ k, k = match o with
    | OpSet k _ | OpUpsert k _ _ | OpSetIfAbsent k _ | OpGet k | OpHas k | OpRemove k
    | OpRemoveCb k _ | OpPop k => k end) by eauto. destruct Hk as [k Hk].
  destruct (GetShard_ok m k Hw) as (i & s & Hg & _).
  pose proof (map_get_flat m k i s Hw Hg) as Hm. pose proof (flat_lookup m k i s Hw Hg) as Hf.
  pose proof (set_shard_insert m k i s) as Hins. pose proof (set_shard_delete m k i s Hw Hg) as Hdel.
  destruct o; subst k; simpl;
    unfold CM_Set, Upsert, SetIfAbsent, CM_Get, Has, Remove, CM_RemoveCb, Pop; rewrite Hg;
    cbn [mbind res_bind]; rewrite ?Hm; unfold map_get; rewrite ?Hf; destruct (s !! key) as [w|] eqn:Es;
    simpl; try (by eexists; split; [done|]; auto); try (case_match; by eexists; split; [done|]; auto).
  - destruct (cb key w true); simpl; by eexists.
  - destruct (cb key 0 false); simpl; eexists; (split; [done|]); split; try done.
    by rewrite delete_id.
Qed.

Lemma New_wf count m : 0 < count <= max_int64 → New count = Ok m → cm_wf m ∧ flat m = ∅.
Proof.
  intros Hc. unfold New. destruct (Z.ltb_spec count 0); [lia|]. intros [= <-].
  assert (Hl : ∀ i s, replicate (Z.to_nat count) (∅ : gmap Z Z) !! i = Some s → s = ∅)
    by (intros i s Hi; by apply lookup_replicate in Hi as [-> _]).
  split; [split; simpl|].
  - done.
  - rewrite length_replicate. lia.
  - intros i s k v ->%Hl Hk. by rewrite lookup_empty in Hk.
  - unfold flat. simpl. apply map_eq. intros k. rewrite lookup_empty. apply union_list_None.
    intros j t ->%Hl. apply lookup_empty.
Qed.

Lemma cm_calls_sim m os :
  cm_wf m → ∃ m', cm_calls m os = Ok ((map_calls (flat m) os).1, m') ∧
                  cm_wf m' ∧ flat m' = (map_calls (flat m) os).2.
Proof.
  revert m. induction os as [|o os IH]; intros m Hw; [by exists m|]. cbn [cm_calls map_calls].
  destruct (cm_call_sim m o Hw) as (m1 & -> & Hw1 & Hf1). cbn [mbind res_bind].
  destruct (IH m1 Hw1) as (m2 & -> & Hw2 & Hf2). rewrite Hf1 in Hf2 |- *.
  destruct (map_call (flat m) o) as [r g]. simpl in *. destruct (map_calls g os) as [rs g'].
  exists m2. done.
Qed.

(** ** Counting and iterating *)

Lemma wf_disjoint m i j s t :
  cm_wf m → shards m !! i = Some s → shards m !! j = Some t → i ≠ j → s ##ₘ t.
Proof.
  intros Hw Hi Hj Hij. apply map_disjoint_spec. intros k v w Hv Hwv.
  pose proof (wf_home m Hw _ _ _ _ Hi Hv). pose proof (wf_home m Hw _ _ _ _ Hj Hwv). congruence.
Qed.

Lemma map_to_list_disj_union (a b : gmap Z Z) :
  a ##ₘ b → map_to_list (a ∪ b) ≡ₚ map_to_list a ++ map_to_list b.
Proof.
  intros Hd. apply NoDup_Permutation.
  - apply NoDup_map_to_list.
  - apply list.NoDup_app. split; [apply NoDup_map_to_list|split; [|apply NoDup_map_to_list]].
    intros [k v] Ha Hb. apply elem_of_map_to_list in Ha, Hb. by eapply map_disjoint_spec.
  - intros [k v]. rewrite elem_of_app, !elem_of_map_to_list. by apply lookup_union_Some.
Qed.

Lemma union_list_perm (l : list (gmap Z Z)) :
  (∀ i j s t, l !! i = Some s → l !! j = Some t → i ≠ j → s ##ₘ t) →
  map_to_list (⋃ l) ≡ₚ concat (map_to_list <$> l).
Proof.
  induction l as [|s l IH]; intros Hd; simpl; [by rewrite map_to_list_empty|].
  rewrite map_to_list_disj_union.
  - rewrite IH; [done|]. intros i j ??? ??. by apply (Hd (S i) (S j)); [..|lia].
  - apply map_disjoint_union_list_r, list.Forall_lookup. intros i t Hi.
    by apply (Hd (S i) 0%nat t s).
Qed.

Lemma snapshot_flat m : cm_wf m → snapshot m ≡ₚ map_to_list (flat m).
Proof. intros Hw. symmetry. apply union_list_perm. intros; by eapply wf_disjoint. Qed.

Lemma Items_foldl l (tmp : gmap Z Z) k :
  NoDup l.*1 →
  foldl (λ tmp (item : Z * Z), <[item.1 := item.2]> tmp) tmp l !! k =
  match (list_to_map l : gmap Z Z) !! k with Some v => Some v | None => tmp !! k end.
Proof.
  revert tmp. induction l as [|[k' v] l IH]; intros tmp Hn; simpl; [done|].
  apply list.NoDup_cons in Hn as [Hk Hn]. rewrite IH by done.
  destruct (decide (k = k')) as [->|Hne]; simplify_map_eq; [|done].
  by rewrite (not_elem_of_list_to_map_1 l k' Hk).
Qed.

Lemma Items_arrival l (g : gmap Z Z) : l ≡ₚ map_to_list g → Items l = g.
Proof.
  intros Hp. assert (NoDup l.*1) as Hn by (rewrite Hp; apply NoDup_fst_map_to_list).
  apply map_eq. intros k. unfold Items. rewrite Items_foldl by done.
  rewrite (list_to_map_proper l (map_to_list g)), list_to_map_to_list by done.
  by destruct (g !! k).
Qed.

Lemma Count_foldl l c :
  0 <= c → c + Z.of_nat (length (concat (map_to_list <$> l))) <= max_int64 →
  foldl (λ c (s : gmap Z Z), c +! Z.of_nat (size s)) c l =
  c + Z.of_nat (length (concat (map_to_list <$> l))).
Proof.
  revert c. induction l as [|s l IH]; intros c Hc; [simpl; lia|].
  rewrite fmap_cons. cbn [foldl concat]. rewrite length_app, length_map_to_list. intros Hm.
  rewrite wrap64_id by width. rewrite IH by lia. lia.
Qed.

Lemma Count_flat m :
  cm_wf m → Z.of_nat (size (flat m)) <= max_int64 → Count m = Z.of_nat (size (flat m)).
Proof.
  intros Hw Hs. assert (length (concat (map_to_list <$> shards m)) = size (flat m)) as E.
  { rewrite <- length_map_to_list. apply Permutation_length, snapshot_flat, Hw. }
  unfold Count. rewrite Count_foldl; [rewrite E|..|rewrite E]; lia.
Qed.

(** C6: The sharded map implements a plain map.  Starting from [New count] with any
    positive shard count, every history of calls succeeds (the shard index is in
    bounds for every key, also negative ones), returns what the same calls on one
    plain map return, and ends in a state that represents the final plain map:
    [Count], [IsEmpty], [Items] and [Keys] report it for every order in which the
    goroutines of the iterators deliver the items. *)
Theorem concurrent_map_refines count os :
  0 < count <= max_int64 → Z.of_nat (size (map_calls ∅ os).2) <= max_int64 →
  ∃ m0 m, New count = Ok m0 ∧ cm_calls m0 os = Ok ((map_calls ∅ os).1, m) ∧
    let g := (map_calls ∅ os).2 in
    Count m = Z.of_nat (size g) ∧ (IsEmpty m = true ↔ g = ∅) ∧
    ∀ arrival, IterBuffered m arrival → Items arrival = g ∧ Keys arrival ≡ₚ (map_to_list g).*1.
Proof.
  intros Hc Hs. destruct (New count) as [m0|?|?|] eqn:E0.
  2-4: unfold New in E0; destruct (Z.ltb_spec count 0); [lia|done].
  destruct (New_wf count m0 Hc E0) as [Hw0 Hf0].
  destruct (cm_calls_sim m0 os Hw0) as (m & Hm & Hw & Hf). rewrite Hf0 in Hm, Hf.
  exists m0, m. split; [done|split; [done|]]. simpl. rewrite <- Hf in Hs |- *.
  unfold IsEmpty. rewrite (Count_flat m Hw Hs). split; [done|split].
  - rewrite Z.eqb_eq, <- map_size_empty_iff. lia.
  - intros arrival Ha. unfold IterBuffered in Ha. rewrite snapshot_flat in Ha by done.
    split; [by apply Items_arrival|]. unfold Keys. by rewrite Ha.
Qed.

Lemma concurrent_map_refines_witness :
  ∃ m0 m, New 16 = Ok m0 ∧
    cm_calls m0 [OpSet (-7) 1; OpUpsert 3 5 (λ _ v n, v + n); OpPop (-7)] =
      Ok ((map_calls ∅ [OpSet (-7) 1; OpUpsert 3 5 (λ _ v n, v + n); OpPop (-7)]).1, m) ∧
    let g := (map_calls ∅ [OpSet (-7) 1; OpUpsert 3 5 (λ _ v n, v + n); OpPop (-7)]).2 in
    Count m = Z.of_nat (size g) ∧ (IsEmpty m = true ↔ g = ∅) ∧
    ∀ arrival, IterBuffered m arrival → Items arrival = g ∧ Keys arrival ≡ₚ (map_to_list g).*1.
Proof.
  apply (concurrent_map_refines 16 [OpSet (-7) 1; OpUpsert 3 5 (λ _ v n, v + n); OpPop (-7)]).
  - done.
  - vm_compute. discriminate.
Defined.
