(* ===== verification/Util.v ===== *)
(** * pkg/util: core.go (FieldPairs), util.go (RandBytes, BufPool), output.go

    Sorted field lists, random text, the buffer pools of the database drivers and of
    the workload, and the plain, table and JSON renderers. *)

From stdpp Require Import sorting.
From S2P Require Import Prelude GoFloat GoRand GoStr GoConv.

(** A row: [map[string][]byte]. *)
Abbreviation row := (gmap string bytes).

(** ** FieldPairs *)

Record FieldPair := { Field : string; PairValue : bytes }.
Abbreviation FieldPairs := (list FieldPair).

(** Go compares strings bytewise. *)
Definition str_lt (s t : string) : bool :=
  match String.compare s t with Lt => true | _ => false end.

Definition Less (a b : FieldPair) : bool := str_lt (Field a) (Field b).

(** [sort.Sort] as insertion sort; [sorted_unique] shows that every sorting algorithm
    gives the same slice here, because the fields are distinct. *)
Fixpoint sort_insert (x : FieldPair) (l : FieldPairs) : FieldPairs :=
  match l with
  | [] => [x]
  | y :: l' => if Less y x then y :: sort_insert x l' else x :: y :: l'
  end.

Definition Sort (l : FieldPairs) : FieldPairs := foldr sort_insert [] l.

(** [entries]: the map's entries in the order [range] visits them. *)
Definition NewFieldPairs (entries : list (string * bytes)) : FieldPairs :=
  Sort (map (λ kv, {| Field := kv.1; PairValue := kv.2 |}) entries).

(** ** RandBytes *)

Definition letters : bytes :=
  bytes_of_string "abcdefghijklmnopqrstuvwxyzABCDEFGHIJKLMNOPQRSTUVWXYZ".

#[global] Arguments letters : simpl never.

(** Overwrites every byte of [b]. *)
Fixpoint RandBytes (b : bytes) : M rand bytes :=
  match b with
  | [] => mret []
  | _ :: b' =>
      i ← Intn (Z.of_nat (length letters));
      rest ← RandBytes b';
      mret (default x00 (letters !! Z.to_nat i) :: rest)
  end.

(** ** Buffer pools

    [sync.Pool.Get] hands out any buffer that was [Put] and not handed out since, or
    calls [New]; [picks] scripts its choices (an index into the free buffers, or one
    out of range for [New]).  A buffer is its backing array, up to its capacity. *)
Record Pool := { free : list bytes; picks : list nat; fresh : res bytes }.

Definition Pool_Get (p : Pool) : res (bytes * Pool) :=
  match picks p with
  | i :: ps =>
      match free p !! i with
      | Some b => Ok (b, {| free := delete i (free p); picks := ps; fresh := fresh p |})
      | None => b ← fresh p; Ok (b, {| free := free p; picks := ps; fresh := fresh p |})
      end
  | [] => b ← fresh p; Ok (b, p)
  end.

Definition Pool_Put (p : Pool) (b : bytes) : Pool :=
  {| free := free p ++ [b]; picks := picks p; fresh := fresh p |}.

(** [BufPool] allocates nil buffers. *)
Definition NewBufPool (script : list nat) : Pool :=
  {| free := []; picks := script; fresh := Ok [] |}.

(** [buf[:0]]: the contents start empty, whatever the array holds. *)
Definition BufPool_Get (p : Pool) : res (bytes * Pool) :=
  '(_, p') ← Pool_Get p; Ok ([], p').
Definition BufPool_Put (p : Pool) (buf : bytes) : Pool := Pool_Put p buf.

(** ** output.go *)

Definition OutputStylePlain : string := "plain".
Definition OutputStyleTable : string := "table".
Definition OutputStyleJson : string := "json".

Definition index {A} (l : list A) (i : nat) : res A :=
  match l !! i with Some x => Ok x | None => Panic "index out of range" end.

(** The body of [for i, header := range headers[1:]]. *)
Fixpoint render_args (headers : list string) (value : list string) (i : nat) : res (list string) :=
  match headers with
  | [] => Ok []
  | h :: hs =>
      v ← index value (S i);
      rest ← render_args hs value (S i);
      Ok ((h +:+ ": " +:+ v) :: rest)
  end.

(** [format] is [fmt.Sprintf] at the caller's format string, applied to two strings. *)
Fixpoint render_lines (format : string → string → string) (headers : list string)
    (values : list (list string)) : res string :=
  match values with
  | [] => Ok ""
  | value :: vs =>
      match headers with
      | [] => Panic "makeslice: len out of range"
      | _ :: hs =>
          args ← render_args hs value 0;
          v0 ← index value 0;
          rest ← render_lines format headers vs;
          Ok (format v0 (Join args ", ") +:+ rest)
      end
  end.

Definition RenderString (format : string → string → string) (headers : list string)
    (values : list (list string)) : res string :=
  if decide (length values = 0%nat) then Ok "" else render_lines format headers values.

(** [render]: the third-party table writer's layout of a header and rows. *)
Definition RenderTable (render : list string → list (list string) → string) (headers : list string) (values : list (list string)) : string :=
  if decide (length values = 0%nat) then "" else render headers values.

(** One line of [RenderJson]: [line[header] = value[i]]. *)
Fixpoint json_line (headers value : list string) (i : nat) (line : gmap string string)
    : res (gmap string string) :=
  match headers with
  | [] => Ok line
  | h :: hs => v ← index value i; json_line hs value (S i) (<[h := v]> line)
  end.

Fixpoint json_lines (headers : list string) (values : list (list string))
    : res (list (gmap string string)) :=
  match values with
  | [] => Ok []
  | value :: vs => l ← json_line headers value 0 ∅; ls ← json_lines headers vs; Ok (l :: ls)
  end.

(** [marshal] is [json.Marshal]. *)
Definition RenderJson (marshal : list (gmap string string) → string + string)
    (headers : list string) (values : list (list string)) : res string :=
  if decide (length values = 0%nat) then Ok ""
  else
    data ← json_lines headers values;
    match marshal data with
    | inl err => Ok (err +:+ String "010" "")
    | inr out => Ok (out +:+ String "010" "")
    end.

Definition IntToString (i : Z) : string := FormatInt i.

Definition FloatToOneString (f : float64) : string := fmt_fixed 1 f.

(** ** Sorting *)

Lemma str_lt_trans a b c : str_lt a b = true → str_lt b c = true → str_lt a c = true.
Proof.
  unfold str_lt. revert b c. induction a as [|x a IH]; intros [|y b] [|z c]; simpl; try done.
  unfold Ascii.compare.
  destruct (N.compare_spec (N_of_ascii x) (N_of_ascii y)) as [E1|L1|?]; try done;
  destruct (N.compare_spec (N_of_ascii y) (N_of_ascii z)) as [E2|L2|?]; try done; intros H1 H2.
  - rewrite E1, E2, N.compare_refl. by apply (IH b c).
  - rewrite E1. by rewrite (proj2 (N.compare_lt_iff _ _) L2).
  - rewrite <- E2. by rewrite (proj2 (N.compare_lt_iff _ _) L1).
  - by rewrite (proj2 (N.compare_lt_iff _ _) (N.lt_trans _ _ _ L1 L2)).
Qed.

Lemma str_lt_irrefl a : str_lt a a = false.
Proof.
  unfold str_lt. induction a as [|x a IH]; simpl; [done|].
  unfold Ascii.compare. by rewrite N.compare_refl.
Qed.

Lemma str_lt_total a b : a ≠ b → str_lt a b = false → str_lt b a = true.
Proof.
  unfold str_lt. intros Hne. rewrite (String.compare_antisym b a).
  destruct (String.compare a b) eqn:E; simpl; try done. by apply String.compare_eq_iff in E.
Qed.

(** Strictly increasing in the field. *)
Definition fields_lt (a b : FieldPair) : Prop := str_lt (Field a) (Field b) = true.

Lemma sort_insert_perm x l : sort_insert x l ≡ₚ x :: l.
Proof.
  induction l as [|y l IH]; simpl; [done|]. case_match; [|done]. rewrite IH. constructor.
Qed.

Lemma Sort_perm l : Sort l ≡ₚ l.
Proof. induction l as [|x l IH]; simpl; [done|]. by rewrite sort_insert_perm, IH. Qed.

Lemma sort_insert_sorted x l :
  Field x ∉ map Field l → StronglySorted fields_lt l → StronglySorted fields_lt (sort_insert x l).
Proof.
  intros Hx Hs. induction Hs as [|y l Hs IH Hy]; simpl in *; [repeat constructor|].
  apply not_elem_of_cons in Hx as [Hxy Hx]. unfold Less.
  destruct (str_lt (Field y) (Field x)) eqn:E.
  - constructor; [by apply IH|]. rewrite sort_insert_perm. by constructor.
  - assert (fields_lt x y) by by apply str_lt_total.
    constructor; [by constructor|]. constructor; [done|].
    eapply list.Forall_impl; [done|]. intros z Hz. unfold fields_lt in *. by eapply str_lt_trans.
Qed.

Lemma Sort_sorted l : NoDup (map Field l) → StronglySorted fields_lt (Sort l).
Proof.
  induction l as [|x l IH]; simpl; intros Hn; [constructor|]. apply list.NoDup_cons in Hn as [Hx Hn].
  apply sort_insert_sorted; [|by apply IH]. by rewrite Sort_perm.
Qed.

#[global] Instance fields_lt_antisym : AntiSymm (=) fields_lt.
Proof.
  intros a b H1 H2. unfold fields_lt in *. pose proof (str_lt_trans _ _ _ H1 H2) as H.
  by rewrite str_lt_irrefl in H.
Qed.

(** [NewFieldPairs] returns the entries of the map sorted by field, each once,
    whatever order the map is ranged over in; and that slice is the only one sorted by
    [Less] with these entries, so the result does not depend on the sorting algorithm. *)
Lemma field_pairs_sorted (values : row) entries :
  entries ≡ₚ map_to_list values →
  let ps := NewFieldPairs entries in
  map (λ p, (Field p, PairValue p)) ps ≡ₚ map_to_list values ∧
  StronglySorted fields_lt ps ∧
  (∀ qs, map (λ p, (Field p, PairValue p)) qs ≡ₚ map_to_list values →
         StronglySorted fields_lt qs → qs = ps).
Proof.
  intros He ps. set (mk := λ kv : string * bytes, {| Field := kv.1; PairValue := kv.2 |}).
  assert (Hid : ∀ l, map (λ p, (Field p, PairValue p)) (map mk l) = l).
  { intros l. induction l as [|[k v] l IH]; cbn; [done|]. by f_equal. }
  assert (Hid' : ∀ l, map mk (map (λ p, (Field p, PairValue p)) l) = l).
  { intros l. induction l as [|[k v] l IH]; cbn; [done|]. by f_equal. }
  assert (Hp : ps ≡ₚ map mk entries) by apply Sort_perm.
  assert (Hs : StronglySorted fields_lt ps).
  { apply Sort_sorted. rewrite map_map. simpl. change (NoDup entries.*1). rewrite He.
    apply NoDup_fst_map_to_list. }
  split; [by rewrite Hp, Hid|split; [done|]].
  intros qs Hq Hqs. apply (StronglySorted_unique fields_lt); [done..|].
  rewrite Hp, He, <- Hq. by rewrite Hid'.
Qed.


(** ** Random text *)

Lemma RandBytes_spec b r out r' :
  RandBytes b r = Ok (out, r') → length out = length b ∧ Forall (λ c, c ∈ letters) out.
Proof.
  revert r out r'. induction b as [|x b IH]; intros r out r' E; cbn [RandBytes] in E; run_inv; [done|].
  match goal with Hi : Intn _ _ = _, Hr : RandBytes _ _ = _ |- _ =>
    apply Intn_range in Hi; apply IH in Hr as [Hl Hf] end.
  split; [simpl; lia|]. constructor; [|done].
  destruct (lookup_lt_is_Some_2 letters (Z.to_nat x0)) as [c Hc]; [change (length letters) with 52%nat; lia|].
  rewrite Hc. simpl. by eapply list_elem_of_lookup_2.
Qed.

(** The old contents of the buffer do not matter. *)
Lemma RandBytes_contents b b' : length b = length b' → RandBytes b = RandBytes b'.
Proof.
  revert b'. induction b as [|x b IH]; intros [|x' b'] H; simplify_eq/=; [done|]. by rewrite (IH b').
Qed.

(** ** Sorted keys

    The order of [sort.Strings], and the keys of a map in that order. *)

Definition str_le (s t : string) : Prop := str_lt t s = false.

#[global] Instance str_le_dec : RelDecision str_le.
Proof. intros s t. unfold str_le. apply _. Defined.

(** [sort.Strings] of the keys of a map: any sorting algorithm gives this list. *)
Definition sorted_keys {A} (m : gmap string A) : list string := merge_sort str_le (map_to_list m).*1.

#[global] Instance str_le_total : Total str_le.
Proof.
  intros a b. unfold str_le. destruct (str_lt b a) eqn:E; [right|by left].
  destruct (str_lt a b) eqn:E'; [|done]. pose proof (str_lt_trans _ _ _ E E') as Hx. by rewrite str_lt_irrefl in Hx.
Qed.

#[global] Instance str_le_trans : Transitive str_le.
Proof.
  intros a b c. unfold str_le. intros Hab Hbc. destruct (str_lt c a) eqn:E; [|done].
  destruct (decide (b = c)) as [->|Hne]; [congruence|].
  apply (str_lt_total c b) in Hbc; [|done]. by rewrite (str_lt_trans b c a Hbc E) in Hab.
Qed.

#[global] Instance str_le_antisym : AntiSymm (=) str_le.
Proof.
  intros a b. unfold str_le. intros Hab Hba. destruct (decide (a = b)) as [|Hne]; [done|].
  apply (str_lt_total a b) in Hba; congruence.
Qed.

Lemma sorted_keys_elem {A} (m : gmap string A) op : op ∈ sorted_keys m ↔ op ∈ dom m.
Proof.
  unfold sorted_keys. rewrite merge_sort_Permutation, list_elem_of_fmap, elem_of_dom. split.
  - intros ([op' x] & -> & Hx%elem_of_map_to_list). by exists x.
  - intros [x Hx]. exists (op, x). split; [done|by apply elem_of_map_to_list].
Qed.

Lemma sorted_keys_nodup {A} (m : gmap string A) : NoDup (sorted_keys m).
Proof. unfold sorted_keys. rewrite merge_sort_Permutation. apply NoDup_fst_map_to_list. Qed.

Lemma sorted_keys_dom {A B} (m : gmap string A) (n : gmap string B) :
  dom m = dom n → sorted_keys m = sorted_keys n.
Proof.
  intros Hd. apply (StronglySorted_unique str_le).
  - apply StronglySorted_merge_sort; apply _.
  - apply StronglySorted_merge_sort; apply _.
  - apply NoDup_Permutation; [apply sorted_keys_nodup..|]. intros op. by rewrite !sorted_keys_elem, Hd.
Qed.

Lemma sorted_keys_sorted {A} (m : gmap string A) : StronglySorted (λ a b, str_lt a b = true) (sorted_keys m).
Proof.
  pose proof (sorted_keys_nodup m) as Hn. assert (StronglySorted str_le (sorted_keys m)) as Hs
    by (apply StronglySorted_merge_sort; apply _).
  induction Hs as [|a l Hs IH Ha]; constructor.
  - apply IH. by apply list.NoDup_cons in Hn as [_ ?].
  - apply list.NoDup_cons in Hn as [Hn _]. apply list.Forall_forall. intros b Hb.
    rewrite list.Forall_forall in Ha. apply str_lt_total; [|by apply Ha]. by intros ->.
Qed.
