(* ===== verification/Ycsb.v ===== *)
(** * pkg/ycsb: the interfaces, and pkg/client/dbwrapper.go

    [DB] is the record of operations of [ycsb.DB] together with the optional
    interfaces a driver may implement ([BatchDB], [CountDB], [CleanDB],
    [AnalyzeDB]: the type assertions [db.(ycsb.BatchDB)] are matches on [option]).
    Operations run in an environment [Env]: the driver's state, the clock, the log of
    the calls of [measurement.Measure], and what successive polls of the context
    return.  The registries of creators and the measuring wrapper follow. *)

From S2P Require Import Prelude GoStr Props Util.

Abbreviation error := string.

(** What [<-ctx.Done()] and [ctx.Err()] say at one poll. *)
Inductive ctx_status := Live | Canceled | DeadlineExceeded.

(** A call of [measurement.Measure(op, start, lan)]. *)
Record mcall := { m_op : string; m_start : Z; m_lan : Z }.

Record Env (D : Type) := {
  env_db : D;
  env_clock : list Z;
  env_log : list mcall;
  env_polls : list ctx_status
}.
Arguments env_db {D} _.
Arguments env_clock {D} _.
Arguments env_log {D} _.
Arguments env_polls {D} _.

Section env.
Context {D : Type}.

(** [time.Now()], in nanoseconds. *)
Definition now : M (Env D) Z := λ e,
  match env_clock e with
  | [] => Stuck
  | t :: ts => Ok (t, {| env_db := env_db e; env_clock := ts; env_log := env_log e;
                         env_polls := env_polls e |})
  end.

(** [measurement.Measure] *)
Definition Measure (op : string) (start lan : Z) : M (Env D) unit := λ e,
  Ok (tt, {| env_db := env_db e; env_clock := env_clock e;
             env_log := env_log e ++ [{| m_op := op; m_start := start; m_lan := lan |}];
             env_polls := env_polls e |}).

(** [select { case <-ctx.Done(): ... default: }]; the context stays alive when the
    script ends. *)
Definition poll : M (Env D) ctx_status := λ e,
  match env_polls e with
  | [] => Ok (Live, e)
  | s :: ss => Ok (s, {| env_db := env_db e; env_clock := env_clock e; env_log := env_log e;
                         env_polls := ss |})
  end.

(** A driver's own computation. *)
Definition in_db {A} (m : M D A) : M (Env D) A :=
  zoom env_db (λ d e, {| env_db := d; env_clock := env_clock e; env_log := env_log e;
                         env_polls := env_polls e |}) m.
End env.

(** ** db.go *)

(** An operation returns its results and an error that is [nil] or not. *)
Record BatchDB (D : Type) := {
  BatchInsert : string → list string → list row → M (Env D) (option error);
  BatchRead : string → list string → list string → M (Env D) (list row * option error);
  BatchUpdate : string → list string → list row → M (Env D) (option error);
  BatchDelete : string → list string → M (Env D) (option error)
}.
Arguments BatchInsert {D} _ _ _ _.
Arguments BatchRead {D} _ _ _ _.
Arguments BatchUpdate {D} _ _ _ _.
Arguments BatchDelete {D} _ _ _.

Record DB (D : Type) := {
  Close : M (Env D) (option error);
  InitThread : Z → Z → M (Env D) unit;
  CleanupThread : M (Env D) unit;
  Read : string → string → list string → M (Env D) (row * option error);
  Scan : string → string → Z → list string → M (Env D) (list row * option error);
  Update : string → string → row → M (Env D) (option error);
  Insert : string → string → row → M (Env D) (option error);
  Delete : string → string → M (Env D) (option error);
  as_BatchDB : option (BatchDB D);
  as_AnalyzeDB : option (string → M (Env D) (option error));
  as_CountDB : option (string → M (Env D) (Z * option error));
  as_CleanDB : option (string → M (Env D) (option error))
}.
Arguments Close {D} _.
Arguments InitThread {D} _ _ _.
Arguments CleanupThread {D} _.
Arguments Read {D} _ _ _ _.
Arguments Scan {D} _ _ _ _ _.
Arguments Update {D} _ _ _ _.
Arguments Insert {D} _ _ _ _.
Arguments Delete {D} _ _ _.
Arguments as_BatchDB {D} _.
Arguments as_AnalyzeDB {D} _.
Arguments as_CountDB {D} _.
Arguments as_CleanDB {D} _.

(** The registries [dbCreators] and [workloadCreators], filled by [init] functions. *)
Definition RegisterDBCreator {C} (dbCreators : gmap string C) (name : string) (creator : C)
    : res (gmap string C) :=
  match dbCreators !! name with
  | Some _ => Panic ("duplicate register database " +:+ name)
  | None => Ok (<[name := creator]> dbCreators)
  end.

Definition GetDBCreator {C} (dbCreators : gmap string C) (name : string) : option C :=
  dbCreators !! name.

Definition RegisterWorkloadCreator {C} (workloadCreators : gmap string C) (name : string)
    (creator : C) : res (gmap string C) :=
  match workloadCreators !! name with
  | Some _ => Panic ("duplicate register workload " +:+ name)
  | None => Ok (<[name := creator]> workloadCreators)
  end.

Definition GetWorkloadCreator {C} (workloadCreators : gmap string C) (name : string) : option C :=
  workloadCreators !! name.

(** ** dbwrapper.go *)

Section wrapper.
Context {D : Type}.

Definition measure (start : Z) (op : string) (err : option error) : M (Env D) unit :=
  t ← now;
  let lan := t -! start in
  match err with
  | Some _ => Measure (op +:+ "_ERROR") start lan
  | None => _ ← Measure op start lan; Measure "TOTAL" start lan
  end.

(** [start := time.Now(); defer measure(start, op, err); return f()] *)
Definition timed {A} (op : string) (err_of : A → option error) (f : M (Env D) A) : M (Env D) A :=
  start ← now;
  r ← f;
  _ ← measure start op (err_of r);
  mret r.

Definition Wrap_Read (db : DB D) (table key : string) (fs : list string) :=
  timed "READ" snd (Read db table key fs).

Fixpoint read_each (db : DB D) (table : string) (keys fs : list string) : M (Env D) (option error) :=
  match keys with
  | [] => mret None
  | k :: ks =>
      '(_, err) ← Read db table k fs;
      match err with Some e => mret (Some e) | None => read_each db table ks fs end
  end.

Definition Wrap_BatchRead (db : DB D) (table : string) (keys fs : list string)
    : M (Env D) (list row * option error) :=
  match as_BatchDB db with
  | Some b => timed "BATCH_READ" snd (BatchRead b table keys fs)
  | None => err ← read_each db table keys fs; mret ([], err)
  end.

Definition Wrap_Scan (db : DB D) (table startKey : string) (count : Z) (fs : list string) :=
  timed "SCAN" snd (Scan db table startKey count fs).

Definition Wrap_Update (db : DB D) (table key : string) (values : row) :=
  timed "UPDATE" id (Update db table key values).

(** [for i := range keys { ... keys[i], values[i] }]: [values] may be too short. *)
Fixpoint write_each (op : string → row → M (Env D) (option error)) (keys : list string)
    (values : list row) : M (Env D) (option error) :=
  match keys with
  | [] => mret None
  | k :: ks =>
      match values with
      | [] => panic "index out of range"
      | v :: vs =>
          err ← op k v;
          match err with Some e => mret (Some e) | None => write_each op ks vs end
      end
  end.

Definition Wrap_BatchUpdate (db : DB D) (table : string) (keys : list string) (values : list row)
    : M (Env D) (option error) :=
  match as_BatchDB db with
  | Some b => timed "BATCH_UPDATE" id (BatchUpdate b table keys values)
  | None => write_each (Update db table) keys values
  end.

Definition Wrap_Insert (db : DB D) (table key : string) (values : row) :=
  timed "INSERT" id (Insert db table key values).

Definition Wrap_BatchInsert (db : DB D) (table : string) (keys : list string) (values : list row)
    : M (Env D) (option error) :=
  match as_BatchDB db with
  | Some b => timed "BATCH_INSERT" id (BatchInsert b table keys values)
  | None => write_each (Insert db table) keys values
  end.

Definition Wrap_Delete (db : DB D) (table key : string) :=
  timed "DELETE" id (Delete db table key).

Fixpoint delete_each (db : DB D) (table : string) (keys : list string) : M (Env D) (option error) :=
  match keys with
  | [] => mret None
  | k :: ks =>
      err ← Delete db table k;
      match err with Some e => mret (Some e) | None => delete_each db table ks end
  end.

Definition Wrap_BatchDelete (db : DB D) (table : string) (keys : list string)
    : M (Env D) (option error) :=
  match as_BatchDB db with
  | Some b => timed "BATCH_DELETE" id (BatchDelete b table keys)
  | None => delete_each db table keys
  end.

Definition Wrap_Analyze (db : DB D) (table : string) : M (Env D) (option error) :=
  match as_AnalyzeDB db with Some f => f table | None => mret None end.

Definition Wrap_Count (db : DB D) (table : string) : M (Env D) (Z * option error) :=
  match as_CountDB db with
  | Some f => timed "COUNT" snd (f table)
  | None => mret (0, Some "database does not implement CountDB interface")
  end.

Definition Wrap_Clean (db : DB D) (table : string) : M (Env D) (option error) :=
  match as_CleanDB db with
  | Some f => timed "CLEAN" id (f table)
  | None => mret (Some "database does not implement CleanDB interface")
  end.

(** The wrapper is itself a [ycsb.DB], and a [BatchDB], whatever it wraps. *)
Definition DbWrapper (db : DB D) : DB D := {|
  Close := Close db;
  InitThread := InitThread db;
  CleanupThread := CleanupThread db;
  Read := Wrap_Read db;
  Scan := Wrap_Scan db;
  Update := Wrap_Update db;
  Insert := Wrap_Insert db;
  Delete := Wrap_Delete db;
  as_BatchDB := Some {|
    BatchInsert := Wrap_BatchInsert db;
    BatchRead := Wrap_BatchRead db;
    BatchUpdate := Wrap_BatchUpdate db;
    BatchDelete := Wrap_BatchDelete db |};
  as_AnalyzeDB := Some (Wrap_Analyze db);
  as_CountDB := Some (Wrap_Count db);
  as_CleanDB := Some (Wrap_Clean db)
|}.

End wrapper.

(** ** What the wrapper does *)

Section wrapper_spec.
Context {D : Type}.
Implicit Types (e : Env D) (db : DB D).

(** The environment after one reading of the clock, and after a measured call. *)
Definition tick e : Env D := {|
  env_db := env_db e; env_clock := tail (env_clock e); env_log := env_log e;
  env_polls := env_polls e |}.

Definition logged (op : string) (err : option error) (t1 t2 : Z) e : Env D := {|
  env_db := env_db e; env_clock := tail (env_clock e);
  env_log := env_log e ++
    match err with
    | Some _ => [{| m_op := op +:+ "_ERROR"; m_start := t1; m_lan := t2 -! t1 |}]
    | None => [{| m_op := op; m_start := t1; m_lan := t2 -! t1 |};
               {| m_op := "TOTAL"; m_start := t1; m_lan := t2 -! t1 |}]
    end;
  env_polls := env_polls e |}.

(** The driver's call [f] reads its result under the ticked environment. *)
Definition measured_as {A} (op : string) (err_of : A → option error) (f w : M (Env D) A) : Prop :=
  ∀ e t1 ts r e' t2 ts',
    env_clock e = t1 :: ts → f (tick e) = Ok (r, e') → env_clock e' = t2 :: ts' →
    w e = Ok (r, logged op (err_of r) t1 t2 e').

Lemma timed_measured {A} op err_of (f : M (Env D) A) : measured_as op err_of f (timed op err_of f).
Proof.
  intros e t1 ts r e' t2 ts' H1 Hf H2. unfold timed.
  assert (now e = Ok (t1, tick e)) as Hn by (unfold now, tick; by rewrite H1).
  rewrite (bind_Ok_1 _ _ _ _ _ Hn), (bind_Ok_1 _ _ _ _ _ Hf).
  assert (now e' = Ok (t2, tick e')) as Hn' by (unfold now, tick; by rewrite H2).
  assert (measure t1 op (err_of r) e' = Ok (tt, logged op (err_of r) t1 t2 e')) as Hm.
  { unfold measure. rewrite (bind_Ok_1 _ _ _ _ _ Hn'). unfold logged, Measure, tick.
    destruct (err_of r); [done|]. unfold mbind, M_bind. simpl. by rewrite <- app_assoc. }
  by rewrite (bind_Ok_1 _ _ _ _ _ Hm).
Qed.

(** A computation that measures nothing. *)
Definition unmeasured {A} (m : M (Env D) A) : Prop :=
  ∀ e r e', m e = Ok (r, e') → env_log e' = env_log e.

Lemma write_each_unmeasured op keys values :
  (∀ k v, unmeasured (op k v)) → unmeasured (write_each (D:=D) op keys values).
Proof.
  intros Hop. revert values. induction keys as [|k ks IH]; intros values e r e' E;
    cbn [write_each] in E; [by run_inv|].
  destruct values as [|v vs]; run_inv. apply Hop in H. case_match; run_inv; [done|].
  apply IH in E. congruence.
Qed.

Lemma delete_each_unmeasured db table keys :
  (∀ k, unmeasured (Delete db table k)) → unmeasured (delete_each db table keys).
Proof.
  intros Hop. induction keys as [|k ks IH]; intros e r e' E; cbn [delete_each] in E; [by run_inv|].
  run_inv. apply Hop in H. case_match; run_inv; [done|]. apply IH in E. congruence.
Qed.

Lemma read_each_unmeasured db table keys fs :
  (∀ k, unmeasured (Read db table k fs)) → unmeasured (read_each db table keys fs).
Proof.
  intros Hop. induction keys as [|k ks IH]; intros e r e' E; cbn [read_each] in E; [by run_inv|].
  run_inv. apply Hop in H. case_match; run_inv; [done|]. apply IH in E. congruence.
Qed.

(** What the wrapper [wb] does with the batches of a driver: it measures them when the
    driver has them; else it makes the single calls on the driver, up to the first error,
    and measures nothing ([quiet]: the driver itself does not). *)
Definition batches_measured db (wb : BatchDB D) (table : string) : Prop :=
  match as_BatchDB db with
  | Some b =>
      (∀ ks fs, measured_as "BATCH_READ" snd (BatchRead b table ks fs) (BatchRead wb table ks fs)) ∧
      (∀ ks vs, measured_as "BATCH_UPDATE" id (BatchUpdate b table ks vs) (BatchUpdate wb table ks vs)) ∧
      (∀ ks vs, measured_as "BATCH_INSERT" id (BatchInsert b table ks vs) (BatchInsert wb table ks vs)) ∧
      (∀ ks, measured_as "BATCH_DELETE" id (BatchDelete b table ks) (BatchDelete wb table ks))
  | None =>
      ((∀ k fs, unmeasured (Read db table k fs)) → ∀ ks fs, unmeasured (BatchRead wb table ks fs)) ∧
      ((∀ k v, unmeasured (Update db table k v)) → ∀ ks vs, unmeasured (BatchUpdate wb table ks vs)) ∧
      ((∀ k v, unmeasured (Insert db table k v)) → ∀ ks vs, unmeasured (BatchInsert wb table ks vs)) ∧
      ((∀ k, unmeasured (Delete db table k)) → ∀ ks, unmeasured (BatchDelete wb table ks))
  end.

Lemma wrapper_batches db table :
  ∃ wb, as_BatchDB (DbWrapper db) = Some wb ∧ batches_measured db wb table.
Proof.
  eexists. split; [done|]. unfold batches_measured.
  destruct (as_BatchDB db) as [b|] eqn:Hb; split_and!; cbn [BatchRead BatchUpdate BatchInsert BatchDelete];
    unfold Wrap_BatchRead, Wrap_BatchUpdate, Wrap_BatchInsert, Wrap_BatchDelete; rewrite Hb; intros; try apply timed_measured.
  - intros e r e' E. run_inv. by eapply read_each_unmeasured.
  - by apply write_each_unmeasured.
  - by apply write_each_unmeasured.
  - by apply delete_each_unmeasured.
Qed.

End wrapper_spec.

(** A driver on a list of records, latest first, for the examples: one table, no batch interface unless
    [batch] is set; [Insert] fails on the key ["bad"]. *)
Definition map_db (batch : bool) : DB (list (string * row)) :=
  let put (k : string) (v : row) : M (Env (list (string * row))) (option error) :=
    in_db (λ d, if String.eqb k "bad" then Ok (Some "refused", d) else Ok (None, (k, v) :: d)) in
  {| Close := mret None; InitThread _ _ := mret tt; CleanupThread := mret tt;
     Read _ k _ := in_db (λ d, Ok ((default ∅ (assoc d k), None), d));
     Scan _ _ _ _ := mret ([], None);
     Update _ := put; Insert _ := put;
     Delete _ k := in_db (λ d, Ok (None, filter (λ kv, kv.1 ≠ k) d));
     as_BatchDB := if batch then Some {|
       BatchInsert _ := write_each put; BatchUpdate _ := write_each put;
       BatchRead _ ks _ := in_db (λ d, Ok ((map (λ k, default ∅ (assoc d k)) ks, None), d));
       BatchDelete _ _ := mret None |} else None;
     as_AnalyzeDB := None; as_CountDB := None; as_CleanDB := None |}.

Definition map_env (clock : list Z) (polls : list ctx_status) : Env (list (string * row)) :=
  {| env_db := []; env_clock := clock; env_log := []; env_polls := polls |}.

