(* ===== verification/Registry.v ===== *)
(** * The registered databases and workloads

    Every driver package, and [pkg/workload], has an [init] function that enters its
    creators into a registry of [pkg/ycsb]; a name entered twice makes the process panic
    before [main].  cmd/go-ycsb imports all packages; three of them are only built with
    their tag. *)

From S2P Require Import Prelude Ycsb.

(** The types that implement [DBCreator]. *)
Inductive creator :=
| minioCreator | aerospikeCreator | dynamoDbCreator | redisCreator | rocksDBCreator | etcdCreator | pgCreator
| pegasusCreator | tikvCreator | mysqlCreator (name : string) | spannerCreator | sqliteCreator | mongodbCreator
| badgerCreator | s3Creator | cassandraCreator | fdbCreator | elasticCreator | boltCreator | basicDBCreator.

(** ** The init functions *)

Definition minio_init := [("minio", minioCreator)].
Definition aerospike_init := [("aerospike", aerospikeCreator)].
Definition dynamodb_init := [("dynamodb", dynamoDbCreator)].
Definition redis_init := [("redis", redisCreator)].
Definition rocksdb_init := [("rocksdb", rocksDBCreator)].
Definition etcd_init := [("etcd", etcdCreator)].
Definition pg_init := [("pg", pgCreator); ("postgresql", pgCreator); ("cockroach", pgCreator); ("cdb", pgCreator)].
Definition pegasus_init := [("pegasus", pegasusCreator)].
Definition tikv_init := [("tikv", tikvCreator)].
Definition mysql_init := [("mysql", mysqlCreator "mysql"); ("tidb", mysqlCreator "tidb"); ("mariadb", mysqlCreator "mariadb")].
Definition spanner_init := [("spanner", spannerCreator)].
Definition sqlite_init := [("sqlite", sqliteCreator)].
Definition mongodb_init := [("mongodb", mongodbCreator)].
Definition badger_init := [("badger", badgerCreator)].
Definition s3_init := [("s3", s3Creator)].
Definition cassandra_init := [("cassandra", cassandraCreator); ("scylla", cassandraCreator)].
Definition foundationdb_init := [("fdb", fdbCreator); ("foundationdb", fdbCreator)].
Definition elastic_init := [("elastic", elasticCreator)].
Definition boltdb_init := [("boltdb", boltCreator)].
Definition basic_init := [("basic", basicDBCreator)].

(** [pkg/workload]: both names stand for the core workload. *)
Definition workload_init {C} (coreCreator : C) := [("core", coreCreator); ("site.ycsb.workloads.CoreWorkload", coreCreator)].

(** The build tags. *)
Record tags := { tag_foundationdb : bool; tag_rocksdb : bool; tag_libsqlite3 : bool }.

(** The packages main.go imports, as built. *)
Definition imported (t : tags) : list (list (string * creator)) :=
  [basic_init; mysql_init; tikv_init; pg_init; aerospike_init; badger_init] ++
  (if tag_foundationdb t then [foundationdb_init] else []) ++ (if tag_rocksdb t then [rocksdb_init] else []) ++
  [spanner_init; pegasus_init] ++ (if tag_libsqlite3 t then [sqlite_init] else []) ++
  [cassandra_init; mongodb_init; redis_init; boltdb_init; minio_init; elastic_init; etcd_init; dynamodb_init; s3_init].

(** The calls of the [init] functions of packages in some order. *)
Fixpoint register_all {C} (register : gmap string C → string → C → res (gmap string C)) (reg : gmap string C) (l : list (string * C))
    : res (gmap string C) :=
  match l with [] => Ok reg | (name, c) :: l => reg ← register reg name c; register_all register reg l end.

Definition init_drivers (packages : list (list (string * creator))) : res (gmap string creator) :=
  register_all RegisterDBCreator ∅ (concat packages).

Definition init_workloads {C} (coreCreator : C) : res (gmap string C) :=
  register_all RegisterWorkloadCreator ∅ (workload_init coreCreator).

(** ** Every name is entered once *)

(** A registry that takes a new name. *)
Definition takes_new {C} (register : gmap string C → string → C → res (gmap string C)) : Prop :=
  ∀ reg name c, reg !! name = None → register reg name c = Ok (<[name := c]> reg).

Lemma RegisterDBCreator_new {C} : takes_new (C := C) RegisterDBCreator.
Proof. intros reg name c E. unfold RegisterDBCreator. by rewrite E. Qed.

Lemma RegisterWorkloadCreator_new {C} : takes_new (C := C) RegisterWorkloadCreator.
Proof. intros reg name c E. unfold RegisterWorkloadCreator. by rewrite E. Qed.

Lemma register_all_ok {C} register (reg : gmap string C) l :
  takes_new register → NoDup l.*1 → (∀ name, name ∈ l.*1 → reg !! name = None) → register_all register reg l = Ok (list_to_map l ∪ reg).
Proof.
  intros Hnew. revert reg. induction l as [|[name c] l IH]; intros reg Hn Hr; cbn [register_all]; [by rewrite list_to_map_nil, (left_id_L ∅ (∪))|].
  apply list.NoDup_cons in Hn as [Hnin Hn]. rewrite Hnew by (apply Hr; by left). cbn [mbind res_bind]. rewrite IH; [|done|].
  - f_equal. rewrite list_to_map_cons. rewrite <- insert_union_r, insert_union_l; [done|].
    by apply not_elem_of_list_to_map_1.
  - intros name' Hin. rewrite lookup_insert_ne by (intros <-; done). apply Hr. by right.
Qed.

(** From an empty registry. *)
Lemma register_all_finds {C} register (l : list (string * C)) :
  takes_new register → NoDup l.*1 → ∃ reg, register_all register ∅ l = Ok reg ∧ ∀ name c, reg !! name = Some c ↔ (name, c) ∈ l.
Proof.
  intros Hnew Hn. eexists. split; [apply register_all_ok; [done..|by intros; apply lookup_empty]|]. intros name c.
  rewrite (right_id_L ∅ (∪)). by rewrite elem_of_list_to_map by done.
Qed.

Lemma imported_names t : NoDup (concat (imported t)).*1.
Proof. destruct t as [[] [] []]; apply (bool_decide_unpack _); vm_compute; exact I. Qed.

(** C23: The registries.  Whatever the build tags and the order in which the packages are
    initialised, no registration panics, and the registry of databases then finds exactly
    the names of the packages built in, each with its creator; a name of a package that
    was left out is not found.  Exactly [core] and the name of the Java workload find the
    core workload. *)
Theorem registry_complete {C} t packages (coreCreator : C) :
  packages ≡ₚ imported t →
  (∃ reg, init_drivers packages = Ok reg ∧ ∀ name c, GetDBCreator reg name = Some c ↔ (name, c) ∈ concat (imported t)) ∧
  (∃ reg, init_workloads coreCreator = Ok reg ∧
     ∀ name c, GetWorkloadCreator reg name = Some c ↔ c = coreCreator ∧ (name = "core" ∨ name = "site.ycsb.workloads.CoreWorkload")).
Proof.
  intros Hp. split.
  - assert (Hc : concat packages ≡ₚ concat (imported t)).
    { clear -Hp. induction Hp; cbn [concat]; [done|by f_equiv|rewrite !app_assoc; f_equiv; apply Permutation_app_comm|by etrans]. }
    setoid_rewrite <- Hc. apply register_all_finds; [exact RegisterDBCreator_new|]. rewrite Hc. apply imported_names.
  - destruct (register_all_finds RegisterWorkloadCreator (workload_init coreCreator)) as (reg & E & Hr).
    + exact RegisterWorkloadCreator_new.
    + apply (bool_decide_unpack _). vm_compute. exact I.
    + exists reg. split; [exact E|]. intros name c. unfold GetWorkloadCreator. rewrite Hr. unfold workload_init.
      rewrite !elem_of_cons, elem_of_nil. naive_solver.
Qed.

Lemma registry_complete_witness :
  (∃ reg, init_drivers (reverse (imported {| tag_foundationdb := false; tag_rocksdb := true; tag_libsqlite3 := false |})) = Ok reg ∧
    GetDBCreator reg "tidb" = Some (mysqlCreator "tidb")) ∧ ∃ reg, init_workloads tt = Ok reg ∧ GetWorkloadCreator reg "core" = Some tt.
Proof.
  destruct (registry_complete {| tag_foundationdb := false; tag_rocksdb := true; tag_libsqlite3 := false |}
    (reverse (imported {| tag_foundationdb := false; tag_rocksdb := true; tag_libsqlite3 := false |})) tt) as [(reg & E & Hr) (wreg & Ew & Hw)].
  - apply reverse_Permutation.
  - split; [exists reg; split; [exact E|]; apply Hr; vm_compute; right; right; left|exists wreg; split; [exact Ew|apply Hw; auto]].
Defined.
