(* ===== verification/Core.v ===== *)
(** * pkg/workload/core.go: the core workload

    [core] holds the struct's configuration, [gens] the generators its pointer fields
    point to (the part [Next] and [Acknowledge] change).  A worker runs in a [World]:
    the environment of the database, the goroutine's random source, the generators and
    the value pool.  Every method of the file is a definition; [Create] builds the
    workload from the properties. *)

From S2P Require Import Prelude GoFloat GoRand GoStr Hash Props Row Generators AckCounter.
From S2P Require Import Zipfian Util Ycsb.

(** [operationType], numbered from one. *)
Definition op_read : Z := 1.
Definition op_update : Z := 2.
Definition op_insert : Z := 3.
Definition op_scan : Z := 4.
Definition op_readModifyWrite : Z := 5.

(** [math.MaxInt32] *)
Definition MaxInt32 : Z := 2147483647.

Record core (P : Type) := {
  core_p : P;
  table : string;
  fieldCount : Z;
  fieldNames : list string;
  readAllFields : bool;
  writeAllFields : bool;
  dataIntegrity : bool;
  orderedInserts : bool;
  recordCount : Z;
  zeroPadding : Z;
  insertionRetryLimit : Z;
  insertionRetryInterval : Z
}.
Arguments core_p {P} _.
Arguments table {P} _.
Arguments fieldCount {P} _.
Arguments fieldNames {P} _.
Arguments readAllFields {P} _.
Arguments writeAllFields {P} _.
Arguments dataIntegrity {P} _.
Arguments orderedInserts {P} _.
Arguments recordCount {P} _.
Arguments zeroPadding {P} _.
Arguments insertionRetryLimit {P} _.
Arguments insertionRetryInterval {P} _.

Record gens := {
  fieldLengthGenerator : gen;
  keySequence : gen;
  operationChooser : Discrete;
  keyChooser : gen;
  fieldChooser : gen;
  transactionInsertKeySequence : AcknowledgedCounter;
  scanLength : gen
}.

Definition set_fieldLengthGenerator (g : gen) (c : gens) : gens := {|
  fieldLengthGenerator := g; keySequence := keySequence c; operationChooser := operationChooser c;
  keyChooser := keyChooser c; fieldChooser := fieldChooser c;
  transactionInsertKeySequence := transactionInsertKeySequence c; scanLength := scanLength c |}.
Definition set_keySequence (g : gen) (c : gens) : gens := {|
  fieldLengthGenerator := fieldLengthGenerator c; keySequence := g; operationChooser := operationChooser c;
  keyChooser := keyChooser c; fieldChooser := fieldChooser c;
  transactionInsertKeySequence := transactionInsertKeySequence c; scanLength := scanLength c |}.
Definition set_operationChooser (g : Discrete) (c : gens) : gens := {|
  fieldLengthGenerator := fieldLengthGenerator c; keySequence := keySequence c; operationChooser := g;
  keyChooser := keyChooser c; fieldChooser := fieldChooser c;
  transactionInsertKeySequence := transactionInsertKeySequence c; scanLength := scanLength c |}.
Definition set_keyChooser (g : gen) (c : gens) : gens := {|
  fieldLengthGenerator := fieldLengthGenerator c; keySequence := keySequence c;
  operationChooser := operationChooser c; keyChooser := g; fieldChooser := fieldChooser c;
  transactionInsertKeySequence := transactionInsertKeySequence c; scanLength := scanLength c |}.
Definition set_fieldChooser (g : gen) (c : gens) : gens := {|
  fieldLengthGenerator := fieldLengthGenerator c; keySequence := keySequence c;
  operationChooser := operationChooser c; keyChooser := keyChooser c; fieldChooser := g;
  transactionInsertKeySequence := transactionInsertKeySequence c; scanLength := scanLength c |}.
Definition set_insertKeySequence (a : AcknowledgedCounter) (c : gens) : gens := {|
  fieldLengthGenerator := fieldLengthGenerator c; keySequence := keySequence c;
  operationChooser := operationChooser c; keyChooser := keyChooser c; fieldChooser := fieldChooser c;
  transactionInsertKeySequence := a; scanLength := scanLength c |}.
Definition set_scanLength (g : gen) (c : gens) : gens := {|
  fieldLengthGenerator := fieldLengthGenerator c; keySequence := keySequence c;
  operationChooser := operationChooser c; keyChooser := keyChooser c; fieldChooser := fieldChooser c;
  transactionInsertKeySequence := transactionInsertKeySequence c; scanLength := g |}.

Record World (D : Type) := {
  w_env : Env D; w_rand : rand; w_gens : gens; w_pool : Pool
}.
Arguments w_env {D} _.
Arguments w_rand {D} _.
Arguments w_gens {D} _.
Arguments w_pool {D} _.

(** The goroutine's state, but for its random source, which is in the world. *)
Record coreState := { st_fieldNames : list string }.

Section world.
Context {D : Type}.

Definition in_env {A} (m : M (Env D) A) : M (World D) A :=
  zoom w_env (λ e w, {| w_env := e; w_rand := w_rand w; w_gens := w_gens w; w_pool := w_pool w |}) m.
Definition in_rand {A} (m : M rand A) : M (World D) A :=
  zoom w_rand (λ r w, {| w_env := w_env w; w_rand := r; w_gens := w_gens w; w_pool := w_pool w |}) m.
Definition in_gens {A} (m : M gens A) : M (World D) A :=
  zoom w_gens (λ g w, {| w_env := w_env w; w_rand := w_rand w; w_gens := g; w_pool := w_pool w |}) m.
Definition in_pool {A} (m : M Pool A) : M (World D) A :=
  zoom w_pool (λ p w, {| w_env := w_env w; w_rand := w_rand w; w_gens := w_gens w; w_pool := p |}) m.
Definition gens_of : M (World D) gens := λ w, Ok (w_gens w, w).

(** [c.<field>.Next(r)] on a generator field. *)
Definition next_of `{MathLib} (field : gens → gen) (set : gen → gens → gens) : M (World D) Z :=
  gs ← gens_of;
  '(v, g) ← in_rand (gen_Next (Ack_Last (transactionInsertKeySequence gs)) (field gs));
  _ ← in_gens (modify (set g));
  mret v.

(** [c.transactionInsertKeySequence.Next(r)] and [Acknowledge]. *)
Definition next_insert_key : M (World D) Z :=
  gs ← gens_of;
  '(v, a) ← in_rand (Ack_Next (transactionInsertKeySequence gs));
  _ ← in_gens (modify (set_insertKeySequence a));
  mret v.

Definition acknowledge (keyNum : Z) : M (World D) unit :=
  gs ← gens_of;
  a ← lift (Acknowledge (transactionInsertKeySequence gs) keyNum);
  in_gens (modify (set_insertKeySequence a)).

Definition next_operation : M (World D) Z :=
  gs ← gens_of;
  '(v, d) ← in_rand (Discrete_Next (operationChooser gs));
  _ ← in_gens (modify (set_operationChooser d));
  mret v.

(** [state.fieldNames[i]] *)
Definition field_at (names : list string) (i : Z) : M (World D) string :=
  if i <? 0 then panic "index out of range" else lift (index names (Z.to_nat i)).

End world.

(** ** Building the workload's parts *)

Section core.
Context {P : Type} `{Properties P} `{MathLib}.

(** [hist_file name] is what opening and reading the histogram file gives; [seed] the
    throw-away source of [NewZipfianWithRange]. *)
Definition getFieldLengthGenerator (p : P) (hist_file : string → string + string) (seed : rand)
    : res gen :=
  let fieldLengthDistribution := GetString p prop.FieldLengthDistribution prop.FieldLengthDistributionDefault in
  let fieldLength := GetInt64 p prop.FieldLength prop.FieldLengthDefault in
  let fieldLengthHistogram := GetString p prop.FieldLengthHistogramFile prop.FieldLengthHistogramFileDefault in
  let d := ToLower fieldLengthDistribution in
  if String.eqb d "constant" then Ok (GConstant (NewConstant fieldLength))
  else if String.eqb d "uniform" then Ok (GUniform (NewUniform 1 fieldLength))
  else if String.eqb d "zipfian" then
    z ← NewZipfianWithRange 1 fieldLength ZipfianConstant seed; Ok (GZipfian z)
  else if String.eqb d "histogram" then
    h ← NewHistogramFromFile fieldLengthHistogram (hist_file fieldLengthHistogram); Ok (GHistogram h)
  else Exit ("unknown field length distribution " +:+ fieldLengthDistribution).

Definition add_op (d : Discrete) (proportion : float64) (op : Z) : Discrete :=
  if f64_ltb f64_zero proportion then Discrete_Add d proportion op else d.

Definition createOperationGenerator (p : P) : Discrete :=
  let readProportion := GetFloat64 p prop.ReadProportion prop.ReadProportionDefault in
  let updateProportion := GetFloat64 p prop.UpdateProportion prop.UpdateProportionDefault in
  let insertProportion := GetFloat64 p prop.InsertProportion prop.InsertProportionDefault in
  let scanProportion := GetFloat64 p prop.ScanProportion prop.ScanProportionDefault in
  let readModifyWriteProportion :=
    GetFloat64 p prop.ReadModifyWriteProportion prop.ReadModifyWriteProportionDefault in
  let d := NewDiscrete in
  let d := add_op d readProportion op_read in
  let d := add_op d updateProportion op_update in
  let d := add_op d insertProportion op_insert in
  let d := add_op d scanProportion op_scan in
  add_op d readModifyWriteProportion op_readModifyWrite.

(** [InitThread]'s state; its random source is the world's. *)
Definition core_InitThread (c : core P) : coreState := {| st_fieldNames := fieldNames c |}.

(** ** Keys and values *)

Definition buildKeyName (c : core P) (keyNum : Z) : string :=
  let keyNum := if orderedInserts c then keyNum else Hash64 keyNum in
  let prefix := GetString (core_p c) prop.KeyPrefix prop.KeyPrefixDefault in
  prefix +:+ fmt_0wd (zeroPadding c) keyNum.

Section ops.
Context {D : Type}.

(** A slice of [size] bytes with some contents, from the pool when the buffer it hands
    out is large enough.  Buffers have no capacity beyond their length here: a larger one
    changes which bytes are there before the callers overwrite all of them. *)
Definition getValueBuffer (size : Z) : M (World D) bytes :=
  buf ← in_pool (λ p, Pool_Get p);
  if size <=? Z.of_nat (length buf) then
    if size <? 0 then panic "slice bounds out of range" else mret (take (Z.to_nat size) buf)
  else mret (replicate (Z.to_nat size) x00).

Definition putValues (values : row) : M (World D) unit :=
  in_pool (modify (λ p, foldl Pool_Put p (map_to_list values).*2)).

Definition buildRandomValue : M (World D) bytes :=
  n ← next_of fieldLengthGenerator set_fieldLengthGenerator;
  buf ← getValueBuffer n;
  in_rand (RandBytes buf).

Definition colon : byte := x3a.

(** [for int64(b.Len()) < size]: every round appends at least the colon, so [size]
    rounds are enough. *)
Fixpoint det_loop (fuel : nat) (size : Z) (b : bytes) : bytes :=
  match fuel with
  | O => b
  | S f =>
      if Z.of_nat (length b) <? size then
        let b := b ++ [colon] in
        det_loop f size (b ++ bytes_of_string (FormatUint (u64 (BytesHash64 b))))
      else b
  end.

(** The text the loop starts from and the value cut from it. *)
Definition det_start (key fieldKey : string) : bytes :=
  bytes_of_string key ++ [colon] ++ bytes_of_string (ToLower fieldKey).

Definition det_value (size : Z) (key fieldKey : string) : bytes :=
  take (Z.to_nat size) (det_loop (S (Z.to_nat size)) size (det_start key fieldKey)).

(** [b.Truncate(int(size))] panics on a negative size; the loop makes [b] long enough. *)
Definition buildDeterministicValue (key fieldKey : string) : M (World D) bytes :=
  size ← next_of fieldLengthGenerator set_fieldLengthGenerator;
  _ ← getValueBuffer (size +! 21);
  if size <? 0 then panic "bytes.Buffer: truncation out of range"
  else mret (det_value size key fieldKey).

Definition build_field (c : core P) (key fieldKey : string) : M (World D) bytes :=
  if dataIntegrity c then buildDeterministicValue key fieldKey else buildRandomValue.

Definition buildSingleValue (c : core P) (state : coreState) (key : string) : M (World D) row :=
  i ← next_of fieldChooser set_fieldChooser;
  fieldKey ← field_at (st_fieldNames state) i;
  buf ← build_field c key fieldKey;
  mret {[fieldKey := buf]}.

Fixpoint build_fields (c : core P) (key : string) (names : list string) (values : row)
    : M (World D) row :=
  match names with
  | [] => mret values
  | fieldKey :: names =>
      buf ← build_field c key fieldKey;
      build_fields c key names (<[fieldKey := buf]> values)
  end.

Definition buildValues (c : core P) (state : coreState) (key : string) : M (World D) row :=
  build_fields c key (st_fieldNames state) ∅.

Fixpoint verify_fields (key : string) (l : list (string * bytes)) : M (World D) unit :=
  match l with
  | [] => mret tt
  | (fieldKey, value) :: l =>
      expected ← buildDeterministicValue key fieldKey;
      if decide (expected = value) then verify_fields key l
      else exit "unexpected deterministic value"
  end.

Definition verifyRow (key : string) (values : row) : M (World D) unit :=
  if decide (size values = 0%nat) then mret tt else verify_fields key (map_to_list values).

(** ** Loading *)

(** The loop of [DoInsert] and [DoBatchInsert] around one database call; [fuel] is the
    number of rounds left, [insertionRetryLimit] plus one at the start (at least one). *)
Fixpoint retry_loop (c : core P) (call : M (Env D) (option error)) (fuel : nat) (numOfRetries : Z)
    : M (World D) (option error) :=
  match fuel with
  | O => stuck
  | S f =>
      err ← in_env call;
      match err with
      | Some e => mret (Some e)
      | None =>
          st ← in_env poll;
          match st with
          | Canceled => mret None
          | _ =>
              let numOfRetries := numOfRetries +! 1 in
              if insertionRetryLimit c <? numOfRetries then mret None
              else
                _ ← in_rand Float64;   (* the random part of the pause *)
                retry_loop c call f numOfRetries
          end
      end
  end.

Definition retry_rounds (c : core P) : nat := S (Z.to_nat (insertionRetryLimit c)).

(** [DoInsert] after it has taken a number. *)
Definition insert_key (c : core P) (state : coreState) (db : DB D) (keyNum : Z) : M (World D) (option error) :=
  let dbKey := buildKeyName c keyNum in
  values ← buildValues c state dbKey;
  err ← retry_loop c (Insert db (table c) dbKey values) (retry_rounds c) 0;
  _ ← putValues values;
  mret err.

Definition DoInsert (c : core P) (state : coreState) (db : DB D) : M (World D) (option error) :=
  keyNum ← next_of keySequence set_keySequence;
  insert_key c state db keyNum.

(** [for i := 0; i < batchSize; i++] of [DoBatchInsert]. *)
Fixpoint batch_records (c : core P) (state : coreState) (n : nat)
    : M (World D) (list string * list row) :=
  match n with
  | O => mret ([], [])
  | S n =>
      keyNum ← next_of keySequence set_keySequence;
      let dbKey := buildKeyName c keyNum in
      values ← buildValues c state dbKey;
      '(ks, vs) ← batch_records c state n;
      mret (dbKey :: ks, values :: vs)
  end.

Fixpoint put_all (values : list row) : M (World D) unit :=
  match values with
  | [] => mret tt
  | v :: vs => _ ← putValues v; put_all vs
  end.

Definition no_batch : option error := Some "the db does't implement the batchDB interface".

Definition DoBatchInsert (c : core P) (state : coreState) (batchSize : Z) (db : DB D)
    : M (World D) (option error) :=
  match as_BatchDB db with
  | None => mret no_batch
  | Some batchDB =>
      '(keys, values) ← batch_records c state (Z.to_nat batchSize);
      err ← retry_loop c (BatchInsert batchDB (table c) keys values) (retry_rounds c) 0;
      _ ← put_all values;
      mret err
  end.

(** ** Transactions *)

(** The loop of [nextKeyNum] for an exponential chooser: every round draws, so one
    round more than the words left in the source is enough. *)
Fixpoint exp_key_loop (fuel : nat) : M (World D) Z :=
  match fuel with
  | O => stuck
  | S f =>
      gs ← gens_of;
      v ← next_of keyChooser set_keyChooser;
      let keyNum := Ack_Last (transactionInsertKeySequence gs) -! v in
      if keyNum <? 0 then exp_key_loop f else mret keyNum
  end.

Definition nextKeyNum : M (World D) Z :=
  gs ← gens_of;
  match keyChooser gs with
  | GExponential _ => λ w, exp_key_loop (S (length (w_rand w))) w
  | _ => next_of keyChooser set_keyChooser
  end.

(** The [fields] argument of the read and scan operations. *)
Definition choose_fields (c : core P) (state : coreState) : M (World D) (list string) :=
  if readAllFields c then mret (st_fieldNames state)
  else
    i ← next_of fieldChooser set_fieldChooser;
    fieldName ← field_at (st_fieldNames state) i;
    mret [fieldName].

Definition doTransactionRead (c : core P) (db : DB D) (state : coreState) : M (World D) (option error) :=
  keyNum ← nextKeyNum;
  let keyName := buildKeyName c keyNum in
  fs ← choose_fields c state;
  '(values, err) ← in_env (Read db (table c) keyName fs);
  match err with
  | Some e => mret (Some e)
  | None =>
      _ ← (if dataIntegrity c then verifyRow keyName values else mret tt);
      mret None
  end.

(** The values of an update. *)
Definition write_values (c : core P) (state : coreState) (keyName : string) : M (World D) row :=
  if writeAllFields c then buildValues c state keyName else buildSingleValue c state keyName.

Definition doTransactionReadModifyWrite (c : core P) (db : DB D) (state : coreState)
    : M (World D) (option error) :=
  start ← in_env now;
  keyNum ← nextKeyNum;
  let keyName := buildKeyName c keyNum in
  fs ← choose_fields c state;
  values ← write_values c state keyName;
  '(readValues, err) ← in_env (Read db (table c) keyName fs);
  err ← match err with
        | Some e => mret (Some e)
        | None =>
            err ← in_env (Update db (table c) keyName values);
            match err with
            | Some e => mret (Some e)
            | None =>
                _ ← (if dataIntegrity c then verifyRow keyName readValues else mret tt);
                mret None
            end
        end;
  _ ← putValues values;
  t ← in_env now;
  _ ← in_env (Measure "READ_MODIFY_WRITE" start (t -! start));
  mret err.

(** The two deferred calls run last in, first out, also after an error. *)
Definition doTransactionInsert (c : core P) (db : DB D) (state : coreState) : M (World D) (option error) :=
  keyNum ← next_insert_key;
  let dbKey := buildKeyName c keyNum in
  values ← buildValues c state dbKey;
  err ← in_env (Insert db (table c) dbKey values);
  _ ← putValues values;
  _ ← acknowledge keyNum;
  mret err.

Definition doTransactionScan (c : core P) (db : DB D) (state : coreState) : M (World D) (option error) :=
  keyNum ← nextKeyNum;
  let startKeyName := buildKeyName c keyNum in
  scanLen ← next_of scanLength set_scanLength;
  fs ← choose_fields c state;
  '(_, err) ← in_env (Scan db (table c) startKeyName scanLen fs);
  mret err.

Definition doTransactionUpdate (c : core P) (db : DB D) (state : coreState) : M (World D) (option error) :=
  keyNum ← nextKeyNum;
  let keyName := buildKeyName c keyNum in
  values ← write_values c state keyName;
  err ← in_env (Update db (table c) keyName values);
  _ ← putValues values;
  mret err.

Definition DoTransaction (c : core P) (state : coreState) (db : DB D) : M (World D) (option error) :=
  operation ← next_operation;
  if operation =? op_read then doTransactionRead c db state
  else if operation =? op_update then doTransactionUpdate c db state
  else if operation =? op_insert then doTransactionInsert c db state
  else if operation =? op_scan then doTransactionScan c db state
  else doTransactionReadModifyWrite c db state.

(** [make([]string, batchSize)] *)
Definition make_batch (batchSize : Z) : M (World D) nat :=
  if batchSize <? 0 then panic "makeslice: len out of range" else mret (Z.to_nat batchSize).

Fixpoint batch_keys (c : core P) (n : nat) : M (World D) (list string) :=
  match n with
  | O => mret []
  | S n => keyNum ← nextKeyNum; ks ← batch_keys c n; mret (buildKeyName c keyNum :: ks)
  end.

Definition doBatchTransactionRead (c : core P) (batchSize : Z) (db : BatchDB D) (state : coreState)
    : M (World D) (option error) :=
  fs ← choose_fields c state;
  n ← make_batch batchSize;
  keys ← batch_keys c n;
  '(_, err) ← in_env (BatchRead db (table c) keys fs);
  mret err.

Fixpoint batch_insert_records (c : core P) (state : coreState) (n : nat)
    : M (World D) (list string * list row) :=
  match n with
  | O => mret ([], [])
  | S n =>
      keyNum ← next_insert_key;
      let keyName := buildKeyName c keyNum in
      values ← write_values c state keyName;
      _ ← acknowledge keyNum;
      '(ks, vs) ← batch_insert_records c state n;
      mret (keyName :: ks, values :: vs)
  end.

Definition doBatchTransactionInsert (c : core P) (batchSize : Z) (db : BatchDB D) (state : coreState)
    : M (World D) (option error) :=
  n ← make_batch batchSize;
  '(keys, values) ← batch_insert_records c state n;
  err ← in_env (BatchInsert db (table c) keys values);
  _ ← put_all values;
  mret err.

Fixpoint batch_update_records (c : core P) (state : coreState) (n : nat)
    : M (World D) (list string * list row) :=
  match n with
  | O => mret ([], [])
  | S n =>
      keyNum ← nextKeyNum;
      let keyName := buildKeyName c keyNum in
      values ← write_values c state keyName;
      '(ks, vs) ← batch_update_records c state n;
      mret (keyName :: ks, values :: vs)
  end.

Definition doBatchTransactionUpdate (c : core P) (batchSize : Z) (db : BatchDB D) (state : coreState)
    : M (World D) (option error) :=
  n ← make_batch batchSize;
  '(keys, values) ← batch_update_records c state n;
  err ← in_env (BatchUpdate db (table c) keys values);
  _ ← put_all values;
  mret err.

Definition DoBatchTransaction (c : core P) (state : coreState) (batchSize : Z) (db : DB D)
    : M (World D) (option error) :=
  match as_BatchDB db with
  | None => mret no_batch
  | Some batchDB =>
      operation ← next_operation;
      if operation =? op_read then doBatchTransactionRead c batchSize batchDB state
      else if operation =? op_insert then doBatchTransactionInsert c batchSize batchDB state
      else if operation =? op_update then doBatchTransactionUpdate c batchSize batchDB state
      else if operation =? op_scan then panic "The batch mode don't support the scan operation"
      else mret None
  end.

End ops.

(** ** Create

    What the constructors draw from the outside: the histogram file, the throw-away
    sources of the zipfian generators, the script of the value pool. *)
Record create_env := {
  ce_hist : string → string + string;
  ce_seed_length : rand;
  ce_seed_key : rand;
  ce_seed_latest : rand;
  ce_seed_scan : rand;
  ce_picks : list nat
}.

(** [make([]string, c.fieldCount)] and the loop that fills it. *)
Definition create_fieldNames (count : Z) : res (list string) :=
  if count <? 0 then Panic "makeslice: len out of range" else Ok (map field_name (range0 count)).

Definition create_keyChooser (p : P) (recordCount insertStart insertCount : Z)
    (seq : AcknowledgedCounter) (ce : create_env) : res gen :=
  let requestDistrib := GetString p prop.RequestDistribution prop.RequestDistributionDefault in
  let keyrangeLowerBound := insertStart in
  let keyrangeUpperBound := insertStart +! insertCount -! 1 in
  if String.eqb requestDistrib "uniform" then
    Ok (GUniform (NewUniform keyrangeLowerBound keyrangeUpperBound))
  else if String.eqb requestDistrib "sequential" then
    Ok (GSequential (NewSequential keyrangeLowerBound keyrangeUpperBound))
  else if String.eqb requestDistrib "zipfian" then
    let insertProportion := GetFloat64 p prop.InsertProportion prop.InsertProportionDefault in
    let opCount := GetInt64 p prop.OperationCount 0 in
    let expectedNewKeys :=
      f64_to_int64 (f64_mul (f64_mul (f64_of_Z opCount) insertProportion) (f64_of_Z 2)) in
    let keyrangeUpperBound := insertStart +! insertCount +! expectedNewKeys in
    s ← NewScrambledZipfian keyrangeLowerBound keyrangeUpperBound ZipfianConstant (ce_seed_key ce);
    Ok (GScrambledZipfian s)
  else if String.eqb requestDistrib "latest" then
    s ← NewSkewedLatest (Ack_Last seq) (ce_seed_key ce) (ce_seed_latest ce);
    Ok (GSkewedLatest s)
  else if String.eqb requestDistrib "hotspot" then
    let hotsetFraction := GetFloat64 p prop.HotspotDataFraction prop.HotspotDataFractionDefault in
    let hotopnFraction := GetFloat64 p prop.HotspotOpnFraction prop.HotspotOpnFractionDefault in
    Ok (GHotspot (NewHotspot keyrangeLowerBound keyrangeUpperBound hotsetFraction hotopnFraction))
  else if String.eqb requestDistrib "exponential" then
    let percentile := GetFloat64 p prop.ExponentialPercentile prop.ExponentialPercentileDefault in
    let frac := GetFloat64 p prop.ExponentialFrac prop.ExponentialFracDefault in
    Ok (GExponential (NewExponential percentile (f64_mul (f64_of_Z recordCount) frac)))
  else Exit ("unknown request distribution " +:+ requestDistrib).

Definition create_scanLength (p : P) (ce : create_env) : res gen :=
  let minScanLength := GetInt64 p prop.MinScanLength prop.MinScanLengthDefault in
  let maxScanLength := GetInt64 p prop.MaxScanLength prop.MaxScanLengthDefault in
  let scanLengthDistrib := GetString p prop.ScanLengthDistribution prop.ScanLengthDistributionDefault in
  if String.eqb scanLengthDistrib "uniform" then
    Ok (GUniform (NewUniform minScanLength maxScanLength))
  else if String.eqb scanLengthDistrib "zipfian" then
    z ← NewZipfianWithRange minScanLength maxScanLength ZipfianConstant (ce_seed_scan ce);
    Ok (GZipfian z)
  else Exit ("distribution " +:+ scanLengthDistrib +:+ " not allowed for scan length").

(** [New: func() interface{} { return make([]byte, fieldLength) }] *)
Definition value_buffer (fieldLength : Z) : res bytes :=
  if fieldLength <? 0 then Panic "makeslice: len out of range"
  else Ok (replicate (Z.to_nat fieldLength) x00).

Definition effective_recordCount (p : P) : Z :=
  let n := GetInt64 p prop.RecordCount prop.RecordCountDefault in
  if n =? 0 then MaxInt32 else n.

Definition Create (p : P) (ce : create_env) : res (core P * gens * Pool) :=
  let fieldCount := GetInt64 p prop.FieldCount prop.FieldCountDefault in
  names ← create_fieldNames fieldCount;
  lengthGen ← getFieldLengthGenerator p (ce_hist ce) (ce_seed_length ce);
  let recordCount := effective_recordCount p in
  let insertStart := GetInt64 p prop.InsertStart prop.InsertStartDefault in
  let insertCount := GetInt64 p prop.InsertCount (recordCount -! insertStart) in
  if recordCount <? insertStart +! insertCount
  then Exit "record count must be bigger than insert start + count"
  else
    let integrity := GetBool p prop.DataIntegrity prop.DataIntegrityDefault in
    let distribution :=
      GetString p prop.FieldLengthDistribution prop.FieldLengthDistributionDefault in
    if integrity && negb (String.eqb distribution "constant")
    then Exit "must have constant field size to check data integrity"
    else
      let seq := NewAcknowledgedCounter recordCount in
      chooser ← create_keyChooser p recordCount insertStart insertCount seq ce;
      scan ← create_scanLength p ce;
      Ok ({| core_p := p;
             table := GetString p prop.TableName prop.TableNameDefault;
             fieldCount := fieldCount;
             fieldNames := names;
             readAllFields := GetBool p prop.ReadAllFields prop.ReadALlFieldsDefault;
             writeAllFields := GetBool p prop.WriteAllFields prop.WriteAllFieldsDefault;
             dataIntegrity := integrity;
             orderedInserts :=
               negb (String.eqb (GetString p prop.InsertOrder prop.InsertOrderDefault) "hashed");
             recordCount := recordCount;
             zeroPadding := GetInt64 p prop.ZeroPadding prop.ZeroPaddingDefault;
             insertionRetryLimit := GetInt64 p prop.InsertionRetryLimit prop.InsertionRetryLimitDefault;
             insertionRetryInterval :=
               GetInt64 p prop.InsertionRetryInterval prop.InsertionRetryIntervalDefault |},
          {| fieldLengthGenerator := lengthGen;
             keySequence := GCounter (NewCounter insertStart);
             operationChooser := createOperationGenerator p;
             keyChooser := chooser;
             fieldChooser := GUniform (NewUniform 0 (fieldCount -! 1));
             transactionInsertKeySequence := seq;
             scanLength := scan |},
          {| free := []; picks := ce_picks ce;
             fresh := value_buffer (GetInt64 p prop.FieldLength prop.FieldLengthDefault) |}).

End core.
