(* ===== verification/CoreSpec.v ===== *)
(** * Properties of the core workload

    Key names, the deterministic values of data integrity mode, the retry loop of the
    load phase, the choice of operations and keys, and transactional inserts. *)

From S2P Require Import Prelude GoFloat GoRand GoStr Hash Props Row Generators AckCounter.
From S2P Require Import Zipfian Util Ycsb Core.

(** ** Key names *)

Section keys.
Context {P : Type} `{Properties P}.
Implicit Types (c : core P).

Lemma fmt_0wd_inj w n m : 0 <= w <= 1000000 → fmt_0wd w n = fmt_0wd w m → n = m.
Proof.
  intros Hw. unfold fmt_0wd.
  destruct (Z.ltb_spec 1000000 (Z.abs w)); [lia|]. destruct (Z.ltb_spec w 0); [lia|].
  destruct (Z.ltb_spec n 0), (Z.ltb_spec m 0); intros E.
  - apply string_app_inj_l, padded_inj in E; lia.
  - symmetry in E. by apply digits_str_no_minus in E; [|apply pad_Forall, digits_Forall|
      intros [_ ?]%app_eq_nil; by eapply digits_not_nil].
  - by apply digits_str_no_minus in E; [|apply pad_Forall, digits_Forall|
      intros [_ ?]%app_eq_nil; by eapply digits_not_nil].
  - by apply padded_inj in E.
Qed.

(** Different records have different keys.  With [insertorder=ordered] two key
    numbers get the same name only if they are equal; with hashed keys only if their
    hashes are.  The padding may be any the [fmt] package accepts. *)
Lemma key_names_injective c n m :
  0 <= zeroPadding c <= 1000000 → buildKeyName c n = buildKeyName c m →
  if orderedInserts c then n = m else Hash64 n = Hash64 m.
Proof.
  intros Hz E. unfold buildKeyName in E. apply string_app_inj_l, fmt_0wd_inj in E; [|done].
  by destruct (orderedInserts c).
Qed.

(** With ordered keys and enough zero padding, scanning in key order is scanning in
    record order: the byte order of two key names is the order of their numbers. *)
Lemma key_names_ordered c n m :
  orderedInserts c = true → 1 <= zeroPadding c <= 1000000 →
  0 <= n < 10 ^ zeroPadding c → 0 <= m < 10 ^ zeroPadding c →
  String.compare (buildKeyName c n) (buildKeyName c m) = (n ?= m).
Proof.
  intros Ho Hz Hn Hm. unfold buildKeyName. rewrite Ho, string_compare_app. unfold fmt_0wd.
  destruct (Z.ltb_spec 1000000 (Z.abs (zeroPadding c))); [lia|].
  destruct (Z.ltb_spec (zeroPadding c) 0), (Z.ltb_spec n 0), (Z.ltb_spec m 0); try lia.
  apply padded_compare; [lia|rewrite Z2Nat.id; lia..].
Qed.
End keys.

(** A workload configuration for the examples. *)
Definition ex_core (p : ref_props) (integrity : bool) (retries : Z) : core ref_props := {|
  core_p := p; table := "usertable"; fieldCount := 2; fieldNames := ["field0"; "field1"];
  readAllFields := true; writeAllFields := false; dataIntegrity := integrity;
  orderedInserts := true; recordCount := 100; zeroPadding := 8;
  insertionRetryLimit := retries; insertionRetryInterval := 3 |}.

(** ** Deterministic values *)

Lemma det_loop_length f size b :
  (Z.to_nat size ≤ f + length b)%nat → 0 <= size →
  size <= Z.of_nat (length (det_loop f size b)).
Proof.
  revert b. induction f as [|f IH]; intros b Hf Hs; cbn [det_loop]; [lia|].
  destruct (Z.ltb_spec (Z.of_nat (length b)) size); [|done].
  apply IH; [|done]. rewrite !length_app. simpl. lia.
Qed.

Lemma det_value_length size key f : 0 <= size → length (det_value size key f) = Z.to_nat size.
Proof.
  intros Hs. unfold det_value. rewrite length_take.
  pose proof (det_loop_length (S (Z.to_nat size)) size (det_start key f)). lia.
Qed.

(** More rounds change nothing. *)
Lemma det_loop_fuel f size b :
  (Z.to_nat size ≤ f + length b)%nat → 0 <= size → det_loop (S f) size b = det_loop f size b.
Proof.
  revert b. induction f as [|f IH]; intros b Hf Hs.
  - cbn [det_loop]. destruct (Z.ltb_spec (Z.of_nat (length b)) size); [lia|done].
  - cbn [det_loop]. destruct (Z.ltb_spec (Z.of_nat (length b)) size); [|done].
    apply (IH ((b ++ [colon]) ++ _)); [|done]. rewrite !length_app. simpl. lia.
Qed.

Section values.
Context {P : Type} `{Properties P} `{MathLib} {D : Type}.
Implicit Types (c : core P) (w : World D).

(** In data integrity mode [Create] insists on a constant field length [n]. *)
Definition constant_length (n : Z) w : Prop :=
  fieldLengthGenerator (w_gens w) = GConstant (NewConstant n) ∧ 0 <= n <= max_int64 - 21 ∧
  fresh (w_pool w) = value_buffer n.

Lemma next_of_constant n w :
  constant_length n w → next_of fieldLengthGenerator set_fieldLengthGenerator w = Ok (n, w).
Proof.
  intros [Hg _]. unfold next_of, gens_of, in_rand, in_gens, modify, mbind, M_bind, zoom. rewrite Hg. simpl.
  unfold set_fieldLengthGenerator. rewrite <- Hg. destruct w as [? ? [] ?]; done.
Qed.

(** Buffers come and go; the rest of the world stays. *)
Definition same_but_pool w w' : Prop :=
  w_env w' = w_env w ∧ w_rand w' = w_rand w ∧ w_gens w' = w_gens w ∧ fresh (w_pool w') = fresh (w_pool w).

Lemma same_but_pool_constant n w w' :
  same_but_pool w w' → constant_length n w → constant_length n w'.
Proof. intros (_ & _ & Hg & Hf) Hc. unfold constant_length. by rewrite Hg, Hf. Qed.

Lemma same_but_pool_trans w1 w2 w3 :
  same_but_pool w1 w2 → same_but_pool w2 w3 → same_but_pool w1 w3.
Proof. intros (?&?&?&?) (?&?&?&?). unfold same_but_pool. split_and!; congruence. Qed.

Lemma getValueBuffer_ok size w b :
  0 <= size → fresh (w_pool w) = Ok b →
  ∃ buf w', getValueBuffer size w = Ok (buf, w') ∧ Z.of_nat (length buf) = size ∧ same_but_pool w w'.
Proof.
  intros Hs Hf.
  assert (∃ buf0 p', Pool_Get (w_pool w) = Ok (buf0, p') ∧ fresh p' = fresh (w_pool w)) as (buf0 & p' & Hg & Hf').
  { unfold Pool_Get. rewrite Hf. destruct (picks (w_pool w)) as [|i ps]; [simpl; eauto|].
    destruct (free (w_pool w) !! i); simpl; eauto. }
  unfold getValueBuffer, in_pool, mbind, M_bind, zoom. rewrite Hg.
  destruct (Z.leb_spec size (Z.of_nat (length buf0))).
  - destruct (Z.ltb_spec size 0); [lia|]. eexists _, _. split; [done|].
    split; [rewrite length_take; lia|done].
  - eexists _, _. split; [done|]. split; [rewrite length_replicate; lia|done].
Qed.

Lemma buildDeterministicValue_ok n w key f :
  constant_length n w →
  ∃ w', buildDeterministicValue key f w = Ok (det_value n key f, w') ∧ same_but_pool w w'.
Proof.
  intros Hc. pose proof Hc as (_ & Hn & Hf). unfold buildDeterministicValue.
  rewrite (bind_Ok_1 _ _ _ _ _ (next_of_constant n w Hc)).
  rewrite wrap64_id by width. unfold value_buffer in Hf. destruct (Z.ltb_spec n 0); [lia|].
  destruct (getValueBuffer_ok (n + 21) w _ ltac:(lia) Hf) as (buf & w' & Hg & _ & Hs).
  rewrite (bind_Ok_1 _ _ _ _ _ Hg). destruct (Z.ltb_spec n 0); [lia|]. by exists w'.
Qed.

Lemma verify_fields_ok n key l w :
  constant_length n w →
  if forallb (λ fv : string * bytes, bool_decide (det_value n key fv.1 = fv.2)) l
  then ∃ w', verify_fields key l w = Ok (tt, w') ∧ same_but_pool w w'
  else verify_fields key l w = Exit "unexpected deterministic value".
Proof.
  revert w. induction l as [|[f v] l IH]; intros w Hc; cbn [verify_fields forallb]; [by exists w|].
  destruct (buildDeterministicValue_ok n w key f Hc) as (w1 & E1 & Hs1).
  rewrite (bind_Ok_1 _ _ _ _ _ E1). simpl.
  case_bool_decide as Hd; [rewrite decide_True by done|by rewrite decide_False by done].
  specialize (IH w1 (same_but_pool_constant _ _ _ Hs1 Hc)). simpl.
  destruct (forallb _ l); [|done]. destruct IH as (w2 & E2 & Hs2).
  exists w2. split; [done|by eapply same_but_pool_trans].
Qed.

Lemma build_fields_ok c n key names vals w :
  dataIntegrity c = true → constant_length n w →
  ∃ w', build_fields c key names vals w =
          Ok (foldl (λ m f, <[f := det_value n key f]> m) vals names, w') ∧ same_but_pool w w'.
Proof.
  intros Hd. revert vals w. induction names as [|f names IH]; intros vals w Hc;
    cbn [build_fields foldl]; [by exists w|].
  unfold build_field. rewrite Hd.
  destruct (buildDeterministicValue_ok n w key f Hc) as (w1 & E1 & Hs1).
  rewrite (bind_Ok_1 _ _ _ _ _ E1).
  destruct (IH (<[f := det_value n key f]> vals) w1) as (w2 & E2 & Hs2);
    [by eapply same_but_pool_constant|].
  exists w2. split; [done|by eapply same_but_pool_trans].
Qed.

Lemma foldl_insert_lookup {A} (g : string → A) names (vals : gmap string A) f v :
  foldl (λ m f, <[f := g f]> m) vals names !! f = Some v →
  (f ∈ names ∧ v = g f) ∨ vals !! f = Some v.
Proof.
  revert vals. induction names as [|f' names IH]; intros vals E; simpl in E; [by right|].
  apply IH in E as [[? ->]|E]; [left; split; [by right|done]|].
  apply lookup_insert_Some in E as [[<- <-]|[_ E]]; [left; split; [by left|done]|by right].
Qed.

(** Data integrity checking is exact.  With a constant field length [n], [verifyRow]
    returns if every field of the row holds the deterministic value of the record's key
    and that field (a text of exactly [n] bytes that depends on nothing else: not on the
    random source, nor on what the pooled buffers hold), and otherwise ends the program. *)
Lemma verifyRow_exact n key values w :
  constant_length n w →
  ((∀ f v, values !! f = Some v → v = det_value n key f ∧ Z.of_nat (length v) = n) →
    ∃ w', verifyRow key values w = Ok (tt, w') ∧ same_but_pool w w') ∧
  ((∃ f v, values !! f = Some v ∧ v ≠ det_value n key f) →
    verifyRow key values w = Exit "unexpected deterministic value").
Proof.
  intros Hc. pose proof (verify_fields_ok n key (map_to_list values) w Hc) as Hv.
  unfold verifyRow. split.
  - intros Hall. case_decide; [by exists w|].
    rewrite (proj2 (forallb_forall _ _)) in Hv; [done|].
    intros [f v] Hin%list_elem_of_In%elem_of_map_to_list. apply Hall in Hin as [-> _].
    by rewrite bool_decide_true.
  - intros (f & v & Hf & Hne). case_decide as Hs.
    { apply map_size_empty_inv in Hs as ->. by rewrite lookup_empty in Hf. }
    destruct (forallb _ _) eqn:E; [|done]. exfalso. apply Hne. symmetry.
    rewrite forallb_forall in E. apply (bool_decide_eq_true_1 _), (E (f, v)).
    by apply list_elem_of_In, elem_of_map_to_list.
Qed.

(** C13: What the load phase writes, the read phase accepts: a row built by [buildValues]
    in data integrity mode has a value of the configured length for every field, and
    [verifyRow] for the same key accepts it at any later time, whatever has happened
    to the random source and the buffer pool in between. *)
Theorem built_rows_verify c state key n w1 w2 :
  dataIntegrity c = true → constant_length n w1 → constant_length n w2 →
  ∃ values w1', buildValues c state key w1 = Ok (values, w1') ∧
    (∀ f, f ∈ st_fieldNames state → ∃ v, values !! f = Some v ∧ Z.of_nat (length v) = n) ∧
    ∃ w2', verifyRow key values w2 = Ok (tt, w2').
Proof.
  intros Hd Hc1 Hc2. destruct (build_fields_ok c n key (st_fieldNames state) ∅ w1 Hd Hc1) as (w1' & E & _).
  set (values := foldl _ ∅ _) in E. exists values, w1'. split; [done|].
  assert (Hn : 0 <= n) by apply Hc1.
  assert (Hv : ∀ f v, values !! f = Some v → v = det_value n key f).
  { intros f v [[_ ->]|Hf]%foldl_insert_lookup; [done|by rewrite lookup_empty in Hf]. }
  assert (Hin : ∀ names (m : row) f, f ∈ names ∨ is_Some (m !! f) →
    is_Some (foldl (λ m f, <[f := det_value n key f]> m) m names !! f)).
  { induction names as [|f' names IH]; intros m f [Hf|Hf]; simpl.
    - by apply elem_of_nil in Hf.
    - done.
    - apply IH. apply elem_of_cons in Hf as [->|Hf]; [right; by simplify_map_eq|by left].
    - apply IH. right. apply lookup_insert_is_Some'. by right. }
  split.
  - intros f Hf. destruct (Hin (st_fieldNames state) ∅ f (or_introl Hf)) as [v Hfv]. exists v. split; [done|].
    rewrite (Hv f v Hfv), det_value_length by done. lia.
  - unfold verifyRow. case_decide; [by eexists|].
    pose proof (verify_fields_ok n key (map_to_list values) w2 Hc2) as Hok.
    rewrite (proj2 (forallb_forall _ _)) in Hok; [destruct Hok as (w2' & ? & _); by exists w2'|].
    intros [f v] Hfv%list_elem_of_In%elem_of_map_to_list. rewrite (Hv f v Hfv). by rewrite bool_decide_true.
Qed.
End values.

(** A world for the examples. *)
Definition ex_gens : gens := {|
  fieldLengthGenerator := GConstant (NewConstant 30); keySequence := GCounter (NewCounter 0);
  operationChooser := Discrete_Add NewDiscrete f64_one op_insert;
  keyChooser := GUniform (NewUniform 0 9); fieldChooser := GUniform (NewUniform 0 1);
  transactionInsertKeySequence := NewAcknowledgedCounter 10;
  scanLength := GUniform (NewUniform 1 10) |}.

Definition ex_world (r : rand) (polls : list ctx_status) (script : list nat)
    : World (list (string * row)) := {|
  w_env := map_env [] polls; w_rand := r; w_gens := ex_gens;
  w_pool := {| free := [[x61; x62]]; picks := script; fresh := value_buffer 30 |} |}.

Lemma ex_world_constant r polls script : constant_length 30 (ex_world r polls script).
Proof. split; [done|]. split; [width|done]. Qed.

Lemma built_rows_verify_witness :
  let w := ex_world [1; 2] [] [0%nat] in
  ∃ values w1', @buildValues _ math_exp1 _ (ex_core [] true 0) {| st_fieldNames := ["field0"; "field1"] |} "user7" w
                  = Ok (values, w1') ∧
    (∀ f, f ∈ ["field0"; "field1"] → ∃ v, values !! f = Some v ∧ Z.of_nat (length v) = 30) ∧
    ∃ w2', @verifyRow math_exp1 _ "user7" values (ex_world [] [] []) = Ok (tt, w2').
Proof.
  apply (@built_rows_verify _ math_exp1 _ (ex_core [] true 0) {| st_fieldNames := ["field0"; "field1"] |}
           "user7" 30 (ex_world [1; 2] [] [0%nat]) (ex_world [] [] []) eq_refl); apply ex_world_constant.
Defined.

(** ** The retry loop of the load phase *)

Section retry.
Context {P : Type} `{Properties P} `{MathLib} {D : Type}.
Implicit Types (c : core P) (w : World D) (call : M (Env D) (option error)).

(** [retry_rounds] rounds are enough: more fuel gives the same result. *)
Lemma retry_loop_fuel c call f k w :
  0 <= k <= Z.max 0 (insertionRetryLimit c) → insertionRetryLimit c < max_int64 →
  (Z.to_nat (insertionRetryLimit c - k) < f)%nat →
  retry_loop c call (S f) k w = retry_loop c call f k w.
Proof.
  revert k w. induction f as [|f IH]; intros k w Hk Hm Hf; [lia|].
  cbn [retry_loop] in *. unfold mbind, M_bind. destruct (in_env call w) as [[[e|] w1]|?|?|]; try done.
  destruct (in_env poll w1) as [[[] w2]|?|?|]; try done;
    rewrite wrap64_id by width; destruct (Z.ltb_spec (insertionRetryLimit c) (k + 1)); try done;
    destruct (in_rand Float64 w2) as [[u w3]|?|?|]; try done; apply IH; lia.
Qed.

(** The pauses between the rounds draw one number each. *)
Fixpoint pauses (n : nat) (r : rand) : res rand :=
  match n with
  | O => Ok r
  | S n => '(_, r) ← Float64 r; pauses n r
  end.

Definition set_env (e : Env D) (r : rand) w : World D :=
  {| w_env := e; w_rand := r; w_gens := w_gens w; w_pool := w_pool w |}.

Definition drop_poll (e : Env D) : Env D := {|
  env_db := env_db e; env_clock := env_clock e; env_log := env_log e; env_polls := tail (env_polls e) |}.

(** One round in which the call succeeds and the context is live. *)
Lemma retry_loop_round c call f k w e1 ps :
  call (w_env w) = Ok (None, e1) → env_polls e1 = Live :: ps →
  retry_loop c call (S f) k w =
    if insertionRetryLimit c <? k +! 1 then Ok (None, set_env (drop_poll e1) (w_rand w) w)
    else '(_, r) ← Float64 (w_rand w); retry_loop c call f (k +! 1) (set_env (drop_poll e1) r w).
Proof.
  intros E Hp. cbn [retry_loop]. unfold in_env, in_rand, mbind, M_bind, zoom. rewrite E.
  unfold poll. simpl. rewrite Hp. unfold set_env, drop_poll. rewrite Hp.
  case_match; [done|]. simpl. by destruct (Float64 (w_rand w)) as [[u r]|?|?|].
Qed.

Lemma retry_loop_success c call step n k w r' :
  0 <= k → k + Z.of_nat n = insertionRetryLimit c → insertionRetryLimit c < max_int64 →
  (∀ e, call e = Ok (None, step e) ∧ env_polls (step e) = env_polls e) →
  (∃ rest, env_polls (w_env w) = replicate (S n) Live ++ rest) →
  pauses n (w_rand w) = Ok r' →
  retry_loop c call (S n) k w =
    Ok (None, set_env (Nat.iter (S n) (λ e, drop_poll (step e)) (w_env w)) r' w).
Proof.
  intros Hk Hn Hm Hcall. revert k w Hk Hn. induction n as [|n IH]; intros k w Hk Hn [rest Hp] Hr;
    destruct (Hcall (w_env w)) as [E Hpo]; rewrite Hp in Hpo;
    rewrite (retry_loop_round c call _ k w _ _ E Hpo), wrap64_id by width.
  - destruct (Z.ltb_spec (insertionRetryLimit c) (k + 1)); [|lia]. simpl in Hr. by simplify_eq.
  - destruct (Z.ltb_spec (insertionRetryLimit c) (k + 1)); [lia|]. cbn [pauses] in Hr.
    destruct (Float64 (w_rand w)) as [[u r1]|?|?|]; try done. cbn [mbind res_bind] in Hr |- *.
    rewrite IH; [by rewrite (Nat.iter_succ_r (S n))|lia|lia| |done].
    exists rest. simpl. by rewrite Hpo.
Qed.

(** C17: The load loop is inverted.  A database call that fails is not retried: whatever
    the configured limit, the error is returned after that one call.  A call that
    succeeds is repeated until the limit is used up: with
    [core_workload_insertion_retry_limit] [n], every record is inserted [n + 1] times
    (pausing [n] times), and then reported as inserted. *)
Theorem retry_inverted c call w :
  (∀ err e', call (w_env w) = Ok (Some err, e') →
     retry_loop c call (retry_rounds c) 0 w = Ok (Some err, set_env e' (w_rand w) w)) ∧
  (∀ step r' rest, 0 <= insertionRetryLimit c < max_int64 →
     (∀ e, call e = Ok (None, step e) ∧ env_polls (step e) = env_polls e) →
     env_polls (w_env w) = replicate (retry_rounds c) Live ++ rest →
     pauses (Z.to_nat (insertionRetryLimit c)) (w_rand w) = Ok r' →
     retry_loop c call (retry_rounds c) 0 w =
       Ok (None, set_env (Nat.iter (retry_rounds c) (λ e, drop_poll (step e)) (w_env w)) r' w)).
Proof.
  split.
  - intros err e' E. unfold retry_rounds. cbn [retry_loop].
    unfold in_env, mbind, M_bind, zoom. by rewrite E.
  - intros step r' rest Hl Hcall Hp Hr. apply retry_loop_success; [lia|lia|lia|done|by exists rest|done].
Qed.
End retry.

(** With a limit of 2 a successful insert is made three times. *)
Lemma retry_inverted_witness :
  let w := ex_world [1; 2] [Live; Live; Live] [] in
  let call := λ e, Ok (None, (λ e : Env (list (string * row)), {| env_db := env_db e; env_clock := env_clock e;
     env_log := env_log e ++ [{| m_op := "INSERT"; m_start := 0; m_lan := 1 |}];
     env_polls := env_polls e |}) e) in
  match retry_loop (ex_core [] false 2) call (retry_rounds (ex_core [] false 2)) 0 w with
  | Ok (err, w') => err = None ∧ length (env_log (w_env w')) = 3%nat
  | _ => False
  end.
Proof.
  intros w call.
  destruct (pauses 2 (w_rand w)) as [r'|?|?|] eqn:Er; [|vm_compute in Er; discriminate Er..].
  pose proof (retry_inverted (ex_core [] false 2) call w) as [_ H].
  rewrite (H (λ e, {| env_db := env_db e; env_clock := env_clock e;
     env_log := env_log e ++ [{| m_op := "INSERT"; m_start := 0; m_lan := 1 |}];
     env_polls := env_polls e |}) r' []).
  - split; reflexivity.
  - simpl. width.
  - done.
  - reflexivity.
  - exact Er.
Defined.

(** ** Choosing operations *)

Section operations.
Context {P : Type} `{Properties P}.

(** The proportion configured for an operation. *)
Definition proportion (p : P) (op : Z) : float64 :=
  if op =? op_read then GetFloat64 p prop.ReadProportion prop.ReadProportionDefault
  else if op =? op_update then GetFloat64 p prop.UpdateProportion prop.UpdateProportionDefault
  else if op =? op_insert then GetFloat64 p prop.InsertProportion prop.InsertProportionDefault
  else if op =? op_scan then GetFloat64 p prop.ScanProportion prop.ScanProportionDefault
  else GetFloat64 p prop.ReadModifyWriteProportion prop.ReadModifyWriteProportionDefault.

Lemma add_op_elem d f op x :
  x ∈ disc_values (add_op d f op) →
  x ∈ disc_values d ∨ (x = {| Weight := f; Value := op |} ∧ f64_ltb f64_zero f = true).
Proof.
  unfold add_op, Discrete_Add. destruct (f64_ltb f64_zero f); [|by left]. simpl.
  rewrite elem_of_app, list_elem_of_singleton. naive_solver.
Qed.

Lemma createOperationGenerator_elem (p : P) x :
  x ∈ disc_values (createOperationGenerator p) →
  Value x ∈ [op_read; op_update; op_insert; op_scan; op_readModifyWrite] ∧
  Weight x = proportion p (Value x) ∧ f64_ltb f64_zero (Weight x) = true.
Proof.
  unfold createOperationGenerator. intros Hx.
  do 5 (apply add_op_elem in Hx as [Hx|[-> Hp]]; [|split; [simpl; set_solver|done]]).
  by apply elem_of_nil in Hx.
Qed.

(** The workload mix is respected: however many operations have been drawn before,
    the next one is one of the five operations, and one whose configured proportion is
    greater than zero. *)
Lemma operations_have_positive_proportion (p : P) k r vs d r1 op d' r2 :
  draws Discrete_Next k (createOperationGenerator p) r = Ok ((vs, d), r1) →
  Discrete_Next d r1 = Ok ((op, d'), r2) →
  op ∈ [op_read; op_update; op_insert; op_scan; op_readModifyWrite] ∧
  f64_ltb f64_zero (proportion p op) = true.
Proof.
  intros Hd Hn. assert (disc_values d = disc_values (createOperationGenerator p)) as E.
  { revert Hd. generalize (createOperationGenerator p) r vs. clear r vs.
    induction k as [|k IH]; intros d0 r vs Hd; cbn [draws] in Hd; run_inv; [done|].
    match goal with H1 : Discrete_Next d0 _ = _, H2 : draws _ _ _ _ = _ |- _ =>
      apply Discrete_Next_inv in H1 as [E1 _]; apply IH in H2; congruence end. }
  apply Discrete_Next_inv in Hn as (_ & _ & x & Hx & <-). rewrite E in Hx.
  apply createOperationGenerator_elem in Hx as (Hin & Hw & Hp). by rewrite <- Hw.
Qed.
End operations.

(** ** Choosing keys *)

Section keychoice.
Context {P : Type} `{Properties P} `{MathLib} {D : Type}.
Implicit Types (w : World D) (p : P).

(** The records the load phase writes: [insertCount] of them from [insertStart] on. *)
Definition insert_start p : Z := GetInt64 p prop.InsertStart prop.InsertStartDefault.
Definition insert_count p : Z :=
  GetInt64 p prop.InsertCount (effective_recordCount p -! insert_start p).

(** The numbers of [k] loaded records, and of [k] records chosen by transactions. *)
Fixpoint load_nums (k : nat) : M (World D) (list Z) :=
  match k with
  | O => mret []
  | S k => x ← next_of keySequence set_keySequence; xs ← load_nums k; mret (x :: xs)
  end.

Fixpoint chosen_nums (k : nat) : M (World D) (list Z) :=
  match k with
  | O => mret []
  | S k => x ← nextKeyNum; xs ← chosen_nums k; mret (x :: xs)
  end.

Lemma next_of_keySequence n w :
  keySequence (w_gens w) = GCounter {| counter := n |} → int64_ok n → n < max_int64 →
  ∃ w', next_of keySequence set_keySequence w = Ok (n, w') ∧
        keySequence (w_gens w') = GCounter {| counter := n + 1 |}.
Proof.
  intros Hk Hn Hm. unfold next_of, gens_of, in_rand, in_gens, modify, mbind, M_bind, zoom. rewrite Hk.
  cbn [gen_Next]. unfold wrap_gen, mbind, M_bind. rewrite Counter_Next_eq by done. simpl. rewrite wrap64_id by width. eauto.
Qed.

Lemma load_nums_seq k n w :
  keySequence (w_gens w) = GCounter {| counter := n |} → int64_ok n → n + Z.of_nat k <= max_int64 →
  ∃ w', load_nums k w = Ok (seqZ n (Z.of_nat k), w').
Proof.
  revert n w. induction k as [|k IH]; intros n w Hk Hn Hm; [by exists w|]. cbn [load_nums].
  destruct (next_of_keySequence n w Hk Hn ltac:(lia)) as (w1 & E1 & Hk1).
  rewrite (bind_Ok_1 _ _ _ _ _ E1).
  destruct (IH (n + 1) w1 Hk1) as (w2 & E2); [width|lia|].
  rewrite (bind_Ok_1 _ _ _ _ _ E2). exists w2. unfold mret, M_ret. by rewrite seqZ_of_nat_S.
Qed.

Lemma nextKeyNum_uniform l u g w x w' :
  keyChooser (w_gens w) = GUniform g → uniform_wf l u g → nextKeyNum w = Ok (x, w') →
  l <= x <= u ∧ ∃ g', keyChooser (w_gens w') = GUniform g' ∧ uniform_wf l u g'.
Proof.
  intros Hk Hw. unfold nextKeyNum, gens_of at 1. unfold mbind at 1, M_bind at 1. rewrite Hk.
  unfold next_of, gens_of, in_rand, in_gens, modify. intros E. run_inv. rewrite Hk in *.
  cbn [gen_Next] in *. unfold wrap_gen in *. run_inv.
  match goal with H : Uniform_Next _ _ = _ |- _ => apply (Uniform_Next_wf l u) in H as (Hw' & Hx & _); [|done] end.
  split; [done|]. by eexists.
Qed.

Lemma chosen_nums_uniform l u k g w xs w' :
  keyChooser (w_gens w) = GUniform g → uniform_wf l u g → chosen_nums k w = Ok (xs, w') →
  Forall (λ x, l <= x <= u) xs.
Proof.
  revert g w xs. induction k as [|k IH]; intros g w xs Hk Hw E; cbn [chosen_nums] in E; run_inv; [done|].
  match goal with H1 : nextKeyNum _ = _, H2 : chosen_nums _ _ = _ |- _ =>
    apply (nextKeyNum_uniform l u g) in H1 as (Hx & g' & Hk' & Hw'); [|done..];
    constructor; [done|by eapply IH] end.
Qed.

(** What [Create] sets up. *)
Lemma Create_gens p ce c gs pool :
  Create p ce = Ok (c, gs, pool) →
  keySequence gs = GCounter {| counter := insert_start p |} ∧
  create_keyChooser p (effective_recordCount p) (insert_start p) (insert_count p)
    (NewAcknowledgedCounter (effective_recordCount p)) ce = Ok (keyChooser gs) ∧
  insert_start p +! insert_count p <= effective_recordCount p.
Proof.
  unfold Create. destruct (create_fieldNames _) as [names|?|?|]; try done. simpl.
  destruct (getFieldLengthGenerator _ _ _) as [lg|?|?|]; try done. simpl.
  fold (insert_start p). fold (insert_count p).
  destruct (Z.ltb_spec (effective_recordCount p) (insert_start p +! insert_count p)); [done|].
  case_match; [done|].
  destruct (create_keyChooser _ _ _ _ _ _) as [kc|?|?|] eqn:Ek; try done. simpl.
  destruct (create_scanLength _ _) as [sl|?|?|]; try done. simpl. by intros [= <- <- <-].
Qed.

(** C18: With the uniform request distribution, transactions only touch loaded records.
    [Create] refuses a range beyond the record count, the load phase inserts the key
    numbers [insertstart, ..., insertstart + insertcount - 1] in order, and every key
    number a transaction chooses later is one of them. *)
Theorem uniform_keys_are_loaded p ce c gs pool k w xs w' :
  Create p ce = Ok (c, gs, pool) →
  GetString p prop.RequestDistribution prop.RequestDistributionDefault = "uniform" →
  0 <= insert_start p → 0 < insert_count p → insert_start p + insert_count p <= max_int64 →
  w_gens w = gs → chosen_nums k w = Ok (xs, w') →
  (insert_start p + insert_count p <= effective_recordCount p) ∧
  ∃ loaded w0', load_nums (Z.to_nat (insert_count p)) w = Ok (loaded, w0') ∧
    loaded = seqZ (insert_start p) (insert_count p) ∧ ∀ x, x ∈ xs → x ∈ loaded.
Proof.
  intros Hc Hd Hs Hn Hm Hg Hx. apply Create_gens in Hc as (Hk & Hch & Hle).
  rewrite wrap64_id in Hle by width. split; [done|].
  unfold create_keyChooser in Hch. rewrite Hd in Hch. cbn [String.eqb Ascii.eqb Bool.eqb] in Hch. injection Hch as Hch.
  rewrite (wrap64_id (insert_start p + _)), wrap64_id in Hch by width.
  destruct (load_nums_seq (Z.to_nat (insert_count p)) (insert_start p) w) as (w0' & E).
  { by rewrite Hg. } { width. } { lia. }
  rewrite Z2Nat.id in E by lia. exists (seqZ (insert_start p) (insert_count p)), w0'. split; [done|split; [done|]].
  rewrite <- Hg in Hch. symmetry in Hch.
  eapply (chosen_nums_uniform (insert_start p) (insert_start p + insert_count p - 1)) in Hx;
    [|exact Hch|apply NewUniform_wf; width].
  rewrite list.Forall_forall in Hx. intros x Hin%Hx. apply elem_of_seqZ. lia.
Qed.

(** With the zipfian request distribution the key range is one too long.  When no
    inserts are expected, the scrambled zipfian chooser ranges over
    [insertstart, ..., insertstart + insertcount], whose last number was never loaded,
    and a popular item whose hash falls on it makes a transaction choose it. *)
Lemma zipfian_range_past_load p ce c gs pool :
  Create p ce = Ok (c, gs, pool) →
  GetString p prop.RequestDistribution prop.RequestDistributionDefault = "zipfian" →
  f64_to_int64 (f64_mul (f64_mul (f64_of_Z (GetInt64 p prop.OperationCount 0))
    (GetFloat64 p prop.InsertProportion prop.InsertProportionDefault)) (f64_of_Z 2)) = 0 →
  0 <= insert_start p → 0 < insert_count p → insert_start p + insert_count p < max_int64 →
  ∃ z, keyChooser gs = GScrambledZipfian z ∧
    scr_min z = insert_start p ∧ scr_max z = insert_start p + insert_count p ∧
    insert_start p + insert_count p ∉ seqZ (insert_start p) (insert_count p) ∧
    ∀ w item g r', w_gens w = gs → Zipfian_Next (scr_gen z) (w_rand w) = Ok ((item, g), r') →
      Z.rem (Hash64 item) (insert_count p + 1) = insert_count p →
      ∃ w', nextKeyNum w = Ok (insert_start p + insert_count p, w').
Proof.
  intros Hc Hd He Hs Hn Hm. apply Create_gens in Hc as (Hk & Hch & Hle).
  unfold create_keyChooser in Hch. rewrite Hd in Hch. cbn [String.eqb Ascii.eqb Bool.eqb] in Hch. cbn zeta in Hch. rewrite He in Hch.
  rewrite Z.add_0_r, wrap64_idemp, (wrap64_id (insert_start p + insert_count p)) in Hch by width.
  unfold NewScrambledZipfian in Hch. destruct (if f64_eqb _ _ then _ else _) as [g0|?|?|]; try done.
  cbn [mbind res_bind] in Hch. injection Hch as Hch.
  rewrite (wrap64_id (_ + _ - _)), wrap64_id in Hch by width.
  eexists. split; [by symmetry|]. simpl. split; [done|split; [done|split; [rewrite elem_of_seqZ; lia|]]].
  intros w item g r' Hg E Hr. unfold nextKeyNum, gens_of at 1, mbind at 1, M_bind at 1.
  rewrite Hg, <- Hch. unfold next_of, gens_of, in_rand, in_gens, modify, mbind, M_bind, zoom.
  rewrite Hg, <- Hch. simpl. unfold wrap_gen, ScrambledZipfian_Next, mbind, M_bind. simpl. rewrite E.
  destruct (Z.eqb_spec (insert_start p + insert_count p - insert_start p + 1) 0); [lia|].
  replace (insert_start p + insert_count p - insert_start p + 1) with (insert_count p + 1) by lia.
  rewrite Hr, wrap64_id by width. simpl. eauto.
Qed.
End keychoice.

Definition ex_create_env : create_env := {|
  ce_hist := λ _, inl "no file"; ce_seed_length := [7]; ce_seed_key := [7]; ce_seed_latest := [7];
  ce_seed_scan := [7]; ce_picks := [] |}.

Definition world_of (gs : gens) (pool : Pool) (r : rand) : World (list (string * row)) :=
  {| w_env := map_env [] []; w_rand := r; w_gens := gs; w_pool := pool |}.

Definition ex_props_uniform : ref_props :=
  [("recordcount", "10"); ("insertstart", "2"); ("insertcount", "6"); ("fieldcount", "1"); ("fieldlength", "3")].

Lemma uniform_keys_are_loaded_witness :
  ∃ c gs pool xs w', @Create _ _ math_exp1 ex_props_uniform ex_create_env = Ok (c, gs, pool) ∧
    @chosen_nums math_exp1 _ 3 (world_of gs pool [5; 6; 7]) = Ok (xs, w') ∧
    insert_start ex_props_uniform + insert_count ex_props_uniform
      <= effective_recordCount ex_props_uniform ∧
    ∃ loaded w0', @load_nums math_exp1 _ (Z.to_nat (insert_count ex_props_uniform)) (world_of gs pool [5; 6; 7])
        = Ok (loaded, w0') ∧
      loaded = seqZ (insert_start ex_props_uniform) (insert_count ex_props_uniform) ∧
      ∀ x, x ∈ xs → x ∈ loaded.
Proof.
  assert (∃ c gs pool xs w', @Create _ _ math_exp1 ex_props_uniform ex_create_env = Ok (c, gs, pool) ∧
    @chosen_nums math_exp1 _ 3 (world_of gs pool [5; 6; 7]) = Ok (xs, w'))
    as (c & gs & pool & xs & w' & E1 & E2).
  { eexists _, _, _, _, _. split; [vm_compute; reflexivity|vm_compute; reflexivity]. }
  exists c, gs, pool, xs, w'. split; [exact E1|split; [exact E2|]].
  refine (@uniform_keys_are_loaded _ _ math_exp1 _ ex_props_uniform ex_create_env c gs pool 3
           (world_of gs pool [5; 6; 7]) xs w' E1 _ _ _ _ eq_refl E2); clear; vm_compute; done.
Defined.

(** ** Transactional inserts *)

Section inserts.
Context {P : Type} `{Properties P} `{MathLib} {D : Type}.
Implicit Types (c : core P) (w : World D).

(** Computations that only draw numbers and buffers. *)
Definition keeps {A} (m : M (World D) A) : Prop :=
  ∀ w x w', m w = Ok (x, w') → w_env w' = w_env w ∧
    transactionInsertKeySequence (w_gens w') = transactionInsertKeySequence (w_gens w).

Lemma keeps_bind {A B} (m : M (World D) A) (f : A → M (World D) B) :
  keeps m → (∀ x, keeps (f x)) → keeps (m ≫= f).
Proof. intros Hm Hf w x w' E. run_inv. apply Hm in H1 as [? ?]. apply Hf in E as [? ?]. split; congruence. Qed.

Lemma keeps_ret {A} (x : A) : keeps (mret x).
Proof. intros w y w' E. by run_inv. Qed.

Lemma keeps_panic {A} msg : keeps (A:=A) (panic msg).
Proof. done. Qed.

Lemma keeps_in_rand {A} (m : M rand A) : keeps (in_rand m).
Proof. intros w x w' E. unfold in_rand in E. by run_inv. Qed.

Lemma keeps_in_pool {A} (m : M Pool A) : keeps (in_pool m).
Proof. intros w x w' E. unfold in_pool in E. by run_inv. Qed.

Lemma keeps_next_of field set :
  (∀ g gs, transactionInsertKeySequence (set g gs) = transactionInsertKeySequence gs) →
  keeps (next_of field set).
Proof.
  intros Hset w x w' E. unfold next_of, gens_of, in_rand, in_gens, modify in E. run_inv. by split.
Qed.

Lemma keeps_field_at names i : keeps (field_at names i).
Proof.
  intros w x w' E. unfold field_at in E. case_match; [done|]. unfold lift in E. by case_match; simplify_eq.
Qed.
End inserts.

Create HintDb keeps.
#[export] Hint Resolve keeps_bind keeps_ret keeps_panic keeps_in_rand keeps_in_pool keeps_field_at : keeps.
#[export] Hint Extern 1 (keeps (next_of _ _)) => apply keeps_next_of; done : keeps.

Section inserts2.
Context {P : Type} `{Properties P} `{MathLib} {D : Type}.
Implicit Types (c : core P) (w : World D).

Lemma keeps_getValueBuffer size : keeps (D:=D) (getValueBuffer size).
Proof.
  apply keeps_bind; [auto with keeps|]. intros b. repeat case_match; auto with keeps.
Qed.

Lemma keeps_build_field c key f : keeps (D:=D) (build_field c key f).
Proof.
  unfold build_field, buildDeterministicValue, buildRandomValue.
  case_match; (apply keeps_bind; [auto with keeps|intros n]);
    (apply keeps_bind; [apply keeps_getValueBuffer|intros b]); [case_match|]; auto with keeps.
Qed.

Lemma keeps_build_fields c key names vals : keeps (D:=D) (build_fields c key names vals).
Proof.
  revert vals. induction names as [|f names IH]; intros vals; cbn [build_fields]; [auto with keeps|].
  apply keeps_bind; [apply keeps_build_field|auto].
Qed.

Lemma keeps_putValues vals : keeps (D:=D) (putValues vals).
Proof. apply keeps_in_pool. Qed.

Lemma next_insert_key_eq w v :
  counter (ack_c (transactionInsertKeySequence (w_gens w))) = v → int64_ok v →
  ∃ w', next_insert_key w = Ok (v, w') ∧ w_env w' = w_env w ∧
    let a := transactionInsertKeySequence (w_gens w) in
    let a' := transactionInsertKeySequence (w_gens w') in
    ack_c a' = {| counter := v +! 1 |} ∧ ack_lock a' = ack_lock a ∧ window a' = window a ∧ limit a' = limit a.
Proof.
  intros Hv Hi. unfold next_insert_key, gens_of, in_rand, in_gens, modify, Ack_Next.
  unfold mbind, M_bind, zoom. destruct (ack_c (transactionInsertKeySequence (w_gens w))) as [c0] eqn:Ec.
  simpl in Hv. subst c0. rewrite Counter_Next_eq by done. simpl. eexists. split; [done|]. simpl. done.
Qed.

(** A transactional insert uses the next key of the sequence, makes one insert with
    it, and acknowledges it afterwards, whatever the database answered: the database is
    called exactly once, with the name of the key; its error is the result; [Next] moves
    on by one; and the key counts for [Last], which becomes the end of the contiguous
    run of acknowledged keys (so it reaches the key when no earlier one is open). *)
Lemma transaction_insert_spec c db state w err w' X v :
  let a := transactionInsertKeySequence (w_gens w) in
  ack_rep a X → counter (ack_c a) = v → limit a < v <= limit a + WindowSize → v ∉ X →
  limit a + WindowSize <= max_int64 - WindowSize - 1 →
  doTransactionInsert c db state w = Ok (err, w') →
  let a' := transactionInsertKeySequence (w_gens w') in
  (∃ values, Insert db (table c) (buildKeyName c v) values (w_env w) = Ok (err, w_env w')) ∧
  counter (ack_c a') = v + 1 ∧
  ack_rep a' (above (limit a') ({[v]} ∪ X)) ∧ limit a' + 1 ∉ {[v]} ∪ X ∧
  (v = limit a + 1 → v <= limit a').
Proof.
  intros a Ha Hv Hw HX Hm E a'. subst a. change WindowSize with 1048576 in Hm, Hw.
  pose proof (rep_limit _ _ Ha) as Hl. change WindowSize with 1048576 in Hl.
  destruct (next_insert_key_eq w v Hv) as (w1 & E1 & He1 & Hc1 & Hl1 & Hw1 & Hm1); [width|].
  unfold doTransactionInsert in E. rewrite (bind_Ok_1 _ _ _ _ _ E1) in E. clear Hv E1. unfold in_env in E. run_inv.
  match goal with
  | Hb : buildValues _ _ _ _ = _, Hi : Insert _ _ _ _ _ = _, Hp : putValues _ _ = _, Hk : acknowledge _ _ = _ |- _ =>
      apply keeps_build_fields in Hb as [Hb1 Hb2]; apply keeps_putValues in Hp as [Hp1 Hp2];
      unfold acknowledge, gens_of, in_gens, modify in Hk; run_inv
  end.
  cbn [w_env w_gens] in *. rewrite Hb1, He1 in *. rewrite Hp2, Hb2 in *.
  destruct (Acknowledge_rep (transactionInsertKeySequence (w_gens w1)) X v) as (a2 & Ea & Hr & Hle & Hin & Hn & Hc).
  { destruct Ha as [R1 R2 R3 R4 R5]. split; rewrite ?Hl1, ?Hw1, ?Hm1; done. }
  { rewrite Hm1. change WindowSize with 1048576. done. } { done. }
  { rewrite Hm1. change WindowSize with 1048576. lia. }
  rewrite Ea in *. unfold lift in *. simplify_eq/=. subst a'. simpl.
  split; [by eauto|]. rewrite Hc, Hc1. simpl. split; [apply wrap64_id; width|].
  split; [done|split; [done|]]. intros Hv.
  destruct (decide (v <= limit x6)) as [|Hgt]; [done|]. exfalso. apply Hn.
  assert (limit x6 + 1 = v) as -> by lia. set_solver.
Qed.
End inserts2.

