(* ===== verification/Client.v ===== *)
(** * pkg/client/client.go: workers and the client

    [newWorker] divides the work, [run] is a worker's loop, [Client_Run] starts the
    workers.  The workload is a record of operations on a state shared by the workers
    ([Workload]).  What a worker observes of the outside in one round, whether the
    warm-up is over, whether the context is done, and the clock, is scripted by a list
    of [tick]s.  The worker's loop shares nothing with other workers but the workload's
    state, so [Client_Run] runs them one after the other: the counts of operations,
    which is what the theorems are about, do not depend on the interleaving.  Workers.v
    interleaves the goroutines of a load. *)

From S2P Require Import Prelude GoFloat GoRand GoStr Props Ycsb.

Section client.
Context {P : Type} `{Properties P}.

Record worker := {
  doTransactions : bool;
  doBatch : bool;
  batchSize : Z;
  opCount : Z;
  targetOpsPerMs : float64;
  threadID : Z;
  targetOpsTickNs : Z;
  opsDone : Z
}.

Definition totalOpCount (p : P) : Z :=
  if GetBool p prop.DoTransactions true then GetInt64 p prop.OperationCount 0
  else match Get p prop.InsertCount with
       | Some _ => GetInt64 p prop.InsertCount 0
       | None => GetInt64 p prop.RecordCount 0
       end.

(** The throttling rate: operations per millisecond, and nanoseconds per operation;
    zero when there is no target. *)
Definition throttle_rate (p : P) (threadCount : Z) : float64 * Z :=
  let v := GetInt64 p prop.Target 0 in
  let targetPerThreadPerms :=
    if 0 <? v then f64_div (f64_div (f64_of_Z v) (f64_of_Z threadCount)) (f64_of_Z 1000)
    else f64_of_Z (-1) in
  if f64_ltb f64_zero targetPerThreadPerms
  then (targetPerThreadPerms, f64_to_int64 (f64_div (f64_of_Z 1000000) targetPerThreadPerms))
  else (f64_zero, 0).

Definition newWorker (p : P) (threadID threadCount : Z) : res worker :=
  let batch := GetInt p prop.BatchSize prop.DefaultBatchSize in
  let total := totalOpCount p in
  if total <? threadCount then Exit "totalOpCount should be bigger than threadCount"
  else if threadCount =? 0 then Panic "integer divide by zero"
  else
    let share := Z.quot total threadCount in
    let opCount := if threadID <? Z.rem total threadCount then share +! 1 else share in
    Ok {| doTransactions := GetBool p prop.DoTransactions true;
          doBatch := 1 <? batch;
          batchSize := batch;
          opCount := opCount;
          targetOpsPerMs := (throttle_rate p threadCount).1;
          threadID := threadID;
          targetOpsTickNs := (throttle_rate p threadCount).2;
          opsDone := 0 |}.

(** ** The worker's loop *)

(** What one round sees: [measurement.IsWarmUpFinished()], the clock in [throttle], and
    whether the context is done at the end of the round. *)
Record tick := { warm : bool; at_ : Z; done_ : bool }.

(** [InitThread]/[CleanupThread] of the workload and of the database, and the
    operations. *)
Record Workload (S : Type) := {
  wl_InitThread : Z → Z → M S unit;
  wl_CleanupThread : M S unit;
  wl_DoInsert : M S (option error);
  wl_DoBatchInsert : Z → M S (option error);
  wl_DoTransaction : M S (option error);
  wl_DoBatchTransaction : Z → M S (option error)
}.
Arguments wl_InitThread {S} _ _ _.
Arguments wl_CleanupThread {S} _.
Arguments wl_DoInsert {S} _.
Arguments wl_DoBatchInsert {S} _ _.
Arguments wl_DoTransaction {S} _.
Arguments wl_DoBatchTransaction {S} _ _.

(** [Time.Sub] gives the nearest duration. *)
Definition saturate64 (z : Z) : Z := Z.max min_int64 (Z.min max_int64 z).

(** The pause of [throttle]: [None] when it returns at once. *)
Definition throttle (w : worker) (startTime now : Z) : option Z :=
  if f64_leb (targetOpsPerMs w) f64_zero then None
  else
    let d := saturate64 (startTime + (opsDone w *! targetOpsTickNs w) - now) in
    if d <? 0 then None else Some d.

Section run.
Context {S : Type} (wl : Workload S).

Definition work (w : worker) : M S (option error) :=
  if doTransactions w then
    if doBatch w then wl_DoBatchTransaction wl (batchSize w) else wl_DoTransaction wl
  else
    if doBatch w then wl_DoBatchInsert wl (batchSize w) else wl_DoInsert wl.

Definition opsCount (w : worker) : Z := if doBatch w then batchSize w else 1.

Definition add_ops (w : worker) (n : Z) : worker := {|
  doTransactions := doTransactions w; doBatch := doBatch w; batchSize := batchSize w;
  opCount := opCount w; targetOpsPerMs := targetOpsPerMs w; threadID := threadID w;
  targetOpsTickNs := targetOpsTickNs w; opsDone := opsDone w +! n |}.

(** [for w.opCount == 0 || w.opsDone < w.opCount]; errors are only printed.  The result
    has, for every operation made, its error and the pause after it. *)
Fixpoint run_loop (script : list tick) (startTime : Z) (w : worker)
    : M S (worker * list (option error * option Z)) :=
  if (opCount w =? 0) || (opsDone w <? opCount w) then
    match script with
    | [] => stuck
    | t :: script =>
        err ← work w;
        let w := if warm t then add_ops w (opsCount w) else w in
        let pause := if warm t then throttle w startTime (at_ t) else None in
        if done_ t then mret (w, [(err, pause)])
        else '(w, log) ← run_loop script startTime w; mret (w, (err, pause) :: log)
    end
  else mret (w, []).

(** The pause that spreads the workers out draws from the global random source. *)
Definition spread (w : worker) : M rand Z :=
  if f64_ltb f64_zero (targetOpsPerMs w) && f64_leb (targetOpsPerMs w) f64_one
  then Int63n (targetOpsTickNs w) else mret 0.

(** One goroutine: its draw of the global source, its start time and its rounds. *)
Record thread_script := { ts_rand : rand; ts_start : Z; ts_ticks : list tick }.

Definition worker_run (ts : thread_script) (w : worker)
    : M S (worker * list (option error * option Z)) :=
  _ ← lift (spread w (ts_rand ts));
  run_loop (ts_ticks ts) (ts_start ts) w.

(** ** The client *)

Fixpoint run_workers (p : P) (threadCount : Z) (ids : list Z) (scripts : list thread_script)
    : M S (list (worker * list (option error * option Z))) :=
  match ids, scripts with
  | [], _ => mret []
  | _ :: _, [] => stuck
  | i :: ids, ts :: scripts =>
      w ← lift (newWorker p i threadCount);
      _ ← wl_InitThread wl i threadCount;
      r ← worker_run ts w;
      _ ← wl_CleanupThread wl;
      rs ← run_workers p threadCount ids scripts;
      mret (r :: rs)
  end.

(** Whether the table is analyzed at the end. *)
Definition analyzes (p : P) : bool := negb (GetBool p prop.DoTransactions true).

(** The period of the ticker of summaries, [time.Duration(dur) * time.Second]. *)
Definition ticker_period (p : P) : Z := GetInt64 p prop.LogInterval 10 *! 1000000000.

(** [time.NewTicker] panics in the measuring goroutine, which ends the process; only a run
    of transactions [cancelled] before its warm-up was over does not come to it. *)
Definition ticker_panics (p : P) (cancelled : bool) : bool :=
  negb (GetBool p prop.DoTransactions true && cancelled) && (ticker_period p <=? 0).

(** The panic of the other goroutine is put where [Client.Run] waits for it. *)
Definition Client_Run (p : P) (cancelled : bool) (scripts : list thread_script) (analyze : string → M S (option error))
    : M S (list (worker * list (option error * option Z))) :=
  let threadCount := GetInt p prop.ThreadCount 1 in
  if threadCount <? 0 then panic "sync: negative WaitGroup counter"
  else
    rs ← run_workers p threadCount (seqZ 0 threadCount) scripts;
    _ ← (if analyzes p then analyze (GetString p prop.TableName prop.TableNameDefault) else mret None);
    if ticker_panics p cancelled then panic "non-positive interval for NewTicker"
    else mret rs.

End run.
End client.

Arguments wl_InitThread {S} _ _ _.
Arguments wl_CleanupThread {S} _.
Arguments wl_DoInsert {S} _.
Arguments wl_DoBatchInsert {S} _ _.
Arguments wl_DoTransaction {S} _.
Arguments wl_DoBatchTransaction {S} _ _.

(** ** Dividing the work *)

Section partition.
Context {P : Type} `{Properties P}.
Implicit Types (p : P).

(** The share of worker [i] of [n]. *)
Definition share (total n i : Z) : Z := total ÷ n + (if i <? Z.rem total n then 1 else 0).

Lemma share_bounds total n i : 0 < n <= total → 0 <= i → 1 <= share total n i <= total.
Proof.
  intros Hn Hi. unfold share. pose proof (Z.quot_rem' total n) as Hq.
  pose proof (Z.rem_bound_pos total n ltac:(lia) ltac:(lia)) as Hr.
  assert (1 <= total ÷ n) by (apply Z.quot_le_lower_bound; lia).
  assert (0 <= (n - 1) * (total ÷ n)) by nia.
  destruct (Z.ltb_spec i (Z.rem total n)); lia.
Qed.

Lemma sum_shares total n k :
  0 < n <= total → Z.of_nat k <= n →
  foldr Z.add 0 (share total n <$> seqZ 0 (Z.of_nat k)) =
    Z.of_nat k * (total ÷ n) + Z.min (Z.of_nat k) (Z.rem total n).
Proof.
  intros Hn. pose proof (Z.rem_bound_pos total n ltac:(lia) ltac:(lia)) as Hr.
  induction k as [|k IH]; intros Hk; [simpl; lia|].
  rewrite seqZ_S, fmap_app, foldr_app. simpl.
  assert (Ha : ∀ l x, foldr Z.add x l = foldr Z.add 0 l + x).
  { induction l as [|y l IHl]; intros x; simpl; [lia|]. rewrite IHl. lia. }
  rewrite Ha, IH by lia. unfold share. rewrite Nat2Z.inj_succ, Z.mul_succ_l, Z.add_0_l. destruct (Z.ltb_spec (Z.of_nat k) (Z.rem total n)); lia.
Qed.

Lemma sum_of_shares total n : 0 < n <= total → foldr Z.add 0 (share total n <$> seqZ 0 n) = total.
Proof.
  intros Hn. pose proof (sum_shares total n (Z.to_nat n) Hn ltac:(lia)) as E. rewrite Z2Nat.id in E by lia. rewrite E.
  pose proof (Z.quot_rem' total n) as Hq. pose proof (Z.rem_bound_pos total n ltac:(lia) ltac:(lia)). rewrite Z.min_r by lia.
  symmetry. exact Hq.
Qed.

Lemma newWorker_share p n i :
  0 < n <= totalOpCount p → totalOpCount p <= max_int64 → 0 <= i →
  ∃ w, newWorker p i n = Ok w ∧ opCount w = share (totalOpCount p) n i ∧ opsDone w = 0 ∧
       batchSize w = GetInt p prop.BatchSize prop.DefaultBatchSize ∧
       doBatch w = (1 <? GetInt p prop.BatchSize prop.DefaultBatchSize) ∧
       targetOpsPerMs w = (throttle_rate p n).1.
Proof.
  intros Hn Hm Hi. pose proof (share_bounds (totalOpCount p) n i Hn Hi) as Hs.
  unfold newWorker. destruct (Z.ltb_spec (totalOpCount p) n); [lia|].
  destruct (Z.eqb_spec n 0); [lia|]. eexists. split; [done|]. simpl. split; [|done].
  unfold share in *. case_match; [apply wrap64_id; width|lia].
Qed.

(** C27: The operations are divided exactly.  For any positive number of threads not
    above the total, every thread gets a worker; the workers' operation counts add up
    to the configured total, no two differ by more than one, and none is zero (so no
    worker runs in the unlimited mode of a zero count). *)
Theorem work_partition p n :
  0 < n <= totalOpCount p → totalOpCount p <= max_int64 →
  ∃ ws, Forall2 (λ i w, newWorker p i n = Ok w ∧ opsDone w = 0) (seqZ 0 n) ws ∧
    foldr Z.add 0 (opCount <$> ws) = totalOpCount p ∧
    (∀ w w', w ∈ ws → w' ∈ ws → Z.abs (opCount w - opCount w') <= 1) ∧
    (∀ w, w ∈ ws → 1 <= opCount w).
Proof.
  intros Hn Hm. set (f i := match newWorker p i n with Ok w => w | _ =>
    {| doTransactions := false; doBatch := false; batchSize := 0; opCount := 0; targetOpsPerMs := f64_zero;
       threadID := 0; targetOpsTickNs := 0; opsDone := 0 |} end).
  assert (Hf : ∀ i, 0 <= i → newWorker p i n = Ok (f i) ∧ opCount (f i) = share (totalOpCount p) n i ∧ opsDone (f i) = 0).
  { intros i Hi. destruct (newWorker_share p n i Hn Hm Hi) as (w & E & ? & ? & _). unfold f. by rewrite E. }
  exists (f <$> seqZ 0 n). split; [|split; [|split]].
  - apply list.Forall2_fmap_r, list.Forall_Forall2_diag, list.Forall_forall. intros i [Hi _]%elem_of_seqZ.
    destruct (Hf i Hi) as (? & _ & ?). done.
  - rewrite <- list_fmap_compose. rewrite (list_fmap_ext _ (share (totalOpCount p) n)).
    + by apply sum_of_shares.
    + intros ? i [Hi _]%list_elem_of_lookup_2%elem_of_seqZ. by apply Hf.
  - intros w w' (i & -> & [Hi _]%elem_of_seqZ)%list_elem_of_fmap (j & -> & [Hj _]%elem_of_seqZ)%list_elem_of_fmap.
    rewrite (proj1 (proj2 (Hf i Hi))), (proj1 (proj2 (Hf j Hj))). unfold share. repeat case_match; lia.
  - intros w (i & -> & [Hi _]%elem_of_seqZ)%list_elem_of_fmap. rewrite (proj1 (proj2 (Hf i Hi))).
    by apply share_bounds.
Qed.
End partition.

Definition ex_client_props (transactions : bool) : ref_props :=
  [("operationcount", "7"); ("recordcount", "7"); ("threadcount", "3");
   ("dotransactions", if transactions then "true" else "false")].

Lemma work_partition_witness :
  ∃ ws, Forall2 (λ i w, newWorker (ex_client_props true) i 3 = Ok w ∧ opsDone w = 0) (seqZ 0 3) ws ∧
    foldr Z.add 0 (opCount <$> ws) = totalOpCount (ex_client_props true) ∧
    (∀ w w', w ∈ ws → w' ∈ ws → Z.abs (opCount w - opCount w') <= 1) ∧
    (∀ w, w ∈ ws → 1 <= opCount w).
Proof. apply (work_partition (ex_client_props true) 3); vm_compute; [split; [done|discriminate]|discriminate]. Defined.

(** ** Running *)

Section running.
Context {P : Type} `{Properties P} {S : Type} (wl : Workload S).

(** [I k s] holds of the shared state after [k] operations of the workload; every
    operation returns, with or without an error, and keeps the invariant. *)
Context (I : Z → S → Prop).

Definition returns {A} (d : Z) (m : M S A) : Prop :=
  ∀ k s, I k s → ∃ x s', m s = Ok (x, s') ∧ I (k + d) s'.

(** What the client relies on of a workload. *)
Record workload_ok (p : P) : Prop := {
  tot_init : ∀ i n, returns 0 (wl_InitThread wl i n);
  tot_cleanup : returns 0 (wl_CleanupThread wl);
  tot_work : ∀ w, doTransactions w = GetBool p prop.DoTransactions true →
    batchSize w = GetInt p prop.BatchSize prop.DefaultBatchSize →
    doBatch w = (1 <? batchSize w) → returns 1 (work wl w)
}.

(** A round outside warm-up in which the context stays alive. *)
Definition steady (t : tick) : Prop := warm t = true ∧ done_ t = false.

(** Rounds left to a worker. *)
Definition rounds (w : worker) : Z := (opCount w - opsDone w + opsCount w - 1) / opsCount w.

Lemma run_loop_complete script start w k s :
  (∀ n, returns 1 (work wl (add_ops w n))) → returns 1 (work wl w) → I k s →
  Forall steady script → 0 < opCount w → 0 <= opsDone w → 0 < opsCount w →
  opCount w + opsCount w <= max_int64 → opsDone w < opCount w + opsCount w →
  rounds w <= Z.of_nat (length script) →
  ∃ w' log s', run_loop wl script start w s = Ok ((w', log), s') ∧
    opCount w <= opsDone w' ∧ opsDone w' < opCount w + opsCount w ∧
    Z.of_nat (length log) * opsCount w = opsDone w' - opsDone w ∧
    I (k + Z.of_nat (length log)) s'.
Proof.
  intros Ha Hw HI Hst. revert w k s Ha Hw HI.
  induction Hst as [|t script [Ht Hd] _ IH]; intros w k s Ha Hw HI Hc Hd0 Hk Hm Hlt Hr.
  - assert (opCount w <= opsDone w).
    { unfold rounds in Hr. simpl in Hr. Z.div_mod_to_equations. nia. }
    exists w, [], s. cbn [run_loop]. destruct (Z.eqb_spec (opCount w) 0); [lia|].
    destruct (Z.ltb_spec (opsDone w) (opCount w)); [lia|]. simpl. rewrite Z.add_0_r. split_and!; first [done|lia].
  - cbn [run_loop]. destruct (Z.eqb_spec (opCount w) 0); [lia|].
    destruct (Z.ltb_spec (opsDone w) (opCount w)); simpl.
    2: { exists w, [], s. simpl. rewrite Z.add_0_r. split_and!; first [done|lia]. }
    destruct (Hw k s HI) as (err & s1 & E & HI1). rewrite (bind_Ok_1 _ _ _ _ _ E), Ht, Hd.
    assert (Hdone : opsDone (add_ops w (opsCount w)) = opsDone w + opsCount w).
    { simpl. apply wrap64_id. width. }
    assert (Hoc : opsCount (add_ops w (opsCount w)) = opsCount w) by done.
    destruct (IH (add_ops w (opsCount w)) (k + 1) s1) as (w' & log & s' & E' & Hle & Hub & Hl & HI').
    { intros a. exact (Ha a). } { exact (Ha (opsCount w)). } { done. }
    { done. } { lia. } { done. } { done. } { rewrite Hdone, Hoc. simpl. lia. }
    { unfold rounds in *. rewrite Hdone, Hoc. cbn [opCount add_ops].
      replace (opCount w - (opsDone w + opsCount w) + opsCount w - 1)
        with (opCount w - opsDone w + opsCount w - 1 + (-1) * opsCount w) by lia.
      rewrite Z_div_plus_full by lia. simpl in Hr. lia. }
    rewrite (bind_Ok_1 _ _ _ _ _ E'). eexists _, _, _. split; [done|].
    rewrite Hoc in *. cbn [opCount add_ops] in *. cbn [length].
    replace (k + Z.of_nat (Datatypes.S (length log))) with (k + 1 + Z.of_nat (length log)) by lia.
    split; [lia|split; [lia|split; [lia|done]]].
Qed.

(** Rounds before the warm-up was over. *)
Fixpoint cold (l : list tick) : nat := match l with [] => 0%nat | t :: l => if warm t then 0%nat else Datatypes.S (cold l) end.

Definition opening (t : tick) : Prop := warm t = false ∧ done_ t = false.

Lemma cold_split l : Forall (λ t, done_ t = false) l → Forall opening (take (cold l) l).
Proof.
  induction 1 as [|t l Ht _ IH]; [done|]. cbn [cold]. destruct (warm t) eqn:Hw; [done|]. constructor; [by split|done].
Qed.

(** The rounds before the warm-up is over are made and not counted. *)
Lemma run_loop_cold script hot start w k s :
  returns 1 (work wl w) → I k s → Forall opening script → opsDone w < opCount w →
  ∃ log s1, length log = length script ∧ I (k + Z.of_nat (length script)) s1 ∧
    run_loop wl (script ++ hot) start w s = ('(w, l) ← run_loop wl hot start w; mret (w, log ++ l)) s1.
Proof.
  intros Hw HI Hs Hlt. revert k s HI. induction Hs as [|t script [Ht Hd] _ IH]; intros k s HI.
  - exists [], s. rewrite Z.add_0_r. split; [done|]. split; [done|]. cbn [app]. unfold mbind, M_bind.
    by destruct (run_loop wl hot start w s) as [[[w' l] s']|?|?|].
  - destruct (Hw k s HI) as (err & s1 & E & HI1). destruct (IH (k + 1) s1 HI1) as (log & s2 & Hl & HI2 & E2).
    exists ((err, None) :: log), s2. split; [cbn [length]; by rewrite Hl|].
    split; [cbn [length]; replace (k + Z.of_nat (Datatypes.S (length script))) with (k + 1 + Z.of_nat (length script)) by lia; done|].
    cbn [app run_loop]. rewrite (proj2 (Z.ltb_lt (opsDone w) (opCount w)) Hlt), orb_true_r.
    rewrite (bind_Ok_1 _ _ _ _ _ E), Ht, Hd. unfold mbind at 1, M_bind at 1. rewrite E2. unfold mbind, M_bind.
    by destruct (run_loop wl hot start w s2) as [[[w' l] s']|?|?|].
Qed.

(** A goroutine that is not cancelled, sees the end of the warm-up once, makes rounds
    enough for its share, and whose first pause can be drawn. *)
Record ample (p : P) (n i : Z) (ts : thread_script) : Prop := {
  am_alive : Forall (λ t, done_ t = false) (ts_ticks ts);
  am_warm : Forall steady (drop (cold (ts_ticks ts)) (ts_ticks ts));
  am_enough : totalOpCount p <= Z.of_nat (length (drop (cold (ts_ticks ts)) (ts_ticks ts)));
  am_pause : ∀ w, newWorker p i n = Ok w → ∃ d, spread w (ts_rand ts) = Ok d
}.

(** Operations in one round. *)
Definition per_round (p : P) : Z := Z.max 1 (GetInt p prop.BatchSize prop.DefaultBatchSize).

(** The rounds goroutine [i] of [n] makes: those before the warm-up is over, and as many as
    its share of the operations needs. *)
Definition rounds_of (p : P) (n i : Z) (ts : thread_script) : Z :=
  Z.of_nat (cold (ts_ticks ts)) + (share (totalOpCount p) n i + per_round p - 1) / per_round p.

(** The calls of the workload made by all workers. *)
Definition ops_of (rs : list (worker * list (option error * option Z))) : Z :=
  foldr Z.add 0 ((λ r, Z.of_nat (length r.2)) <$> rs).

Lemma newWorker_work (p : P) i n w a :
  workload_ok p → newWorker p i n = Ok w → returns 1 (work wl w) ∧ returns 1 (work wl (add_ops w a)).
Proof.
  intros Hok. unfold newWorker. repeat case_match; try done; intros [= <-];
    (split; apply (tot_work p Hok); done).
Qed.

Lemma worker_run_complete (p : P) n i ts k s :
  workload_ok p → 0 < n <= totalOpCount p → totalOpCount p + per_round p <= max_int64 → 0 <= i →
  ample p n i ts → I k s →
  ∃ w w' log s', newWorker p i n = Ok w ∧ worker_run wl ts w s = Ok ((w', log), s') ∧
    Z.of_nat (length log) = rounds_of p n i ts ∧ I (k + Z.of_nat (length log)) s'.
Proof.
  intros Hok Hn Hm Hi [Ha Hst Hl Hp] HI. unfold rounds_of.
  assert (Hb : 1 <= per_round p) by (unfold per_round; lia).
  destruct (newWorker_share p n i Hn ltac:(lia) Hi) as (w & Ew & Hc & Hd & Hbs & Hdb & _).
  pose proof (share_bounds (totalOpCount p) n i Hn Hi) as Hsb. destruct (Hp w Ew) as ([d r] & Hsp).
  assert (Hk : opsCount w = per_round p).
  { unfold opsCount, per_round. rewrite Hdb, Hbs. destruct (Z.ltb_spec 1 (GetInt p prop.BatchSize prop.DefaultBatchSize)); lia. }
  destruct (run_loop_cold (take (cold (ts_ticks ts)) (ts_ticks ts)) (drop (cold (ts_ticks ts)) (ts_ticks ts)) (ts_start ts) w k s)
    as (log1 & s1 & Hlen1 & HI1 & E1); [by apply (newWorker_work p i n w 0 Hok Ew)|done|by apply cold_split|lia|].
  destruct (run_loop_complete (drop (cold (ts_ticks ts)) (ts_ticks ts)) (ts_start ts) w (k + Z.of_nat (length log1)) s1)
    as (w' & log & s2 & E & Hle & Hub & Hlog & HI2); rewrite ?Hk, ?Hc, ?Hd, ?Hlen1; try lia; try done.
  { intros a. by apply (newWorker_work p i n w a Hok Ew). }
  { by apply (newWorker_work p i n w 0 Hok Ew). }
  { unfold rounds. rewrite Hk, Hc, Hd. etrans; [|exact Hl]. apply Z.div_le_upper_bound; [lia|]. nia. }
  exists w, w', (log1 ++ log), s2. split; [done|]. unfold worker_run.
  rewrite (bind_Ok_1 _ _ s (d, r) s) by (by rewrite Hsp).
  rewrite <- (take_drop (cold (ts_ticks ts)) (ts_ticks ts)) at 1. rewrite E1, (bind_Ok_1 _ _ _ _ _ E). split; [done|].
  rewrite Hk, Hc, Hd in *. rewrite length_app, Nat2Z.inj_add, Z.add_assoc. split; [|done]. rewrite Hlen1, length_take.
  assert (cold (ts_ticks ts) <= length (ts_ticks ts))%nat as Hcl by (clear; induction (ts_ticks ts) as [|t l IH]; cbn; [lia|case_match; lia]).
  rewrite Nat.min_l by done. f_equal. rewrite Z.sub_0_r in Hlog. apply (Z.div_unique_pos _ _ _ (share (totalOpCount p) n i + per_round p - 1 - opsDone w')); lia.
Qed.

Lemma run_workers_complete (p : P) n ids scripts k s :
  workload_ok p → 0 < n <= totalOpCount p → totalOpCount p + per_round p <= max_int64 →
  Forall2 (λ i ts, 0 <= i ∧ ample p n i ts) ids scripts → I k s →
  ∃ rs s', run_workers wl p n ids scripts s = Ok (rs, s') ∧
    (λ r, Z.of_nat (length r.2)) <$> rs = zip_with (rounds_of p n) ids scripts ∧ I (k + ops_of rs) s'.
Proof.
  intros Hok Hn Hm Hs. revert k s.
  induction Hs as [|i ts ids scripts [Hi Hts] _ IH]; intros k s HI.
  { exists [], s. split; [done|split; [done|]]. simpl. by rewrite Z.add_0_r. }
  cbn [run_workers]. destruct (tot_init p Hok i n k s HI) as (u & s0 & E0 & HI0). rewrite Z.add_0_r in HI0.
  destruct (worker_run_complete p n i ts k s0 Hok Hn Hm Hi Hts HI0) as (w & w' & log & s1 & Ew & E1 & Hlog & HI1).
  rewrite (bind_Ok_1 _ _ s w s) by (by rewrite Ew). rewrite (bind_Ok_1 _ _ _ _ _ E0), (bind_Ok_1 _ _ _ _ _ E1).
  destruct (tot_cleanup p Hok _ s1 HI1) as (u' & s2 & E2 & HI2). rewrite Z.add_0_r in HI2.
  rewrite (bind_Ok_1 _ _ _ _ _ E2).
  destruct (IH _ s2 HI2) as (rs & s3 & Ers & Hsum & HI3).
  rewrite (bind_Ok_1 _ _ _ _ _ Ers). eexists _, _. split; [done|].
  unfold ops_of in *. rewrite !fmap_cons. cbn [foldr snd zip_with]. split; [by rewrite Hlog, Hsum|by rewrite Z.add_assoc].
Qed.

(** The scripts of the goroutines of a run. *)
Definition all_ample (p : P) (scripts : list thread_script) : Prop :=
  Forall2 (ample p (GetInt p prop.ThreadCount 1)) (seqZ 0 (GetInt p prop.ThreadCount 1)) scripts.

(** The rounds of a run before its warm-up is over. *)
Definition cold_rounds (scripts : list thread_script) : Z :=
  foldr Z.add 0 ((λ ts, Z.of_nat (cold (ts_ticks ts))) <$> scripts).

Lemma cold_rounds_nonneg scripts : 0 <= cold_rounds scripts.
Proof. unfold cold_rounds. induction scripts as [|ts scripts IH]; [done|]. rewrite fmap_cons. cbn [foldr]. lia. Qed.

Lemma single_rounds (p : P) n ids scripts :
  per_round p = 1 → length ids = length scripts →
  foldr Z.add 0 (zip_with (rounds_of p n) ids scripts) = foldr Z.add 0 (share (totalOpCount p) n <$> ids) + cold_rounds scripts.
Proof.
  intros Hb. revert scripts. induction ids as [|i ids IH]; intros [|ts scripts] Hl; try done. cbn [zip_with foldr].
  unfold cold_rounds in *. rewrite !fmap_cons. cbn [foldr]. rewrite IH by (cbn in Hl; lia).
  unfold rounds_of. rewrite Hb, Z.div_1_r. lia.
Qed.

Lemma Client_Run_complete (p : P) cancelled scripts analyze s :
  workload_ok p → 0 < GetInt p prop.ThreadCount 1 <= totalOpCount p → totalOpCount p + per_round p <= max_int64 →
  all_ample p scripts → (∀ t, returns 0 (analyze t)) → I 0 s →
  ∃ rs s', Client_Run wl p cancelled scripts analyze s =
      (if ticker_panics p cancelled then Panic "non-positive interval for NewTicker" else Ok (rs, s')) ∧ I (ops_of rs) s' ∧
    (λ r, Z.of_nat (length r.2)) <$> rs =
      zip_with (rounds_of p (GetInt p prop.ThreadCount 1)) (seqZ 0 (GetInt p prop.ThreadCount 1)) scripts ∧
    (per_round p = 1 → ops_of rs = totalOpCount p + cold_rounds scripts).
Proof.
  intros Hok Hn Hm Hsc Han HI. unfold Client_Run.
  destruct (Z.ltb_spec (GetInt p prop.ThreadCount 1) 0); [lia|].
  destruct (run_workers_complete p (GetInt p prop.ThreadCount 1)
    (seqZ 0 (GetInt p prop.ThreadCount 1)) scripts 0 s Hok Hn Hm) as (rs & s1 & E & Hsum & HI1); [|done|].
  { apply list.Forall2_same_length_lookup_2; [by eapply list.Forall2_length|]. intros j i ts Hi Hts.
    split; [apply list_elem_of_lookup_2, elem_of_seqZ in Hi; lia|by eapply list.Forall2_lookup_lr]. }
  rewrite Z.add_0_l in HI1. rewrite (bind_Ok_1 _ _ _ _ _ E).
  assert (∃ r s2, (if analyzes p then analyze (GetString p prop.TableName prop.TableNameDefault)
                   else mret None) s1 = Ok (r, s2) ∧ I (ops_of rs) s2) as (r & s2 & E2 & HI2).
  { destruct (analyzes p); [|by eexists _, _].
    destruct (Han (GetString p prop.TableName prop.TableNameDefault) _ _ HI1) as (r & s2 & E2 & HI2).
    rewrite Z.add_0_r in HI2. by exists r, s2. }
  rewrite (bind_Ok_1 _ _ _ _ _ E2). exists rs, s2. split; [by destruct (ticker_panics p cancelled)|]. do 2 (split; [done|]). intros Hb.
  unfold ops_of. rewrite Hsum, single_rounds by (done || by eapply list.Forall2_length).
  f_equal. apply sum_of_shares; lia.
Qed.

(** A worker completes its operations: if the operations return and the run is not
    cancelled, the loop ends after finitely many rounds, with or without errors in
    between, once the operations done reach the worker's count; in batch mode it may
    go beyond it, by less than one batch. *)
Lemma worker_completes script start w k s :
  (∀ n, returns 1 (work wl (add_ops w n))) → returns 1 (work wl w) → I k s →
  Forall steady script → 0 < opCount w → opsDone w = 0 → 0 < opsCount w →
  opCount w + opsCount w <= max_int64 →
  (opCount w + opsCount w - 1) / opsCount w <= Z.of_nat (length script) →
  ∃ w' log s', run_loop wl script start w s = Ok ((w', log), s') ∧
    opCount w <= opsDone w' < opCount w + opsCount w ∧
    Z.of_nat (length log) * opsCount w = opsDone w'.
Proof.
  intros Ha Hw HI Hst Hc Hd Hk Hm Hr.
  destruct (run_loop_complete script start w k s Ha Hw HI Hst Hc) as (w' & log & s' & E & ? & ? & ? & _); try lia.
  { unfold rounds. rewrite Hd, Z.sub_0_r. done. }
  exists w', log, s'. split; [done|lia].
Qed.

(** C10: The calls a run makes, for at least one thread, and without cancellation.  With
    fewer operations than threads the process exits.  A measurement interval that is no
    valid period makes it panic.  Else the run ends, whatever errors the operations
    return, throttled or not: every worker makes one call of the workload per round, the
    rounds before the warm-up was over, which are not counted, and then as many as its
    share of the configured operations takes, rounded up to whole batches.  Without
    batches the calls of all workers are therefore the configured number of operations and
    those of the warm-up. *)
Theorem client_performs_total (p : P) cancelled scripts analyze s :
  workload_ok p → 0 < GetInt p prop.ThreadCount 1 → totalOpCount p + per_round p <= max_int64 →
  all_ample p scripts → (∀ t, returns 0 (analyze t)) → I 0 s →
  if totalOpCount p <? GetInt p prop.ThreadCount 1
  then Client_Run wl p cancelled scripts analyze s = Exit "totalOpCount should be bigger than threadCount"
  else if ticker_panics p cancelled
  then Client_Run wl p cancelled scripts analyze s = Panic "non-positive interval for NewTicker"
  else ∃ rs s', Client_Run wl p cancelled scripts analyze s = Ok (rs, s') ∧ I (ops_of rs) s' ∧
    (λ r, Z.of_nat (length r.2)) <$> rs =
      zip_with (rounds_of p (GetInt p prop.ThreadCount 1)) (seqZ 0 (GetInt p prop.ThreadCount 1)) scripts ∧
    (per_round p = 1 → ops_of rs = totalOpCount p + cold_rounds scripts).
Proof.
  intros Hok Hn Hm Hsc Han HI. destruct (Z.ltb_spec (totalOpCount p) (GetInt p prop.ThreadCount 1)) as [Hlt|Hle].
  - unfold Client_Run. destruct (Z.ltb_spec (GetInt p prop.ThreadCount 1) 0); [lia|]. unfold all_ample in Hsc.
    rewrite seqZ_cons in Hsc |- * by lia. apply list.Forall2_cons_inv_l in Hsc as (ts & scripts' & _ & _ & ->).
    cbn [run_workers]. unfold newWorker. by rewrite (proj2 (Z.ltb_lt _ _) Hlt).
  - destruct (Client_Run_complete p cancelled scripts analyze s Hok ltac:(lia) Hm Hsc Han HI) as (rs & s' & E & Hr).
    destruct (ticker_panics p cancelled); [exact E|]. by exists rs, s'.
Qed.
End running.

(** A workload that counts its operations and fails every one. *)
Definition counting : Workload Z := {|
  wl_InitThread _ _ := mret tt; wl_CleanupThread := mret tt;
  wl_DoInsert := λ n, Ok (Some "refused", n + 1);
  wl_DoBatchInsert _ := λ n, Ok (Some "refused", n + 1);
  wl_DoTransaction := λ n, Ok (Some "refused", n + 1);
  wl_DoBatchTransaction _ := λ n, Ok (Some "refused", n + 1) |}.

Lemma counting_work w : returns (λ k n : Z, n = k) 1 (work counting w).
Proof. intros k n ->. unfold work. repeat case_match; by eexists _, _. Qed.

(** A goroutine with [c] rounds in the warm-up and [n] after it. *)
Definition quiet (c n : nat) : thread_script := {|
  ts_rand := []; ts_start := 0;
  ts_ticks := replicate c {| warm := false; at_ := 0; done_ := false |} ++ replicate n {| warm := true; at_ := 0; done_ := false |} |}.

Lemma quiet_cold c n : cold (ts_ticks (quiet c n)) = c.
Proof. induction c as [|c IH]; [by destruct n|]. cbn [quiet ts_ticks replicate app cold warm]. by f_equal. Qed.

Lemma no_target_pause {P} `{Properties P} (p : P) i n w r :
  GetInt64 p prop.Target 0 <= 0 → newWorker p i n = Ok w → spread w r = Ok (0, r).
Proof.
  intros Ht E. assert (targetOpsPerMs w = f64_zero) as Hw; [|unfold spread; by rewrite Hw].
  unfold newWorker in E. destruct (totalOpCount p <? n); [done|]. destruct (n =? 0); [done|]. injection E as <-. cbn. unfold throttle_rate.
  by destruct (Z.ltb_spec 0 (GetInt64 p prop.Target 0)); [lia|].
Qed.

Lemma quiet_ample {P} `{Properties P} (p : P) n i c k :
  GetInt64 p prop.Target 0 <= 0 → totalOpCount p <= Z.of_nat k → ample p n i (quiet c k).
Proof.
  intros Ht Hk. split; rewrite ?quiet_cold.
  - apply list.Forall_app_2; by apply list.Forall_replicate.
  - cbn [quiet ts_ticks]. rewrite drop_app_length' by by rewrite length_replicate. by apply list.Forall_replicate.
  - cbn [quiet ts_ticks]. rewrite drop_app_length' by by rewrite length_replicate. by rewrite length_replicate.
  - intros w Hw. eexists. by apply (no_target_pause p i n).
Qed.

(** Two calls of the first worker come too early to be counted. *)
Lemma client_performs_total_witness :
  ∃ rs s', Client_Run counting (ex_client_props true) false [quiet 2 7; quiet 0 7; quiet 0 7] (λ _, mret None) 0 = Ok (rs, s') ∧
    ops_of rs = 7 + 2 ∧ s' = ops_of rs.
Proof.
  destruct (client_performs_total counting (λ k n : Z, n = k) (ex_client_props true) false
    [quiet 2 7; quiet 0 7; quiet 0 7] (λ _, mret None) 0) as (rs & s' & E & HI & _ & Hops).
  - split; [intros i n k s ->; eexists _, _; split; [done|lia]|intros k s ->; eexists _, _; split; [done|lia]|].
    intros w _ _ _. apply counting_work.
  - by vm_compute.
  - vm_compute. discriminate.
  - unfold all_ample. change (seqZ 0 (GetInt (ex_client_props true) prop.ThreadCount 1)) with [0; 1; 2].
    repeat (apply list.Forall2_cons_2; [apply quiet_ample; vm_compute; discriminate|]). constructor.
  - intros t k s ->. eexists _, _. split; [done|lia].
  - done.
  - exists rs, s'. split; [exact E|]. split; [apply Hops; reflexivity|exact HI].
Defined.
