(* ===== verification/System.v ===== *)
(** * The load phase, end to end

    The core workload as the client's workload ([core_workload]), run by [Client_Run]
    against a database that keeps what it is given ([LoadDB], the contract of
    [ycsb.DB.Insert] the workload relies on). *)

From S2P Require Import Prelude GoFloat GoRand GoStr Hash Props Row Generators AckCounter.
From S2P Require Import Zipfian Util Ycsb Core CoreSpec Client.

(** What the load phase needs of a database: an insert succeeds and makes the record
    readable under its key, the other calls leave the records alone. *)
Class LoadDB {D : Type} (db : DB D) (view : D → gmap string row) : Prop := {
  load_insert : ∀ t k v e, ∃ e', Insert db t k v e = Ok (None, e') ∧
    view (env_db e') = <[k := v]> (view (env_db e)) ∧ env_polls e' = env_polls e;
  load_init : ∀ i n e, ∃ e', InitThread db i n e = Ok (tt, e') ∧
    view (env_db e') = view (env_db e) ∧ env_polls e' = env_polls e;
  load_cleanup : ∀ e, ∃ e', CleanupThread db e = Ok (tt, e') ∧
    view (env_db e') = view (env_db e) ∧ env_polls e' = env_polls e
}.

Section system.
Context {P : Type} `{Properties P} `{MathLib} {D : Type}.

(** One worker's view of the workload: [state] is what [InitThread] made. *)
Definition core_workload (c : core P) (state : coreState) (db : DB D) : Workload (World D) := {|
  wl_InitThread i n := in_env (InitThread db i n);
  wl_CleanupThread := in_env (CleanupThread db);
  wl_DoInsert := DoInsert c state db;
  wl_DoBatchInsert b := DoBatchInsert c state b db;
  wl_DoTransaction := DoTransaction c state db;
  wl_DoBatchTransaction b := DoBatchTransaction c state b db
|}.

(** The row of a record in data integrity mode. *)
Definition det_row (names : list string) (n : Z) (key : string) : row :=
  foldl (λ m f, <[f := det_value n key f]> m) ∅ names.

Lemma verify_det_row names n key (w : World D) :
  constant_length n w → ∃ w', verifyRow key (det_row names n key) w = Ok (tt, w').
Proof.
  intros Hc. unfold verifyRow. case_decide; [by eexists|].
  pose proof (verify_fields_ok n key (map_to_list (det_row names n key)) w Hc) as Hok.
  rewrite (proj2 (forallb_forall _ _)) in Hok; [destruct Hok as (w' & ? & _); by exists w'|].
  intros [f v] Hfv%list_elem_of_In%elem_of_map_to_list.
  apply foldl_insert_lookup in Hfv as [[_ ->]|Hfv]; [by rewrite bool_decide_true|].
  by rewrite lookup_empty in Hfv.
Qed.

Section records.
Context (c : core P) (state : coreState) (n : Z).

Definition put_record (m : gmap string row) (i : Z) : gmap string row :=
  <[buildKeyName c i := det_row (st_fieldNames state) n (buildKeyName c i)]> m.

Lemma put_records_lookup l m i :
  i ∈ l → foldl put_record m l !! buildKeyName c i =
          Some (det_row (st_fieldNames state) n (buildKeyName c i)).
Proof.
  revert m. induction l as [|j l IH] using rev_ind; intros m Hi; [by apply elem_of_nil in Hi|].
  rewrite foldl_app. simpl. unfold put_record at 1.
  destruct (decide (buildKeyName c j = buildKeyName c i)) as [Ej|Hne].
  - rewrite Ej. by simplify_map_eq.
  - rewrite lookup_insert_ne by done. apply IH. apply elem_of_app in Hi as [?|Hi]; [done|].
    apply list_elem_of_singleton in Hi as ->. done.
Qed.

Lemma put_records_dom l m k :
  k ∈ dom (foldl put_record m l) ↔ k ∈ dom m ∨ ∃ i, i ∈ l ∧ k = buildKeyName c i.
Proof.
  revert m. induction l as [|j l IH]; intros m; simpl.
  - split; [by left|]. intros [?|(i & Hi & _)]; [done|by apply elem_of_nil in Hi].
  - rewrite IH. unfold put_record. rewrite dom_insert_L. split.
    + intros [[->%elem_of_singleton|?]%elem_of_union|(i & ? & ?)]; [right; exists j; split; [by left|done]|by left|].
      right. exists i. split; [by right|done].
    + intros [?|(i & [->|?]%elem_of_cons & ->)]; [left; set_solver|left; set_solver|]. right. eauto.
Qed.
End records.

Section load.
Context (c : core P) (state : coreState) (db : DB D) (view : D → gmap string row).
Context `{!LoadDB db view}.
Context (n start : Z) (view0 : gmap string row).
Context (Hint : dataIntegrity c = true) (Hretry : insertionRetryLimit c <= 0).

(** The shared state when [T] numbers have been taken and the records [ins] inserted. *)
Record shared (T : Z) (ins : list Z) (w : World D) : Prop := {
  lo_length : constant_length n w;
  lo_seq : keySequence (w_gens w) = GCounter {| counter := wrap64 (start + T) |};
  lo_polls : env_polls (w_env w) = [];
  lo_view : view (env_db (w_env w)) = foldl (put_record c state n) view0 ins
}.

(** The state of the load after [k] inserts, one after the other. *)
Definition loading (k : Z) (w : World D) : Prop :=
  0 <= k ∧ shared k ((λ i, wrap64 (start + i)) <$> seqZ 0 k) w.

Lemma next_key T ins w :
  shared T ins w → ∃ w', next_of keySequence set_keySequence w = Ok (wrap64 (start + T), w') ∧ shared (T + 1) ins w'.
Proof.
  intros [Hc Hs Hp Hv]. unfold next_of, gens_of, in_rand, in_gens, modify, mbind, M_bind, zoom. rewrite Hs.
  cbn [gen_Next]. unfold wrap_gen, mbind, M_bind. rewrite Counter_Next_eq by apply wrap64_range. simpl.
  eexists. split; [done|]. split; simpl; [done| |done|done].
  rewrite wrap64_add_l. do 3 f_equal. lia.
Qed.

Lemma fresh_put l p : fresh (foldl Pool_Put p l) = fresh p.
Proof. revert p. induction l as [|b l IH]; intros p; simpl; [done|]. by rewrite IH. Qed.

(** One insert of the load phase, whatever happened since its number was taken. *)
Lemma insert_key_loads T ins k w :
  shared T ins w → ∃ w', insert_key c state db k w = Ok (None, w') ∧ shared T (ins ++ [k]) w'.
Proof.
  intros [Hc1 Hs1 Hp Hv]. unfold insert_key. set (key := buildKeyName c k).
  destruct (build_fields_ok c n key (st_fieldNames state) ∅ w Hint Hc1) as (w2 & E2 & He2 & Hr2 & Hg2 & Hf2).
  unfold buildValues. rewrite (bind_Ok_1 _ _ _ _ _ E2). fold (det_row (st_fieldNames state) n key).
  destruct (load_insert (table c) key (det_row (st_fieldNames state) n key) (w_env w2)) as (e3 & E3 & Hv3 & Hp3).
  unfold retry_rounds. rewrite Z2Nat.nonpos by done.
  assert (retry_loop c (Insert db (table c) key (det_row (st_fieldNames state) n key)) 1 0 w2 =
          Ok (None, set_env e3 (w_rand w2) w2)) as E4.
  { cbn [retry_loop]. unfold in_env, mbind, M_bind, zoom. rewrite E3. unfold poll. simpl.
    rewrite Hp3, He2, Hp. simpl. destruct (Z.ltb_spec (insertionRetryLimit c) (0 +! 1)); [done|].
    exfalso. change (0 +! 1) with 1 in *. lia. }
  rewrite (bind_Ok_1 _ _ _ _ _ E4). eexists. split; [done|]. simpl.
  split; simpl.
  - destruct Hc1 as (Hg & Hn & Hf). unfold constant_length. simpl. rewrite Hg2, fresh_put, Hf2. done.
  - by rewrite Hg2.
  - by rewrite Hp3, He2.
  - rewrite Hv3, He2, Hv, foldl_app. done.
Qed.

Lemma DoInsert_loads k w :
  loading k w → ∃ w', DoInsert c state db w = Ok (None, w') ∧ loading (k + 1) w'.
Proof.
  intros [Hk Hw]. destruct (next_key _ _ w Hw) as (w1 & E1 & Hw1). unfold DoInsert. rewrite (bind_Ok_1 _ _ _ _ _ E1).
  destruct (insert_key_loads _ _ (wrap64 (start + k)) w1 Hw1) as (w2 & E2 & Hw2). exists w2. split; [done|]. split; [lia|].
  rewrite <- (Z2Nat.id k) in Hw2 |- * by done. replace (Z.of_nat (Z.to_nat k) + 1) with (Z.of_nat (S (Z.to_nat k))) in * by lia.
  by rewrite seqZ_S, fmap_app, Z.add_0_l.
Qed.

(** A call that leaves the records and the polls alone. *)
Lemma env_call {A} T ins w (m : M (Env D) A) x e' :
  shared T ins w → m (w_env w) = Ok (x, e') → view (env_db e') = view (env_db (w_env w)) → env_polls e' = env_polls (w_env w) →
  ∃ w', in_env m w = Ok (x, w') ∧ shared T ins w'.
Proof.
  intros [Hc Hs Hp Hv] E Hv' Hp'. unfold in_env, zoom. rewrite E. eexists. split; [done|]. split; simpl; try done; congruence.
Qed.

Lemma core_workload_ok (p : P) :
  GetBool p prop.DoTransactions true = false → GetInt p prop.BatchSize prop.DefaultBatchSize <= 1 →
  workload_ok (core_workload c state db) loading p.
Proof.
  intros Ht Hb. split.
  - intros i m k w [Hk Hw]. destruct (load_init i m (w_env w)) as (e' & E & Hv & Hp).
    destruct (env_call _ _ w _ _ _ Hw E Hv Hp) as (w' & E' & Hw'). exists tt, w'. by rewrite Z.add_0_r.
  - intros k w [Hk Hw]. destruct (load_cleanup (w_env w)) as (e' & E & Hv & Hp).
    destruct (env_call _ _ w _ _ _ Hw E Hv Hp) as (w' & E' & Hw'). exists tt, w'. by rewrite Z.add_0_r.
  - intros wk Hd Hbs Hdb k w Hw. unfold work. rewrite Hd, Ht, Hdb, Hbs.
    destruct (Z.ltb_spec 1 (GetInt p prop.BatchSize prop.DefaultBatchSize)); [lia|]. simpl.
    destruct (DoInsert_loads k w Hw) as (w' & E & Hw'). by eexists _, _.
Qed.

(** The database when the inserted records are those of a range. *)
Lemma shared_records T ins total w :
  shared T ins w → (∀ i, i ∈ ins ↔ start <= i < start + total) →
  (∀ i, start <= i < start + total → ∃ values w',
     view (env_db (w_env w)) !! buildKeyName c i = Some values ∧ verifyRow (buildKeyName c i) values w = Ok (tt, w')) ∧
  (∀ k, k ∈ dom (view (env_db (w_env w))) ↔ k ∈ dom view0 ∨ ∃ i, start <= i < start + total ∧ k = buildKeyName c i).
Proof.
  intros [Hlw _ _ Hv] Hins. rewrite Hv. split.
  - intros i Hi. rewrite put_records_lookup by by apply Hins.
    destruct (verify_det_row (st_fieldNames state) n (buildKeyName c i) w Hlw) as (w' & Ew). by eexists _, w'.
  - intros k. rewrite put_records_dom. setoid_rewrite Hins. done.
Qed.

Lemma range_elem total i :
  0 <= start → start + total < max_int64 → i ∈ (λ i, wrap64 (start + i)) <$> seqZ 0 total ↔ start <= i < start + total.
Proof.
  intros Hs Hm. rewrite list_elem_of_fmap. split.
  - intros (j & -> & Hj%elem_of_seqZ). rewrite wrap64_id by width. lia.
  - intros Hi. exists (i - start). split; [rewrite wrap64_id by width; lia|]. apply elem_of_seqZ. lia.
Qed.

End load.

(** In data integrity mode [Create] accepts only a constant field length. *)
Lemma Create_integrity p ce c gs pool :
  Create p ce = Ok (c, gs, pool) → dataIntegrity c = true →
  let n := GetInt64 p prop.FieldLength prop.FieldLengthDefault in
  fieldLengthGenerator gs = GConstant (NewConstant n) ∧ fresh pool = value_buffer n ∧
  keySequence gs = GCounter {| counter := insert_start p |} ∧
  insertionRetryLimit c = GetInt64 p prop.InsertionRetryLimit prop.InsertionRetryLimitDefault.
Proof.
  unfold Create. destruct (create_fieldNames _) as [names|?|?|]; try done. simpl.
  destruct (getFieldLengthGenerator _ _ _) as [lg|?|?|] eqn:Elg; try done. simpl.
  case_match; [done|].
  destruct (GetBool p prop.DataIntegrity prop.DataIntegrityDefault) eqn:Ei; simpl.
  2: { destruct (create_keyChooser _ _ _ _ _ _); try done. simpl.
       destruct (create_scanLength _ _); try done. simpl. by intros [= <- <- <-]. }
  destruct (String.eqb_spec (GetString p prop.FieldLengthDistribution prop.FieldLengthDistributionDefault)
    "constant") as [Ed|]; [|done]. simpl.
  destruct (create_keyChooser _ _ _ _ _ _) as [kc|?|?|]; try done. simpl.
  destruct (create_scanLength _ _) as [sl|?|?|]; try done. simpl. intros [= <- <- <-] _. simpl.
  split; [|done]. unfold getFieldLengthGenerator in Elg. rewrite Ed in Elg.
  change (ToLower "constant") with "constant" in Elg. cbn [String.eqb Ascii.eqb Bool.eqb] in Elg. congruence.
Qed.

(** C1: The load phase loads the data set.  From a workload made by [Create] in data
    integrity mode without insertion retries, a load of the client (any number of threads
    not above the records, throttled or not, without batches and cancellation, with a valid
    measurement interval) against a database whose inserts succeed ends.  It makes one
    insert for every record configured and one for every round a worker made before the
    warm-up was over; the database then holds that many records from [insertstart] on, each
    under its key name with a row that data integrity checking accepts for that key, and no
    other new key.  Without such early rounds these are exactly the configured records. *)
Theorem load_phase_complete p ce c gs pool (db : DB D) view `{!LoadDB db view} cancelled scripts analyze env r :
  let n := GetInt64 p prop.FieldLength prop.FieldLengthDefault in
  let w := {| w_env := env; w_rand := r; w_gens := gs; w_pool := pool |} in
  let made := totalOpCount p + cold_rounds scripts in
  Create p ce = Ok (c, gs, pool) → dataIntegrity c = true →
  0 <= n <= max_int64 - 21 → insertionRetryLimit c <= 0 →
  GetBool p prop.DoTransactions true = false → GetInt p prop.BatchSize prop.DefaultBatchSize <= 1 →
  0 < ticker_period p → 0 < GetInt p prop.ThreadCount 1 <= totalOpCount p →
  0 <= insert_start p → insert_start p + made < max_int64 → all_ample p scripts →
  (∀ t e, ∃ x e', analyze t e = Ok (x, e') ∧ view (env_db e') = view (env_db e) ∧ env_polls e' = env_polls e) →
  env_polls env = [] →
  let wl := core_workload c (core_InitThread c) db in
  ∃ rs w', Client_Run wl p cancelled scripts (λ t, in_env (analyze t)) w = Ok (rs, w') ∧
    ops_of rs = made ∧
    (∀ i, insert_start p <= i < insert_start p + made → ∃ values w'',
       view (env_db (w_env w')) !! buildKeyName c i = Some values ∧
       verifyRow (buildKeyName c i) values w' = Ok (tt, w'')) ∧
    (∀ k, k ∈ dom (view (env_db (w_env w'))) ↔ k ∈ dom (view (env_db env)) ∨
       ∃ i, insert_start p <= i < insert_start p + made ∧ k = buildKeyName c i).
Proof.
  intros n w made Hc Hint Hn Hr Ht Hb Htick Hth Hs Hm Hsc Han Hp wl.
  destruct (Create_integrity p ce c gs pool Hc Hint) as (Hfg & Hfr & Hks & _).
  set (I := loading c (core_InitThread c) view n (insert_start p) (view (env_db env))).
  assert (Hcold : 0 <= cold_rounds scripts) by apply cold_rounds_nonneg.
  assert (HI : I 0 w).
  { split; [lia|]. split; simpl; [split; [done|split; [lia|done]]| |done|done]. rewrite Hks, Z.add_0_r.
    by rewrite wrap64_id by width. }
  assert (Hone : per_round p = 1) by (unfold per_round; lia).
  destruct (Client_Run_complete wl I p cancelled scripts (λ t, in_env (analyze t)) w) as (rs & w' & E & HI' & _ & Hops);
    [by apply core_workload_ok|done|lia|done| |done|].
  { intros t k w1 [Hk1 Hw1]. destruct (Han t (w_env w1)) as (x & e' & Ea & Hv & Hpo).
    destruct (env_call _ _ _ _ _ _ _ _ w1 _ _ _ Hw1 Ea Hv Hpo) as (w2 & E2 & Hw2). exists x, w2. by rewrite Z.add_0_r. }
  unfold ticker_panics in E. rewrite Ht, (proj2 (Z.leb_gt _ _) Htick) in E. cbn [andb negb] in E.
  specialize (Hops Hone). rewrite Hops in HI'.
  exists rs, w'. split; [done|split; [done|]]. destruct HI' as [_ Hsh].
  eapply shared_records; [exact Hsh|]. intros i. apply range_elem; lia.
Qed.
End system.

(** [insertstart] is counted twice.  When [insertcount] is not set, the client loads
    [recordcount] records, while the workload takes the data set to be the
    [recordcount - insertstart] records up to [recordcount]: a load from a positive
    [insertstart] goes on past the record count, into the numbers that transactional
    inserts use for their new keys. *)
Lemma load_beyond_record_count {P} `{PropertiesLaws P} (p : P) :
  GetBool p prop.DoTransactions true = false → Get p prop.InsertCount = None →
  effective_recordCount p = GetInt64 p prop.RecordCount prop.RecordCountDefault →
  0 < insert_start p <= effective_recordCount p → effective_recordCount p <= max_int64 →
  totalOpCount p = effective_recordCount p ∧
  insert_count p = effective_recordCount p - insert_start p ∧
  counter (ack_c (NewAcknowledgedCounter (effective_recordCount p))) < insert_start p + totalOpCount p.
Proof.
  intros Ht Hi Hr Hs Hm. assert (totalOpCount p = effective_recordCount p) as ->.
  { unfold totalOpCount. by rewrite Ht, Hi, Hr. }
  split; [done|split]; [|simpl; lia]. unfold insert_count. rewrite GetInt64_absent by done.
  apply wrap64_id. width.
Qed.


(** A database that keeps every record, for the example of the load phase. *)
Definition store_db : DB (gmap string row) := {|
  Close := mret None; InitThread _ _ := mret tt; CleanupThread := mret tt;
  Read _ k _ := in_db (λ d, Ok ((default ∅ (d !! k), None), d));
  Scan _ _ _ _ := mret ([], None);
  Update _ k v := in_db (λ d, Ok (None, <[k := v ∪ default ∅ (d !! k)]> d));
  Insert _ k v := in_db (λ d, Ok (None, <[k := v]> d));
  Delete _ k := in_db (λ d, Ok (None, delete k d));
  as_BatchDB := None; as_AnalyzeDB := None; as_CountDB := None; as_CleanDB := None |}.

#[global] Instance store_LoadDB : LoadDB store_db id.
Proof. split; intros; by eexists. Qed.

Definition ex_load_props : ref_props :=
  [("recordcount", "5"); ("threadcount", "2"); ("dotransactions", "false"); ("dataintegrity", "true");
   ("fieldcount", "1"); ("fieldlength", "12"); ("insertorder", "ordered"); ("zeropadding", "4")].

Definition store_env : Env (gmap string row) :=
  {| env_db := ∅; env_clock := []; env_log := []; env_polls := [] |}.

(** The first worker inserts once before the warm-up is over. *)
Lemma load_phase_complete_witness :
  ∃ c gs pool, @Create _ _ math_exp1 ex_load_props ex_create_env = Ok (c, gs, pool) ∧
  ∃ rs w', Client_Run (@core_workload _ _ math_exp1 _ c (core_InitThread c) store_db) ex_load_props false
      [quiet 1 5; quiet 0 5] (λ t, in_env (mret None))
      {| w_env := store_env; w_rand := []; w_gens := gs; w_pool := pool |} = Ok (rs, w') ∧
    ops_of rs = 5 + 1 ∧
    (∀ k, k ∈ dom (env_db (w_env w')) ↔ k ∈ dom (env_db store_env) ∨ ∃ i, 0 <= i < 0 + (5 + 1) ∧ k = buildKeyName c i).
Proof.
  assert (∃ c gs pool, @Create _ _ math_exp1 ex_load_props ex_create_env = Ok (c, gs, pool) ∧
    dataIntegrity c = true ∧ insertionRetryLimit c <= 0) as (c & gs & pool & E & Hi & Hr).
  { eexists _, _, _. split; [vm_compute; reflexivity|split; [reflexivity|vm_compute; discriminate]]. }
  exists c, gs, pool. split; [exact E|].
  destruct (@load_phase_complete _ _ math_exp1 _ ex_load_props ex_create_env c gs pool store_db id _ false
    [quiet 1 5; quiet 0 5] (λ t, mret (M := M (Env (gmap string row))) None) store_env [] E Hi) as (rs & w' & Erun & Hops & _ & Hdom).
  - vm_compute. split; discriminate.
  - exact Hr.
  - reflexivity.
  - vm_compute. discriminate.
  - reflexivity.
  - vm_compute. split; [done|discriminate].
  - vm_compute. discriminate.
  - vm_compute. reflexivity.
  - unfold all_ample. change (seqZ 0 (GetInt ex_load_props prop.ThreadCount 1)) with [0; 1].
    repeat (apply list.Forall2_cons_2; [apply quiet_ample; vm_compute; discriminate|]). constructor.
  - intros t e. by eexists _, _.
  - reflexivity.
  - exists rs, w'. split; [exact Erun|]. split; [exact Hops|exact Hdom].
Defined.
