(* ===== verification/Workers.v ===== *)
(** * pkg/client/client.go: the goroutines of a load

    [Client.Run] starts a goroutine per worker and one that ends the warm-up and prints
    summaries.  Client.v runs the workers one after the other; here their steps interleave:
    taking a number from the shared sequence, inserting the record, looking at the warm-up
    flag and at the context are steps of their own, and the context may be cancelled at any
    time.  The summaries, which only read, are left out. *)

From S2P Require Import Prelude GoFloat GoRand GoStr Hash Props Row Generators AckCounter.
From S2P Require Import Zipfian Util Ycsb Core CoreSpec Client System.

(** A worker's goroutine: not started; at the loop's condition; holding a number; after the
    insert; at the [select]; after the loop; ended. *)
Inductive gpc :=
| GStart | GLoop (w : worker) | GHold (w : worker) (keyNum : Z) | GInserted (w : worker) | GSelect (w : worker)
| GLeave (w : worker) | GGone (w : worker).

(** The measuring goroutine: before it ends the warm-up, in its loop, after its deferred
    send. *)
Inductive mpc := MWarming | MTicking | MSent.

(** [Client.Run] itself: at [wg.Wait], at [<-measureCh], returned; or the process has
    crashed. *)
Inductive rpc := RWait | RMeasure | RReturned | RCrashed.

Record run_state (D : Type) := {
  r_world : World D; r_threads : list gpc; r_measure : mpc; r_main : rpc;
  r_warmUp : bool; r_cancelled : bool
}.
Arguments r_world {D} _.
Arguments r_threads {D} _.
Arguments r_measure {D} _.
Arguments r_main {D} _.
Arguments r_warmUp {D} _.
Arguments r_cancelled {D} _.

Section workers.
Context {P : Type} `{Properties P} `{MathLib} {D : Type}.
Context (p : P) (c : core P) (state : coreState) (db : DB D) (analyze : string → M (World D) (option error)).

Abbreviation threadCount := (GetInt p prop.ThreadCount 1).

Definition set_thread (i : nat) (g : gpc) (w : World D) (s : run_state D) : run_state D := {|
  r_world := w; r_threads := <[i := g]> (r_threads s); r_measure := r_measure s; r_main := r_main s;
  r_warmUp := r_warmUp s; r_cancelled := r_cancelled s |}.
Definition set_measure (m : mpc) (warm : bool) (s : run_state D) : run_state D := {|
  r_world := r_world s; r_threads := r_threads s; r_measure := m; r_main := r_main s;
  r_warmUp := warm; r_cancelled := r_cancelled s |}.
Definition set_run (m : rpc) (w : World D) (s : run_state D) : run_state D := {|
  r_world := w; r_threads := r_threads s; r_measure := r_measure s; r_main := m;
  r_warmUp := r_warmUp s; r_cancelled := r_cancelled s |}.
(** A panic ends the process with all its goroutines. *)
Definition crash (s : run_state D) : run_state D := {|
  r_world := r_world s; r_threads := []; r_measure := MSent; r_main := RCrashed;
  r_warmUp := false; r_cancelled := r_cancelled s |}.
Definition cancel (s : run_state D) : run_state D := {|
  r_world := r_world s; r_threads := r_threads s; r_measure := r_measure s; r_main := r_main s;
  r_warmUp := r_warmUp s; r_cancelled := true |}.

Definition goes_on (w : worker) : bool := (opCount w =? 0) || (opsDone w <? opCount w).
Definition gone (g : gpc) : bool := match g with GGone _ => true | _ => false end.

(** One step of [Client.Run] of a load without batches.  A pause, of [throttle] or at the
    start, is no step; [source] is the global random source it draws from.  Ending the
    warm-up, the goroutine goes on to [time.NewTicker], which panics for a period that is
    not positive. *)
Inductive run_step (s : run_state D) : run_state D → Prop :=
| rs_start i w source d w1 : r_threads s !! i = Some GStart → newWorker p (Z.of_nat i) threadCount = Ok w →
    spread w source = Ok d → in_env (InitThread db (Z.of_nat i) threadCount) (r_world s) = Ok (tt, w1) →
    run_step s (set_thread i (GLoop w) w1 s)
| rs_take i w k w1 : r_threads s !! i = Some (GLoop w) → goes_on w = true →
    next_of keySequence set_keySequence (r_world s) = Ok (k, w1) → run_step s (set_thread i (GHold w k) w1 s)
| rs_insert i w k err w1 : r_threads s !! i = Some (GHold w k) → insert_key c state db k (r_world s) = Ok (err, w1) →
    run_step s (set_thread i (GInserted w) w1 s)
| rs_count i w : r_threads s !! i = Some (GInserted w) →
    run_step s (set_thread i (GSelect (if r_warmUp s then w else add_ops w 1)) (r_world s) s)
| rs_select i w : r_threads s !! i = Some (GSelect w) →
    run_step s (set_thread i (if r_cancelled s then GLeave w else GLoop w) (r_world s) s)
| rs_leave i w : r_threads s !! i = Some (GLoop w) → goes_on w = false → run_step s (set_thread i (GLeave w) (r_world s) s)
| rs_cleanup i w w1 : r_threads s !! i = Some (GLeave w) → in_env (CleanupThread db) (r_world s) = Ok (tt, w1) →
    run_step s (set_thread i (GGone w) w1 s)
| rs_warm : r_measure s = MWarming → 0 < ticker_period p → run_step s (set_measure MTicking false s)
| rs_ticker_panic : r_measure s = MWarming → ticker_period p <= 0 → run_step s (crash s)
| rs_warm_cancelled : r_measure s = MWarming → GetBool p prop.DoTransactions true = true → r_cancelled s = true →
    run_step s (set_measure MSent (r_warmUp s) s)
| rs_measured : r_measure s = MTicking → r_cancelled s = true ∨ r_main s ≠ RWait → run_step s (set_measure MSent (r_warmUp s) s)
| rs_joined err w1 : r_main s = RWait → Forall (λ g, gone g = true) (r_threads s) →
    (if analyzes p then analyze (GetString p prop.TableName prop.TableNameDefault) else mret None) (r_world s) = Ok (err, w1) →
    run_step s (set_run RMeasure w1 s)
| rs_return : r_main s = RMeasure → r_measure s = MSent → run_step s (set_run RReturned (r_world s) s)
| rs_cancel : r_cancelled s = false → run_step s (cancel s).

(** [Client.Run] has started the goroutines. *)
Definition run_start (w : World D) (warmUp : bool) : run_state D := {|
  r_world := w; r_threads := replicate (Z.to_nat threadCount) GStart; r_measure := MWarming; r_main := RWait;
  r_warmUp := warmUp; r_cancelled := false
|}.

Inductive run_steps (s0 : run_state D) : nat → run_state D → Prop :=
| runs_nil : run_steps s0 0 s0
| runs_snoc n s s' : run_steps s0 n s → run_step s s' → run_steps s0 (S n) s'.

(** ** The load *)

Section load.
Context (view : D → gmap string row) `{!LoadDB db view}.
Context (n start : Z) (view0 : gmap string row).
Context (Hint : dataIntegrity c = true) (Hretry : insertionRetryLimit c <= 0).
Context (Hload : GetBool p prop.DoTransactions true = false).
Context (Hthreads : 0 < threadCount <= totalOpCount p) (Htotal : totalOpCount p < max_int64).
Context (Htick : 0 < ticker_period p) (Hbatch : GetInt p prop.BatchSize prop.DefaultBatchSize <= 1) (Htarget : GetInt64 p prop.Target 0 <= 0).
Context (Hanalyze : ∀ t T ins w, shared c state view n start view0 T ins w →
  ∃ err w', analyze t w = Ok (err, w') ∧ shared c state view n start view0 T ins w').

Abbreviation total := (totalOpCount p).

(** What a goroutine has taken and finished, and the number it holds. *)
Definition taken (g : gpc) : Z :=
  match g with GStart => 0 | GLoop w | GSelect w | GLeave w | GGone w => opsDone w | GHold w _ | GInserted w => opsDone w + 1 end.
Definition held (g : gpc) : list Z := match g with GHold _ k => [k] | _ => [] end.

Definition own (i : nat) (w : worker) : Prop := opCount w = share total threadCount (Z.of_nat i) ∧ 0 <= opsDone w <= opCount w.

Definition thread_ok (cancelled : bool) (i : nat) (g : gpc) : Prop :=
  match g with
  | GStart => True
  | GLoop w | GSelect w => own i w
  | GHold w _ | GInserted w => own i w ∧ opsDone w < opCount w
  | GLeave w | GGone w => own i w ∧ (cancelled = false → opsDone w = opCount w)
  end.

Record load_ok (s : run_state D) : Prop := {
  ld_threads : ∀ i g, r_threads s !! i = Some g → thread_ok (r_cancelled s) i g;
  ld_length : length (r_threads s) = Z.to_nat threadCount;
  ld_warm : r_warmUp s = false;
  ld_running : r_main s ≠ RCrashed;
  ld_joined : r_main s ≠ RWait → Forall (λ g, gone g = true) (r_threads s);
  ld_world : ∃ ins, shared c state view n start view0 (total_of taken (r_threads s)) ins (r_world s) ∧
    ins ++ concat (held <$> r_threads s) ≡ₚ (λ i, wrap64 (start + i)) <$> seqZ 0 (total_of taken (r_threads s))
}.

Abbreviation keys T := ((λ i, wrap64 (start + i)) <$> seqZ 0 T).

Lemma keys_S T : 0 <= T → keys (T + 1) = keys T ++ [wrap64 (start + T)].
Proof.
  intros HT. rewrite <- (Z2Nat.id T) by done. replace (Z.of_nat (Z.to_nat T) + 1) with (Z.of_nat (S (Z.to_nat T))) by lia.
  by rewrite seqZ_S, fmap_app, Z.add_0_l.
Qed.

Lemma taken_nonneg b i g : thread_ok b i g → 0 <= taken g.
Proof. destruct g; cbn; unfold own; lia. Qed.

Lemma total_taken s : load_ok s → 0 <= total_of taken (r_threads s).
Proof.
  intros [Ht _ _ _ _ _]. apply total_of_nonneg. intros g [i Hi]%list_elem_of_lookup. by eapply taken_nonneg, Ht.
Qed.

(** A goroutine moves on. *)
Lemma set_thread_ok s i g g' w' :
  load_ok s → r_threads s !! i = Some g → gone g = false → thread_ok (r_cancelled s) i g' →
  (∀ T ins, 0 <= T → shared c state view n start view0 T ins (r_world s) → ∃ ins',
     shared c state view n start view0 (T - taken g + taken g') ins' w' ∧
     ins' ++ held g' ++ keys T ≡ₚ ins ++ held g ++ keys (T - taken g + taken g')) →
  load_ok (set_thread i g' w' s).
Proof.
  intros Hs E Hg Hg' Hw. pose proof (total_taken s Hs) as HT. destruct Hs as [Ht Hl Hwm Hnc Hj (ins & Hsh & Hp)].
  split; cbn [set_thread r_threads r_cancelled r_warmUp r_main r_world]; [| |done|done| |].
  - intros j g2 Hj2. destruct (decide (j = i)) as [->|Hne].
    + rewrite list_lookup_insert_eq in Hj2 by (by eapply lookup_lt_Some). by injection Hj2 as <-.
    + rewrite list_lookup_insert_ne in Hj2 by done. by apply Ht.
  - by rewrite length_insert.
  - intros Hm. specialize (Hj Hm). rewrite (list.Forall_lookup_1 _ _ _ _ Hj E) in Hg. done.
  - rewrite (total_of_insert _ _ _ _ _ E). destruct (Hw _ _ HT Hsh) as (ins' & Hsh' & Hp'). exists ins'. split; [done|].
    destruct (concat_insert held held (r_threads s) i g g' E) as (rest & _ & H1 & H2 & _). count_items.
Qed.

(** A step that takes no number and inserts nothing. *)
Lemma set_thread_quiet s i g g' w' :
  load_ok s → r_threads s !! i = Some g → gone g = false → thread_ok (r_cancelled s) i g' → taken g' = taken g → held g' = held g →
  (∀ T ins, shared c state view n start view0 T ins (r_world s) → shared c state view n start view0 T ins w') →
  load_ok (set_thread i g' w' s).
Proof.
  intros Hs E Hg Hg' Ht Hh Hw. apply (set_thread_ok s i g); [done..|]. intros T ins _ Hsh. exists ins.
  rewrite Ht, Hh. replace (T - taken g + taken g) with T by lia. split; [by apply Hw|done].
Qed.

Lemma new_worker i : (i < Z.to_nat threadCount)%nat →
  ∃ w, newWorker p (Z.of_nat i) threadCount = Ok w ∧ own i w ∧ opsDone w = 0 ∧ ∀ source, spread w source = Ok (0, source).
Proof.
  intros Hi. destruct (newWorker_share p threadCount (Z.of_nat i)) as (w & Ew & Hc & Hd & _ & _ & Hr); [lia..|].
  exists w. split; [done|]. pose proof (share_bounds total threadCount (Z.of_nat i) Hthreads ltac:(lia)). unfold own. rewrite Hc, Hd.
  split; [lia|]. split; [done|]. intros source. unfold spread. rewrite Hr. unfold throttle_rate.
  destruct (Z.ltb_spec 0 (GetInt64 p prop.Target 0)); [lia|]. reflexivity.
Qed.

Lemma goes_on_own i w : (i < Z.to_nat threadCount)%nat → own i w → goes_on w = (opsDone w <? opCount w).
Proof.
  intros Hi [Hc Hd]. pose proof (share_bounds total threadCount (Z.of_nat i) Hthreads ltac:(lia)). unfold goes_on.
  destruct (Z.eqb_spec (opCount w) 0); [lia|done].
Qed.

Lemma thread_index s i g : load_ok s → r_threads s !! i = Some g → (i < Z.to_nat threadCount)%nat.
Proof. intros Hs E. rewrite <- (ld_length s Hs). by eapply lookup_lt_Some. Qed.

Lemma add_ops_own i w : (i < Z.to_nat threadCount)%nat → own i w → opsDone w < opCount w → own i (add_ops w 1) ∧ opsDone (add_ops w 1) = opsDone w + 1.
Proof.
  intros Hi [Hc Hd] Hlt. pose proof (share_bounds total threadCount (Z.of_nat i) Hthreads ltac:(lia)).
  assert (opsDone (add_ops w 1) = opsDone w + 1) as E by (cbn; apply wrap64_id; width). unfold own. rewrite E. cbn [add_ops opCount]. lia.
Qed.

Lemma load_ok_step s s' : load_ok s → run_step s s' → load_ok s'.
Proof.
  intros Hs Hst. pose proof Hs as [Ht Hl Hwm Hnc Hj (ins & Hsh & Hp)].
  destruct Hst as [i w source d w1 E Ew Esp E1|i w k w1 E Hgo E1|i w k err w1 E E1|i w E|i w E|i w E Hgo|i w w1 E E1|Em _|Em Hcr|Em Htr Hc|Em Hc
    |err w1 Em Hall E1|Em Hms|Hc]; try pose proof (Ht _ _ E) as Hok; try pose proof (thread_index s i _ Hs E) as Hi.
  - destruct (new_worker i Hi) as (w' & Ew' & Hown & Hd & _). assert (w' = w) as -> by congruence.
    apply (set_thread_quiet s i GStart); [done..|]. intros T l Hl'.
    destruct (load_init (Z.of_nat i) threadCount (w_env (r_world s))) as (e' & Ee & Hv & Hpo).
    destruct (env_call _ _ _ _ _ _ _ _ _ _ _ _ Hl' Ee Hv Hpo) as (w2 & E2 & Hw2). by assert (w2 = w1) as <- by congruence.
  - cbn in Hok. apply (set_thread_ok s i (GLoop w)); [done..| |].
    + cbn. split; [done|]. rewrite (goes_on_own i w Hi Hok) in Hgo. lia.
    + intros T l HT Hl'. exists l. destruct (next_key _ _ _ _ _ _ _ _ _ Hl') as (w2 & E2 & Hw2). assert (k = wrap64 (start + T) ∧ w2 = w1) as [-> ->] by (split; congruence).
      cbn [taken held]. replace (T - opsDone w + (opsDone w + 1)) with (T + 1) by lia. split; [done|]. rewrite keys_S by done. cbn [app]. count_items.
  - apply (set_thread_ok s i (GHold w k)); [done..|]. intros T l HT Hl'. exists (l ++ [k]).
    destruct (insert_key_loads _ _ _ _ _ _ _ Hint Hretry _ _ k _ Hl') as (w2 & E2 & Hw2). assert (w2 = w1) as -> by congruence.
    cbn [taken held]. replace (T - (opsDone w + 1) + (opsDone w + 1)) with T by lia. split; [done|]. count_items.
  - cbn in Hok. destruct Hok as [Hown Hlt]. destruct (add_ops_own i w Hi Hown Hlt) as [Hown' Hd]. rewrite Hwm.
    by apply (set_thread_quiet s i (GInserted w)).
  - cbn in Hok. apply (set_thread_quiet s i (GSelect w)); [done..| | | |done]; by destruct (r_cancelled s).
  - cbn in Hok. apply (set_thread_quiet s i (GLoop w)); [done..| |done|done|done]. cbn. split; [done|]. intros _.
    rewrite (goes_on_own i w Hi Hok) in Hgo. destruct Hok as [_ Hd]. lia.
  - apply (set_thread_quiet s i (GLeave w)); [done..|]. intros T l Hl'.
    destruct (load_cleanup (w_env (r_world s))) as (e' & Ee & Hv & Hpo).
    destruct (env_call _ _ _ _ _ _ _ _ _ _ _ _ Hl' Ee Hv Hpo) as (w2 & E2 & Hw2). by assert (w2 = w1) as <- by congruence.
  - split; cbn; [done..|]. eauto.
  - lia.
  - congruence.
  - split; cbn; [done..|]. eauto.
  - split; cbn; [done..|]. exists ins. split; [|done]. destruct (analyzes p); [|by injection E1 as _ <-].
    destruct (Hanalyze (GetString p prop.TableName prop.TableNameDefault) _ _ _ Hsh) as (err' & w2 & E2 & Hw2). by assert (w2 = w1) as <- by congruence.
  - split; cbn; [done..| |eauto]. intros _. apply Hj. congruence.
  - split; cbn; [|done..|eauto]. intros i g E. specialize (Ht i g E). destruct g; cbn in *; try done; naive_solver.
Qed.

Lemma load_ok_start w : shared c state view n start view0 0 [] w → load_ok (run_start w false).
Proof.
  intros Hw. assert (Hz : ∀ k, total_of taken (replicate k GStart) = 0 ∧ concat (held <$> replicate k GStart) = []).
  { induction k as [|k [IH1 IH2]]; [done|]. cbn [replicate total_of taken]. rewrite fmap_cons. cbn [concat held app]. by rewrite IH1, IH2. }
  split; cbn [run_start r_threads r_cancelled r_warmUp r_main r_world]; [|by rewrite length_replicate|done|done|done|].
  - intros i g [-> _]%lookup_replicate. done.
  - destruct (Hz (Z.to_nat threadCount)) as [-> ->]. by exists [].
Qed.

Lemma load_ok_runs w m s : shared c state view n start view0 0 [] w → run_steps (run_start w false) m s → load_ok s.
Proof. intros Hw. induction 1 as [|m s s' _ IH Hs]; [by apply load_ok_start|by eapply load_ok_step]. Qed.

(** *** It ends *)

Definition left_to_do (w : worker) : Z := 4 * (opCount w - opsDone w).

Definition weight (g : gpc) : Z :=
  match g with
  | GStart => 3 | GLoop w => left_to_do w + 2 | GHold w _ => left_to_do w + 1 | GInserted w => left_to_do w
  | GSelect w => left_to_do w + 3 | GLeave _ => 1 | GGone _ => 0
  end.

Definition assigned (g : gpc) : Z :=
  match g with GStart => 0 | GLoop w | GHold w _ | GInserted w | GSelect w | GLeave w | GGone w => opCount w end.

(** The steps left, less those of the operations of goroutines that have started. *)
Definition to_go (s : run_state D) : Z :=
  total_of weight (r_threads s) - 4 * total_of assigned (r_threads s)
  + match r_measure s with MWarming => 2 | MTicking => 1 | MSent => 0 end
  + match r_main s with RWait => 2 | RMeasure => 1 | RReturned | RCrashed => 0 end
  + (if r_cancelled s then 0 else 1).

Lemma to_go_step s s' : load_ok s → run_step s s' → to_go s' < to_go s.
Proof.
  intros Hs Hst. pose proof Hs as [Ht Hl Hwm Hnc Hj _]. unfold to_go.
  destruct Hst as [i w source d w1 E Ew Esp E1|i w k w1 E Hgo E1|i w k err w1 E E1|i w E|i w E|i w E Hgo|i w w1 E E1|Em _|Em Hcr|Em Htr Hc|Em Hc
    |err w1 Em Hall E1|Em Hms|Hc]; try pose proof (Ht _ _ E) as Hok; try pose proof (thread_index s i _ Hs E) as Hi;
    cbn [set_thread set_measure set_run cancel r_threads r_measure r_main r_cancelled];
    rewrite ?(total_of_insert weight _ _ _ _ E), ?(total_of_insert assigned _ _ _ _ E), ?Em, ?Hc;
    cbn [weight assigned]; unfold left_to_do; try lia.
  - destruct (new_worker i Hi) as (w' & Ew' & Hown & Hd & _). assert (w' = w) as -> by congruence. lia.
  - cbn in Hok. destruct Hok as [Hown Hlt]. destruct (add_ops_own i w Hi Hown Hlt) as [_ Hd]. rewrite Hwm, Hd. cbn [add_ops opCount]. lia.
  - destruct Hok as [_ Hd]. destruct (r_cancelled s); cbn [weight assigned]; unfold left_to_do; lia.
  - destruct Hok as [_ Hd]. lia.
Qed.

Lemma own_share s i g : load_ok s → r_threads s !! i = Some g →
  taken g <= share total threadCount (0 + Z.of_nat i) ∧ assigned g <= share total threadCount (0 + Z.of_nat i) ∧
  0 <= weight g.
Proof.
  intros Hs E. pose proof (ld_threads s Hs i g E) as Hg. pose proof (thread_index s i g Hs E).
  pose proof (share_bounds total threadCount (Z.of_nat i) Hthreads ltac:(lia)). rewrite Z.add_0_l.
  destruct g; cbn in *; unfold own, left_to_do in *; lia.
Qed.

Lemma total_shares s (f : gpc → Z) : load_ok s →
  (∀ i g, r_threads s !! i = Some g → f g <= share total threadCount (0 + Z.of_nat i)) → total_of f (r_threads s) <= total.
Proof.
  intros Hs Hf. pose proof (total_of_index_le f _ _ 0 Hf) as Hle. rewrite (ld_length s Hs), Z2Nat.id, sum_of_shares in Hle by lia. done.
Qed.

Lemma to_go_runs w m s : shared c state view n start view0 0 [] w → run_steps (run_start w false) m s →
  Z.of_nat m + to_go s <= 3 * threadCount + 5.
Proof.
  intros Hw. induction 1 as [|m s s' Hr IH Hs].
  - unfold to_go. cbn [run_start r_threads r_measure r_main r_cancelled].
    assert (∀ k, total_of weight (replicate k GStart) = 3 * Z.of_nat k ∧ total_of assigned (replicate k GStart) = 0) as Hz.
    { induction k as [|k [IH1 IH2]]; [done|]. cbn [replicate total_of weight assigned]. lia. }
    destruct (Hz (Z.to_nat threadCount)) as [-> ->]. lia.
  - pose proof (to_go_step _ _ (load_ok_runs w m s Hw Hr) Hs). lia.
Qed.

Lemma running_thread (s : run_state D) : ¬ Forall (λ g, gone g = true) (r_threads s) → ∃ i g, r_threads s !! i = Some g ∧ gone g = false.
Proof.
  intros (g & Hin & Hg)%list.not_Forall_Exists%list.Exists_exists; [|intros; apply _]. apply list_elem_of_lookup in Hin as [i Hi].
  exists i, g. split; [done|]. by apply not_true_is_false.
Qed.

Lemma load_progress s : load_ok s → r_main s ≠ RReturned → ∃ s', run_step s s' ∧ r_cancelled s' = r_cancelled s.
Proof.
  intros Hs Hm. pose proof Hs as [Ht Hl Hwm Hnc Hj (ins & Hsh & _)]. destruct (r_main s) eqn:Em; [| |done..].
  - destruct (decide (Forall (λ g, gone g = true) (r_threads s))) as [Hall|Hn].
    { assert (∃ err w1, (if analyzes p then analyze (GetString p prop.TableName prop.TableNameDefault) else mret None) (r_world s) = Ok (err, w1)) as (err & w1 & E1).
      { destruct (analyzes p); [|by eexists _, _]. destruct (Hanalyze (GetString p prop.TableName prop.TableNameDefault) _ _ _ Hsh) as (err & w1 & E1 & _). eauto. }
      eexists. split; [by eapply rs_joined|done]. }
    apply running_thread in Hn as (i & g & E & Hg). pose proof (thread_index s i g Hs E) as Hi. destruct g as [|w|w k|w|w|w|w]; [..|done].
    + destruct (new_worker i Hi) as (w & Ew & _ & _ & Hsp). destruct (load_init (Z.of_nat i) threadCount (w_env (r_world s))) as (e' & Ee & Hv & Hpo).
      destruct (env_call _ _ _ _ _ _ _ _ _ _ _ _ Hsh Ee Hv Hpo) as (w2 & E2 & _). eexists. split; [by eapply (rs_start s i w [] (0, []))|done].
    + destruct (goes_on w) eqn:Hgo; [|eexists; split; [by eapply rs_leave|done]].
      destruct (next_key _ _ _ _ _ _ _ _ _ Hsh) as (w2 & E2 & _). eexists. split; [by eapply rs_take|done].
    + destruct (insert_key_loads _ _ _ _ _ _ _ Hint Hretry _ _ k _ Hsh) as (w2 & E2 & _). eexists. split; [by eapply rs_insert|done].
    + eexists. split; [by eapply rs_count|done].
    + eexists. split; [by eapply rs_select|done].
    + destruct (load_cleanup (w_env (r_world s))) as (e' & Ee & Hv & Hpo).
      destruct (env_call _ _ _ _ _ _ _ _ _ _ _ _ Hsh Ee Hv Hpo) as (w2 & E2 & _). eexists. split; [by eapply rs_cleanup|done].
  - destruct (r_measure s) eqn:Ems; eexists;
      [split; [by apply rs_warm|done]|split; [apply rs_measured; [done|right; by rewrite Em]|done]|split; [by apply rs_return|done]].
Qed.

(** The numbers taken at the end of a run that was not cancelled. *)
Lemma load_finished s : load_ok s → r_main s = RReturned → r_cancelled s = false →
  ∃ ins, shared c state view n start view0 total ins (r_world s) ∧ ins ≡ₚ keys total.
Proof.
  intros Hs Hm Hc. pose proof Hs as [Ht Hl Hwm Hnc Hj (ins & Hsh & Hp)]. rewrite Hm in Hj. specialize (Hj ltac:(done)).
  assert (total_of taken (r_threads s) = total) as E.
  { rewrite (total_of_index_eq taken (share total threadCount) (r_threads s) 0).
    - rewrite Hl, Z2Nat.id by lia. by apply sum_of_shares.
    - intros i g E. specialize (Ht i g E). pose proof (list.Forall_lookup_1 _ _ _ _ Hj E) as Hg. destruct g; try done.
      rewrite Hc in Ht. destruct Ht as [[Hcnt _] Hd]. cbn [taken]. by rewrite (Hd eq_refl), Hcnt, Z.add_0_l. }
  rewrite E in *. exists ins. split; [done|].
  assert (concat (held <$> r_threads s) = []) as Hn; [|by rewrite Hn, app_nil_r in Hp].
  clear -Hj. induction Hj as [|g L Hg _ IH]; [done|]. rewrite fmap_cons. cbn [concat]. rewrite IH. by destruct g.
Qed.

(** All of it about one run. *)
Lemma load_run w m s : shared c state view n start view0 0 [] w → run_steps (run_start w false) m s →
  Z.of_nat m <= 4 * total + 3 * threadCount + 5 ∧ (r_main s ≠ RReturned → ∃ s', run_step s s' ∧ r_cancelled s' = r_cancelled s) ∧
  (∃ T ins, T <= total ∧ shared c state view n start view0 T ins (r_world s) ∧ ins ⊆ keys T) ∧
  (r_main s = RReturned → r_cancelled s = false → ∃ ins, shared c state view n start view0 total ins (r_world s) ∧ ins ≡ₚ keys total).
Proof.
  intros Hw Hr. pose proof (load_ok_runs w m s Hw Hr) as Hs.
  assert (Hsum : total_of taken (r_threads s) <= total ∧ total_of assigned (r_threads s) <= total ∧ 0 <= total_of weight (r_threads s)).
  { split; [|split]; [apply total_shares; [done|]; intros i g E; by apply (own_share s i g)..|].
    apply total_of_nonneg. intros g [i E]%list_elem_of_lookup. by apply (own_share s i g). }
  split; [|split; [by apply load_progress|split; [|by apply load_finished]]].
  - pose proof (to_go_runs w m s Hw Hr) as Hg. unfold to_go in Hg. repeat case_match; lia.
  - destruct (ld_world s Hs) as (ins & Hsh & Hp). exists (total_of taken (r_threads s)), ins. split; [lia|]. split; [done|].
    rewrite <- Hp. set_solver.
Qed.
End load.

(** C2: The load phase with its workers interleaved.  The load is of a workload made by
    [Create] in data integrity mode, without insertion retries, batches, target rate and
    warm-up time, with a valid measurement interval and not more threads than records,
    against a database whose inserts succeed.  Whatever the order in which its goroutines
    take numbers, insert, look at the warm-up flag and leave, and whenever the context is
    cancelled: the run ends, within four steps per operation, three per worker and five, as
    some goroutine can go on until [Client.Run] has returned; no key but those of the
    configured range is ever inserted; and when it returns without having been cancelled,
    every record of the range is stored under its key name with a row that data integrity
    checking accepts. *)
Theorem load_interleaved ce gs pool view `{!LoadDB db view} (an : string → M (Env D) (option error)) env r m s :
  let n := GetInt64 p prop.FieldLength prop.FieldLengthDefault in
  let w := {| w_env := env; w_rand := r; w_gens := gs; w_pool := pool |} in
  Create p ce = Ok (c, gs, pool) → state = core_InitThread c → analyze = (λ t, in_env (an t)) → dataIntegrity c = true →
  0 <= n <= max_int64 - 21 → insertionRetryLimit c <= 0 →
  GetBool p prop.DoTransactions true = false → GetInt64 p prop.WarmUpTime 0 <= 0 →
  0 < ticker_period p → GetInt p prop.BatchSize prop.DefaultBatchSize <= 1 → GetInt64 p prop.Target 0 <= 0 →
  0 < threadCount <= totalOpCount p → 0 <= insert_start p → insert_start p + totalOpCount p < max_int64 →
  (∀ t e, ∃ x e', an t e = Ok (x, e') ∧ view (env_db e') = view (env_db e) ∧ env_polls e' = env_polls e) →
  env_polls env = [] →
  run_steps (run_start w (0 <? GetInt64 p prop.WarmUpTime 0)) m s →
  let records := view (env_db (w_env (r_world s))) in
  let in_range i := insert_start p <= i < insert_start p + totalOpCount p in
  Z.of_nat m <= 4 * totalOpCount p + 3 * threadCount + 5 ∧
  (r_main s ≠ RReturned → ∃ s', run_step s s' ∧ r_cancelled s' = r_cancelled s) ∧
  (∀ k, k ∈ dom records → k ∈ dom (view (env_db env)) ∨ ∃ i, in_range i ∧ k = buildKeyName c i) ∧
  (r_main s = RReturned → r_cancelled s = false → ∀ i, in_range i → ∃ values w',
     records !! buildKeyName c i = Some values ∧ verifyRow (buildKeyName c i) values (r_world s) = Ok (tt, w')).
Proof.
  intros n w Hc Hst Han Hint Hn Hr Ht Hwu Htick Hb Htg Hth Hs Hm Hana Hp Hrun records in_range.
  destruct (Z.ltb_spec 0 (GetInt64 p prop.WarmUpTime 0)); [lia|].
  destruct (Create_integrity p ce c gs pool Hc Hint) as (Hfg & Hfr & Hks & _).
  assert (Hw : shared c state view n (insert_start p) (view (env_db env)) 0 [] w).
  { split; simpl; [split; [done|split; [lia|done]]| |done|done]. rewrite Hks, Z.add_0_r. by rewrite wrap64_id by width. }
  assert (Hana' : ∀ t T ins w, shared c state view n (insert_start p) (view (env_db env)) T ins w →
    ∃ err w', analyze t w = Ok (err, w') ∧ shared c state view n (insert_start p) (view (env_db env)) T ins w').
  { intros t T ins w1 Hw1. destruct (Hana t (w_env w1)) as (x & e' & Ea & Hv & Hpo).
    destruct (env_call _ _ _ _ _ _ _ _ w1 _ _ _ Hw1 Ea Hv Hpo) as (w2 & E2 & Hw2). exists x, w2. by rewrite Han. }
  destruct (load_run view n (insert_start p) (view (env_db env)) Hint Hr Ht Hth ltac:(lia) Htick Hb Htg Hana' w m s Hw Hrun)
    as (Hbound & Hprog & (T & ins & HT & Hsh & Hin) & Hfin).
  split; [done|]. split; [done|]. split.
  - intros k. unfold records. rewrite (lo_view _ _ _ _ _ _ _ _ _ Hsh), put_records_dom.
    intros [?|(i & Hi%Hin & ->)]; [by left|right]. exists i. split; [|done].
    apply list_elem_of_fmap in Hi as (j & -> & Hj%elem_of_seqZ). unfold in_range. rewrite wrap64_id by width. lia.
  - intros Hret Hcan i Hi. destruct (Hfin Hret Hcan) as (ins' & Hsh' & Hp').
    apply (proj1 (shared_records _ _ _ _ _ _ _ _ (totalOpCount p) _ Hsh' ltac:(intros j; rewrite Hp'; apply range_elem; lia))). done.
Qed.

(** ** Schedules *)

Inductive label := Thread (i : nat) | Measure | Main.

(** What the chosen goroutine does next. *)
Definition run_exec (a : label) (s : run_state D) : option (run_state D) :=
  match a with
  | Thread i =>
      g ← r_threads s !! i;
      match g with
      | GStart =>
          match newWorker p (Z.of_nat i) threadCount with
          | Ok w => match spread w [], in_env (InitThread db (Z.of_nat i) threadCount) (r_world s) with
                    | Ok _, Ok (_, w1) => Some (set_thread i (GLoop w) w1 s) | _, _ => None end
          | _ => None
          end
      | GLoop w =>
          if goes_on w then match next_of keySequence set_keySequence (r_world s) with
                            | Ok (k, w1) => Some (set_thread i (GHold w k) w1 s) | _ => None end
          else Some (set_thread i (GLeave w) (r_world s) s)
      | GHold w k => match insert_key c state db k (r_world s) with Ok (_, w1) => Some (set_thread i (GInserted w) w1 s) | _ => None end
      | GInserted w => Some (set_thread i (GSelect (if r_warmUp s then w else add_ops w 1)) (r_world s) s)
      | GSelect w => Some (set_thread i (if r_cancelled s then GLeave w else GLoop w) (r_world s) s)
      | GLeave w => match in_env (CleanupThread db) (r_world s) with Ok (_, w1) => Some (set_thread i (GGone w) w1 s) | _ => None end
      | GGone _ => None
      end
  | Measure =>
      match r_measure s, r_main s with
      | MWarming, _ => Some (if 0 <? ticker_period p then set_measure MTicking false s else crash s)
      | MTicking, (RMeasure | RReturned) => Some (set_measure MSent (r_warmUp s) s)
      | _, _ => None
      end
  | Main =>
      match r_main s, r_measure s with
      | RWait, _ =>
          if forallb gone (r_threads s)
          then match (if analyzes p then analyze (GetString p prop.TableName prop.TableNameDefault) else mret None) (r_world s) with
               | Ok (_, w1) => Some (set_run RMeasure w1 s) | _ => None end
          else None
      | RMeasure, MSent => Some (set_run RReturned (r_world s) s)
      | _, _ => None
      end
  end.

Lemma run_exec_step a s s' : run_exec a s = Some s' → run_step s s'.
Proof.
  destruct a as [i| |]; cbn [run_exec].
  - destruct (r_threads s !! i) as [g|] eqn:E; [|done]. cbn [mbind option_bind]. intros Hx.
    destruct g as [|w|w k|w|w|w|w]; [..|done];
      [ | | |injection Hx as <-; by apply rs_count|injection Hx as <-; by apply rs_select|]; repeat case_match; simplify_eq;
      try match goal with H : in_env _ _ = Ok (?u, _) |- _ => destruct u end;
      [by eapply rs_start|by eapply rs_take|by eapply rs_leave|by eapply rs_insert|by eapply rs_cleanup].
  - intros Hx. repeat case_match; simplify_eq;
      [apply rs_warm; [done|by apply Z.ltb_lt]|apply rs_ticker_panic; [done|by apply Z.ltb_ge]|..]; apply rs_measured; try done; right; congruence.
  - intros Hx. destruct (r_main s) eqn:Em; [| |done..].
    + destruct (forallb gone (r_threads s)) eqn:Hf; [|done]. case_match; [|done..]. case_match. simplify_eq. eapply rs_joined; [done| |done].
      apply list.Forall_forall. intros g Hg. by apply (proj1 (forallb_forall _ _) Hf), list_elem_of_In.
    + case_match; [done..|]. simplify_eq. by apply rs_return.
Qed.

Fixpoint run_trace (l : list label) (s : run_state D) : option (run_state D) :=
  match l with [] => Some s | a :: l => s ← run_exec a s; run_trace l s end.

Lemma run_steps_l s0 s1 m s : run_step s0 s1 → run_steps s1 m s → run_steps s0 (S m) s.
Proof. intros Hs0. induction 1 as [|m s s' _ IH Hs]; [eapply runs_snoc; [constructor|done]|by eapply runs_snoc]. Qed.

Lemma run_trace_steps l s s' : run_trace l s = Some s' → run_steps s (length l) s'.
Proof.
  revert s. induction l as [|a l IH]; intros s; cbn [run_trace]; [intros [= ->]; constructor|].
  destruct (run_exec a s) as [s1|] eqn:E; [|done]. intros Hs. eapply run_steps_l; [by eapply run_exec_step|by apply IH].
Qed.
End workers.

(** ** Two workers, one record each *)

Definition ex_race_props (warmup : string) : ref_props :=
  [("recordcount", "2"); ("threadcount", "2"); ("dotransactions", "false"); ("dataintegrity", "true"); ("warmuptime", warmup);
   ("fieldcount", "1"); ("fieldlength", "12"); ("insertorder", "ordered"); ("zeropadding", "4")].

(** Both take a number before either inserts, the second inserts first. *)
Definition ex_schedule : list label :=
  [Thread 0; Thread 1; Thread 0; Thread 1; Measure; Thread 1; Thread 0; Thread 0; Thread 1; Thread 1; Thread 0; Thread 0; Thread 1;
   Thread 1; Thread 0; Main; Measure; Main].

(** The first worker finishes an insert before the goroutine of the measurement has ended
    the warm-up. *)
Definition ex_early_schedule : list label :=
  [Thread 0; Thread 0; Thread 0; Thread 0; Thread 0; Thread 0; Thread 0; Measure; Thread 0; Thread 0; Thread 1; Thread 1; Thread 1].

Definition ex_state_of (warmup : string) (l : list label) : option (core ref_props * run_state (gmap string row)) :=
  match @Create _ _ math_exp1 (ex_race_props warmup) ex_create_env with
  | Ok (c, gs, pool) =>
      s ← @run_trace _ _ math_exp1 _ (ex_race_props warmup) c (core_InitThread c) store_db (λ t, in_env (mret None)) l
        (run_start (ex_race_props warmup) {| w_env := store_env; w_rand := []; w_gens := gs; w_pool := pool |}
           (0 <? GetInt64 (ex_race_props warmup) prop.WarmUpTime 0));
      Some (c, s)
  | _ => None
  end.

Definition ex_records (cs : core ref_props * run_state (gmap string row)) : gmap string row := env_db (w_env (r_world cs.2)).

Lemma ex_state_steps warmup l c s : ex_state_of warmup l = Some (c, s) →
  ∃ gs pool, @Create _ _ math_exp1 (ex_race_props warmup) ex_create_env = Ok (c, gs, pool) ∧
  @run_steps _ _ math_exp1 _ (ex_race_props warmup) c (core_InitThread c) store_db (λ t, in_env (mret None))
    (run_start (ex_race_props warmup) {| w_env := store_env; w_rand := []; w_gens := gs; w_pool := pool |}
       (0 <? GetInt64 (ex_race_props warmup) prop.WarmUpTime 0)) (length l) s.
Proof.
  unfold ex_state_of. destruct (Create _ _) as [[[c' gs] pool]|?|?|]; [|done..].
  destruct (run_trace _ _ _ _ _ _ _) as [s'|] eqn:E; [|done]. intros [= <- <-]. exists gs, pool. split; [done|].
  exact (run_trace_steps _ _ _ _ _ _ _ _ E).
Qed.

(** With a warm-up time a load may insert more records than it was asked for: inserts that
    are finished before the measuring goroutine has ended the warm-up are not counted. *)
Lemma load_warmup_extra :
  ∃ c s, ex_state_of "1" ex_early_schedule = Some (c, s) ∧ totalOpCount (ex_race_props "1") = 2 ∧
    buildKeyName c 2 ∈ dom (ex_records (c, s)).
Proof.
  destruct (ex_state_of "1" ex_early_schedule) as [[c s]|] eqn:E; [|exfalso; vm_compute in E; discriminate E].
  exists c, s. split; [done|]. split; [reflexivity|].
  assert (Hb : (match ex_state_of "1" ex_early_schedule with
                | Some (c, s) => bool_decide (buildKeyName c 2 ∈ dom (ex_records (c, s))) | None => false end) = true)
    by (vm_compute; reflexivity).
  rewrite E in Hb. by apply bool_decide_eq_true in Hb.
Qed.

Lemma load_interleaved_witness :
  ∃ c s, ex_state_of "0" ex_schedule = Some (c, s) ∧ r_main s = RReturned ∧
    ∀ i, 0 <= i < 2 → ∃ values w', ex_records (c, s) !! buildKeyName c i = Some values ∧
      @verifyRow math_exp1 _ (buildKeyName c i) values (r_world s) = Ok (tt, w').
Proof.
  assert (Hb : (match ex_state_of "0" ex_schedule with
                | Some (c, s) => match r_main s with RReturned => negb (r_cancelled s) | _ => false end
                                 && dataIntegrity c && (insertionRetryLimit c <=? 0)
                | None => false end) = true) by (vm_compute; reflexivity).
  destruct (ex_state_of "0" ex_schedule) as [[c s]|] eqn:E; [|discriminate Hb].
  exists c, s. split; [reflexivity|]. apply andb_prop in Hb as [Hb Hr]. apply andb_prop in Hb as [Hb Hi].
  destruct (r_main s) eqn:Hm; try discriminate Hb. split; [reflexivity|].
  destruct (ex_state_steps _ _ _ _ E) as (gs & pool & Ec & Hs).
  refine (proj2 (proj2 (proj2 (@load_interleaved _ _ math_exp1 _ (ex_race_props "0") c (core_InitThread c) store_db (λ t, in_env (mret None))
    ex_create_env gs pool id _ (λ t, mret None) store_env [] (length ex_schedule) s Ec eq_refl eq_refl Hi _ _ _ _ _ _ _ _ _ _ _ _ Hs))) Hm _);
    clear -Hr Hb.
  - vm_compute. split; discriminate.
  - by apply Z.leb_le.
  - reflexivity.
  - vm_compute. discriminate.
  - reflexivity.
  - vm_compute. discriminate.
  - vm_compute. discriminate.
  - vm_compute. split; [done|discriminate].
  - vm_compute. discriminate.
  - vm_compute. reflexivity.
  - intros t e. by eexists _, _.
  - reflexivity.
  - by destruct (r_cancelled s).
Defined.
