(* ===== verification/KV.v ===== *)
(** * Ordered key-value stores

    The interface of the TiKV clients the drivers call
    ([github.com/tikv/client-go]: rawkv and txnkv), which are not in the repository:
    classes of operations on an abstract client state, and their documented laws
    relative to the map of keys the client's store holds.  Keys are byte strings in
    lexicographic order. *)

From stdpp Require Import sorting.
From S2P Require Import Prelude.

#[global] Instance byte_countable : Countable byte :=
  inj_countable Byte.to_N Byte.of_N Byte.of_to_N.

Abbreviation store := (gmap bytes bytes).
Abbreviation kv_error := string.

(** ** Lexicographic order of byte strings *)

Fixpoint bytes_lt (a b : bytes) : bool :=
  match a, b with
  | _, [] => false
  | [], _ :: _ => true
  | x :: a, y :: b =>
      (byte_to_Z x <? byte_to_Z y) || ((byte_to_Z x =? byte_to_Z y) && bytes_lt a b)
  end.

Definition bytes_le (a b : bytes) : bool := negb (bytes_lt b a).

Lemma bytes_lt_irrefl a : bytes_lt a a = false.
Proof. induction a as [|x a IH]; simpl; [done|]. by rewrite Z.ltb_irrefl, Z.eqb_refl, IH. Qed.

Lemma bytes_lt_trans a b c : bytes_lt a b = true → bytes_lt b c = true → bytes_lt a c = true.
Proof.
  revert b c. induction a as [|x a IH]; intros [|y b] [|z c]; simpl; try done.
  rewrite !orb_true_iff, !andb_true_iff, !Z.ltb_lt, !Z.eqb_eq.
  intros [?|[? Ha]] [?|[? Hb]]; [left; lia|left; lia|left; lia|right; split; [lia|by eapply IH]].
Qed.

Lemma bytes_lt_total a b : a ≠ b → bytes_lt a b = false → bytes_lt b a = true.
Proof.
  revert b. induction a as [|x a IH]; intros [|y b]; simpl; try done.
  rewrite orb_false_iff, andb_false_iff, orb_true_iff, andb_true_iff, Z.ltb_ge, Z.ltb_lt, Z.eqb_eq, Z.eqb_neq.
  intros Hne [Hle [Hx|Hb]]; [left; lia|].
  destruct (decide (byte_to_Z x = byte_to_Z y)) as [E|]; [|left; lia]. right. split; [done|].
  apply (inj byte_to_Z) in E as ->. apply IH; congruence.
Qed.

(** [append(k, 0)] is the key right after [k]. *)
Lemma bytes_lt_succ k a : bytes_lt a (k ++ [x00]) = true ↔ bytes_le a k = true.
Proof.
  unfold bytes_le. revert a. induction k as [|x k IH]; intros [|y a]; simpl; try done.
  - destruct a; simpl; rewrite ?orb_true_iff, ?andb_true_iff, ?Z.ltb_lt, ?Z.eqb_eq;
      pose proof (byte_to_Z_range y); change (byte_to_Z x00) with 0; (split; [|done]);
      intros [?|[_ ?]]; [lia|done|lia|done].
  - rewrite orb_true_iff, andb_true_iff, IH, negb_true_iff, negb_true_iff, orb_false_iff, andb_false_iff,
      Z.ltb_lt, Z.ltb_ge, Z.eqb_eq, Z.eqb_neq.
    destruct (bytes_lt k a); split.
    + intros [?|[? ?]]; [|done]. split; [lia|left; lia].
    + intros [? [?|?]]; [left; lia|done].
    + intros [?|[? _]]; (split; [lia|]); [left; lia|by right].
    + intros [? _]. destruct (decide (byte_to_Z y = byte_to_Z x)); [right; done|left; lia].
Qed.

Definition key_le (p q : bytes * bytes) : Prop := bytes_le p.1 q.1 = true.

#[global] Instance key_le_dec : RelDecision key_le.
Proof. intros p q. unfold key_le. apply _. Defined.

(** The entries of a range, [[lo, hi)] or everything from [lo] on, in key order. *)
Definition in_range (lo : bytes) (hi : option bytes) (k : bytes) : bool :=
  bytes_le lo k && match hi with Some h => bytes_lt k h | None => true end.

Definition range_entries (m : store) (lo : bytes) (hi : option bytes) : list (bytes * bytes) :=
  merge_sort key_le (map_to_list (filter (λ kv, in_range lo hi kv.1 = true) m)).

(** ** rawkv *)

Class RawKV (C : Type) := {
  raw_Get : bytes → M C (option bytes * option kv_error);
  raw_Put : bytes → bytes → M C (option kv_error);
  raw_BatchGet : list bytes → M C (list (option bytes) * option kv_error);
  raw_BatchPut : list bytes → list bytes → M C (option kv_error);
  raw_Delete : bytes → M C (option kv_error);
  raw_BatchDelete : list bytes → M C (option kv_error);
  raw_Scan : bytes → option bytes → Z → M C (list bytes * list bytes * option kv_error);
  raw_DeleteRange : bytes → bytes → M C (option kv_error);
  raw_CompareAndSwap : bytes → bytes → bytes → M C (option bytes * bool * option kv_error);
  raw_Close : M C (option kv_error)
}.

Definition put_all_kv (m : store) (kvs : list (bytes * bytes)) : store :=
  foldl (λ m kv, <[kv.1 := kv.2]> m) m kvs.

(** What an operation that reports no error has done; [view] is the store behind the
    client. *)
Class RawKVLaws (C : Type) `{RawKV C} (view : C → store) : Prop := {
  law_Get : ∀ k c v c', raw_Get k c = Ok ((v, None), c') → v = view c !! k ∧ view c' = view c;
  law_Put : ∀ k v c c', raw_Put k v c = Ok (None, c') → view c' = <[k := v]> (view c);
  law_BatchGet : ∀ ks c vs c', raw_BatchGet ks c = Ok ((vs, None), c') →
    vs = (λ k, view c !! k) <$> ks ∧ view c' = view c;
  law_BatchPut : ∀ ks vs c c', raw_BatchPut ks vs c = Ok (None, c') →
    length ks = length vs ∧ view c' = put_all_kv (view c) (zip ks vs);
  law_Delete : ∀ k c c', raw_Delete k c = Ok (None, c') → view c' = delete k (view c);
  law_BatchDelete : ∀ ks c c', raw_BatchDelete ks c = Ok (None, c') →
    view c' = foldl (λ m k, delete k m) (view c) ks;
  law_Scan : ∀ lo hi n c ks vs c', raw_Scan lo hi n c = Ok ((ks, vs, None), c') →
    zip ks vs = take (Z.to_nat n) (range_entries (view c) lo hi) ∧ length ks = length vs ∧
    view c' = view c;
  law_DeleteRange : ∀ lo hi c c', raw_DeleteRange lo hi c = Ok (None, c') →
    view c' = filter (λ kv, in_range lo (Some hi) kv.1 = false) (view c);
  law_CompareAndSwap : ∀ k prev v c old ok c',
    raw_CompareAndSwap k prev v c = Ok ((old, ok, None), c') →
    ok = bool_decide (view c !! k = Some prev) ∧
    view c' = if ok then <[k := v]> (view c) else view c
}.

(** A store that never fails. *)
#[global] Instance mem_RawKV : RawKV store := {
  raw_Get k := λ m, Ok ((m !! k, None), m);
  raw_Put k v := λ m, Ok (None, <[k := v]> m);
  raw_BatchGet ks := λ m, Ok (((λ k, m !! k) <$> ks, None), m);
  raw_BatchPut ks vs := λ m,
    if decide (length ks = length vs) then Ok (None, put_all_kv m (zip ks vs))
    else Ok (Some "the len of keys is not equal to the len of values", m);
  raw_Delete k := λ m, Ok (None, delete k m);
  raw_BatchDelete ks := λ m, Ok (None, foldl (λ m k, delete k m) m ks);
  raw_Scan lo hi n := λ m,
    let l := take (Z.to_nat n) (range_entries m lo hi) in Ok ((l.*1, l.*2, None), m);
  raw_DeleteRange lo hi := λ m, Ok (None, filter (λ kv, in_range lo (Some hi) kv.1 = false) m);
  raw_CompareAndSwap k prev v := λ m,
    let ok := bool_decide (m !! k = Some prev) in
    Ok ((m !! k, ok, None), if ok then <[k := v]> m else m);
  raw_Close := mret None
}.

#[global] Instance mem_RawKVLaws : RawKVLaws store id.
Proof.
  split; simpl; intros; try (by simplify_eq).
  - case_decide; by simplify_eq.
  - simplify_eq. split; [|split; [by rewrite !length_fmap|done]].
    by rewrite zip_fst_snd.
Qed.

(** ** Ranges *)

Lemma bytes_le_trans a b c : bytes_le a b = true → bytes_le b c = true → bytes_le a c = true.
Proof.
  unfold bytes_le. rewrite !negb_true_iff. intros Hab Hbc.
  destruct (bytes_lt c a) eqn:E; [|done].
  destruct (decide (a = b)) as [->|Hne]; [congruence|].
  apply (bytes_lt_total b a) in Hab; [|done]. by rewrite (bytes_lt_trans c a b E Hab) in Hbc.
Qed.

Lemma bytes_le_antisym a b : bytes_le a b = true → bytes_le b a = true → a = b.
Proof.
  unfold bytes_le. rewrite !negb_true_iff. intros H1 H2.
  destruct (decide (a = b)) as [|Hne]; [done|]. apply bytes_lt_total in H2; [congruence|done].
Qed.

#[global] Instance key_le_trans : Transitive key_le.
Proof. intros x y z. apply bytes_le_trans. Qed.

#[global] Instance key_le_total : Total key_le.
Proof.
  intros x y. unfold key_le, bytes_le. destruct (bytes_lt y.1 x.1) eqn:E; [|by left].
  right. rewrite negb_true_iff. destruct (bytes_lt x.1 y.1) eqn:E'; [|done].
  pose proof (bytes_lt_trans _ _ _ E E') as Hx. by rewrite bytes_lt_irrefl in Hx.
Qed.

Lemma range_entries_perm m lo hi :
  range_entries m lo hi ≡ₚ map_to_list (filter (λ kv, in_range lo hi kv.1 = true) m).
Proof. apply merge_sort_Permutation. Qed.

Lemma range_entries_elem m lo hi k v :
  (k, v) ∈ range_entries m lo hi ↔ m !! k = Some v ∧ in_range lo hi k = true.
Proof. by rewrite range_entries_perm, elem_of_map_to_list, map_lookup_filter_Some. Qed.

Lemma range_entries_sorted m lo hi : StronglySorted key_le (range_entries m lo hi).
Proof. apply StronglySorted_merge_sort; apply _. Qed.

Lemma range_entries_nodup m lo hi : NoDup (range_entries m lo hi).*1.
Proof. rewrite range_entries_perm. apply NoDup_fst_map_to_list. Qed.

Lemma range_entries_length m lo hi :
  length (range_entries m lo hi) = size (filter (λ kv, in_range lo hi kv.1 = true) m).
Proof. by rewrite range_entries_perm, length_map_to_list. Qed.

(** Splitting a sorted list of distinct keys at an element: what comes after has
    greater keys, what comes before has not. *)
Lemma sorted_split (l1 l2 : list (bytes * bytes)) x y :
  StronglySorted key_le (l1 ++ x :: l2) → NoDup (l1 ++ x :: l2).*1 → y ∈ l1 ++ x :: l2 →
  bytes_le y.1 x.1 = false ↔ y ∈ l2.
Proof.
  intros Hs Hn Hy. rewrite fmap_app, fmap_cons in Hn.
  apply list.NoDup_app in Hn as (_ & Hn1 & Hn2). apply list.NoDup_cons in Hn2 as [Hx _].
  assert (Hs' : StronglySorted key_le (x :: l2) ∧ ∀ a, a ∈ l1 → key_le a x).
  { clear -Hs. induction l1 as [|a l1 IH]; simpl in Hs; [split; [done|by intros ? ?%elem_of_nil]|].
    apply StronglySorted_inv in Hs as [Hs Ha]. destruct (IH Hs) as [Hs1 Hs2]. split; [done|].
    intros b [->|Hb]%elem_of_cons; [|by apply Hs2]. rewrite list.Forall_forall in Ha. apply Ha. set_solver. }
  destruct Hs' as [Hs2 Hs1]. apply StronglySorted_inv in Hs2 as [_ Hs2]. rewrite list.Forall_forall in Hs2. split.
  - intros Hle. apply elem_of_app in Hy as [Hy|[->|Hy]%elem_of_cons]; [|exfalso|done].
    + apply Hs1 in Hy. unfold key_le in Hy. congruence.
    + unfold bytes_le in Hle. by rewrite bytes_lt_irrefl in Hle.
  - intros Hy2. destruct (bytes_le y.1 x.1) eqn:E; [|done]. exfalso. apply Hx.
    rewrite (bytes_le_antisym x.1 y.1 (Hs2 y Hy2) E). by apply list_elem_of_fmap_2.
Qed.

(** Scanning on from the key after the [n]-th entry is skipping [n] entries. *)
Lemma range_entries_next m lo hi l1 x l2 :
  range_entries m lo hi = l1 ++ x :: l2 → range_entries m (x.1 ++ [x00]) hi = l2.
Proof.
  intros E. pose proof (range_entries_sorted m lo hi) as Hs. pose proof (range_entries_nodup m lo hi) as Hn.
  rewrite E in Hs, Hn. apply (StronglySorted_unique_strong key_le).
  - intros [k1 v1] [k2 v2] H1 H2 Hle1 Hle2. apply range_entries_elem in H1 as [H1 _].
    assert ((k2, v2) ∈ range_entries m lo hi) as Hin by (rewrite E; set_solver).
    apply range_entries_elem in Hin as [H2' _].
    assert (k1 = k2) as -> by by apply bytes_le_antisym. by simplify_eq.
  - apply range_entries_sorted.
  - clear -Hs. induction l1 as [|a l1 IH]; simpl in Hs; apply StronglySorted_inv in Hs as [Hs _]; [done|by apply IH].
  - apply NoDup_Permutation.
    + eapply NoDup_fmap_1, range_entries_nodup.
    + rewrite fmap_app, fmap_cons in Hn. apply list.NoDup_app in Hn as (_ & _ & Hn).
      apply list.NoDup_cons in Hn as [_ Hn]. by eapply NoDup_fmap_1.
    + intros [k v]. rewrite range_entries_elem. unfold in_range.
      assert (Hsucc : bytes_le (x.1 ++ [x00]) k = negb (bytes_le k x.1)).
      { unfold bytes_le at 1. f_equal. apply eq_bool_prop_intro. rewrite !Is_true_true. apply bytes_lt_succ. }
      rewrite Hsucc. split.
      * intros [Hm Hr]. apply andb_true_iff in Hr as [Hr Hhi]. apply negb_true_iff in Hr.
        apply (sorted_split l1 l2 x (k, v) Hs Hn); [|done]. rewrite <- E. apply range_entries_elem.
        split; [done|]. unfold in_range. rewrite Hhi, andb_true_r.
        assert (x ∈ range_entries m lo hi) as Hx by (rewrite E; set_solver).
        destruct x as [kx vx]. apply range_entries_elem in Hx as [_ Hx].
        unfold in_range in Hx. apply andb_true_iff in Hx as [Hlo _]. apply (bytes_le_trans _ kx); [done|].
        unfold bytes_le in Hr |- *. simpl in Hr. apply negb_false_iff in Hr.
        apply negb_true_iff. destruct (bytes_lt k kx) eqn:Ek; [|done].
        pose proof (bytes_lt_trans _ _ _ Hr Ek) as Hi. by rewrite bytes_lt_irrefl in Hi.
      * intros Hin. assert (Hall : (k, v) ∈ l1 ++ x :: l2) by set_solver.
        pose proof (proj2 (sorted_split l1 l2 x (k, v) Hs Hn Hall) Hin) as Hlt.
        rewrite <- E in Hall. apply range_entries_elem in Hall as [Hm Hr]. split; [done|].
        simpl in Hlt. rewrite Hlt. simpl. unfold in_range in Hr. by apply andb_true_iff in Hr as [_ ?].
Qed.

(** The keys of a prefix range: the prefix followed by something below the bound. *)
Lemma prefix_range p b x : in_range p (Some (p ++ b)) (p ++ x) = bytes_lt x b.
Proof.
  unfold in_range, bytes_le. assert (bytes_lt (p ++ x) p = false) as ->.
  { induction p as [|c p IH]; simpl; [by destruct x|]. by rewrite Z.ltb_irrefl, Z.eqb_refl, IH. }
  simpl. induction p as [|c p IH]; simpl; [done|]. by rewrite Z.ltb_irrefl, Z.eqb_refl, IH.
Qed.

Lemma range_has_prefix p b k : in_range p (Some (p ++ b)) k = true → ∃ x, k = p ++ x.
Proof.
  unfold in_range, bytes_le. revert k. induction p as [|c p IH]; intros k; simpl; [by exists k|].
  destruct k as [|d k]; simpl; [done|].
  rewrite negb_orb, negb_andb, !andb_true_iff, orb_true_iff, !negb_true_iff, orb_true_iff, andb_true_iff,
    Z.ltb_ge, Z.eqb_neq, Z.ltb_lt, Z.eqb_eq.
  intros [[Hge Hk] [?|[Heq Hlt]]]; [lia|].
  assert (d = c) as -> by by apply (inj byte_to_Z).
  destruct Hk as [?|Hk]; [done|]. destruct (IH k) as (x & ->); [by rewrite Hk, Hlt|]. by exists x.
Qed.

(** ** Working through a range in batches *)

(** Where the next batch starts after [taken]: right after its last key. *)
Definition next_start (taken : list (bytes * bytes)) (startKey : bytes) : bytes :=
  match list.last taken with Some kv => kv.1 ++ [x00] | None => startKey end.

Lemma next_start_cons kv l startKey : next_start (kv :: l) startKey = next_start l (kv.1 ++ [x00]).
Proof.
  destruct l as [|kv' l]; [done|]. unfold next_start. rewrite last_cons_cons.
  destruct (list.last (kv' :: l)) eqn:E; [done|]. by apply list.last_None in E.
Qed.

(** Where a scan that has taken a full batch goes on. *)
Lemma next_start_rest m lo hi n taken :
  taken = take n (range_entries m lo hi) → taken ≠ [] →
  range_entries m (next_start taken lo) hi = drop n (range_entries m lo hi).
Proof.
  intros Ht Hne. destruct (list.last taken) as [kv|] eqn:El; [|apply list.last_None in El; congruence].
  unfold next_start. rewrite El. apply list.last_Some in El as (l1 & El).
  apply (range_entries_next m lo hi l1). rewrite <- (take_drop n (range_entries m lo hi)) at 1.
  by rewrite <- Ht, El, <- app_assoc.
Qed.

(** Deleting a list of keys. *)
Definition delete_all (m : store) (keys : list bytes) : store := foldl (λ m k, delete k m) m keys.

Lemma delete_all_lookup keys m k : delete_all m keys !! k = if decide (k ∈ keys) then None else m !! k.
Proof.
  unfold delete_all. revert m. induction keys as [|k' keys IH]; intros m; cbn [foldl].
  - case_decide as Hk; [by apply elem_of_nil in Hk|done].
  - rewrite IH. destruct (decide (k = k')) as [->|Hne]; [rewrite lookup_delete_eq|rewrite lookup_delete_ne by done];
      repeat case_decide; set_solver.
Qed.

Section batch.
Context (m : store) (lo : bytes) (hi : option bytes) (n : nat).

Abbreviation taken := (take n (range_entries m lo hi)).

Lemma taken_in_range k : k ∈ taken.*1 → in_range lo hi k = true.
Proof.
  intros ([k' v] & -> & Hin)%list_elem_of_fmap. simpl.
  apply (range_entries_elem m lo hi k' v). rewrite <- (take_drop n (range_entries m lo hi)).
  apply elem_of_app. by left.
Qed.

Context (Hne : taken ≠ []).

(** A key of the range is in this batch or in the range that is left. *)
Lemma batch_split k v :
  m !! k = Some v → in_range lo hi k = true →
  k ∉ taken.*1 ↔ in_range (next_start taken lo) hi k = true.
Proof.
  intros Hm Hk. pose proof (next_start_rest m lo hi n taken eq_refl Hne) as Hnx.
  pose proof (range_entries_nodup m lo hi) as Hnd.
  assert ((k, v) ∈ range_entries m lo hi) as Hin by by apply range_entries_elem.
  rewrite <- (take_drop n (range_entries m lo hi)) in Hin, Hnd. rewrite fmap_app in Hnd.
  apply list.NoDup_app in Hnd as (_ & Hnd & _). split.
  - intros Hn. apply (range_entries_elem m _ hi k v). rewrite Hnx. apply elem_of_app in Hin as [Hin|Hin]; [|done].
    destruct Hn. by apply (list_elem_of_fmap_2 fst _ (k, v)).
  - intros Hk' Ht. apply (Hnd k Ht).
    assert ((k, v) ∈ drop n (range_entries m lo hi)) as Hd by (rewrite <- Hnx; by apply range_entries_elem).
    by apply (list_elem_of_fmap_2 fst _ (k, v)).
Qed.

(** Whatever is in the range that is left was in the range. *)
Lemma batch_rest k v :
  m !! k = Some v → in_range (next_start taken lo) hi k = true → in_range lo hi k = true.
Proof.
  intros Hm Hk. pose proof (next_start_rest m lo hi n taken eq_refl Hne) as Hnx.
  apply (range_entries_elem m lo hi k v). rewrite <- (take_drop n (range_entries m lo hi)).
  apply elem_of_app. right. rewrite <- Hnx. by apply range_entries_elem.
Qed.

(** Deleting the batch leaves what comes after it. *)
Lemma range_entries_after :
  range_entries (delete_all m taken.*1) (next_start taken lo) hi = drop n (range_entries m lo hi).
Proof.
  rewrite <- (next_start_rest m lo hi n taken eq_refl Hne). unfold range_entries at 1 4. do 2 f_equal.
  apply map_eq. intros k. rewrite !map_lookup_filter, delete_all_lookup.
  destruct (m !! k) as [v|] eqn:Ek; [|by case_decide].
  case_decide as Ht; [|done]. simpl. case_guard as Hg; [|done]. exfalso. simpl in Hg.
  apply (proj2 (batch_split k v Ek (batch_rest k v Ek Hg)) Hg Ht).
Qed.
End batch.

(** What a deletion of the range in batches may leave: without an error exactly what is
    outside the range; with one, some of the range may be left. *)
Definition range_cleared (m : store) (lo : bytes) (hi : option bytes) (complete : bool) (m' : store) : Prop :=
  if complete then m' = filter (λ kv, in_range lo hi kv.1 = false) m
  else ∀ k, m' !! k = m !! k ∨ in_range lo hi k = true ∧ m' !! k = None.

Lemma range_cleared_partial m lo hi n :
  range_cleared m lo hi false (delete_all m (take n (range_entries m lo hi)).*1).
Proof.
  intros k. rewrite delete_all_lookup. case_decide as Hk; [right|by left]. split; [|done].
  by eapply taken_in_range.
Qed.

Lemma range_cleared_last m lo hi n :
  (length (take n (range_entries m lo hi)) < n)%nat →
  range_cleared m lo hi true (delete_all m (take n (range_entries m lo hi)).*1).
Proof.
  rewrite length_take. intros Hn. rewrite take_ge by lia. apply map_eq. intros k.
  rewrite delete_all_lookup, map_lookup_filter. destruct (m !! k) as [v|] eqn:Ek; [|by case_decide].
  simpl. case_decide as Hin.
  - apply list_elem_of_fmap in Hin as ([k' v'] & -> & Hin). apply range_entries_elem in Hin as [_ Hr].
    simpl. by rewrite Hr.
  - case_guard as Hg; [done|]. destruct Hin. apply (list_elem_of_fmap_2 fst _ (k, v)).
    apply range_entries_elem. split; [done|]. by destruct (in_range lo hi k).
Qed.

Lemma range_cleared_batch m lo hi n complete m' :
  let taken := take n (range_entries m lo hi) in taken ≠ [] →
  range_cleared (delete_all m taken.*1) (next_start taken lo) hi complete m' →
  range_cleared m lo hi complete m'.
Proof.
  intros taken Hne. subst taken. unfold range_cleared. destruct complete.
  - intros ->. apply map_eq. intros k. rewrite !map_lookup_filter, delete_all_lookup.
    destruct (m !! k) as [v|] eqn:Ek; [|by case_decide]. case_decide as Ht; simpl.
    + by rewrite (taken_in_range m lo hi n k Ht).
    + destruct (in_range lo hi k) eqn:Er.
      * by rewrite (proj1 (batch_split m lo hi n Hne k v Ek Er) Ht).
      * destruct (in_range (next_start (take n (range_entries m lo hi)) lo) hi k) eqn:Er'; [|done].
        by rewrite (batch_rest m lo hi n Hne k v Ek Er') in Er.
  - intros Hc k. destruct (Hc k) as [->|[Hr ->]].
    + apply (range_cleared_partial m lo hi n).
    + destruct (m !! k) as [v|] eqn:Ek; [right|by left]. split; [|done]. by eapply batch_rest.
Qed.

(** ** txnkv

    A transaction is a handle (a pointer in Go) into the client state; an iterator is a
    value of [I]. *)
Abbreviation txn_id := nat.

Class TxnKV (C I : Type) := {
  IsErrNotFound : kv_error → bool;
  txn_Begin : M C (kv_error + txn_id);
  txn_SetEnableAsyncCommit : txn_id → bool → M C unit;
  txn_SetEnable1PC : txn_id → bool → M C unit;
  txn_Get : txn_id → bytes → M C (option bytes * option kv_error);
  txn_Set : txn_id → bytes → bytes → M C (option kv_error);
  txn_Delete : txn_id → bytes → M C (option kv_error);
  txn_Iter : txn_id → bytes → option bytes → M C (kv_error + I);
  it_Valid : I → bool;
  it_Key : I → bytes;
  it_Value : I → bytes;
  it_Next : I → M C (I * option kv_error);
  it_Close : I → M C unit;
  txn_Commit : txn_id → M C (option kv_error);
  txn_Rollback : txn_id → M C (option kv_error);
  txn_Close : M C (option kv_error)
}.

(** What the operations do to the committed store [view] and to [open], the stores the
    open transactions see (their snapshot with their own writes), while no one else
    commits.  A [Commit] that reports an error may or may not have been applied. *)
Class TxnKVLaws (C I : Type) `{TxnKV C I} (view : C → store) (open : C → gmap txn_id store)
    (it_rest : I → list (bytes * bytes)) : Prop := {
  law_txn_Begin : ∀ c r c', txn_Begin c = Ok (r, c') →
    view c' = view c ∧
    match r with
    | inr t => open c !! t = None ∧ open c' = <[t := view c]> (open c)
    | inl _ => open c' = open c
    end;
  law_txn_AsyncCommit : ∀ t b c c', txn_SetEnableAsyncCommit t b c = Ok (tt, c') →
    view c' = view c ∧ open c' = open c;
  law_txn_1PC : ∀ t b c c', txn_SetEnable1PC t b c = Ok (tt, c') →
    view c' = view c ∧ open c' = open c;
  law_txn_Get : ∀ t k m c v err c', open c !! t = Some m → txn_Get t k c = Ok ((v, err), c') →
    view c' = view c ∧ open c' = open c ∧
    match err with
    | None => v = m !! k ∧ v ≠ None
    | Some e => v = None ∧ (IsErrNotFound e = true → m !! k = None)
    end;
  law_txn_Set : ∀ t k v m c err c', open c !! t = Some m → txn_Set t k v c = Ok (err, c') →
    view c' = view c ∧
    match err with
    | None => open c' = <[t := <[k := v]> m]> (open c)
    | Some _ => open c' = open c
    end;
  law_txn_Delete : ∀ t k m c err c', open c !! t = Some m → txn_Delete t k c = Ok (err, c') →
    view c' = view c ∧
    match err with
    | None => open c' = <[t := delete k m]> (open c)
    | Some _ => open c' = open c
    end;
  law_txn_Iter : ∀ t lo hi m c r c', open c !! t = Some m → txn_Iter t lo hi c = Ok (r, c') →
    view c' = view c ∧ open c' = open c ∧
    match r with inr i => it_rest i = range_entries m lo hi | inl _ => True end;
  law_it_Valid : ∀ i, it_Valid i = negb (bool_decide (it_rest i = []));
  law_it_head : ∀ i k v l, it_rest i = (k, v) :: l → it_Key i = k ∧ it_Value i = v;
  law_it_Next : ∀ i c i' err c', it_Next i c = Ok ((i', err), c') →
    view c' = view c ∧ open c' = open c ∧ (err = None → it_rest i' = tail (it_rest i));
  law_it_Close : ∀ i c c', it_Close i c = Ok (tt, c') → view c' = view c ∧ open c' = open c;
  law_txn_Commit : ∀ t m c err c', open c !! t = Some m → txn_Commit t c = Ok (err, c') →
    open c' = delete t (open c) ∧ (view c' = m ∨ err ≠ None ∧ view c' = view c);
  law_txn_Rollback : ∀ t c err c', txn_Rollback t c = Ok (err, c') →
    view c' = view c ∧ open c' = delete t (open c)
}.

(** A transactional store that never fails. *)
Record mem_txn := { mt_store : store; mt_open : gmap txn_id store }.

Definition mt_set_open (o : gmap txn_id store) (c : mem_txn) : mem_txn :=
  {| mt_store := mt_store c; mt_open := o |}.

Definition mt_key_not_found : kv_error := "not exist".

(** An operation on an open transaction. *)
Definition mt_on {A} (t : txn_id) (f : store → mem_txn → A * mem_txn) (bad : A) : M mem_txn A := λ c,
  match mt_open c !! t with
  | Some m => Ok (f m c)
  | None => Ok (bad, c)
  end.

#[global] Instance mem_TxnKV : TxnKV mem_txn (list (bytes * bytes)) := {
  IsErrNotFound e := String.eqb e mt_key_not_found;
  txn_Begin := λ c, let t := fresh (dom (mt_open c)) in
    Ok (inr t, mt_set_open (<[t := mt_store c]> (mt_open c)) c);
  txn_SetEnableAsyncCommit _ _ := mret tt;
  txn_SetEnable1PC _ _ := mret tt;
  txn_Get t k := mt_on t (λ m c,
    (match m !! k with Some v => (Some v, None) | None => (None, Some mt_key_not_found) end, c))
    (None, Some "invalid transaction");
  txn_Set t k v := mt_on t (λ m c, (None, mt_set_open (<[t := <[k := v]> m]> (mt_open c)) c))
    (Some "invalid transaction");
  txn_Delete t k := mt_on t (λ m c, (None, mt_set_open (<[t := delete k m]> (mt_open c)) c))
    (Some "invalid transaction");
  txn_Iter t lo hi := mt_on t (λ m c, (inr (range_entries m lo hi), c)) (inl "invalid transaction");
  it_Valid i := negb (bool_decide (i = []));
  it_Key i := match i with kv :: _ => kv.1 | [] => [] end;
  it_Value i := match i with kv :: _ => kv.2 | [] => [] end;
  it_Next i := mret (tail i, None);
  it_Close _ := mret tt;
  txn_Commit t := mt_on t (λ m c, (None, {| mt_store := m; mt_open := delete t (mt_open c) |}))
    (Some "invalid transaction");
  txn_Rollback t := λ c, Ok (None, mt_set_open (delete t (mt_open c)) c);
  txn_Close := mret None
}.

#[global] Instance mem_TxnKVLaws : TxnKVLaws mem_txn (list (bytes * bytes)) mt_store mt_open id.
Proof.
  split; simpl; unfold mt_on, mret, M_ret.
  - intros c r c' [= <- <-]. simpl. split; [done|split; [|done]]. apply not_elem_of_dom, is_fresh.
  - intros t b c c' [= <-]. done.
  - intros t b c c' [= <-]. done.
  - intros t k m c v err c' ->. destruct (m !! k) eqn:E; intros [= <- <- <-]; rewrite ?E; done.
  - intros t k v m c err c' ->. intros [= <- <-]. done.
  - intros t k m c err c' ->. intros [= <- <-]. done.
  - intros t lo hi m c r c' ->. intros [= <- <-]. done.
  - done.
  - intros i k v l Hi. unfold id in Hi. by rewrite Hi.
  - intros i c i' err c' [= <- <- <-]. done.
  - intros i c c' [= <-]. done.
  - intros t m c err c' ->. intros [= <- <-]. simpl. split; [done|by left].
  - intros t c err c' [= <- <-]. done.
Qed.
