(* ===== verification/TikvRows.v ===== *)
(** * What the two TiKV drivers share

    Row keys, the scratch buffer an insert borrows from the pool, the decoding of the
    rows of a scan ([db/tikv/raw.go], [db/tikv/txn.go]), and what it means that stored
    bytes encode a row. *)

From S2P Require Import Prelude GoStr Props Row Util Ycsb KV.

(** ** Code common to both drivers *)

Definition getRowKey (table key : string) : bytes := bytes_of_string (table +:+ ":" +:+ key).

(** [append(startKey, 0xFF, 0xFF, 0xFF, 0xFF)] *)
Definition end_boundary (startKey : bytes) : bytes := startKey ++ [xff; xff; xff; xff].

(** The constant [batchSize] of [Count] and [Clean]. *)
Definition count_batch : Z := 10000.

(** [for field, value := range values { data[field] = value }] *)
Definition merge_row (values data : row) : row := values ∪ data.

(** [buf := db.bufPool.Get(); defer db.bufPool.Put(buf)] around [f], for a driver state
    with a pool; the deferred call puts back the buffer [f] has grown. *)
Definition with_buf {S A} (pool : S → Pool) (upd : Pool → S → S)
    (f : bytes → M S (A * bytes)) : M S A :=
  s ← get;
  '(buf, p) ← lift (BufPool_Get (pool s));
  _ ← put (upd p s);
  '(a, buf) ← f buf;
  _ ← modify (λ s, upd (BufPool_Put (pool s) buf) s);
  mret a.

(** The loop of [Scan]; rows come from the store, so none is nil. *)
Fixpoint decode_rows (r : RowCodec) (fs : list string) (rows : list bytes)
    : res (list row * option error) :=
  match rows with
  | [] => Ok ([], None)
  | b :: bs =>
      d ← Decode r b fs;
      match d with
      | inl e => Ok ([], Some e)
      | inr x =>
          '(xs, err) ← decode_rows r fs bs;
          Ok match err with Some e => ([], Some e) | None => (x :: xs, None) end
      end
  end.

Lemma with_buf_Ok {S A} (pool : S → Pool) (upd : Pool → S → S) (f : bytes → M S (A * bytes)) s a s' :
  with_buf pool upd f s = Ok (a, s') →
  ∃ buf p b s2 p2, f buf (upd p s) = Ok ((a, b), s2) ∧ s' = upd p2 s2.
Proof.
  unfold with_buf, get, put, modify, lift. intros E. run_inv.
  destruct (BufPool_Get _) as [[buf q]|?|?|]; run_inv. by eexists _, _, _, _, _.
Qed.

Lemma getRowKey_app table key : getRowKey table key = getRowKey table "" ++ bytes_of_string key.
Proof.
  unfold getRowKey. rewrite <- bytes_of_string_app. rewrite <- !string_app_assoc. reflexivity.
Qed.

(** A missing row decodes to the empty row. *)
Lemma Decode_nil r fs : Decode r [] fs = Ok (inr ∅).
Proof.
  unfold Decode. cbn. unfold mret, res_ret. do 2 f_equal.
  generalize (if decide (length fs = 0%nat) then fields r else fs). intros l.
  induction l as [|f l IH]; [done|]. simpl. by rewrite lookup_empty.
Qed.

(** ** Stored rows *)

Section rows.
Context {P : Type} `{PropertiesLaws P} (p : P).

Abbreviation codec := (NewRowCodec p).

(** Rows the codec can carry: only configured fields, lengths that fit. *)
Definition row_ok (v : row) : Prop :=
  (∀ f, f ∈ dom v → f ∈ fields codec) ∧ map_Forall (λ _ b, Z.of_nat (length b) <= max_int64) v.

(** [enc] is an encoding of the row [v]. *)
Definition encodes (enc : bytes) (v : row) : Prop :=
  row_ok v ∧ ∃ kvs buf, kvs ≡ₚ map_to_list v ∧ Encode codec buf kvs = inr enc.

(** The fields asked for, all when none are named. *)
Definition restrict (fs : list string) (v : row) : row :=
  if decide (fs = []) then v else filter (λ kv, kv.1 ∈ fs) v.

Lemma encodes_decode enc v fs :
  encodes enc v → (∀ f, f ∈ fs → f ∈ fields codec) → Decode codec enc fs = Ok (inr (restrict fs v)).
Proof.
  intros [[Hd Hl] (kvs & buf & Hp & E)] Hfs.
  destruct (Encode_Decode p v kvs buf fs Hp Hd Hl Hfs) as (enc' & E' & Hdec). rewrite E in E'. injection E' as <-. exact Hdec.
Qed.

Lemma encodes_decode_all enc v : encodes enc v → Decode codec enc [] = Ok (inr v).
Proof. intros He. rewrite (encodes_decode enc v [] He); [done|by intros ? ?%elem_of_nil]. Qed.

Lemma encode_encodes kvs v buf enc :
  kvs ≡ₚ map_to_list v → row_ok v → Encode codec buf kvs = inr enc → encodes enc v.
Proof. intros Hp Hv E. split; [done|]. by exists kvs, buf. Qed.

Lemma row_ok_union v w : row_ok v → row_ok w → row_ok (v ∪ w).
Proof.
  intros [Hd Hl] [Hd' Hl']. split; [intros f; rewrite dom_union_L; set_solver|].
  intros f b [?|[_ ?]]%lookup_union_Some_raw; [by eapply Hl|by eapply Hl'].
Qed.
End rows.

(** ** For the examples *)

Abbreviation mem_order := (λ m : row, map_to_list m).

Lemma ex_row_ok f b : f ∈ ["field0"; "field1"; "field2"] → Z.of_nat (length b) <= max_int64 →
  row_ok demo_props {[f := b]}.
Proof.
  intros Hf Hb. split.
  - intros g Hg. rewrite dom_singleton_L in Hg. apply elem_of_singleton in Hg as ->. exact Hf.
  - intros g c [_ <-]%lookup_singleton_Some. exact Hb.
Qed.

