(* ===== verification/TikvRaw.v ===== *)
(** * db/tikv: db.go and raw.go

    The raw-mode driver over the rawkv client ([RawKV], a parameter with documented
    laws).  A driver state is the client, the buffer pool and the calling thread's
    [rawDBState] (the row cached for compare-and-swap updates).  The order in which Go
    ranges over a row's map is the parameter [order]. *)

From S2P Require Import Prelude GoStr Props Row Util Ycsb KV TikvRows.

(** ** db.go *)

Definition tikvPD : string := "tikv.pd".
Definition tikvType : string := "tikv.type".
Definition tikvConnCount : string := "tikv.conncount".
Definition tikvBatchSize : string := "tikv.batchsize".
Definition tikvAPIVersion : string := "tikv.apiversion".
Definition tikvUpdateMode : string := "tikv.updatemode".
Definition tikvClusterSSLCA : string := "tikv.cluster-ssl-ca".
Definition tikvClusterSSLCert : string := "tikv.cluster-ssl-cert".
Definition tikvClusterSSLKey : string := "tikv.cluster-ssl-key".

(** The client-go settings [Create] writes, with its dispatch on the driver type. *)
Record tikv_config := {
  GrpcConnectionCount : Z; MaxBatchSize : Z;
  ClusterSSLCA : string; ClusterSSLCert : string; ClusterSSLKey : string
}.

Definition set_nonempty (v old : string) : string := if String.eqb v "" then old else v.

Definition tikv_Create {P R} `{Properties P} (p : P) (cfg : tikv_config)
    (createRawDB createTxnDB : P → error + R) : tikv_config * (error + R) :=
  let cfg := {|
    GrpcConnectionCount := GetInt64 p tikvConnCount 128;
    MaxBatchSize := GetInt64 p tikvBatchSize 128;
    ClusterSSLCA := set_nonempty (GetString p tikvClusterSSLCA "") (ClusterSSLCA cfg);
    ClusterSSLCert := set_nonempty (GetString p tikvClusterSSLCert "") (ClusterSSLCert cfg);
    ClusterSSLKey := set_nonempty (GetString p tikvClusterSSLKey "") (ClusterSSLKey cfg) |} in
  let tp := GetString p tikvType "raw" in
  (cfg, if String.eqb tp "raw" then createRawDB p
        else if String.eqb tp "txn" then createTxnDB p
        else inl ("unsupported type " +:+ tp)).

(** ** raw.go *)

Record rawDB := { raw_r : RowCodec; casMode : bool }.

(** The last row this thread read; a nil row is [None]. *)
Record rawDBState := { st_key : bytes; st_row : option bytes }.

Record raw_state (C : Type) := { raw_client : C; raw_pool : Pool; raw_cache : rawDBState }.
Arguments raw_client {C} _.
Arguments raw_pool {C} _.
Arguments raw_cache {C} _.

Definition createRawDB {P C} `{Properties P} (p : P) (api_version : string → option Z)
    (connect : list string → Z → error + C) (SetAtomicForCAS : C → C) (script : list nat)
    : error + rawDB * raw_state C :=
  let pdAddr := GetString p tikvPD "127.0.0.1:2379" in
  let apiVersionStr := ToUpper (GetString p tikvAPIVersion "V1") in
  match api_version apiVersionStr with
  | None => inl ("Invalid tikv apiversion " +:+ apiVersionStr +:+ ".")
  | Some v =>
      match connect (Split pdAddr ",") v with
      | inl err => inl err
      | inr client =>
          let cas := String.eqb (ToLower (GetString p tikvUpdateMode "getput")) "cas" in
          let client := if cas then SetAtomicForCAS client else client in
          inr ({| raw_r := NewRowCodec p; casMode := cas |},
               {| raw_client := client; raw_pool := NewBufPool script;
                  raw_cache := {| st_key := []; st_row := None |} |})
      end
  end.

Section raw.
Context {C : Type} `{RawKV C} (order : row → list (string * bytes)).

Definition in_client {A} (m : M C A) : M (raw_state C) A :=
  zoom raw_client (λ c s, {| raw_client := c; raw_pool := raw_pool s; raw_cache := raw_cache s |}) m.

Definition set_cache (st : rawDBState) : M (raw_state C) unit :=
  modify (λ s, {| raw_client := raw_client s; raw_pool := raw_pool s; raw_cache := st |}).

(** [with_buf] on this state. *)
Definition raw_with_buf {A} : (bytes → M (raw_state C) (A * bytes)) → M (raw_state C) A :=
  with_buf raw_pool
    (λ p s, {| raw_client := raw_client s; raw_pool := p; raw_cache := raw_cache s |}).

Definition raw_InitThread : M (raw_state C) unit := set_cache {| st_key := []; st_row := None |}.

Definition raw_Read (db : rawDB) (table key : string) (fs : list string)
    : M (raw_state C) (row * option error) :=
  let rowKey := getRowKey table key in
  '(r, err) ← in_client (raw_Get rowKey);
  match err with
  | Some e => mret (∅, Some e)
  | None =>
      match r with
      | None => mret (∅, None)
      | Some r =>
          _ ← (if casMode db then set_cache {| st_key := rowKey; st_row := Some r |} else mret tt);
          d ← lift (Decode (raw_r db) r fs);
          mret match d with inl e => (∅, Some e) | inr v => (v, None) end
      end
  end.

(** The loop of [BatchRead]; the error of [Decode] is overwritten. *)
Fixpoint decode_each (r : RowCodec) (fs : list string) (values : list (option bytes))
    : res (list row) :=
  match values with
  | [] => Ok []
  | v :: vs =>
      x ← match v with
          | Some b =>
              if decide (b = []) then Ok ∅
              else d ← Decode r b fs; Ok match d with inl _ => ∅ | inr x => x end
          | None => Ok ∅
          end;
      xs ← decode_each r fs vs;
      Ok (x :: xs)
  end.

Definition raw_BatchRead (db : rawDB) (table : string) (keys fs : list string)
    : M (raw_state C) (list row * option error) :=
  '(values, err) ← in_client (raw_BatchGet (getRowKey table <$> keys));
  match err with
  | Some e => mret ([], Some e)
  | None => rows ← lift (decode_each (raw_r db) fs values); mret (rows, None)
  end.

Definition raw_ScanRows (db : rawDB) (table startKey : string) (count : Z) (fs : list string)
    : M (raw_state C) (list row * option error) :=
  '(_, rows, err) ← in_client (raw_Scan (getRowKey table startKey) None count);
  match err with
  | Some e => mret ([], Some e)
  | None => lift (decode_rows (raw_r db) fs rows)
  end.

Definition raw_Insert (db : rawDB) (table key : string) (values : row)
    : M (raw_state C) (option error) :=
  raw_with_buf (λ buf,
    match Encode (raw_r db) buf (order values) with
    | inl e => mret (Some e, [])
    | inr enc => err ← in_client (raw_Put (getRowKey table key) enc); mret (err, enc)
    end).

(** The Get+Put path, also taken when a compare-and-swap fails. *)
Definition raw_Update_getput (db : rawDB) (table key : string) (values : row)
    : M (raw_state C) (option error) :=
  '(r, err) ← in_client (raw_Get (getRowKey table key));
  match err with
  | Some e => mret (Some e)
  | None =>
      d ← lift (Decode (raw_r db) (default [] r) []);
      match d with
      | inl e => mret (Some e)
      | inr data => raw_Insert db table key (merge_row values data)
      end
  end.

(** The cached path.  The buffer it borrows is put back when [Update] returns, so
    after the Get+Put path when the swap fails. *)
Definition raw_Update_cas (db : rawDB) (table key : string) (prevRow : bytes) (values : row)
    : M (raw_state C) (option error) :=
  d ← lift (Decode (raw_r db) prevRow []);
  match d with
  | inl e => mret (Some e)
  | inr data =>
      raw_with_buf (λ buf,
        match Encode (raw_r db) buf (order (merge_row values data)) with
        | inl e => mret (Some e, [])
        | inr enc =>
            '(_, success, err) ← in_client (raw_CompareAndSwap (getRowKey table key) prevRow enc);
            match err with
            | Some e => mret (Some e, enc)
            | None =>
                if (success : bool) then mret (None, enc)
                else err ← raw_Update_getput db table key values; mret (err, enc)
            end
        end)
  end.

Definition raw_Update (db : rawDB) (table key : string) (values : row)
    : M (raw_state C) (option error) :=
  s ← get;
  match st_row (raw_cache s) with
  | Some prevRow =>
      if casMode db && bool_decide (st_key (raw_cache s) = getRowKey table key) then
        _ ← set_cache {| st_key := []; st_row := None |};
        raw_Update_cas db table key prevRow values
      else raw_Update_getput db table key values
  | None => raw_Update_getput db table key values
  end.

(** The loop of [BatchUpdate] and [BatchInsert]: each row's map encoded alone. *)
Fixpoint encode_each (r : RowCodec) (table : string) (keys : list string) (values : list row)
    : res (error + list bytes * list bytes) :=
  match keys with
  | [] => Ok (inr ([], []))
  | k :: ks =>
      match values with
      | [] => Panic "index out of range"
      | v :: vs =>
          match Encode r [] (order v) with
          | inl e => Ok (inl e)
          | inr enc =>
              rest ← encode_each r table ks vs;
              Ok match rest with
                 | inl e => inl e
                 | inr (rks, rvs) => inr (getRowKey table k :: rks, enc :: rvs)
                 end
          end
      end
  end.

Definition raw_put_rows (db : rawDB) (table : string) (keys : list string) (values : list row)
    : M (raw_state C) (option error) :=
  kvs ← lift (encode_each (raw_r db) table keys values);
  match kvs with
  | inl e => mret (Some e)
  | inr (rks, rvs) => in_client (raw_BatchPut rks rvs)
  end.

Definition raw_BatchUpdate := raw_put_rows.
Definition raw_BatchInsert := raw_put_rows.

Definition raw_DeleteRow (table key : string) : M (raw_state C) (option error) :=
  in_client (raw_Delete (getRowKey table key)).

Definition raw_BatchDeleteRows (table : string) (keys : list string) : M (raw_state C) (option error) :=
  in_client (raw_BatchDelete (getRowKey table <$> keys)).

(** The scanning loop of [Count]; [fuel] bounds the number of scans. *)
Fixpoint raw_count_loop (fuel : nat) (startKey endKey : bytes) (count : Z)
    : M (raw_state C) (Z * option error) :=
  match fuel with
  | O => stuck
  | S f =>
      '(keys, _, err) ← in_client (raw_Scan startKey (Some endKey) count_batch);
      match err with
      | Some e => mret (0, Some e)
      | None =>
          match list.last keys with
          | None => mret (count, None)
          | Some k =>
              let count := count +! Z.of_nat (length keys) in
              if Z.of_nat (length keys) <? count_batch then mret (count, None)
              else raw_count_loop f (k ++ [x00]) endKey count
          end
      end
  end.

Definition raw_Count (fuel : nat) (table : string) : M (raw_state C) (Z * option error) :=
  let startKey := getRowKey table "" in
  raw_count_loop fuel startKey (end_boundary startKey) 0.

Definition raw_Clean (table : string) : M (raw_state C) (option error) :=
  let startKey := getRowKey table "" in
  in_client (raw_DeleteRange startKey (end_boundary startKey)).

Definition raw_CloseDB : M (raw_state C) (option error) := in_client raw_Close.

(** The driver as a [ycsb.DB]. *)
Definition raw_DB (db : rawDB) (fuel : nat) : DB (raw_state C) := {|
  Close := in_db raw_CloseDB;
  InitThread _ _ := in_db raw_InitThread;
  CleanupThread := mret tt;
  Read t k fs := in_db (raw_Read db t k fs);
  Scan t k n fs := in_db (raw_ScanRows db t k n fs);
  Update t k v := in_db (raw_Update db t k v);
  Insert t k v := in_db (raw_Insert db t k v);
  Delete t k := in_db (raw_DeleteRow t k);
  as_BatchDB := Some {|
    BatchInsert t ks vs := in_db (raw_BatchInsert db t ks vs);
    BatchRead t ks fs := in_db (raw_BatchRead db t ks fs);
    BatchUpdate t ks vs := in_db (raw_BatchUpdate db t ks vs);
    BatchDelete t ks := in_db (raw_BatchDeleteRows t ks) |};
  as_AnalyzeDB := None;
  as_CountDB := Some (λ t, in_db (raw_Count fuel t));
  as_CleanDB := Some (λ t, in_db (raw_Clean t))
|}.

End raw.
