(* ===== verification/TikvRawSpec.v ===== *)
(** * What the raw driver guarantees

    Relative to the store behind the client ([view]): rows are read back as written,
    [Update] merges in both modes, the batch update does not, [Count] is exact, and
    [Clean] removes the key range of a table. *)

From stdpp Require Import sorting.
From S2P Require Import Prelude GoStr Props Row Util Ycsb KV TikvRows TikvRaw.

Section spec.
Context {P : Type} `{PropertiesLaws P} (p : P).
Context {C : Type} `{RawKV C} (view : C → store) `{!RawKVLaws C view}.
Context (order : row → list (string * bytes)) (Horder : ∀ m, order m ≡ₚ map_to_list m).

Abbreviation codec := (NewRowCodec p).
Abbreviation row_ok := (row_ok p).
Abbreviation encodes := (encodes p).

(** A driver whose codec is built from [p]. *)
Context (db : rawDB) (Hdb : raw_r db = codec).

Definition store_of (s : raw_state C) : store := view (raw_client s).

(** The record [key] of [table] is the row [v]. *)
Definition holds (s : raw_state C) (table key : string) (v : row) : Prop :=
  ∃ enc, store_of s !! getRowKey table key = Some enc ∧ encodes enc v.

(** ** Running the parts *)

Lemma in_client_Ok {A} (m : M C A) s a s' :
  in_client m s = Ok (a, s') → ∃ c', m (raw_client s) = Ok (a, c') ∧ raw_client s' = c' ∧
    raw_cache s' = raw_cache s.
Proof. unfold in_client. intros E. run_inv. eauto. Qed.

Lemma row_encodes v buf enc : row_ok v → Encode codec buf (order v) = inr enc → encodes enc v.
Proof. by apply encode_encodes. Qed.

Lemma raw_with_buf_Ok {A} (f : bytes → M (raw_state C) (A * bytes)) s a s' :
  raw_with_buf f s = Ok (a, s') → ∃ buf s1 b s2, f buf s1 = Ok ((a, b), s2) ∧
    store_of s1 = store_of s ∧ store_of s' = store_of s2.
Proof.
  intros (buf & q & b & s2 & q2 & E & ->)%with_buf_Ok. by eexists buf, _, b, s2.
Qed.

(** [Insert] without an error stores an encoding of the row. *)
Lemma raw_Insert_Ok t k v s s' :
  row_ok v → raw_Insert order db t k v s = Ok (None, s') →
  ∃ enc, encodes enc v ∧ store_of s' = <[getRowKey t k := enc]> (store_of s).
Proof.
  intros Hv E. apply raw_with_buf_Ok in E as (buf & s1 & b & s2 & E & H1' & H2'). rewrite Hdb in E.
  destruct (Encode codec buf (order v)) as [e|enc] eqn:Ee; run_inv.
  match goal with Hin : in_client _ _ = _ |- _ => apply in_client_Ok in Hin as (c' & Hc & Hcl & _) end.
  apply (law_Put (view := view)) in Hc. eexists. split; [by eapply row_encodes|].
  rewrite H2'. unfold store_of in *. rewrite Hcl, Hc. by rewrite H1'.
Qed.

Lemma raw_Read_Ok t k fs s r s' v :
  holds s t k v → (∀ f, f ∈ fs → f ∈ fields codec) → raw_Read db t k fs s = Ok ((r, None), s') →
  r = restrict fs v ∧ store_of s' = store_of s.
Proof.
  intros (enc & Hl & He) Hfs E. unfold raw_Read in E. rewrite Hdb in E. run_inv.
  match goal with Hin : in_client _ _ = Ok (_, ?o, _) |- _ =>
    apply in_client_Ok in Hin as (c' & Hc & Hcl & _); destruct o; run_inv end.
  apply (law_Get (view := view)) in Hc as [-> Hv]. unfold store_of in *. rewrite Hl in E. run_inv.
  match goal with Hd : lift _ _ = _ |- _ =>
    unfold lift in Hd; rewrite (encodes_decode p enc v fs He Hfs) in Hd; run_inv end.
  split; [done|]. destruct (casMode db); unfold set_cache, modify in *; run_inv; congruence.
Qed.

(** Reading returns what was inserted.  After an [Insert] that reports no error, a
    [Read] of the same record that reports no error returns the inserted row restricted
    to the requested fields, in either update mode; all other keys of the store are as
    they were. *)
Lemma raw_insert_read t k v fs s s1 r s2 :
  row_ok v → (∀ f, f ∈ fs → f ∈ fields codec) →
  raw_Insert order db t k v s = Ok (None, s1) → raw_Read db t k fs s1 = Ok ((r, None), s2) →
  r = restrict fs v ∧ (∀ k', k' ≠ getRowKey t k → store_of s2 !! k' = store_of s !! k').
Proof.
  intros Hv Hfs E1 E2. destruct (raw_Insert_Ok t k v s s1 Hv E1) as (enc & He & Hs).
  destruct (raw_Read_Ok t k fs s1 r s2 v) as [-> Hs2]; [|done..|].
  - exists enc. by rewrite Hs, lookup_insert_eq.
  - split; [done|]. intros k' Hne. by rewrite Hs2, Hs, lookup_insert_ne.
Qed.

(** The store after a merge of [v] into the record. *)
Definition merged (t k : string) (v v0 : row) (m m' : store) : Prop :=
  ∃ enc, encodes enc (v ∪ v0) ∧ m' = <[getRowKey t k := enc]> m.

Lemma raw_Update_getput_Ok t k v v0 s s' :
  holds s t k v0 → row_ok v → raw_Update_getput order db t k v s = Ok (None, s') →
  merged t k v v0 (store_of s) (store_of s').
Proof.
  intros (enc & Hl & He) Hv E. unfold raw_Update_getput in E. rewrite Hdb in E. run_inv.
  match goal with Hin : in_client _ _ = Ok (_, ?o, _) |- _ =>
    apply in_client_Ok in Hin as (c' & Hc & Hcl & _); destruct o; run_inv end.
  apply (law_Get (view := view)) in Hc as [-> Hvw]. unfold store_of in Hl. rewrite Hl in *. run_inv.
  match goal with Hd : lift _ _ = _ |- _ =>
    unfold lift in Hd; rewrite (encodes_decode_all p enc v0 He) in Hd; run_inv end.
  apply raw_Insert_Ok in E as (enc' & He' & Hs); [|by apply row_ok_union; [|apply He]].
  exists enc'. split; [done|]. unfold store_of in *. rewrite Hs. congruence.
Qed.

Lemma holds_store s s1 t k v : store_of s1 = store_of s → holds s t k v → holds s1 t k v.
Proof. unfold holds. by intros ->. Qed.

Lemma raw_Update_cas_Ok t k v v0 prev s s' :
  holds s t k v0 → row_ok v → raw_Update_cas order db t k prev v s = Ok (None, s') →
  merged t k v v0 (store_of s) (store_of s').
Proof.
  intros Hh Hv E. unfold raw_Update_cas in E. rewrite Hdb in E. run_inv.
  match goal with Hd : lift _ _ = Ok (?x, _) |- _ =>
    unfold lift in Hd; destruct (Decode codec prev []) as [d|?|?|] eqn:Ed; run_inv; destruct x as [e|data]; run_inv end.
  apply raw_with_buf_Ok in E as (buf & s1 & b & s2 & E & Hs1 & Hs2).
  destruct (Encode codec buf _) as [e|enc'] eqn:Ee; run_inv.
  match goal with Hin : in_client _ _ = Ok ((_, ?b, ?er), _) |- _ =>
    apply in_client_Ok in Hin as (c' & Hc & Hcl & _); destruct er; run_inv;
    apply (law_CompareAndSwap (view := view)) in Hc as [Hb Hvw]; destruct b; run_inv end.
  - destruct Hh as (enc & Hl & He). symmetry in Hb. apply bool_decide_eq_true in Hb.
    unfold store_of in *. rewrite Hs1, Hl in Hb. injection Hb as <-.
    rewrite (encodes_decode_all p enc v0 He) in Ed. injection Ed as <-.
    exists b. split; [|by rewrite Hs2, Hvw, Hs1]. apply (row_encodes _ buf); [|done].
    apply row_ok_union; [done|apply He].
  - unfold merged. rewrite Hs2, <- Hs1. fold (store_of s1).
    match goal with Hg : raw_Update_getput _ _ _ _ _ ?sx = _ |- _ =>
      assert (store_of sx = store_of s1) as Hx by done;
      rewrite <- Hx; eapply (raw_Update_getput_Ok t k v v0 sx); [|done|exact Hg];
      eapply holds_store; [|exact Hh]; congruence end.
Qed.

(** C12: [Update] merges, in both modes.  If the record holds the row [v0], then an
    [Update] with [v] that reports no error leaves it with the fields of [v] and, for
    the others, those of [v0], and changes no other key.  In compare-and-swap mode this
    holds whatever row the thread has cached, also a stale one or another key's: a swap
    that goes through found the current row, one that does not falls back to Get+Put. *)
Theorem raw_update_merges t k v v0 s s' :
  holds s t k v0 → row_ok v → raw_Update order db t k v s = Ok (None, s') →
  holds s' t k (v ∪ v0) ∧ (∀ k', k' ≠ getRowKey t k → store_of s' !! k' = store_of s !! k').
Proof.
  intros Hh Hv E. assert (merged t k v v0 (store_of s) (store_of s')) as (enc & He & Hs).
  { unfold raw_Update, get in E. run_inv.
    destruct (st_row (raw_cache _)) as [prev|]; [|by eapply raw_Update_getput_Ok].
    destruct (casMode db && _); [|by eapply raw_Update_getput_Ok].
    unfold set_cache, modify in E. run_inv.
    match goal with Hc : raw_Update_cas _ _ _ _ _ _ ?sx = _ |- _ =>
      change (store_of x0) with (store_of sx); by eapply raw_Update_cas_Ok end. }
  split; [exists enc; by rewrite Hs, lookup_insert_eq|]. intros k' Hne. by rewrite Hs, lookup_insert_ne.
Qed.

(** [Update] of an absent record, with no row cached, stores the given fields. *)
Lemma raw_Update_absent t k v s s' :
  store_of s !! getRowKey t k = None → st_row (raw_cache s) = None → row_ok v →
  raw_Update order db t k v s = Ok (None, s') → holds s' t k v.
Proof.
  intros Hl Hc Hv E. unfold raw_Update, get in E. run_inv. rewrite Hc in E.
  unfold raw_Update_getput in E. rewrite Hdb in E. run_inv.
  match goal with Hin : in_client _ _ = Ok (_, ?o, _) |- _ =>
    apply in_client_Ok in Hin as (c' & Hg & Hcl & _); destruct o; run_inv end.
  apply (law_Get (view := view)) in Hg as [-> Hvw]. unfold store_of in Hl. rewrite Hl in *. cbn in *.
  rewrite Decode_nil in *. unfold lift in *. run_inv. unfold merge_row in E. rewrite map_union_empty in E.
  apply raw_Insert_Ok in E as (enc & He & Hs); [|done]. exists enc. by rewrite Hs, lookup_insert_eq.
Qed.

(** [BatchUpdate] does not merge: a batch update of a record that reports no error
    replaces the whole row by the given fields, so a field the update does not mention
    is lost, where [Update] keeps it and the [BatchDB] interface speaks of updating. *)
Lemma raw_batch_update_replaces t k v s s' :
  row_ok v → raw_BatchUpdate order db t [k] [v] s = Ok (None, s') →
  holds s' t k v ∧ ∀ f fs r s'', f ∉ dom v → (∀ g, g ∈ fs → g ∈ fields codec) →
    raw_Read db t k fs s' = Ok ((r, None), s'') → r !! f = None.
Proof.
  intros Hv E. assert (holds s' t k v) as Hh.
  { unfold raw_BatchUpdate, raw_put_rows in E. rewrite Hdb in E. cbn [encode_each] in E.
    destruct (Encode codec [] (order v)) as [e|enc] eqn:Ee; [by run_inv|]. cbn in E. run_inv.
    apply in_client_Ok in E as (c' & Hc & Hcl & _).
    apply (law_BatchPut (view := view)) in Hc as [_ Hvw]. exists enc.
    split; [|by eapply row_encodes]. unfold store_of. rewrite Hcl, Hvw. simpl. by rewrite lookup_insert_eq. }
  split; [done|]. intros f fs r s'' Hf Hfs Er.
  apply (raw_Read_Ok t k fs s' r s'' v Hh Hfs) in Er as [-> _]. apply not_elem_of_dom in Hf.
  unfold restrict. case_decide; [done|]. by rewrite map_lookup_filter, Hf.
Qed.

(** ** Counting and cleaning *)

(** The entries of the table's key range. *)
Definition table_entries (s : raw_state C) (table : string) : list (bytes * bytes) :=
  range_entries (store_of s) (getRowKey table "") (Some (end_boundary (getRowKey table ""))).

(** The client answers every scan, perhaps with an error. *)
Definition answers_scans : Prop := ∀ lo hi n c, ∃ r c', raw_Scan (C := C) lo hi n c = Ok (r, c').

(** What a count from [n] over [l] returns. *)
Definition counted (n : Z) (l : list (bytes * bytes)) (s : raw_state C)
    (out : res (Z * option error * raw_state C)) : Prop :=
  ∃ x err s', out = Ok ((x, err), s') ∧
    match err with
    | None => x = n + Z.of_nat (length l) ∧ store_of s' = store_of s
    | Some _ => x = 0
    end.

Lemma raw_count_loop_exact fuel lo hi n s :
  answers_scans → (length (range_entries (store_of s) lo (Some hi)) < fuel)%nat → 0 <= n →
  n + Z.of_nat (length (range_entries (store_of s) lo (Some hi))) <= max_int64 →
  counted n (range_entries (store_of s) lo (Some hi)) s (raw_count_loop fuel lo hi n s).
Proof.
  intros Ha. revert lo n s. induction fuel as [|f IH]; intros lo n s Hf Hn Hm; [lia|].
  cbn [raw_count_loop].
  destruct (Ha lo (Some hi) count_batch (raw_client s)) as ([[keys vs] err] & c' & Hc).
  set (s1 := {| raw_client := c'; raw_pool := raw_pool s; raw_cache := raw_cache s |}).
  assert (in_client (raw_Scan lo (Some hi) count_batch) s = Ok ((keys, vs, err), s1)) as E
    by (unfold in_client, zoom; by rewrite Hc).
  rewrite (bind_Ok_1 _ _ _ _ _ E). destruct err as [e|]; [by eexists 0, _, _|].
  apply (law_Scan (view := view)) in Hc as (Hz & Hlen & Hv). fold (store_of s) in Hz.
  set (l := range_entries (store_of s) lo (Some hi)) in *.
  assert (Hks : keys = (take (Z.to_nat count_batch) l).*1) by (rewrite <- Hz; by rewrite fst_zip by lia).
  assert (Hst : store_of s1 = store_of s) by exact Hv.
  destruct (list.last keys) as [k|] eqn:El.
  - assert (Hlk : length keys = (Z.to_nat count_batch `min` length l)%nat) by by rewrite Hks, length_fmap, length_take.
    assert (length keys ≤ length l)%nat as Hkl by lia.
    rewrite wrap64_id by (clear -Hkl Hn Hm; width).
    destruct (Z.ltb_spec (Z.of_nat (length keys)) count_batch) as [Hlt|Hge].
    { assert (length keys = length l) as Hkl' by lia. eexists _, _, _. split; [reflexivity|]. by rewrite Hkl'. }
    apply list.last_Some in El as (ks' & Ek).
    assert (∃ l1 v, take (Z.to_nat count_batch) l = l1 ++ [(k, v)]) as (l1 & v & El1).
    { rewrite Hks in Ek. apply fmap_app_inv in Ek as (a & b & -> & Hb & ->).
      destruct b as [|[kb vb] [|? ?]]; [discriminate Hb| |discriminate Hb]. injection Hb as ->. exists a, vb. reflexivity. }
    assert (Hl : range_entries (store_of s) lo (Some hi) = l1 ++ (k, v) :: drop (Z.to_nat count_batch) l).
    { fold l. rewrite <- (take_drop (Z.to_nat count_batch) l) at 1. rewrite El1, <- app_assoc. done. }
    pose proof (range_entries_next _ _ _ _ _ _ Hl) as Hnx. simpl in Hnx.
    assert (Hdl : length (drop (Z.to_nat count_batch) l) = (length l - length keys)%nat)
      by (rewrite length_drop; lia).
    assert (0 < length keys)%nat as Hk0 by (rewrite Ek, length_app; simpl; lia).
    destruct (IH (k ++ [x00]) (n + Z.of_nat (length keys)) s1) as (x & err & s' & Er & Hr);
      rewrite ?Hst, ?Hnx, ?Hdl in *; [lia..|].
    exists x, err, s'. split; [exact Er|]. destruct err; [done|]. destruct Hr as [-> ?]. split; [lia|done].
  - apply list.last_None in El. assert (l = []) as ->; [|by eexists _, _, _; split; [reflexivity|]; simpl; split; [lia|]].
    rewrite Hks in El. destruct l; [done|]. by change (Z.to_nat count_batch) with (S 9999) in El.
Qed.

(** C20: [Count] ends and is exact: scanning in batches from one key to the next, however
    many batches that takes, it returns the number of keys in the table's range and
    leaves the store alone, or the error of a scan with count 0.  One scan per key is
    more than enough. *)
Theorem raw_count_exact fuel table s :
  answers_scans → (length (table_entries s table) < fuel)%nat →
  Z.of_nat (length (table_entries s table)) <= max_int64 →
  ∃ x err s', raw_Count fuel table s = Ok ((x, err), s') ∧
    match err with
    | None => x = Z.of_nat (size (filter (λ kv, in_range (getRowKey table "")
                    (Some (end_boundary (getRowKey table ""))) kv.1 = true) (store_of s))) ∧
              store_of s' = store_of s
    | Some _ => x = 0
    end.
Proof.
  intros Ha Hf Hm.
  destruct (raw_count_loop_exact fuel _ _ 0 s Ha Hf ltac:(done) Hm) as (x & err & s' & E & Hr).
  exists x, err, s'. split; [exact E|]. destruct err; [done|]. by rewrite range_entries_length in Hr.
Qed.

(** [Clean] removes a key range, which is more than a table.  If it reports no
    error, the records of the table are gone (for keys below four 0xff bytes), keys
    without the table's prefix are untouched; but the records of any table whose name
    continues the cleaned table's with a colon are gone as well. *)
Lemma raw_clean_range table s s' :
  raw_Clean table s = Ok (None, s') →
  (∀ key, bytes_lt (bytes_of_string key) [xff; xff; xff; xff] = true →
     store_of s' !! getRowKey table key = None) ∧
  (∀ k, (∀ x, k ≠ getRowKey table "" ++ x) → store_of s' !! k = store_of s !! k) ∧
  (∀ rest key, bytes_lt (bytes_of_string (rest +:+ ":" +:+ key)) [xff; xff; xff; xff] = true →
     store_of s' !! getRowKey (table +:+ ":" +:+ rest) key = None).
Proof.
  intros E. apply in_client_Ok in E as (c' & Hc & Hcl & _).
  apply (law_DeleteRange (view := view)) in Hc. rewrite <- Hcl in Hc. fold (store_of s') in Hc.
  assert (Hgone : ∀ key, bytes_lt (bytes_of_string key) [xff; xff; xff; xff] = true →
     store_of s' !! getRowKey table key = None).
  { intros key Hk. rewrite Hc. apply map_lookup_filter_None. right. intros v _.
    rewrite (getRowKey_app table key). cbn [fst]. unfold end_boundary. by rewrite prefix_range, Hk. }
  split; [done|split].
  - intros k Hk. rewrite Hc. destruct (view (raw_client s) !! k) as [v|] eqn:Ev.
    + unfold store_of. rewrite Ev. apply map_lookup_filter_Some. split; [done|]. simpl.
      destruct (in_range _ _ k) eqn:Er; [|done]. apply range_has_prefix in Er as (x & ->). by destruct (Hk x).
    + unfold store_of. rewrite Ev. apply map_lookup_filter_None. by left.
  - intros rest key Hk. rewrite <- (Hgone _ Hk). unfold getRowKey. rewrite <- !string_app_assoc. reflexivity.
Qed.
End spec.

(** ** Witnesses on the store that never fails *)

Definition ex_raw (cas : bool) : rawDB := {| raw_r := NewRowCodec demo_props; casMode := cas |}.

Definition ex_raw_state (m : store) : raw_state store :=
  {| raw_client := m; raw_pool := NewBufPool []; raw_cache := {| st_key := []; st_row := None |} |}.


(** Insert one field, then update another, in compare-and-swap mode with the row cached. *)
Lemma raw_update_merges_witness :
  ∃ s1 s2 r s3 s4, raw_Insert mem_order (ex_raw true) "t" "k" {["field1" := [x61]]} (ex_raw_state ∅) = Ok (None, s1) ∧
    raw_Read (ex_raw true) "t" "k" [] s1 = Ok ((r, None), s3) ∧
    raw_Update mem_order (ex_raw true) "t" "k" {["field2" := [x62]]} s3 = Ok (None, s2) ∧
    holds demo_props id s2 "t" "k" ({["field2" := [x62]]} ∪ {["field1" := [x61]]}) ∧ s4 = s2 ∧
    (∀ k', k' ≠ getRowKey "t" "k" → store_of id s2 !! k' = store_of id s3 !! k').
Proof.
  assert (Hnil : ∀ f, f ∈ [] → f ∈ fields (NewRowCodec demo_props)) by (by intros ? ?%elem_of_nil).
  assert (Ho : ∀ m : row, mem_order m ≡ₚ map_to_list m) by done.
  assert (Hv1 : row_ok demo_props {["field1" := [x61]]}) by (apply ex_row_ok; [set_solver|vm_compute; discriminate]).
  assert (Hv2 : row_ok demo_props {["field2" := [x62]]}) by (apply ex_row_ok; [set_solver|vm_compute; discriminate]).
  assert (match raw_Insert mem_order (ex_raw true) "t" "k" {["field1" := [x61]]} (ex_raw_state ∅) with
    | Ok (None, s1) => match raw_Read (ex_raw true) "t" "k" [] s1 with
        | Ok ((_, None), s3) => match raw_Update mem_order (ex_raw true) "t" "k" {["field2" := [x62]]} s3 with
            | Ok (None, _) => true | _ => false end
        | _ => false end
    | _ => false end = true) as Hb by (vm_compute; reflexivity).
  destruct (raw_Insert mem_order (ex_raw true) "t" "k" {["field1" := [x61]]} (ex_raw_state ∅))
    as [[[e|] s1]|?|?|] eqn:E1; try discriminate Hb.
  destruct (raw_Read (ex_raw true) "t" "k" [] s1) as [[[r [e|]] s3]|?|?|] eqn:E3; try discriminate Hb.
  destruct (raw_Update mem_order (ex_raw true) "t" "k" {["field2" := [x62]]} s3)
    as [[[e|] s2]|?|?|] eqn:E2; try discriminate Hb.
  exists s1, s2, r, s3, s2. clear Hb.
  destruct (raw_Insert_Ok demo_props id mem_order Ho (ex_raw true) eq_refl "t" "k" _ _ s1 Hv1 E1) as (enc & He & Hs).
  assert (Hh : holds demo_props id s1 "t" "k" {["field1" := [x61]]})
    by (exists enc; split; [rewrite Hs; apply lookup_insert_eq|exact He]).
  destruct (raw_Read_Ok demo_props id (ex_raw true) eq_refl "t" "k" [] s1 r s3 _ Hh Hnil E3)
    as [_ Hs3].
  assert (Hh3 : holds demo_props id s3 "t" "k" {["field1" := [x61]]})
    by (destruct Hh as (enc' & Hl & He'); exists enc'; split; [rewrite Hs3; exact Hl|exact He']).
  destruct (raw_update_merges demo_props id mem_order Ho (ex_raw true) eq_refl "t" "k" _ _ s3 s2 Hh3 Hv2 E2) as [Hm Hk].
  split; [reflexivity|split; [exact E3|split; [exact E2|split; [exact Hm|split; [reflexivity|exact Hk]]]]].
Defined.


Definition ex_store : store := {[getRowKey "a" "1" := [x00]; getRowKey "a:b" "2" := [x01]; getRowKey "c" "3" := [x02]]}.

Lemma mem_answers_scans : answers_scans (C := store).
Proof. intros lo hi n c. eexists _, _. reflexivity. Qed.

Lemma raw_count_exact_witness :
  ∃ x s', raw_Count 3 "a" (ex_raw_state ex_store) = Ok ((x, None), s') ∧ x = 2 ∧
    x = Z.of_nat (size (filter (λ kv : bytes * bytes, in_range (getRowKey "a" "")
        (Some (end_boundary (getRowKey "a" ""))) kv.1 = true) (store_of id (ex_raw_state ex_store)))) ∧
    store_of id s' = store_of id (ex_raw_state ex_store).
Proof.
  assert (match raw_Count 3 "a" (ex_raw_state ex_store) with Ok ((x, None), _) => x =? 2 | _ => false end = true)
    as Hb by (vm_compute; reflexivity).
  destruct (raw_count_exact id 3 "a" (ex_raw_state ex_store) mem_answers_scans) as (x & err & s' & E & Hr).
  - clear; vm_compute. repeat constructor.
  - clear; vm_compute. discriminate.
  - rewrite E in Hb. destruct err as [e|]; [discriminate Hb|]. apply Z.eqb_eq in Hb.
    exists x, s'. split; [exact E|split; [exact Hb|exact Hr]].
Defined.

