(* ===== verification/TikvTxn.v ===== *)
(** * db/tikv/txn.go

    The transactional driver over the txnkv client ([TxnKV], a parameter with documented
    laws).  A driver state is the client and the buffer pool.  The order in which Go
    ranges over a row's map is the parameter [order]. *)

From S2P Require Import Prelude GoStr Props Row Util Ycsb KV TikvRows.

Definition tikvAsyncCommit : string := "tikv.async_commit".
Definition tikvOnePC : string := "tikv.one_pc".

Record txnConfig := { asyncCommit : bool; onePC : bool }.

Record txnDB := { txn_r : RowCodec; txn_cfg : txnConfig }.

Record txn_state (C : Type) := { txn_client : C; txn_pool : Pool }.
Arguments txn_client {C} _.
Arguments txn_pool {C} _.

Definition createTxnDB {P C} `{Properties P} (p : P) (connect : list string → error + C)
    (script : list nat) : error + txnDB * txn_state C :=
  let pdAddr := GetString p "tikv.pd" "127.0.0.1:2379" in
  match connect (Split pdAddr ",") with
  | inl err => inl err
  | inr client =>
      inr ({| txn_r := NewRowCodec p;
              txn_cfg := {| asyncCommit := GetBool p tikvAsyncCommit true;
                            onePC := GetBool p tikvOnePC true |} |},
           {| txn_client := client; txn_pool := NewBufPool script |})
  end.

Section txn.
Context {C I : Type} `{TxnKV C I} (order : row → list (string * bytes)).

Abbreviation S := (txn_state C).

Definition in_txn {A} (m : M C A) : M S A :=
  zoom txn_client (λ c s, {| txn_client := c; txn_pool := txn_pool s |}) m.

Definition txn_with_buf {A} : (bytes → M S (A * bytes)) → M S A :=
  with_buf txn_pool (λ p s, {| txn_client := txn_client s; txn_pool := p |}).

Definition beginTxn (db : txnDB) : M S (error + txn_id) :=
  r ← in_txn txn_Begin;
  match r with
  | inl e => mret (inl e)
  | inr t =>
      _ ← in_txn (txn_SetEnableAsyncCommit t (asyncCommit (txn_cfg db)));
      _ ← in_txn (txn_SetEnable1PC t (onePC (txn_cfg db)));
      mret (inr t)
  end.

(** [tx, err := begin(); if err != nil { return err }; defer tx.Rollback()], then [f]. *)
Definition with_txn {A} (begin : M S (error + txn_id)) (fail : error → A) (f : txn_id → M S A)
    : M S A :=
  r ← begin;
  match r with
  | inl e => mret (fail e)
  | inr t => a ← f t; _ ← in_txn (txn_Rollback t); mret a
  end.

Definition is_not_found (err : option error) : bool :=
  match err with Some e => IsErrNotFound e | None => false end.

Definition txn_Read (db : txnDB) (table key : string) (fs : list string)
    : M S (row * option error) :=
  with_txn (in_txn txn_Begin) (λ e, (∅, Some e)) (λ tx,
    '(r, err) ← in_txn (txn_Get tx (getRowKey table key));
    if is_not_found err then mret (∅, None)
    else match r with
    | None => mret (∅, err)
    | Some r =>
        err ← in_txn (txn_Commit tx);
        match err with
        | Some e => mret (∅, Some e)
        | None =>
            d ← lift (Decode (txn_r db) r fs);
            mret match d with inl e => (∅, Some e) | inr v => (v, None) end
        end
    end).

(** The loop of [BatchRead]; an error of [Get] other than not-found leaves a nil row. *)
Fixpoint read_keys (db : txnDB) (tx : txn_id) (table : string) (keys fs : list string)
    : M S (list row * option error) :=
  match keys with
  | [] => mret ([], None)
  | key :: keys =>
      '(value, err) ← in_txn (txn_Get tx (getRowKey table key));
      d ← match value with
          | Some v => if is_not_found err then mret (inr ∅) else lift (Decode (txn_r db) v fs)
          | None => mret (inr ∅)
          end;
      match d with
      | inl e => mret ([], Some e)
      | inr v =>
          '(vs, err) ← read_keys db tx table keys fs;
          mret match err with Some e => ([], Some e) | None => (v :: vs, None) end
      end
  end.

Definition txn_BatchRead (db : txnDB) (table : string) (keys fs : list string)
    : M S (list row * option error) :=
  with_txn (in_txn txn_Begin) (λ e, ([], Some e)) (λ tx, read_keys db tx table keys fs).

(** [for i := 0; i < count && it.Valid(); i++]: the rows, and the iterator to close. *)
Fixpoint scan_rows (n : nat) (it : I) : M S (list bytes * I * option error) :=
  match n with
  | O => mret ([], it, None)
  | Datatypes.S n =>
      if it_Valid it then
        let value := it_Value it in
        '(it, err) ← in_txn (it_Next it);
        match err with
        | Some e => mret ([], it, Some e)
        | None => '(rows, it, err) ← scan_rows n it; mret (value :: rows, it, err)
        end
      else mret ([], it, None)
  end.

Definition txn_ScanRows (db : txnDB) (table startKey : string) (count : Z) (fs : list string)
    : M S (list row * option error) :=
  with_txn (in_txn txn_Begin) (λ e, ([], Some e)) (λ tx,
    r ← in_txn (txn_Iter tx (getRowKey table startKey) None);
    match r with
    | inl e => mret ([], Some e)
    | inr it =>
        if count <? 0 then panic "makeslice: cap out of range" else
        '(rows, it, err) ← scan_rows (Z.to_nat count) it;
        a ← match err with
            | Some e => mret ([], Some e)
            | None =>
                err ← in_txn (txn_Commit tx);
                match err with
                | Some e => mret ([], Some e)
                | None => lift (decode_rows (txn_r db) fs rows)
                end
            end;
        _ ← in_txn (it_Close it);
        mret a
    end).

Definition txn_Update (db : txnDB) (table key : string) (values : row) : M S (option error) :=
  let rowKey := getRowKey table key in
  with_txn (beginTxn db) Some (λ tx,
    '(r, err) ← in_txn (txn_Get tx rowKey);
    if is_not_found err then mret None
    else match r with
    | None => mret err
    | Some r =>
        d ← lift (Decode (txn_r db) r []);
        match d with
        | inl e => mret (Some e)
        | inr data =>
            txn_with_buf (λ buf,
              match Encode (txn_r db) buf (order (merge_row values data)) with
              | inl e => mret (Some e, [])
              | inr enc =>
                  err ← in_txn (txn_Set tx rowKey enc);
                  match err with
                  | Some e => mret (Some e, enc)
                  | None => err ← in_txn (txn_Commit tx); mret (err, enc)
                  end
              end)
        end
    end).

(** The loop of [BatchUpdate] and [BatchInsert]. *)
Fixpoint set_rows (db : txnDB) (tx : txn_id) (table : string) (keys : list string)
    (values : list row) : M S (option error) :=
  match keys with
  | [] => mret None
  | key :: keys =>
      match values with
      | [] => panic "index out of range"
      | v :: values =>
          match Encode (txn_r db) [] (order v) with
          | inl e => mret (Some e)
          | inr enc =>
              err ← in_txn (txn_Set tx (getRowKey table key) enc);
              match err with
              | Some e => mret (Some e)
              | None => set_rows db tx table keys values
              end
          end
      end
  end.

(** [if err != nil { return err }; return tx.Commit(ctx)] *)
Definition then_commit (tx : txn_id) (m : M S (option error)) : M S (option error) :=
  err ← m;
  match err with Some e => mret (Some e) | None => in_txn (txn_Commit tx) end.

Definition txn_put_rows (db : txnDB) (table : string) (keys : list string) (values : list row)
    : M S (option error) :=
  with_txn (beginTxn db) Some (λ tx, then_commit tx (set_rows db tx table keys values)).

Definition txn_BatchUpdate := txn_put_rows.
Definition txn_BatchInsert := txn_put_rows.

Definition txn_Insert (db : txnDB) (table key : string) (values : row) : M S (option error) :=
  txn_with_buf (λ buf,
    match Encode (txn_r db) buf (order values) with
    | inl e => mret (Some e, [])
    | inr enc =>
        err ← with_txn (beginTxn db) Some (λ tx,
                then_commit tx (in_txn (txn_Set tx (getRowKey table key) enc)));
        mret (err, enc)
    end).

Definition txn_DeleteRow (db : txnDB) (table key : string) : M S (option error) :=
  with_txn (beginTxn db) Some (λ tx,
    then_commit tx (in_txn (txn_Delete tx (getRowKey table key)))).

(** The loops that delete keys, of [BatchDelete] and [Clean]. *)
Fixpoint delete_keys (tx : txn_id) (keys : list bytes) : M S (option error) :=
  match keys with
  | [] => mret None
  | k :: keys =>
      err ← in_txn (txn_Delete tx k);
      match err with Some e => mret (Some e) | None => delete_keys tx keys end
  end.

Definition txn_BatchDeleteRows (db : txnDB) (table : string) (keys : list string)
    : M S (option error) :=
  with_txn (beginTxn db) Some (λ tx, then_commit tx (delete_keys tx (getRowKey table <$> keys))).

(** ** Counting *)

(** [for iter.Valid() && batchCount < batchSize]; returns the iterator, the new start
    key, [count], [batchCount] and the error. *)
Fixpoint count_iter (fuel : nat) (it : I) (startKey : bytes) (count batchCount : Z)
    : M S (I * bytes * Z * Z * option error) :=
  match fuel with
  | O => stuck
  | Datatypes.S f =>
      if it_Valid it && (batchCount <? count_batch) then
        let count := count +! 1 in
        let batchCount := batchCount +! 1 in
        let startKey := it_Key it ++ [x00] in
        '(it, err) ← in_txn (it_Next it);
        match err with
        | Some e => mret (it, startKey, count, batchCount, Some e)
        | None => count_iter f it startKey count batchCount
        end
      else mret (it, startKey, count, batchCount, None)
  end.

(** The inner loops make at most [batchSize] rounds. *)
Definition batch_fuel : nat := Datatypes.S (Z.to_nat count_batch).

Fixpoint txn_count_loop (fuel : nat) (tx : txn_id) (startKey endKey : bytes) (count : Z)
    : M S (Z * option error) :=
  match fuel with
  | O => stuck
  | Datatypes.S f =>
      r ← in_txn (txn_Iter tx startKey (Some endKey));
      match r with
      | inl e => mret (0, Some e)
      | inr it =>
          '(it, startKey, count, batchCount, err) ← count_iter batch_fuel it startKey count 0;
          _ ← in_txn (it_Close it);
          match err with
          | Some e => mret (0, Some e)
          | None =>
              if batchCount <? count_batch then mret (count, None)
              else txn_count_loop f tx startKey endKey count
          end
      end
  end.

Definition txn_Count (fuel : nat) (table : string) : M S (Z * option error) :=
  with_txn (in_txn txn_Begin) (λ e, (0, Some e)) (λ tx,
    let startKey := getRowKey table "" in
    txn_count_loop fuel tx startKey (end_boundary startKey) 0).

(** ** Cleaning *)

(** [for iter.Valid() && len(keysToDelete) < batchSize] *)
Fixpoint collect_keys (fuel : nat) (it : I) (keysToDelete : list bytes)
    : M S (I * list bytes * option error) :=
  match fuel with
  | O => stuck
  | Datatypes.S f =>
      if it_Valid it && (Z.of_nat (length keysToDelete) <? count_batch) then
        let keysToDelete := keysToDelete ++ [it_Key it] in
        '(it, err) ← in_txn (it_Next it);
        match err with
        | Some e => mret (it, keysToDelete, Some e)
        | None => collect_keys f it keysToDelete
        end
      else mret (it, keysToDelete, None)
  end.

(** [tx.Rollback(); return err] *)
Definition rollback_return (tx : txn_id) (err : option error) : M S (option error + bytes) :=
  _ ← in_txn (txn_Rollback tx); mret (inl err).

(** One round of the loop of [Clean]: the error it returns, or the last key of a full
    batch, from which the next round goes on. *)
Definition clean_round (db : txnDB) (startKey endKey : bytes) : M S (option error + bytes) :=
  r ← beginTxn db;
  match r with
  | inl e => mret (inl (Some e))
  | inr tx =>
      r ← in_txn (txn_Iter tx startKey (Some endKey));
      match r with
      | inl e => rollback_return tx (Some e)
      | inr it =>
          '(it, keysToDelete, err) ← collect_keys batch_fuel it [];
          _ ← in_txn (it_Close it);
          match err, list.last keysToDelete with
          | Some e, _ => rollback_return tx (Some e)
          | None, None => rollback_return tx None
          | None, Some k =>
              err ← delete_keys tx keysToDelete;
              match err with
              | Some e => rollback_return tx (Some e)
              | None =>
                  err ← in_txn (txn_Commit tx);
                  match err with
                  | Some e => mret (inl (Some e))
                  | None =>
                      if Z.of_nat (length keysToDelete) <? count_batch then mret (inl None)
                      else mret (inr k)
                  end
              end
          end
      end
  end.

Fixpoint txn_clean_loop (fuel : nat) (db : txnDB) (startKey endKey : bytes) : M S (option error) :=
  match fuel with
  | O => stuck
  | Datatypes.S f =>
      r ← clean_round db startKey endKey;
      match r with
      | inl err => mret err
      | inr k => txn_clean_loop f db (k ++ [x00]) endKey
      end
  end.

Definition txn_Clean (fuel : nat) (db : txnDB) (table : string) : M S (option error) :=
  let startKey := getRowKey table "" in
  txn_clean_loop fuel db startKey (end_boundary startKey).

Definition txn_CloseDB : M S (option error) := in_txn txn_Close.

(** The driver as a [ycsb.DB]. *)
Definition txn_DB (db : txnDB) (fuel : nat) : DB S := {|
  Close := in_db txn_CloseDB;
  InitThread _ _ := mret tt;
  CleanupThread := mret tt;
  Read t k fs := in_db (txn_Read db t k fs);
  Scan t k n fs := in_db (txn_ScanRows db t k n fs);
  Update t k v := in_db (txn_Update db t k v);
  Insert t k v := in_db (txn_Insert db t k v);
  Delete t k := in_db (txn_DeleteRow db t k);
  as_BatchDB := Some {|
    BatchInsert t ks vs := in_db (txn_BatchInsert db t ks vs);
    BatchRead t ks fs := in_db (txn_BatchRead db t ks fs);
    BatchUpdate t ks vs := in_db (txn_BatchUpdate db t ks vs);
    BatchDelete t ks := in_db (txn_BatchDeleteRows db t ks) |};
  as_AnalyzeDB := None;
  as_CountDB := Some (λ t, in_db (txn_Count fuel t));
  as_CleanDB := Some (λ t, in_db (txn_Clean fuel db t))
|}.

End txn.
