(* ===== verification/TikvTxnSpec.v ===== *)
(** * What the transactional driver guarantees

    Relative to the committed store behind the client ([view]) and its open transactions
    ([open]): no operation leaves a transaction open, batches are all or nothing,
    [Update] merges into a present record and skips an absent one, [Count] and [Clean]
    end and are exact. *)

From S2P Require Import Prelude GoStr Props Row Util Ycsb KV TikvRows TikvTxn TikvRaw TikvRawSpec.

Section spec.
Context {P : Type} `{PropertiesLaws P} (p : P).
Context {C I : Type} `{TxnKV C I} (view : C → store) (open : C → gmap txn_id store)
  (it_rest : I → list (bytes * bytes)) `{!TxnKVLaws C I view open it_rest}.
Context (order : row → list (string * bytes)) (Horder : ∀ m, order m ≡ₚ map_to_list m).
Context (db : txnDB) (Hdb : txn_r db = NewRowCodec p).

Abbreviation codec := (NewRowCodec p).
Abbreviation row_ok := (row_ok p).
Abbreviation encodes := (encodes p).
Abbreviation S := (txn_state C).

Definition txn_store (s : S) : store := view (txn_client s).
Definition txn_open (s : S) : gmap txn_id store := open (txn_client s).

(** Nothing has changed. *)
Definition same (s s' : S) : Prop := txn_store s' = txn_store s ∧ txn_open s' = txn_open s.

(** [tx] is open and sees [m]; the other open transactions are [O]. *)
Definition active (O : gmap txn_id store) (tx : txn_id) (m : store) (s : S) : Prop :=
  O !! tx = None ∧ txn_open s = <[tx := m]> O.

(** [tx] may be open or not; the other open transactions are [O]. *)
Definition ended (O : gmap txn_id store) (tx : txn_id) (s : S) : Prop :=
  O !! tx = None ∧ delete tx (txn_open s) = O.

Lemma same_trans s1 s2 s3 : same s1 s2 → same s2 s3 → same s1 s3.
Proof. unfold same. intros [] []; split; congruence. Qed.

Lemma active_same O tx m s s' : same s s' → active O tx m s → active O tx m s'.
Proof. intros [_ E] []. split; congruence. Qed.

Lemma active_ended O tx m s : active O tx m s → ended O tx s.
Proof. intros [Hn E]. split; [done|]. rewrite E. by apply delete_insert_id. Qed.

Lemma ended_same O tx s s' : same s s' → ended O tx s → ended O tx s'.
Proof. intros [_ E] []. split; congruence. Qed.

Lemma active_lookup O tx m s : active O tx m s → open (txn_client s) !! tx = Some m.
Proof. intros [_ E]. unfold txn_open in E. by rewrite E, lookup_insert_eq. Qed.

(** ** The client's operations, on a driver state *)

Lemma in_txn_Ok {A} (m : M C A) s a s' :
  in_txn m s = Ok (a, s') → m (txn_client s) = Ok (a, txn_client s').
Proof. unfold in_txn. intros E. run_inv. congruence. Qed.

Lemma get_Ok O tx m k s v err s' :
  active O tx m s → in_txn (txn_Get tx k) s = Ok ((v, err), s') →
  same s s' ∧ match err with
              | None => v = m !! k ∧ v ≠ None
              | Some e => v = None ∧ (IsErrNotFound e = true → m !! k = None)
              end.
Proof.
  intros Ha E%in_txn_Ok. apply (law_txn_Get (view := view) (open := open) _ _ m) in E as (?&?&?);
    [done|by eapply active_lookup].
Qed.

Lemma set_Ok O tx m k v s err s' :
  active O tx m s → in_txn (txn_Set tx k v) s = Ok (err, s') →
  txn_store s' = txn_store s ∧
  active O tx (match err with None => <[k := v]> m | Some _ => m end) s'.
Proof.
  intros Ha E%in_txn_Ok.
  apply (law_txn_Set (view := view) (open := open) _ _ _ m) in E as (?&E); [|by eapply active_lookup].
  split; [done|]. destruct Ha as [Hn Ho]. split; [done|]. unfold txn_open in *. rewrite Ho in E.
  destruct err; [done|]. by rewrite insert_insert_eq in E.
Qed.

Lemma delete_Ok O tx m k s err s' :
  active O tx m s → in_txn (txn_Delete tx k) s = Ok (err, s') →
  txn_store s' = txn_store s ∧
  active O tx (match err with None => delete k m | Some _ => m end) s'.
Proof.
  intros Ha E%in_txn_Ok.
  apply (law_txn_Delete (view := view) (open := open) _ _ m) in E as (?&E); [|by eapply active_lookup].
  split; [done|]. destruct Ha as [Hn Ho]. split; [done|]. unfold txn_open in *. rewrite Ho in E.
  destruct err; [done|]. by rewrite insert_insert_eq in E.
Qed.

Lemma iter_Ok O tx m lo hi s r s' :
  active O tx m s → in_txn (txn_Iter tx lo hi) s = Ok (r, s') →
  same s s' ∧ match r with inr i => it_rest i = range_entries m lo hi | inl _ => True end.
Proof.
  intros Ha E%in_txn_Ok.
  apply (law_txn_Iter (view := view) (open := open) _ _ _ m) in E as (?&?&?); [done|by eapply active_lookup].
Qed.

Lemma next_Ok it s it' err s' :
  in_txn (it_Next it) s = Ok ((it', err), s') →
  same s s' ∧ (err = None → it_rest it' = tail (it_rest it)).
Proof. intros E%in_txn_Ok. apply (law_it_Next (view := view) (open := open)) in E as (?&?&?). done. Qed.

Lemma close_Ok it u s s' : in_txn (it_Close it) s = Ok (u, s') → same s s'.
Proof. destruct u. intros E%in_txn_Ok. by apply (law_it_Close (view := view) (open := open)) in E. Qed.

Lemma commit_Ok O tx m s err s' :
  active O tx m s → in_txn (txn_Commit tx) s = Ok (err, s') →
  ended O tx s' ∧ (txn_store s' = m ∨ err ≠ None ∧ txn_store s' = txn_store s).
Proof.
  intros Ha E%in_txn_Ok.
  apply (law_txn_Commit (view := view) (open := open) _ m) in E as (E&?); [|by eapply active_lookup].
  split; [|done]. destruct Ha as [Hn Ho]. split; [done|]. unfold txn_open in *. rewrite E, Ho.
  by rewrite delete_insert_id, delete_id.
Qed.

Lemma rollback_Ok O tx s err s' :
  ended O tx s → in_txn (txn_Rollback tx) s = Ok (err, s') →
  txn_store s' = txn_store s ∧ txn_open s' = O.
Proof.
  intros [_ He] E%in_txn_Ok. apply (law_txn_Rollback (view := view) (open := open)) in E as (?&E).
  unfold txn_open in *. by rewrite E.
Qed.

(** A way to begin a transaction. *)
Definition begins (begin : M S (error + txn_id)) : Prop := ∀ s r s', begin s = Ok (r, s') →
  txn_store s' = txn_store s ∧
  match r with
  | inr tx => active (txn_open s) tx (txn_store s) s'
  | inl _ => txn_open s' = txn_open s
  end.

Lemma begins_Begin : begins (in_txn txn_Begin).
Proof.
  intros s r s' E%in_txn_Ok. apply (law_txn_Begin (view := view) (open := open)) in E as (?&E).
  split; [done|]. by destruct r.
Qed.

Lemma begins_beginTxn : begins (beginTxn db).
Proof.
  intros s r s' E. unfold beginTxn in E. run_inv.
  match goal with Hb : in_txn txn_Begin _ = Ok (?x, _) |- _ =>
    apply begins_Begin in Hb as [Hv Ho]; destruct x as [e|tx]; run_inv; [done|] end.
  repeat match goal with Hi : in_txn (_ tx _) _ = Ok (?u, _) |- _ => destruct u; apply in_txn_Ok in Hi end.
  repeat match goal with
  | Hi : txn_SetEnableAsyncCommit _ _ _ = _ |- _ =>
      apply (law_txn_AsyncCommit (view := view) (open := open)) in Hi as [? ?]
  | Hi : txn_SetEnable1PC _ _ _ = _ |- _ =>
      apply (law_txn_1PC (view := view) (open := open)) in Hi as [? ?]
  end.
  unfold active, txn_store, txn_open in *. destruct Ho. split; [congruence|split; congruence].
Qed.

(** The deferred rollback: a body that leaves the other transactions alone. *)
Lemma with_txn_Ok {A} begin (fail : error → A) f s a s' :
  begins begin → with_txn begin fail f s = Ok (a, s') →
  ((∃ e, a = fail e) ∧ same s s') ∨
  ∃ tx s1 s2, active (txn_open s) tx (txn_store s) s1 ∧ txn_store s1 = txn_store s ∧
    f tx s1 = Ok (a, s2) ∧
    (ended (txn_open s) tx s2 → txn_store s' = txn_store s2 ∧ txn_open s' = txn_open s).
Proof.
  intros Hb E. unfold with_txn in E. run_inv.
  match goal with Hx : begin _ = Ok (?x, ?sx) |- _ =>
    apply Hb in Hx as [Hv Ho]; destruct x as [e|tx]; run_inv; [by left; split; [exists e|]|] end.
  right. eexists tx, _, _. split; [exact Ho|split; [exact Hv|split; [eassumption|]]].
  intros He. by eapply rollback_Ok.
Qed.

Lemma txn_with_buf_Ok {A} (f : bytes → M S (A * bytes)) s a s' :
  txn_with_buf f s = Ok (a, s') → ∃ buf s1 b s2, f buf s1 = Ok ((a, b), s2) ∧ same s s1 ∧ same s2 s'.
Proof.
  intros (buf & q & b & s2 & q2 & E & ->)%with_buf_Ok. by eexists buf, _, b, s2.
Qed.

(** ** The bodies of the transactions *)

Ltac txn_case :=
  match goal with
  | Hx : in_txn (txn_Get _ _) _ = Ok (_, _), Ha : active _ _ _ _ |- _ => eapply get_Ok in Hx; [|exact Ha]
  | Hx : in_txn (txn_Set _ _ _) _ = Ok (_, _), Ha : active _ _ _ _ |- _ => eapply set_Ok in Hx; [|exact Ha]
  | Hx : in_txn (txn_Delete _ _) _ = Ok (_, _), Ha : active _ _ _ _ |- _ => eapply delete_Ok in Hx; [|exact Ha]
  | Hx : in_txn (txn_Iter _ _ _) _ = Ok (_, _), Ha : active _ _ _ _ |- _ => eapply iter_Ok in Hx; [|exact Ha]
  | Hx : in_txn (txn_Commit _) _ = Ok (_, _), Ha : active _ _ _ _ |- _ => eapply commit_Ok in Hx; [|exact Ha]
  | Hx : in_txn (it_Next _) _ = Ok (_, _) |- _ => apply next_Ok in Hx
  | Hx : in_txn (it_Close _) _ = Ok (_, _) |- _ => apply close_Ok in Hx
  | Hx : lift ?r _ = Ok (_, _) |- _ =>
      unfold lift in Hx; let E := fresh in destruct r eqn:E; [|discriminate Hx..];
      injection Hx as <- <-
  end.

Lemma read_keys_same O tx m table keys fs s r s' :
  active O tx m s → read_keys db tx table keys fs s = Ok (r, s') → same s s'.
Proof.
  revert s r s'. induction keys as [|k keys IH]; intros s r s' Ha E; cbn [read_keys] in E; run_inv; [done|].
  txn_case. match goal with Hx : same _ _ ∧ _ |- _ => destruct Hx as [Hs _] end.
  pose proof (active_same _ _ _ _ _ Hs Ha) as Ha'. eapply same_trans; [exact Hs|]. clear Ha Hs.
  match goal with Hd : match ?v with _ => _ end _ = Ok (?d, ?s1) |- _ =>
    assert (s1 = x0) as ->; [destruct v; [destruct (is_not_found _)|]; run_inv; try txn_case; done|];
    destruct d as [e|row]; run_inv; [done|] end.
  by eapply IH.
Qed.

Lemma scan_rows_same n it s r s' : scan_rows n it s = Ok (r, s') → same s s'.
Proof.
  revert it s r s'. induction n as [|n IH]; intros it s r s' E; cbn [scan_rows] in E; run_inv; [done|].
  destruct (it_Valid it); run_inv; [|done]. txn_case.
  match goal with Hx : same _ _ ∧ _ |- _ => destruct Hx as [Hs _] end. case_match; run_inv; [done|].
  eapply same_trans; [exact Hs|]. by eapply IH.
Qed.

(** [set_rows] writes an encoding of every row under its key, or fails. *)
Lemma set_rows_Ok O tx m table keys values s err s' :
  active O tx m s → set_rows order db tx table keys values s = Ok (err, s') →
  txn_store s' = txn_store s ∧ ∃ m', active O tx m' s' ∧
    (err = None → Forall row_ok values → ∃ encs, (length keys ≤ length values)%nat ∧
       Forall2 encodes encs (take (length keys) values) ∧
       m' = put_all_kv m (zip (getRowKey table <$> keys) encs)).
Proof.
  revert values m s. induction keys as [|k keys IH]; intros values m s Ha E; cbn [set_rows] in E; run_inv.
  { split; [done|]. exists m. split; [done|]. intros _ _. exists []. split; [simpl; lia|done]. }
  destruct values as [|v values]; run_inv. rewrite Hdb in E.
  destruct (Encode codec [] (order v)) as [e|enc] eqn:Ee; run_inv; [by split; [|exists m]|].
  txn_case. match goal with Hx : _ ∧ active _ _ _ _ |- _ => destruct Hx as [Hs Ha'] end. clear Ha.
  case_match; run_inv; [by split; [|eexists]|].
  apply (IH values _ _ Ha') in E as (Hs' & m' & Ha & Hr). split; [congruence|]. exists m'. split; [done|].
  intros -> [Hv Hvs]%list.Forall_cons. destruct (Hr eq_refl Hvs) as (encs & Hl & Hf & ->).
  exists (enc :: encs). simpl. split; [lia|split; [|done]]. constructor; [|done].
  by apply (encode_encodes p (order v) v []).
Qed.

(** [delete_keys] deletes every key, or fails. *)
Lemma delete_keys_Ok O tx m keys s err s' :
  active O tx m s → delete_keys tx keys s = Ok (err, s') →
  txn_store s' = txn_store s ∧ ∃ m', active O tx m' s' ∧
    (err = None → m' = foldl (λ m k, delete k m) m keys).
Proof.
  revert m s. induction keys as [|k keys IH]; intros m s Ha E; cbn [delete_keys] in E; run_inv.
  { split; [done|]. by exists m. }
  txn_case. match goal with Hx : _ ∧ active _ _ _ _ |- _ => destruct Hx as [Hs Ha'] end. clear Ha.
  case_match; run_inv; [by split; [|eexists]|].
  apply (IH _ _ Ha') in E as (Hs' & m' & Ha & Hr). split; [congruence|]. by exists m'.
Qed.

(** A body followed by [Commit]: all or nothing. *)
Lemma then_commit_Ok (O : gmap txn_id store) (tx : txn_id) (body : M S (option error)) (Q : store → Prop)
    (s : S) (err : option error) (s' : S) :
  (∀ err s', body s = Ok (err, s') →
     txn_store s' = txn_store s ∧ ∃ m', active O tx m' s' ∧ (err = None → Q m')) →
  then_commit tx body s = Ok (err, s') →
  ended O tx s' ∧ (Q (txn_store s') ∨ err ≠ None ∧ txn_store s' = txn_store s).
Proof.
  intros Hb E. unfold then_commit in E. run_inv.
  match goal with Hx : body _ = Ok (?r, _) |- _ =>
    apply Hb in Hx as (Hs & m' & Ha & HQ); destruct r; run_inv end.
  - split; [by eapply active_ended|]. by right.
  - txn_case. match goal with Hx : ended _ _ _ ∧ _ |- _ => destruct Hx as [He Hst] end. split; [done|].
    destruct Hst as [->|[? ?]]; [left; by apply HQ|right; split; [done|congruence]].
Qed.

(** A transaction whose body ends with [Commit]. *)
Lemma committed_Ok (body : txn_id → M S (option error)) (Q : store → store → Prop)
    (s : S) (err : option error) (s' : S) :
  (∀ O tx m s err s', active O tx m s → body tx s = Ok (err, s') →
     txn_store s' = txn_store s ∧ ∃ m', active O tx m' s' ∧ (err = None → Q m m')) →
  with_txn (beginTxn db) Some (λ tx, then_commit tx (body tx)) s = Ok (err, s') →
  txn_open s' = txn_open s ∧
  (Q (txn_store s) (txn_store s') ∨ err ≠ None ∧ txn_store s' = txn_store s).
Proof.
  intros Hb E. apply with_txn_Ok in E as [[[e ->] [? ?]]|(tx & s1 & s2 & Ha & Hs1 & E & Hr)];
    [split; [done|right; by split]| |apply begins_beginTxn].
  apply (then_commit_Ok (txn_open s) tx _ (Q (txn_store s))) in E as [He HQ]; [|intros; by eapply Hb].
  destruct (Hr He) as [-> ->]. split; [done|].
  destruct HQ as [?|[? ?]]; [by left|right; split; [done|congruence]].
Qed.

(** ** The operations *)

(** A call leaves every transaction it opened closed. *)
Definition no_leak {A} (m : M S A) : Prop := ∀ s a s', m s = Ok (a, s') → txn_open s' = txn_open s.

(** [encs] are encodings of the rows a batch call pairs with its keys, and [m'] is [m]
    with them. *)
Definition batch_written (table : string) (keys : list string) (values : list row) (m m' : store) : Prop :=
  ∃ encs, (length keys ≤ length values)%nat ∧ Forall2 encodes encs (take (length keys) values) ∧
    m' = put_all_kv m (zip (getRowKey table <$> keys) encs).

Lemma txn_put_rows_Ok table keys values s err s' :
  txn_put_rows order db table keys values s = Ok (err, s') →
  txn_open s' = txn_open s ∧
  ((Forall row_ok values → batch_written table keys values (txn_store s) (txn_store s')) ∨
   err ≠ None ∧ txn_store s' = txn_store s).
Proof.
  intros E. apply (committed_Ok (λ tx, set_rows order db tx table keys values)
    (λ m m', Forall row_ok values → batch_written table keys values m m')) in E; [done|].
  intros O tx m s1 err1 s1' Ha E1. apply (set_rows_Ok O tx m) in E1 as (Hs & m' & Ha' & Hr); [|done].
  split; [done|]. exists m'. split; [done|]. intros He Hv. by apply Hr.
Qed.

Lemma txn_Insert_Ok t k v s err s' :
  txn_Insert order db t k v s = Ok (err, s') →
  txn_open s' = txn_open s ∧
  ((row_ok v → ∃ enc, encodes enc v ∧ txn_store s' = <[getRowKey t k := enc]> (txn_store s)) ∨
   err ≠ None ∧ txn_store s' = txn_store s).
Proof.
  intros (buf & s1 & b & s2 & E & [Hs1 Ho1] & [-> ->])%txn_with_buf_Ok. rewrite Hdb, <- Hs1, <- Ho1 in *.
  destruct (Encode codec buf (order v)) as [e|enc] eqn:Ee; run_inv; [by split; [|right]|].
  match goal with Hx : with_txn _ _ _ _ = _ |- _ =>
    apply (committed_Ok (λ tx, in_txn (txn_Set tx (getRowKey t k) b))
      (λ m m', m' = <[getRowKey t k := b]> m)) in Hx as [? Hx'] end.
  - split; [done|]. destruct Hx' as [->|?]; [left|by right]. intros Hv. exists b. split; [|done].
    by apply (encode_encodes p (order v) v buf).
  - intros O tx m s3 err3 s3' Ha E3. txn_case. destruct E3 as [Hs3 Ha3]. split; [done|]. eexists.
    split; [exact Ha3|]. by intros ->.
Qed.

(** The end of [Update]: encode, [Set], [Commit]. *)
Definition set_and_commit (tx : txn_id) (rowKey : bytes) (data : row) : M S (option error) :=
  txn_with_buf (λ buf,
    match Encode (txn_r db) buf (order data) with
    | inl e => mret (Some e, [])
    | inr enc =>
        err ← in_txn (txn_Set tx rowKey enc);
        match err with
        | Some e => mret (Some e, enc)
        | None => err ← in_txn (txn_Commit tx); mret (err, enc)
        end
    end).

Lemma set_and_commit_Ok O tx m rowKey data s err s' :
  active O tx m s → set_and_commit tx rowKey data s = Ok (err, s') →
  ended O tx s' ∧
  ((row_ok data → ∃ enc, encodes enc data ∧ txn_store s' = <[rowKey := enc]> m) ∨
   err ≠ None ∧ txn_store s' = txn_store s).
Proof.
  intros Ha (buf & s1 & b & s2 & E & Hs1 & Hs2)%txn_with_buf_Ok. rewrite Hdb in E.
  pose proof (active_same _ _ _ _ _ Hs1 Ha) as Ha1. clear Ha. destruct Hs1 as [Hst1 _].
  enough (ended O tx s2 ∧ ((row_ok data → ∃ enc, encodes enc data ∧ txn_store s2 = <[rowKey := enc]> m) ∨
    err ≠ None ∧ txn_store s2 = txn_store s)) as [He Hr]
    by (split; [by eapply ended_same|]; by destruct Hs2 as [-> _]).
  destruct (Encode codec buf (order data)) as [e|enc] eqn:Ee; run_inv.
  { split; [by eapply active_ended|]. right. by split. }
  txn_case. match goal with Hx : _ ∧ active _ _ _ _ |- _ => destruct Hx as [Hst Ha] end. clear Ha1.
  case_match; run_inv; [split; [by eapply active_ended|]; right; split; [done|congruence]|].
  txn_case. match goal with Hx : ended _ _ _ ∧ _ |- _ => destruct Hx as [He Hc] end. split; [done|].
  destruct Hc as [->|[? ?]]; [left|right; split; [done|congruence]]. intros Hv. eexists. split; [|done].
  by apply (encode_encodes p (order data) data buf).
Qed.

(** What [Update] with [v] does to a store [m] that becomes [m']. *)
Definition updated (rowKey : bytes) (v : row) (err : option error) (m m' : store) : Prop :=
  match m !! rowKey with
  | None => m' = m
  | Some enc => ∀ v0, encodes enc v0 → row_ok v →
      (∃ enc', encodes enc' (v ∪ v0) ∧ m' = <[rowKey := enc']> m) ∨ err ≠ None ∧ m' = m
  end.

Lemma updated_fails rowKey v e m : updated rowKey v (Some e) m m.
Proof. unfold updated. destruct (m !! rowKey); [|done]. intros; right. by split. Qed.

Lemma txn_Update_Ok t k v s err s' :
  txn_Update order db t k v s = Ok (err, s') →
  txn_open s' = txn_open s ∧ updated (getRowKey t k) v err (txn_store s) (txn_store s').
Proof.
  intros E. apply with_txn_Ok in E as [[[e ->] [-> Ho]]|(tx & s1 & s2 & Ha & Hs1 & E & Hr)];
    [split; [done|apply updated_fails]| |apply begins_beginTxn].
  enough (ended (txn_open s) tx s2 ∧ updated (getRowKey t k) v err (txn_store s) (txn_store s2)) as [He Hu]
    by by destruct (Hr He) as [-> ->].
  clear Hr. run_inv. txn_case. match goal with Hx : same _ _ ∧ _ |- _ => destruct Hx as [Hsame Hget] end.
  pose proof (active_same _ _ _ _ _ Hsame Ha) as Ha1. destruct Hsame as [Hst _]. rewrite Hs1 in Hst. clear Ha Hs1.
  match goal with Hx : (if is_not_found ?o then _ else _) _ = _ |- _ => destruct o as [e|]; cbn in Hx end.
  - destruct Hget as [-> Hnf].
    destruct (IsErrNotFound e); run_inv; (split; [by eapply active_ended|]); rewrite Hst; [|apply updated_fails].
    unfold updated. by rewrite (Hnf eq_refl).
  - destruct Hget as [-> Hn]. destruct (txn_store s !! getRowKey t k) as [enc|] eqn:El; [|done].
    run_inv. txn_case. rewrite Hdb in *.
    match goal with Hd : Decode _ _ _ = Ok ?d |- _ => destruct d as [e|data]; run_inv end.
    { split; [by eapply active_ended|]. rewrite Hst. apply updated_fails. }
    rewrite <- Hdb in E. apply (set_and_commit_Ok (txn_open s) tx (txn_store s)) in E as [He Hc]; [|done].
    split; [done|]. unfold updated. rewrite El. intros v0 Hv0 Hv. rewrite Hst in Hc.
    match goal with Hd : Decode _ _ _ = Ok (inr _) |- _ =>
      rewrite (encodes_decode_all p enc v0 Hv0) in Hd; injection Hd as <- end.
    destruct Hc as [Hc|?]; [left; apply Hc|by right]. apply row_ok_union; [done|apply Hv0].
Qed.

(** A body that ends with its transaction open or finished, and nothing else. *)
Lemma with_txn_no_leak {A} begin (fail : error → A) f :
  begins begin →
  (∀ O tx m s a s', active O tx m s → f tx s = Ok (a, s') → ended O tx s') →
  no_leak (with_txn begin fail f).
Proof.
  intros Hb Hf s a s' E. apply with_txn_Ok in E as [[_ [_ Ho]]|(tx & s1 & s2 & Ha & _ & E & Hr)]; [done| |done].
  apply Hr. by eapply Hf.
Qed.

Lemma txn_Read_no_leak t k fs : no_leak (txn_Read db t k fs).
Proof.
  apply with_txn_no_leak; [apply begins_Begin|]. intros O tx m s a s' Ha E. run_inv. txn_case.
  match goal with Hx : same _ _ ∧ _ |- _ => destruct Hx as [Hsame _] end.
  pose proof (active_same _ _ _ _ _ Hsame Ha) as Ha1. clear Ha.
  destruct (is_not_found _); run_inv; [by eapply active_ended|]. case_match; run_inv; [|by eapply active_ended].
  txn_case. match goal with Hx : ended _ _ _ ∧ _ |- _ => destruct Hx as [He _] end.
  case_match; run_inv; [done|]. by txn_case.
Qed.

Lemma txn_BatchRead_no_leak t ks fs : no_leak (txn_BatchRead db t ks fs).
Proof.
  apply with_txn_no_leak; [apply begins_Begin|]. intros O tx m s a s' Ha E.
  eapply ended_same; [by eapply read_keys_same|by eapply active_ended].
Qed.

Lemma txn_ScanRows_no_leak t k n fs : no_leak (txn_ScanRows db t k n fs).
Proof.
  apply with_txn_no_leak; [apply begins_Begin|]. intros O tx m s a s' Ha E. run_inv. txn_case.
  match goal with Hx : same _ _ ∧ _ |- _ => destruct Hx as [Hsame _] end.
  pose proof (active_same _ _ _ _ _ Hsame Ha) as Ha1. clear Ha.
  case_match; run_inv; [by eapply active_ended|]. destruct (n <? 0); run_inv.
  match goal with Hx : scan_rows _ _ _ = _ |- _ => apply scan_rows_same in Hx as Hs2 end.
  pose proof (active_same _ _ _ _ _ Hs2 Ha1) as Ha2. clear Ha1.
  match goal with Hx : in_txn (it_Close _) _ = Ok (_, _) |- _ => apply close_Ok in Hx as Hs3; clear Hx end.
  eapply ended_same; [exact Hs3|].
  match goal with Hx : match ?e with _ => _ end _ = Ok _ |- _ => destruct e; run_inv; [by eapply active_ended|] end.
  txn_case. match goal with Hx : ended _ _ _ ∧ _ |- _ => destruct Hx as [He _] end.
  case_match; run_inv; [done|]. by txn_case.
Qed.

Lemma txn_DeleteRow_no_leak t k : no_leak (txn_DeleteRow db t k).
Proof.
  intros s a s' E. apply (committed_Ok (λ tx, in_txn (txn_Delete tx (getRowKey t k))) (λ _ _, True)) in E as [? _];
    [done|]. intros O tx m s1 err s1' Ha E1. txn_case. destruct E1 as [Hs Ha1]. split; [done|]. by eexists.
Qed.

Lemma txn_BatchDelete_no_leak t ks : no_leak (txn_BatchDeleteRows db t ks).
Proof.
  intros s a s' E. apply (committed_Ok (λ tx, delete_keys tx (getRowKey t <$> ks)) (λ _ _, True)) in E as [? _];
    [done|]. intros O tx m s1 err s1' Ha E1. apply (delete_keys_Ok O tx m) in E1 as (? & m' & ? & _); [|done].
  split; [done|]. by exists m'.
Qed.

(** The loops over an iterator change nothing. *)
Lemma count_iter_same fuel it startKey count bc s r s' :
  count_iter fuel it startKey count bc s = Ok (r, s') → same s s'.
Proof.
  revert it startKey count bc s. induction fuel as [|f IH]; intros it startKey count bc s E; cbn [count_iter] in E; [done|].
  destruct (it_Valid it && _); [|by run_inv]. run_inv. txn_case.
  match goal with Hx : same _ _ ∧ _ |- _ => destruct Hx as [Hs _] end.
  case_match; run_inv; [done|]. eapply same_trans; [exact Hs|]. by eapply IH.
Qed.

Lemma txn_count_loop_same fuel O tx m lo hi count s r s' :
  active O tx m s → txn_count_loop fuel tx lo hi count s = Ok (r, s') → same s s'.
Proof.
  revert lo count s. induction fuel as [|f IH]; intros lo count s Ha E; cbn [txn_count_loop] in E; [done|].
  revert E. generalize batch_fuel. intros bf E. run_inv. txn_case. match goal with Hx : same _ _ ∧ _ |- _ => destruct Hx as [Hs1 _] end.
  case_match; run_inv; [done|].
  match goal with Hx : count_iter _ _ _ _ _ _ = Ok _ |- _ => apply count_iter_same in Hx as Hs2 end.
  match goal with Hx : in_txn (it_Close _) _ = Ok (_, _) |- _ => apply close_Ok in Hx as Hs3; clear Hx end.
  pose proof (same_trans _ _ _ Hs1 (same_trans _ _ _ Hs2 Hs3)) as Hs.
  match goal with Hx : match ?e with _ => _ end _ = Ok _ |- _ => destruct e; run_inv; [done|] end.
  case_match; run_inv; [done|]. eapply same_trans; [exact Hs|]. eapply IH; [by eapply active_same|done].
Qed.

Lemma txn_Count_no_leak fuel t : no_leak (txn_Count fuel t).
Proof.
  apply with_txn_no_leak; [apply begins_Begin|]. intros O tx m s a s' Ha E.
  eapply ended_same; [by eapply txn_count_loop_same|by eapply active_ended].
Qed.

Lemma collect_keys_same fuel it keys s r s' : collect_keys fuel it keys s = Ok (r, s') → same s s'.
Proof.
  revert it keys s. induction fuel as [|f IH]; intros it keys s E; cbn [collect_keys] in E; [done|].
  destruct (it_Valid it && _); [|by run_inv]. run_inv. txn_case.
  match goal with Hx : same _ _ ∧ _ |- _ => destruct Hx as [Hs _] end.
  case_match; run_inv; [done|]. eapply same_trans; [exact Hs|]. by eapply IH.
Qed.

Lemma rollback_return_open O tx err s r s' :
  ended O tx s → rollback_return tx err s = Ok (r, s') → txn_open s' = O.
Proof. intros He E. unfold rollback_return in E. run_inv. by eapply rollback_Ok. Qed.

Lemma commit_open O tx m s err s' : active O tx m s → in_txn (txn_Commit tx) s = Ok (err, s') → txn_open s' = O.
Proof.
  intros [Hn Ho] E%in_txn_Ok. unfold txn_open in *.
  eapply (law_txn_Commit (view := view) (open := open) _ m) in E as [-> _]; rewrite Ho;
    [by apply delete_insert_id|by rewrite lookup_insert_eq].
Qed.

Lemma clean_round_no_leak lo hi : no_leak (clean_round db lo hi).
Proof.
  intros s r s' E. unfold clean_round in E. revert E. generalize batch_fuel. intros bf E. run_inv.
  match goal with Hx : beginTxn _ _ = Ok (?x, _) |- _ => apply begins_beginTxn in Hx as [_ Ha]; destruct x as [e|tx]; run_inv; [done|] end.
  txn_case. match goal with Hx : same _ _ ∧ _ |- _ => destruct Hx as [Hs1 _] end.
  pose proof (active_same _ _ _ _ _ Hs1 Ha) as Ha1. clear Ha.
  case_match; run_inv; [by eapply rollback_return_open; [eapply active_ended|]|].
  match goal with Hx : collect_keys _ _ _ _ = Ok _ |- _ => apply collect_keys_same in Hx as Hs2 end.
  match goal with Hx : in_txn (it_Close _) _ = Ok (_, _) |- _ => apply close_Ok in Hx as Hs3; clear Hx end.
  pose proof (active_same _ _ _ _ _ (same_trans _ _ _ Hs2 Hs3) Ha1) as Ha2. clear Ha1.
  match goal with Hx : match ?e with _ => _ end _ = Ok _ |- _ =>
    destruct e; [by eapply rollback_return_open; [eapply active_ended|]|] end.
  case_match; [|by eapply rollback_return_open; [eapply active_ended|]]. run_inv.
  match goal with Hx : delete_keys _ _ _ = Ok _ |- _ => eapply delete_keys_Ok in Hx as (_ & m' & Ha3 & _); [|exact Ha2] end.
  match goal with Hx : match ?e with _ => _ end _ = Ok _ |- _ =>
    destruct e; [by eapply rollback_return_open; [eapply active_ended|]|] end. run_inv.
  match goal with Hx : in_txn (txn_Commit _) _ = Ok _ |- _ => eapply commit_open in Hx; [|exact Ha3] end.
  repeat case_match; by run_inv.
Qed.

Lemma txn_Clean_no_leak fuel t : no_leak (txn_Clean fuel db t).
Proof.
  unfold txn_Clean. generalize (getRowKey t "") at 1. generalize (end_boundary (getRowKey t "")). intros hi lo.
  revert lo. induction fuel as [|f IH]; intros lo s r s' E; cbn [txn_clean_loop] in E; [done|]. run_inv.
  match goal with Hx : clean_round _ _ _ _ = Ok (?x, _) |- _ => apply clean_round_no_leak in Hx; destruct x; run_inv end; [done|].
  apply IH in E. congruence.
Qed.

(** C15: No operation leaks a transaction.  Whatever the client answers on the way, when
    an operation of the driver that begins transactions returns (a read, scan, insert,
    update or delete, single or batch, [Count] and [Clean]), with or without an error, the
    open transactions are those that were open before. *)
Theorem txn_no_leak t k ks v vs fs n fuel :
  no_leak (txn_Read db t k fs) ∧ no_leak (txn_BatchRead db t ks fs) ∧ no_leak (txn_ScanRows db t k n fs) ∧
  no_leak (txn_Insert order db t k v) ∧ no_leak (txn_Update order db t k v) ∧
  no_leak (txn_BatchInsert order db t ks vs) ∧ no_leak (txn_BatchUpdate order db t ks vs) ∧
  no_leak (txn_DeleteRow db t k) ∧ no_leak (txn_BatchDeleteRows db t ks) ∧
  no_leak (txn_Count fuel t) ∧ no_leak (txn_Clean fuel db t).
Proof.
  split_and!.
  - apply txn_Read_no_leak.
  - apply txn_BatchRead_no_leak.
  - apply txn_ScanRows_no_leak.
  - intros s a s' E. by apply txn_Insert_Ok in E as [? _].
  - intros s a s' E. by apply txn_Update_Ok in E as [? _].
  - intros s a s' E. by apply txn_put_rows_Ok in E as [? _].
  - intros s a s' E. by apply txn_put_rows_Ok in E as [? _].
  - apply txn_DeleteRow_no_leak.
  - apply txn_BatchDelete_no_leak.
  - apply txn_Count_no_leak.
  - apply txn_Clean_no_leak.
Qed.

(** C19: A batch insert is all or nothing: either an encoding of every row is stored under
    its key (and nothing else changes), or an error is reported and the store is as it
    was.  A batch that reports no error is stored. *)
Theorem txn_batch_atomic table keys values s err s' :
  Forall row_ok values → txn_BatchInsert order db table keys values s = Ok (err, s') →
  batch_written table keys values (txn_store s) (txn_store s') ∨
  err ≠ None ∧ txn_store s' = txn_store s.
Proof. intros Hv E. apply txn_put_rows_Ok in E as [_ [?|?]]; [left; auto|by right]. Qed.

(** [Update] merges into a present record and skips an absent one.  A call that
    reports no error leaves a record that held the row [v0] with the fields of [v] and,
    for the others, those of [v0]; it leaves the store alone when the record is absent;
    and when it reports an error, it has done all of this or nothing. *)
Lemma txn_update_spec t k v s err s' :
  row_ok v → txn_Update order db t k v s = Ok (err, s') →
  match txn_store s !! getRowKey t k with
  | None => txn_store s' = txn_store s
  | Some enc => ∀ v0, encodes enc v0 →
      (∃ enc', encodes enc' (v ∪ v0) ∧ txn_store s' = <[getRowKey t k := enc']> (txn_store s)) ∨
      err ≠ None ∧ txn_store s' = txn_store s
  end.
Proof.
  intros Hv E. apply txn_Update_Ok in E as [_ Hu]. unfold updated in Hu.
  destruct (txn_store s !! getRowKey t k); [|done]. intros v0 H0'. by apply Hu.
Qed.

(** ** Loops that end: counting *)

Definition total {A} (m : M C A) : Prop := ∀ c, ∃ a c', m c = Ok (a, c').

(** The client answers every call, perhaps with an error. *)
Record txn_answers : Prop := {
  ans_Begin : total txn_Begin;
  ans_AsyncCommit : ∀ t b, total (txn_SetEnableAsyncCommit t b);
  ans_1PC : ∀ t b, total (txn_SetEnable1PC t b);
  ans_Iter : ∀ t lo hi, total (txn_Iter t lo hi);
  ans_Next : ∀ i, total (it_Next i);
  ans_Close : ∀ i, total (it_Close i);
  ans_Delete : ∀ t k, total (txn_Delete t k);
  ans_Commit : ∀ t, total (txn_Commit t);
  ans_Rollback : ∀ t, total (txn_Rollback t)
}.

Context (Hans : txn_answers).

Lemma in_txn_run {A} (m : M C A) s : total m → ∃ a s', in_txn m s = Ok (a, s').
Proof. intros Ht. destruct (Ht (txn_client s)) as (a & c' & E). unfold in_txn, zoom. rewrite E. eauto. Qed.

Lemma valid_cons it kv l : it_rest it = kv :: l → it_Valid it = true ∧ it_Key it = kv.1.
Proof.
  intros E. destruct kv as [k v]. rewrite (law_it_Valid (view := view) (open := open)), E.
  by destruct (law_it_head (view := view) (open := open) it k v l E) as [-> _].
Qed.

Lemma valid_nil it : it_rest it = [] → it_Valid it = false.
Proof. intros E. by rewrite (law_it_Valid (view := view) (open := open)), E. Qed.

Lemma count_iter_run fuel it startKey n bc s :
  0 <= bc <= count_batch → count_batch - bc < Z.of_nat fuel → int64_ok n →
  n + Z.of_nat (length (it_rest it)) <= max_int64 →
  let taken := take (Z.to_nat (count_batch - bc)) (it_rest it) in
  ∃ it' sk' n' bc' err s', count_iter fuel it startKey n bc s = Ok ((it', sk', n', bc', err), s') ∧
    same s s' ∧
    (err = None → sk' = next_start taken startKey ∧ n' = n + Z.of_nat (length taken) ∧
                  bc' = bc + Z.of_nat (length taken)).
Proof.
  revert it startKey n bc s. induction fuel as [|f IH]; intros it sk n bc s Hbc Hf Hn Hm; [simpl in Hf; lia|].
  cbn [count_iter]. destruct (it_rest it) as [|kv l] eqn:El.
  { rewrite (valid_nil it El). cbn [andb]. eexists _, _, _, _, _, s. split; [reflexivity|split; [done|]].
    intros _. rewrite take_nil. simpl. split; [done|lia]. }
  destruct (valid_cons it kv l El) as [-> Hk]. cbn [andb].
  destruct (Z.ltb_spec bc count_batch) as [Hlt|Hge].
  - destruct (in_txn_run (it_Next it) s (ans_Next Hans it)) as ([it1 err] & s1 & E).
    cbn [length] in Hm. rewrite !wrap64_id by (clear - Hbc Hn Hm Hlt; unfold count_batch in *; width).
    rewrite (bind_Ok_1 _ _ _ _ _ E). apply next_Ok in E as [Hs1 Hr]. destruct err as [e|].
    { eexists _, _, _, _, _, s1. split; [reflexivity|done]. }
    rewrite El in Hr. specialize (Hr eq_refl). cbn [tail] in Hr.
    destruct (IH it1 (it_Key it ++ [x00]) (n + 1) (bc + 1) s1) as (it' & sk' & n' & bc' & err' & s' & E' & Hs' & Hp).
    + lia.
    + lia.
    + clear - Hn Hm. width.
    + rewrite Hr. lia.
    + eexists _, _, _, _, _, s'. split; [exact E'|split; [by eapply same_trans|]]. intros He.
      destruct (Hp He) as (-> & -> & ->). rewrite Hr.
      replace (Z.to_nat (count_batch - bc)) with (Datatypes.S (Z.to_nat (count_batch - (bc + 1)))) by lia.
      cbn [take]. rewrite next_start_cons, Hk. cbn [length]. split; [done|lia].
  - eexists _, _, _, _, _, s. split; [reflexivity|split; [done|]]. intros _.
    replace (Z.to_nat (count_batch - bc)) with 0%nat by lia. cbn. split; [done|lia].
Qed.

Lemma txn_count_loop_run fuel O tx m lo hi n s :
  active O tx m s → let l := range_entries m lo (Some hi) in
  (length l < fuel)%nat → 0 <= n → n + Z.of_nat (length l) <= max_int64 →
  ∃ x err s', txn_count_loop fuel tx lo hi n s = Ok ((x, err), s') ∧ same s s' ∧
    match err with None => x = n + Z.of_nat (length l) | Some _ => x = 0 end.
Proof.
  revert lo n s. induction fuel as [|f IH]; intros lo n s Ha l Hf Hn Hm; [lia|].
  cbn [txn_count_loop].
  destruct (in_txn_run (txn_Iter tx lo (Some hi)) s (ans_Iter Hans _ _ _)) as (r & s1 & E).
  rewrite (bind_Ok_1 _ _ _ _ _ E). eapply iter_Ok in E as [Hs1 Hr]; [|exact Ha].
  destruct r as [e|it]; [by eexists _, _, s1|]. fold l in Hr.
  destruct (count_iter_run batch_fuel it lo n 0 s1) as (it' & sk & n' & bc & err & s2 & E & Hs2 & Hp).
  { done. }
  { unfold batch_fuel. rewrite Nat2Z.inj_succ, Z2Nat.id by done. lia. }
  { clear - Hn Hm. width. }
  { by rewrite Hr. }
  rewrite (bind_Ok_1 _ _ _ _ _ E).
  destruct (in_txn_run (it_Close it') s2 (ans_Close Hans _)) as (u & s3 & E3).
  rewrite (bind_Ok_1 _ _ _ _ _ E3). apply close_Ok in E3.
  assert (same s s3) as Hs3 by (eapply same_trans; [exact Hs1|by eapply same_trans]).
  destruct err as [e|]; [by eexists _, _, s3|]. destruct (Hp eq_refl) as (-> & -> & ->).
  rewrite Z.sub_0_r, Z.add_0_l, Hr. set (taken := take (Z.to_nat count_batch) l).
  assert (Hlt : length taken = (Z.to_nat count_batch `min` length l)%nat) by apply length_take.
  destruct (Z.ltb_spec (Z.of_nat (length taken)) count_batch) as [Hl|Hl].
  - eexists _, _, s3. split; [reflexivity|split; [done|]]. lia.
  - assert (taken ≠ []) as Hne by (intros E0; rewrite E0 in Hl; by unfold count_batch in Hl).
    pose proof (next_start_rest m lo (Some hi) (Z.to_nat count_batch) taken eq_refl Hne) as Hnx. fold l in Hnx.
    assert (0 < length taken)%nat by (destruct taken; [done|simpl; lia]).
    assert (length (drop (Z.to_nat count_batch) l) = (length l - length taken)%nat) as Hd
      by (rewrite length_drop; lia).
    destruct (IH (next_start taken lo) (n + Z.of_nat (length taken)) s3) as (x & err & s' & E' & Hs' & Hx);
      rewrite ?Hnx, ?Hd; [by eapply active_same|lia..|].
    eexists x, err, s'. split; [exact E'|split; [by eapply same_trans|]]. destruct err; [done|].
    rewrite Hnx, Hd in Hx. lia.
Qed.

(** ** Loops that end: cleaning *)

Lemma collect_keys_run fuel it keys s :
  Z.of_nat (length keys) <= count_batch → count_batch - Z.of_nat (length keys) < Z.of_nat fuel →
  ∃ it' keys' err s', collect_keys fuel it keys s = Ok ((it', keys', err), s') ∧ same s s' ∧
    (err = None → keys' = keys ++ (take (Z.to_nat count_batch - length keys) (it_rest it)).*1).
Proof.
  revert it keys s. induction fuel as [|f IH]; intros it keys s Hk Hf; [simpl in Hf; lia|].
  cbn [collect_keys]. destruct (it_rest it) as [|kv l] eqn:El.
  { rewrite (valid_nil it El). cbn [andb]. eexists _, _, _, s. split; [reflexivity|split; [done|]].
    intros _. by rewrite take_nil, app_nil_r. }
  destruct (valid_cons it kv l El) as [-> Hkey]. cbn [andb].
  destruct (Z.ltb_spec (Z.of_nat (length keys)) count_batch) as [Hlt|Hge].
  - destruct (in_txn_run (it_Next it) s (ans_Next Hans it)) as ([it1 err] & s1 & E).
    rewrite (bind_Ok_1 _ _ _ _ _ E). apply next_Ok in E as [Hs1 Hr]. rewrite El in Hr.
    destruct err as [e|]; [by eexists _, _, _, s1|]. specialize (Hr eq_refl). cbn [tail] in Hr.
    destruct (IH it1 (keys ++ [it_Key it]) s1) as (it' & keys' & err' & s' & E' & Hs' & Hp);
      rewrite ?length_app; simpl; [lia..|].
    eexists _, _, _, s'. split; [exact E'|split; [by eapply same_trans|]]. intros He.
    rewrite (Hp He), Hr, Hkey, length_app, <- app_assoc. cbn [length].
    replace (Z.to_nat count_batch - length keys)%nat
      with (Datatypes.S (Z.to_nat count_batch - (length keys + 1)))%nat by lia. done.
  - eexists _, _, _, s. split; [reflexivity|split; [done|]]. intros _.
    replace (Z.to_nat count_batch - length keys)%nat with 0%nat by lia. by rewrite app_nil_r.
Qed.

Lemma delete_keys_run tx keys s : ∃ err s', delete_keys tx keys s = Ok (err, s').
Proof.
  revert s. induction keys as [|k keys IH]; intros s; cbn [delete_keys]; [by eexists _, _|].
  destruct (in_txn_run (txn_Delete tx k) s (ans_Delete Hans _ _)) as (err & s1 & E).
  rewrite (bind_Ok_1 _ _ _ _ _ E). destruct err; [by eexists _, _|apply IH].
Qed.

Lemma beginTxn_run s : ∃ r s', beginTxn db s = Ok (r, s').
Proof.
  unfold beginTxn. destruct (in_txn_run txn_Begin s (ans_Begin Hans)) as (r & s1 & E1).
  rewrite (bind_Ok_1 _ _ _ _ _ E1). destruct r as [e|tx]; [by eexists _, _|].
  destruct (in_txn_run _ s1 (ans_AsyncCommit Hans tx (asyncCommit (txn_cfg db)))) as (u & s2 & E2).
  rewrite (bind_Ok_1 _ _ _ _ _ E2).
  destruct (in_txn_run _ s2 (ans_1PC Hans tx (onePC (txn_cfg db)))) as (u' & s3 & E3).
  rewrite (bind_Ok_1 _ _ _ _ _ E3). by eexists _, _.
Qed.

Lemma rollback_return_run O tx err s :
  ended O tx s → ∃ s', rollback_return tx err s = Ok (inl err, s') ∧
    txn_store s' = txn_store s ∧ txn_open s' = O.
Proof.
  intros He. destruct (in_txn_run (txn_Rollback tx) s (ans_Rollback Hans tx)) as (r & s1 & E).
  unfold rollback_return. rewrite (bind_Ok_1 _ _ _ _ _ E). exists s1. split; [done|].
  by eapply rollback_Ok in E.
Qed.

(** A round of [Clean] on [m]: it deletes a batch, or fails with nothing or all of the
    batch deleted. *)
Definition round_result (m : store) (lo hi : bytes) (r : option error + bytes) (m' : store) : Prop :=
  let taken := take (Z.to_nat count_batch) (range_entries m lo (Some hi)) in
  match r with
  | inl (Some _) => m' = m ∨ m' = delete_all m taken.*1
  | inl None => m' = delete_all m taken.*1 ∧ Z.of_nat (length taken) < count_batch
  | inr k => m' = delete_all m taken.*1 ∧ k ++ [x00] = next_start taken lo ∧ taken ≠ []
  end.

(** The end of a round: delete what was collected, and commit. *)
Lemma clean_commit_run O tx m lo hi k s :
  active O tx m s → txn_store s = m →
  let keys := (take (Z.to_nat count_batch) (range_entries m lo (Some hi))).*1 in
  list.last keys = Some k →
  ∃ r s', (err ← delete_keys tx keys;
           match err with
           | Some e => rollback_return tx (Some e)
           | None =>
               err ← in_txn (txn_Commit tx);
               match err with
               | Some e => mret (inl (Some e))
               | None =>
                   if Z.of_nat (length keys) <? count_batch then mret (inl None)
                   else mret (inr k)
               end
           end) s = Ok (r, s') ∧ txn_open s' = O ∧ round_result m lo hi r (txn_store s').
Proof.
  intros Ha Hst keys Hk. destruct (delete_keys_run tx keys s) as (err & s1 & E1).
  rewrite (bind_Ok_1 _ _ _ _ _ E1). apply (delete_keys_Ok O tx m) in E1 as (Hs1 & m1 & Ha1 & Hm1); [|done].
  destruct err as [e|].
  { destruct (rollback_return_run O tx (Some e) s1 (active_ended _ _ _ _ Ha1)) as (s2 & E2 & Hs2 & Ho2).
    eexists _, s2. split; [exact E2|split; [done|]]. left. congruence. }
  destruct (in_txn_run (txn_Commit tx) s1 (ans_Commit Hans tx)) as (err & s2 & E2).
  rewrite (bind_Ok_1 _ _ _ _ _ E2). pose proof (commit_open O tx m1 s1 err s2 Ha1 E2) as Ho2.
  eapply (commit_Ok O tx m1) in E2 as [_ Hc]; [|done]. specialize (Hm1 eq_refl).
  destruct err as [e|]; [|destruct (Z.ltb_spec (Z.of_nat (length keys)) count_batch) as [Hl|Hl]];
    (eexists _, s2; split; [reflexivity|split; [done|]]); unfold round_result.
  - destruct Hc as [->|[_ ->]]; [by right|left; congruence].
  - destruct Hc as [->|[? _]]; [|done]. split; [done|]. unfold keys in Hl. by rewrite length_fmap in Hl.
  - destruct Hc as [->|[? _]]; [|done]. split; [done|]. unfold next_start.
    unfold keys in Hk. rewrite fmap_last in Hk.
    destruct (list.last (take _ _)) as [kv|] eqn:El; [|done]. injection Hk as <-. split; [done|].
    intros E0. by rewrite E0 in El.
Qed.

Lemma clean_round_run lo hi s :
  ∃ r s', clean_round db lo hi s = Ok (r, s') ∧ txn_open s' = txn_open s ∧
    round_result (txn_store s) lo hi r (txn_store s').
Proof.
  unfold clean_round. destruct (beginTxn_run s) as (r & s1 & E1). rewrite (bind_Ok_1 _ _ _ _ _ E1).
  apply begins_beginTxn in E1 as [Hs1 Ha]. destruct r as [e|tx].
  { eexists _, s1. split; [reflexivity|split; [done|]]. by left. }
  destruct (in_txn_run _ s1 (ans_Iter Hans tx lo (Some hi))) as (r & s2 & E2).
  rewrite (bind_Ok_1 _ _ _ _ _ E2). eapply iter_Ok in E2 as [Hs2 Hr]; [|exact Ha].
  pose proof (active_same _ _ _ _ _ Hs2 Ha) as Ha2.
  assert (txn_store s2 = txn_store s) as Hst2 by (destruct Hs2; congruence).
  destruct r as [e|it].
  { destruct (rollback_return_run _ tx (Some e) s2 (active_ended _ _ _ _ Ha2)) as (s3 & E3 & Hs3 & Ho3).
    eexists _, s3. split; [exact E3|split; [done|]]. left. congruence. }
  destruct (collect_keys_run batch_fuel it [] s2) as (it' & keys & err & s3 & E3 & Hs3 & Hk).
  { done. } { unfold batch_fuel. rewrite Nat2Z.inj_succ, Z2Nat.id by done. simpl. lia. }
  rewrite (bind_Ok_1 _ _ _ _ _ E3).
  destruct (in_txn_run (it_Close it') s3 (ans_Close Hans _)) as (u & s4 & E4).
  rewrite (bind_Ok_1 _ _ _ _ _ E4). apply close_Ok in E4.
  assert (same s2 s4) as Hs4 by by eapply same_trans. pose proof (active_same _ _ _ _ _ Hs4 Ha2) as Ha4.
  assert (txn_store s4 = txn_store s) as Hst4 by (destruct Hs4; congruence).
  destruct err as [e|].
  { destruct (rollback_return_run _ tx (Some e) s4 (active_ended _ _ _ _ Ha4)) as (s5 & E5 & Hs5 & Ho5).
    eexists _, s5. split; [exact E5|split; [done|]]. left. congruence. }
  rewrite Nat.sub_0_r, Hr in Hk. specialize (Hk eq_refl). cbn [app] in Hk. subst keys.
  destruct (list.last _) as [k|] eqn:El.
  - by apply clean_commit_run.
  - apply list.last_None, fmap_nil_inv in El.
    destruct (rollback_return_run _ tx None s4 (active_ended _ _ _ _ Ha4)) as (s5 & E5 & Hs5 & Ho5).
    eexists _, s5. split; [exact E5|split; [done|]]. unfold round_result. rewrite El. simpl.
    split; [congruence|done].
Qed.

Definition complete (err : option error) : bool := match err with None => true | Some _ => false end.

Lemma txn_clean_loop_run fuel lo hi s :
  (length (range_entries (txn_store s) lo (Some hi)) < fuel)%nat →
  ∃ err s', txn_clean_loop fuel db lo hi s = Ok (err, s') ∧ txn_open s' = txn_open s ∧
    range_cleared (txn_store s) lo (Some hi) (complete err) (txn_store s').
Proof.
  revert lo s. induction fuel as [|f IH]; intros lo s Hf; [lia|]. cbn [txn_clean_loop].
  destruct (clean_round_run lo hi s) as (r & s1 & E & Ho & Hr). rewrite (bind_Ok_1 _ _ _ _ _ E).
  unfold round_result in Hr. set (m := txn_store s) in *. set (n := Z.to_nat count_batch) in *.
  destruct r as [[e|]|k].
  - exists (Some e), s1. split; [reflexivity|split; [done|]].
    destruct Hr as [->| ->]; [by left|apply range_cleared_partial].
  - exists None, s1. split; [reflexivity|split; [done|]]. destruct Hr as [-> Hl].
    apply range_cleared_last. unfold n in *. lia.
  - destruct Hr as (Hs1 & Hk & Hne). pose proof (range_entries_after m lo (Some hi) n Hne) as Hnx.
    destruct (IH (k ++ [x00]) s1) as (err & s' & E' & Ho' & Hc).
    { rewrite Hs1, Hk, Hnx, length_drop. destruct (range_entries m lo (Some hi)) as [|x l]; [by rewrite take_nil in Hne|].
      unfold n in *. change (Z.to_nat count_batch) with (Datatypes.S 9999) in *. simpl in *. lia. }
    exists err, s'. split; [exact E'|split; [congruence|]].
    rewrite Hs1, Hk in Hc. by eapply range_cleared_batch.
Qed.

(** The entries of the table's key range. *)
Definition txn_table_entries (s : S) (table : string) : list (bytes * bytes) :=
  range_entries (txn_store s) (getRowKey table "") (Some (end_boundary (getRowKey table ""))).

Definition in_table (table : string) (k : bytes) : bool :=
  in_range (getRowKey table "") (Some (end_boundary (getRowKey table ""))) k.

(** C11: [Clean] ends and clears the table.  Against a client that answers, with one
    round per key of the table's range to spare, the loop of transactions ends, however
    many batches of 10000 it takes.  Without an error exactly the keys of the range are
    gone, all others hold what they held; with an error every key holds what it held or
    is a deleted key of the range.  No transaction stays open on any path. *)
Theorem txn_clean_exact fuel table s :
  (length (txn_table_entries s table) < fuel)%nat →
  ∃ err s', txn_Clean fuel db table s = Ok (err, s') ∧ txn_open s' = txn_open s ∧
    match err with
    | None => txn_store s' = filter (λ kv, in_table table kv.1 = false) (txn_store s)
    | Some _ => ∀ k, txn_store s' !! k = txn_store s !! k ∨
                     in_table table k = true ∧ txn_store s' !! k = None
    end.
Proof.
  intros Hf. destruct (txn_clean_loop_run fuel (getRowKey table "") (end_boundary (getRowKey table "")) s Hf)
    as (err & s' & E & Ho & Hc).
  exists err, s'. split; [exact E|split; [done|]]. by destruct err.
Qed.

(** [Count] ends and is exact: within one transaction, batch after batch, it counts
    the keys of the table's range; it changes nothing and leaves no transaction open. *)
Lemma txn_count_exact fuel table s :
  (length (txn_table_entries s table) < fuel)%nat →
  Z.of_nat (length (txn_table_entries s table)) <= max_int64 →
  ∃ x err s', txn_Count fuel table s = Ok ((x, err), s') ∧ same s s' ∧
    match err with
    | None => x = Z.of_nat (size (filter (λ kv, in_table table kv.1 = true) (txn_store s)))
    | Some _ => x = 0
    end.
Proof.
  intros Hf Hm. unfold txn_Count, with_txn. destruct (in_txn_run _ s (ans_Begin Hans)) as (r & s1 & E1).
  rewrite (bind_Ok_1 _ _ _ _ _ E1). apply begins_Begin in E1 as [Hs1 Ha].
  destruct r as [e|tx]; [by eexists 0, (Some e), s1|].
  destruct (txn_count_loop_run fuel _ tx _ (getRowKey table "") (end_boundary (getRowKey table "")) 0 s1 Ha)
    as (x & err & s2 & E2 & Hs2 & Hx); [done..|].
  rewrite (bind_Ok_1 _ _ _ _ _ E2).
  destruct (in_txn_run _ s2 (ans_Rollback Hans tx)) as (u & s3 & E3). rewrite (bind_Ok_1 _ _ _ _ _ E3).
  apply (rollback_Ok (txn_open s)) in E3 as [Hs3 Ho3];
    [|eapply ended_same, active_ended; [exact Hs2|exact Ha]].
  exists x, err, s3. split; [reflexivity|split; [split; [destruct Hs2; congruence|done]|]].
  destruct err; [done|]. by rewrite Hx, range_entries_length.
Qed.
End spec.

(** ** The two drivers side by side *)

Section both.
Context {P : Type} `{PropertiesLaws P} (p : P).
Context {C I : Type} `{TxnKV C I} (view : C → store) (open : C → gmap txn_id store)
  (it_rest : I → list (bytes * bytes)) `{!TxnKVLaws C I view open it_rest}.
Context {C' : Type} `{RawKV C'} (view' : C' → store) `{!RawKVLaws C' view'}.
Context (order : row → list (string * bytes)) (Horder : ∀ m, order m ≡ₚ map_to_list m).
Context (db : txnDB) (Hdb : txn_r db = NewRowCodec p) (db' : rawDB) (Hdb' : raw_r db' = NewRowCodec p).

(** Updating an absent record.  The raw driver stores the given fields as a new,
    partial record; the transactional driver stores nothing, and reports success when
    the client says the key was not found. *)
Lemma update_absent_diverges t k v :
  row_ok p v →
  (∀ s s', store_of view' s !! getRowKey t k = None → st_row (raw_cache s) = None →
     raw_Update order db' t k v s = Ok (None, s') → holds p view' s' t k v) ∧
  (∀ s err s', txn_store view s !! getRowKey t k = None → txn_Update order db t k v s = Ok (err, s') →
     txn_store view s' = txn_store view s).
Proof.
  intros Hv. split.
  - intros s s' Hl Hc E. by eapply raw_Update_absent.
  - intros s err s' Hl E. eapply txn_Update_Ok in E as [_ Hu]; [|done..]. unfold updated in Hu. by rewrite Hl in Hu.
Qed.
End both.

(** ** Witnesses on the store that never fails *)

Definition ex_txn : txnDB := {|
  txn_r := NewRowCodec demo_props; txn_cfg := {| asyncCommit := true; onePC := true |} |}.

Definition ex_txn_state (m : store) : txn_state mem_txn := {|
  txn_client := {| mt_store := m; mt_open := ∅ |}; txn_pool := NewBufPool [] |}.

Lemma mem_txn_answers : txn_answers (C := mem_txn) (I := list (bytes * bytes)).
Proof.
  split; intros; intros c; simpl; unfold mt_on, mret, M_ret;
    repeat match goal with |- context [mt_open c !! ?t] => destruct (mt_open c !! t) end; by eexists _, _.
Qed.

Abbreviation field1 := ({["field1" := [x61]]} : row).
Abbreviation field2 := ({["field2" := [x62]]} : row).

Lemma field1_ok : row_ok demo_props field1.
Proof. apply ex_row_ok; [set_solver|vm_compute; discriminate]. Qed.

Lemma field2_ok : row_ok demo_props field2.
Proof. apply ex_row_ok; [set_solver|vm_compute; discriminate]. Qed.

Lemma mem_order_perm (m : row) : mem_order m ≡ₚ map_to_list m.
Proof. done. Qed.

(** Two records in one batch. *)
Lemma txn_batch_atomic_witness :
  ∃ s', txn_BatchInsert mem_order ex_txn "t" ["k"; "l"] [field1; field2] (ex_txn_state ∅) = Ok (None, s') ∧
    (batch_written demo_props "t" ["k"; "l"] [field1; field2] ∅ (txn_store mt_store s') ∨
     (None : option error) ≠ None ∧ txn_store mt_store s' = ∅).
Proof.
  assert (match txn_BatchInsert mem_order ex_txn "t" ["k"; "l"] [field1; field2] (ex_txn_state ∅) with
          | Ok (None, _) => true | _ => false end = true) as Hb by (vm_compute; reflexivity).
  destruct (txn_BatchInsert mem_order ex_txn "t" ["k"; "l"] [field1; field2] (ex_txn_state ∅))
    as [[[e|] s1]|?|?|] eqn:E1; try discriminate Hb.
  exists s1. split; [reflexivity|]. clear Hb.
  refine (txn_batch_atomic demo_props mt_store mt_open id mem_order mem_order_perm ex_txn eq_refl "t"
    ["k"; "l"] [field1; field2] (ex_txn_state ∅) None s1 _ E1); clear.
  constructor; [apply field1_ok|constructor; [apply field2_ok|constructor]].
Defined.


Lemma txn_clean_exact_witness :
  ∃ err s', txn_Clean 3 ex_txn "a" (ex_txn_state ex_store) = Ok (err, s') ∧
    txn_open mt_open s' = txn_open mt_open (ex_txn_state ex_store) ∧
    match err with
    | None => txn_store mt_store s' = filter (λ kv, in_table "a" kv.1 = false) ex_store
    | Some _ => ∀ k, txn_store mt_store s' !! k = ex_store !! k ∨
                     in_table "a" k = true ∧ txn_store mt_store s' !! k = None
    end.
Proof.
  refine (txn_clean_exact mt_store mt_open id ex_txn mem_txn_answers 3 "a" (ex_txn_state ex_store) _).
  vm_compute. repeat constructor.
Defined.

(** A read of an absent record. *)
Lemma txn_no_leak_witness :
  ∃ r s', txn_Read ex_txn "t" "k" [] (ex_txn_state ∅) = Ok (r, s') ∧ txn_open mt_open s' = ∅.
Proof.
  destruct (txn_Read ex_txn "t" "k" [] (ex_txn_state ∅)) as [[r s']|?|?|] eqn:E; try discriminate E.
  exists r, s'. split; [reflexivity|].
  exact (proj1 (txn_no_leak demo_props mt_store mt_open id mem_order mem_order_perm ex_txn eq_refl
    "t" "k" [] ∅ [] [] 0 1) (ex_txn_state ∅) r s' E).
Defined.
