(* ===== verification/Measurement.v ===== *)
(** * pkg/measurement: measurement.go, csv.go, histogram.go, histograms.go

    The process-wide measurement: the measurer chosen by the properties (latency
    histograms, or the raw CSV log), the warm-up flag, and the reports.  A latency
    histogram is one of [github.com/HdrHistogram/hdrhistogram-go] ([HDR], a parameter
    with documented laws).  Operations that read the clock or write files run in [IO].
    [InitMeasure], [Measure] and the others lock, so calls from several goroutines are
    a sequence.  The order in which Go ranges over a map of operations is the parameter
    [order]. *)

From stdpp Require Import sorting.
From S2P Require Import Prelude GoFloat GoStr Props Util.

(** ** The third-party histogram *)

Class HDR (H : Type) := {
  hdr_New : Z → Z → Z → H;
  RecordValue : H → Z → H * option string;
  hdr_Min : H → Z;
  hdr_Max : H → Z;
  hdr_Mean : H → float64;
  TotalCount : H → Z;
  ValueAtPercentile : H → float64 → Z;
  PercentilesPrint : H → Z → float64 → string * option string
}.

(** [recorded]: the values recorded so far.  A value is refused with an error if it is
    out of range, and never when it lies between 0 and the highest trackable value. *)
Class HDRLaws (H : Type) `{HDR H} (recorded : H → list Z) (highest : H → Z) := {
  law_New : ∀ lo hi d, recorded (hdr_New lo hi d) = [] ∧ highest (hdr_New lo hi d) = hi;
  law_RecordValue : ∀ h v h' err, RecordValue h v = (h', err) →
    highest h' = highest h ∧
    match err with
    | None => recorded h' = recorded h ++ [v]
    | Some _ => recorded h' = recorded h ∧ ~ (0 <= v <= highest h)
    end;
  law_TotalCount : ∀ h, TotalCount h = Z.of_nat (length (recorded h))
}.

(** ** The outside: the clock and the files *)

Inductive sink := Stdout | File (path : string).

Record IO := {
  io_clock : list Z;
  io_create : string → option string;   (* the error of [os.Create], if any *)
  io_out : list (sink * string)         (* what was written, in order *)
}.

Definition io_now : M IO Z := λ w,
  match io_clock w with
  | [] => Stuck
  | t :: ts => Ok (t, {| io_clock := ts; io_create := io_create w; io_out := io_out w |})
  end.

Definition write (s : sink) (text : string) : M IO unit :=
  modify (λ w, {| io_clock := io_clock w; io_create := io_create w; io_out := io_out w ++ [(s, text)] |}).

Definition create (path : string) : M IO (string + sink) :=
  w ← get; mret match io_create w path with Some e => inl e | None => inr (File path) end.

Definition newline : string := String "010" "".

(** [time.Duration.Microseconds] truncates, [time.Time.UnixMicro] rounds down. *)
Definition Microseconds (lan : Z) : Z := Z.quot lan 1000.
Definition UnixMicro (t : Z) : Z := t / 1000.

(** [time.Duration.Seconds] *)
Definition Seconds (d : Z) : float64 :=
  f64_add (f64_of_Z (Z.quot d 1000000000)) (f64_div (f64_of_Z (Z.rem d 1000000000)) (f64_of_Z 1000000000)).

(** ** csv.go *)

Record csventry := { startUs : Z; latencyUs : Z }.

Abbreviation csvs := (gmap string (list csventry)).

Definition InitCSV : csvs := ∅.

Definition csvs_Measure (c : csvs) (op : string) (start lan : Z) : csvs :=
  <[op := default [] (c !! op) ++ [{| startUs := UnixMicro start; latencyUs := Microseconds lan |}]]> c.

Definition csv_header : string := "operation,timestamp_us,latency_us" +:+ newline.

Definition csv_line (op : string) (entry : csventry) : string :=
  op +:+ "," +:+ FormatInt (startUs entry) +:+ "," +:+ FormatInt (latencyUs entry) +:+ newline.

(** The lines of the nested loops over [c.opCsv] and the entries of each operation. *)
Definition csv_lines (opCsv : list (string * list csventry)) : list string :=
  opCsv ≫= λ oe, csv_line oe.1 <$> oe.2.

Definition csvs_Output (order : csvs → list (string * list csventry)) (c : csvs) : string :=
  String.concat "" (csv_header :: csv_lines (order c)).

(** ** histogram.go *)

Section hist.
Context {H : Type} `{HDR H}.

Record histogram := { startTime : Z; hist : H }.

Definition newHistogram : M IO histogram :=
  t ← io_now; mret {| startTime := t; hist := hdr_New 1 (24 * 60 * 60 * 1000 * 1000) 3 |}.

(** The error of [RecordValue] is dropped. *)
Definition histogram_Measure (h : histogram) (latency : Z) : histogram :=
  {| startTime := startTime h; hist := (RecordValue (hist h) (Microseconds latency)).1 |}.

(** The entries of the map [getInfo] returns. *)
Record info := {
  ELAPSED : float64; COUNT : Z; QPS : float64; AVG : Z; MIN : Z; MAX : Z;
  PER50TH : Z; PER90TH : Z; PER95TH : Z; PER99TH : Z; PER999TH : Z; PER9999TH : Z
}.

Definition getInfo (h : histogram) : M IO info :=
  let count := TotalCount (hist h) in
  let percentile n k := ValueAtPercentile (hist h) (f64_lit n k) in
  now ← io_now;
  let elapsed := Seconds (now -! startTime h) in
  mret {| ELAPSED := elapsed; COUNT := count; QPS := f64_div (f64_of_Z count) elapsed;
          AVG := f64_to_int64 (hdr_Mean (hist h)); MIN := hdr_Min (hist h); MAX := hdr_Max (hist h);
          PER50TH := percentile 50 0; PER90TH := percentile 90 0; PER95TH := percentile 95 0;
          PER99TH := percentile 99 0; PER999TH := percentile 999 1; PER9999TH := percentile 9999 2 |}.

Definition histogram_Summary (h : histogram) : M IO (list string) :=
  res ← getInfo h;
  mret [FloatToOneString (ELAPSED res); IntToString (COUNT res); FloatToOneString (QPS res);
        IntToString (AVG res); IntToString (MIN res); IntToString (MAX res); IntToString (PER50TH res);
        IntToString (PER90TH res); IntToString (PER95TH res); IntToString (PER99TH res);
        IntToString (PER999TH res); IntToString (PER9999TH res)].

(** ** histograms.go *)

Abbreviation op_histograms := (gmap string histogram).

Definition InitHistograms : op_histograms := ∅.

Definition histograms_Measure (h : op_histograms) (op : string) (lan : Z) : M IO op_histograms :=
  opM ← match h !! op with Some opM => mret opM | None => newHistogram end;
  mret (<[op := histogram_Measure opM lan]> h).

Context {P : Type} `{Properties P} (p : P).
Context (order : op_histograms → list (string * histogram)).
Context (render_table : list string → list (list string) → string)
        (marshal : list (gmap string string) → string + string).

Fixpoint summaries (hs : list (string * histogram)) : M IO (gmap string (list string)) :=
  match hs with
  | [] => mret ∅
  | (op, opM) :: hs => s ← histogram_Summary opM; rest ← summaries hs; mret (<[op := s]> rest)
  end.

Definition histograms_summary (h : op_histograms) : M IO (gmap string (list string)) :=
  summaries (order h).

Definition header : list string :=
  ["Operation"; "Takes(s)"; "Count"; "OPS"; "Avg(us)"; "Min(us)"; "Max(us)"; "50th(us)"; "90th(us)";
   "95th(us)"; "99th(us)"; "99.9th(us)"; "99.99th(us)"].

(** [fmt.Sprintf("%-6s - %s\n", a, b)] *)
Definition plain_format (a b : string) : string := pad_right 6 a +:+ " - " +:+ b +:+ newline.

Definition report_lines (sums : gmap string (list string)) : list (list string) :=
  (λ op, op :: default [] (sums !! op)) <$> sorted_keys sums.

Definition histograms_Output (h : op_histograms) : M IO string :=
  sums ← histograms_summary h;
  let lines := report_lines sums in
  let outputStyle := GetString p prop.OutputStyle OutputStylePlain in
  lift (if String.eqb outputStyle OutputStylePlain then RenderString plain_format header lines
        else if String.eqb outputStyle OutputStyleJson then RenderJson marshal header lines
        else if String.eqb outputStyle OutputStyleTable then Ok (RenderTable render_table header lines)
        else Panic ("unsupported outputstyle: " +:+ outputStyle)).

Fixpoint export_percentiles (path : string) (hs : list (string * histogram)) : M IO unit :=
  match hs with
  | [] => mret tt
  | (op, opM) :: hs =>
      let outFile := path +:+ op +:+ "-percentiles.txt" in
      _ ← write Stdout ("Exporting the full latency spectrum for operation '" +:+ op +:+
            "' in percentile output format into file: " +:+ outFile +:+ "." +:+ newline);
      f ← create outFile;
      match f with
      | inl e => panic ("failed to create percentile output file: " +:+ e)
      | inr f =>
          let '(text, err) := PercentilesPrint (hist opM) 1 (f64_of_Z 1) in
          _ ← write f text;
          match err with
          | Some e => panic ("failed to print percentiles: " +:+ e)
          | None => export_percentiles path hs
          end
      end
  end.

Definition histograms_GenerateExtendedOutputs (h : op_histograms) : M IO unit :=
  if GetBool p prop.MeasurementHistogramPercentileExport prop.MeasurementHistogramPercentileExportDefault
  then export_percentiles
         (GetString p prop.MeasurementHistogramPercentileExportFilepath
            prop.MeasurementHistogramPercentileExportFilepathDefault) (order h)
  else mret tt.
End hist.
Arguments histogram H : clear implicits.

(** ** measurement.go *)

Inductive measurer (H : Type) :=
| Histograms (h : gmap string (histogram H))
| Csvs (c : csvs).
Arguments Histograms {H} h.
Arguments Csvs {H} c.

(** The globals [globalMeasure] (with its properties) and [warmUp]; [W] is the type of
    Prometheus writers. *)
Record measurement (P H W : Type) := {
  gm_p : P; gm_measurer : measurer H; promeWriter : option W; warmUp : Z
}.
Arguments gm_p {P H W} _.
Arguments gm_measurer {P H W} _.
Arguments promeWriter {P H W} _.
Arguments warmUp {P H W} _.

Section measurement.
Context {P H W : Type} `{Properties P} `{HDR H}.
Context (order : gmap string (histogram H) → list (string * histogram H))
        (csv_order : csvs → list (string * list csventry))
        (render_table : list string → list (list string) → string)
        (marshal : list (gmap string string) → string + string).

Abbreviation G := (measurement P H W).

Definition set_measurer (x : measurer H) (g : G) : G :=
  {| gm_p := gm_p g; gm_measurer := x; promeWriter := promeWriter g; warmUp := warmUp g |}.

Definition EnableWarmUp (b : bool) (g : G) : G :=
  {| gm_p := gm_p g; gm_measurer := gm_measurer g; promeWriter := promeWriter g;
     warmUp := if b then 1 else 0 |}.

Definition IsWarmUpFinished (g : G) : bool := warmUp g =? 0.

Definition InitMeasure (p : P) : res G :=
  let measurementType := GetString p prop.MeasurementType prop.MeasurementTypeDefault in
  x ← (if String.eqb measurementType "histogram" then Ok (Histograms InitHistograms)
       else if String.eqb measurementType "raw" || String.eqb measurementType "csv" then Ok (Csvs InitCSV)
       else Panic ("unsupported measurement type: " +:+ measurementType));
  Ok (EnableWarmUp (0 <? GetInt64 p prop.WarmUpTime 0)
        {| gm_p := p; gm_measurer := x; promeWriter := None; warmUp := 0 |}).

(** [m.measurer.Measure], under the lock. *)
Definition measurer_Measure (x : measurer H) (op : string) (start lan : Z) : M IO (measurer H) :=
  match x with
  | Histograms h => h ← histograms_Measure h op lan; mret (Histograms h)
  | Csvs c => mret (Csvs (csvs_Measure c op start lan))
  end.

Definition Measure (op : string) (start lan : Z) (g : G) : M IO G :=
  if IsWarmUpFinished g then
    x ← measurer_Measure (gm_measurer g) op start lan; mret (set_measurer x g)
  else mret g.

Definition measurer_Output (g : G) : M IO string :=
  match gm_measurer g with
  | Histograms h => histograms_Output (gm_p g) order render_table marshal h
  | Csvs c => mret (csvs_Output csv_order c)
  end.

(** Only histograms keep a summary. *)
Definition Summary (g : G) : M IO unit :=
  match gm_measurer g with
  | Histograms _ => text ← measurer_Output g; write Stdout text
  | Csvs _ => mret tt
  end.

(** [push] stands for the goroutine that writes the metrics to Prometheus. *)
Definition measurement_output (push : W → M IO unit) (g : G) : M IO unit :=
  let outFile := GetString (gm_p g) prop.MeasurementRawOutputFile "" in
  w ← (if String.eqb outFile "" then mret Stdout
       else f ← create outFile;
            match f with
            | inl e => panic ("failed to create output file: " +:+ e)
            | inr f => mret f
            end);
  text ← measurer_Output g;
  _ ← write w text;
  match promeWriter g with Some pw => push pw | None => mret tt end.

Definition Output (push : W → M IO unit) (g : G) : M IO unit :=
  _ ← match gm_measurer g with
      | Histograms h => histograms_GenerateExtendedOutputs (gm_p g) order h
      | Csvs _ => mret tt
      end;
  measurement_output push g.

Definition SetPrometheusConfig (new_writer : string → string → W) (url benchNo : string) (g : G) : G :=
  {| gm_p := gm_p g; gm_measurer := gm_measurer g; promeWriter := Some (new_writer url benchNo);
     warmUp := warmUp g |}.
End measurement.
