(* ===== verification/MeasurementSpec.v ===== *)
(** * What is measured is what is reported

    Every call of [Measure] outside the warm-up is recorded under its operation, in
    order, by either measurer; the CSV log lists exactly these calls; the plain report
    lists every operation once, sorted, with its count under the heading "Count". *)

From stdpp Require Import sorting.
From S2P Require Import Prelude GoFloat GoStr Props Util Measurement.

(** ** A reference histogram that keeps every value *)

Record list_hdr := { lh_values : list Z; lh_highest : Z }.

#[global] Instance list_HDR : HDR list_hdr := {
  hdr_New _ hi _ := {| lh_values := []; lh_highest := hi |};
  RecordValue h v :=
    if (0 <=? v) && (v <=? lh_highest h)
    then ({| lh_values := lh_values h ++ [v]; lh_highest := lh_highest h |}, None)
    else (h, Some "value to large or too small");
  hdr_Min h := foldr Z.min (lh_highest h) (lh_values h);
  hdr_Max h := foldr Z.max 0 (lh_values h);
  hdr_Mean h := f64_div (f64_of_Z (foldr Z.add 0 (lh_values h))) (f64_of_Z (Z.of_nat (length (lh_values h))));
  TotalCount h := Z.of_nat (length (lh_values h));
  ValueAtPercentile h q := default 0 (merge_sort Z.le (lh_values h) !!
    Z.to_nat (f64_to_int64 (f64_div (f64_mul (f64_of_Z (Z.of_nat (length (lh_values h)))) q) (f64_of_Z 100))));
  PercentilesPrint h _ _ := ("", None)
}.

#[global] Instance list_HDRLaws : HDRLaws list_hdr lh_values lh_highest.
Proof.
  split; [done| |done]. intros h v h' err E. simpl in E.
  destruct (Z.leb_spec 0 v), (Z.leb_spec v (lh_highest h)); simpl in E; injection E as <- <-;
    (split; [done|]); try done; (split; [done|lia]).
Qed.

(** ** Histories of calls *)

Inductive event := Warm (b : bool) | Meas (op : string) (start lan : Z).

(** The calls of [Measure] made outside the warm-up. *)
Fixpoint counted_calls (warm : bool) (evs : list event) : list (string * Z * Z) :=
  match evs with
  | [] => []
  | Warm b :: evs => counted_calls b evs
  | Meas op start lan :: evs => (if warm then [] else [(op, start, lan)]) ++ counted_calls warm evs
  end.

(** The calls for one operation. *)
Definition calls_of (op : string) (l : list (string * Z * Z)) : list (string * Z * Z) :=
  filter (λ c, c.1.1 = op) l.

Definition longest : Z := 24 * 60 * 60 * 1000 * 1000.

(** The order of the operations does not change which lines are written. *)
#[global] Instance csv_lines_proper : Proper ((≡ₚ) ==> (≡ₚ)) csv_lines.
Proof. unfold csv_lines. by intros ? ? ->. Qed.

Section spec.
Context {P W : Type} `{PropertiesLaws P} (p : P).
Context {HD : Type} `{HDR HD} (recorded : HD → list Z) (highest : HD → Z) `{!HDRLaws HD recorded highest}.

Abbreviation G := (measurement P HD W).

Definition event_step (e : event) (g : G) : M IO G :=
  match e with
  | Warm b => mret (EnableWarmUp b g)
  | Meas op start lan => Measure op start lan g
  end.

Fixpoint event_steps (evs : list event) (g : G) : M IO G :=
  match evs with
  | [] => mret g
  | e :: evs => g ← event_step e g; event_steps evs g
  end.

Definition warm_flag (g : G) : bool := negb (IsWarmUpFinished g).

Lemma warm_flag_Warm b g : warm_flag (EnableWarmUp b g) = b.
Proof. by destruct b. Qed.

(** A measurer that stands for the calls [l]. *)
Definition hist_holds (h : gmap string (histogram HD)) (l : list (string * Z * Z)) : Prop :=
  ∀ op, match h !! op with
        | Some x => calls_of op l ≠ [] ∧ highest (hist x) = longest ∧
                    recorded (hist x) = (λ c : string * Z * Z, Microseconds c.2) <$> calls_of op l
        | None => calls_of op l = []
        end.

Definition entry_of (c : string * Z * Z) : csventry :=
  {| startUs := UnixMicro c.1.2; latencyUs := Microseconds c.2 |}.

Definition csv_holds (c : csvs) (l : list (string * Z * Z)) : Prop :=
  (∀ op, default [] (c !! op) = entry_of <$> calls_of op l) ∧
  csv_lines (map_to_list c) ≡ₚ (λ x, csv_line x.1.1 (entry_of x)) <$> l.

Lemma calls_of_app op l c :
  calls_of op (l ++ [c]) = calls_of op l ++ (if decide (c.1.1 = op) then [c] else []).
Proof.
  unfold calls_of. rewrite list.filter_app. f_equal.
Qed.

Lemma hist_holds_Measure h l op start lan w :
  hist_holds h l → 0 <= Microseconds lan <= longest → io_clock w ≠ [] →
  ∃ h' w', histograms_Measure h op lan w = Ok (h', w') ∧ hist_holds h' (l ++ [(op, start, lan)]) ∧
    (length (io_clock w) <= S (length (io_clock w')))%nat.
Proof.
  intros Hh Hlan Hw. unfold histograms_Measure.
  assert (∃ x w', (match h !! op with Some opM => mret opM | None => newHistogram end) w = Ok (x, w') ∧
    highest (hist x) = longest ∧ recorded (hist x) = (λ c : string * Z * Z, Microseconds c.2) <$> calls_of op l ∧
    (length (io_clock w) <= S (length (io_clock w')))%nat) as (x & w' & E & Hhi & Hrec & Hlen).
  { pose proof (Hh op) as Ho. destruct (h !! op) as [x|]; [by exists x, w; destruct Ho as (_ & ? & ?); repeat split; auto|].
    rewrite Ho. unfold newHistogram, io_now. destruct w as [[|t ts] cr out]; [done|].
    eexists _, _. split; [reflexivity|]. simpl. destruct (law_New (recorded := recorded) (highest := highest)
      1 longest 3) as [Hn1 Hn2]. split; [exact Hn2|split; [exact Hn1|lia]]. }
  rewrite (bind_Ok_1 _ _ _ _ _ E). eexists _, w'. split; [reflexivity|split; [|done]].
  destruct (RecordValue (hist x) (Microseconds lan)) as [hx err] eqn:Er.
  pose proof (law_RecordValue (recorded := recorded) (highest := highest) _ _ _ _ Er) as [Hhi' Hr].
  rewrite Hhi in Hhi', Hr. destruct err as [e|]; [by destruct Hr as [_ []]|].
  intros op'. destruct (decide (op = op')) as [<-|Hne].
  - rewrite lookup_insert_eq, calls_of_app, decide_True by done. unfold histogram_Measure. simpl. rewrite Er.
    simpl. split; [by destruct (calls_of op l)|split; [done|]]. by rewrite fmap_app, Hr, Hrec.
  - rewrite lookup_insert_ne, calls_of_app, decide_False, app_nil_r by done. apply Hh.
Qed.

Lemma csv_holds_Measure c l op start lan :
  csv_holds c l → csv_holds (csvs_Measure c op start lan) (l ++ [(op, start, lan)]).
Proof.
  intros [Ho Hl]. unfold csvs_Measure. split.
  - intros op'. rewrite calls_of_app. simpl. destruct (decide (op = op')) as [<-|Hne].
    + rewrite lookup_insert_eq. simpl. by rewrite Ho, fmap_app.
    + rewrite lookup_insert_ne, app_nil_r by done. apply Ho.
  - rewrite fmap_app, <- Hl. simpl. set (e := entry_of (op, start, lan)).
    assert (Hsplit : csv_lines (map_to_list c) ≡ₚ
      (csv_line op <$> default [] (c !! op)) ++ csv_lines (map_to_list (delete op c))).
    { destruct (c !! op) as [es|] eqn:E; simpl.
      - rewrite <- (insert_delete_id c op es E) at 1. rewrite map_to_list_insert by apply lookup_delete_eq. done.
      - by rewrite delete_id. }
    rewrite <- insert_delete_eq, (map_to_list_insert _ op _ (lookup_delete_eq c op)), Hsplit.
    unfold csv_lines at 1. simpl. rewrite fmap_app, <- !app_assoc. apply Permutation_app_head.
    simpl. by rewrite Permutation_app_comm.
Qed.
(** ** Histories *)

Definition measurer_holds (x : measurer HD) (l : list (string * Z * Z)) : Prop :=
  match x with Histograms h => hist_holds h l | Csvs c => csv_holds c l end.

(** Latencies a histogram can hold. *)
Definition trackable (c : string * Z * Z) : Prop := 0 <= Microseconds c.2 <= longest.

Lemma measurer_holds_Measure x l op start lan w :
  measurer_holds x l → trackable (op, start, lan) → io_clock w ≠ [] →
  ∃ x' w', measurer_Measure x op start lan w = Ok (x', w') ∧ measurer_holds x' (l ++ [(op, start, lan)]) ∧
    (length (io_clock w) <= S (length (io_clock w')))%nat.
Proof.
  intros Hx Ht Hw. destruct x as [h|c]; simpl in *.
  - destruct (hist_holds_Measure h l op start lan w Hx Ht Hw) as (h' & w' & E & Hh & Hl).
    rewrite (bind_Ok_1 _ _ _ _ _ E). by eexists _, w'.
  - eexists _, w. split; [reflexivity|split; [by apply csv_holds_Measure|lia]].
Qed.

Lemma event_steps_run evs g l w :
  measurer_holds (gm_measurer g) l → Forall trackable (counted_calls (warm_flag g) evs) →
  (length evs <= length (io_clock w))%nat →
  ∃ g' w', event_steps evs g w = Ok (g', w') ∧ gm_p g' = gm_p g ∧
    measurer_holds (gm_measurer g') (l ++ counted_calls (warm_flag g) evs) ∧
    (∀ h, gm_measurer g = Histograms h → ∃ h', gm_measurer g' = Histograms h') ∧
    (∀ c, gm_measurer g = Csvs c → ∃ c', gm_measurer g' = Csvs c').
Proof.
  revert g l w. induction evs as [|[b|op start lan] evs IH]; intros g l w Hx Ht Hw; cbn [event_steps event_step].
  - eexists g, w. rewrite app_nil_r. repeat split; eauto.
  - cbn [counted_calls] in *. rewrite (bind_ret (EnableWarmUp b g)). simpl in Hw.
    destruct (IH (EnableWarmUp b g) l w) as (g' & w' & E & Hr); [done|by rewrite warm_flag_Warm|lia|].
    exists g', w'. split; [exact E|]. by rewrite warm_flag_Warm in Hr.
  - unfold Measure. cbn [counted_calls] in *. unfold warm_flag in *.
    destruct (IsWarmUpFinished g) eqn:Ew; cbn [negb app] in *; simpl in Hw; [|].
    + apply list.Forall_cons in Ht as [Ht1 Ht].
      destruct (measurer_holds_Measure (gm_measurer g) l op start lan w Hx Ht1) as (x' & w1 & E1 & Hx' & Hl).
      { intros E0. rewrite E0 in Hw. simpl in Hw. lia. }
      destruct (IH (set_measurer x' g) (l ++ [(op, start, lan)]) w1) as (g' & w' & E & Hp & Hh & Hhist & Hcsv).
      { done. } { by change (IsWarmUpFinished (set_measurer x' g)) with (IsWarmUpFinished g); rewrite Ew. } { lia. }
      change (IsWarmUpFinished (set_measurer x' g)) with (IsWarmUpFinished g) in Hh. rewrite Ew in Hh.
      exists g', w'. rewrite (bind_Ok_1 _ _ w (set_measurer x' g) w1) by (by rewrite (bind_Ok_1 _ _ _ _ _ E1)).
      split; [exact E|split; [done|split; [by rewrite <- app_assoc in Hh|]]].
      destruct (gm_measurer g) as [h|c]; simpl in *; unfold histograms_Measure in E1; run_inv; split; eauto; by intros.
    + rewrite bind_ret. destruct (IH g l w) as (g' & w' & E & Hr); [done|by rewrite Ew|lia|].
      exists g', w'. split; [exact E|]. by rewrite Ew in Hr.
Qed.

Lemma InitMeasure_holds g0 :
  InitMeasure (W := W) p = Ok g0 →
  measurer_holds (gm_measurer g0) [] ∧ warm_flag g0 = (0 <? GetInt64 p prop.WarmUpTime 0) ∧ gm_p g0 = p ∧
  (GetString p prop.MeasurementType prop.MeasurementTypeDefault = "csv" → gm_measurer g0 = Csvs ∅).
Proof.
  unfold InitMeasure. generalize (GetString p prop.MeasurementType prop.MeasurementTypeDefault). intros ty E.
  assert (∃ x, g0 = EnableWarmUp (0 <? GetInt64 p prop.WarmUpTime 0)
      {| gm_p := p; gm_measurer := x; promeWriter := None; warmUp := 0 |} ∧ measurer_holds x [] ∧
      (ty = "csv" → x = Csvs ∅)) as (x & -> & Hx & Hc).
  { destruct (String.eqb ty "histogram") eqn:Eh;
      [|destruct (String.eqb ty "raw" || String.eqb ty "csv") eqn:Eo; [|discriminate E]]; injection E as <-;
      (eexists; split; [reflexivity|split]).
    - intros op. done.
    - intros ->. discriminate Eh.
    - split; [intros op|]; done.
    - done. }
  split; [exact Hx|split; [apply warm_flag_Warm|split; [done|exact Hc]]].
Qed.

(** C16: Every measured operation is recorded, and nothing from the warm-up.  For any
    history of [Measure] and [EnableWarmUp] calls after [InitMeasure] with either
    measurer, the calls return; the histogram of an operation exists exactly when the
    operation was measured outside the warm-up, and then holds the microseconds of these
    calls in order, none missing (for latencies from 0 to a day); the CSV measurer holds
    their start times and latencies per operation, in order. *)
Theorem measurements_recorded evs g0 w :
  InitMeasure (W := W) p = Ok g0 → (length evs <= length (io_clock w))%nat →
  let l := counted_calls (0 <? GetInt64 p prop.WarmUpTime 0) evs in
  Forall trackable l →
  ∃ g w', event_steps evs g0 w = Ok (g, w') ∧ ∀ op,
    match gm_measurer g with
    | Histograms h => match h !! op with
        | Some x => recorded (hist x) = (λ c : string * Z * Z, Microseconds c.2) <$> calls_of op l ∧
                    TotalCount (hist x) = Z.of_nat (length (calls_of op l)) ∧ calls_of op l ≠ []
        | None => calls_of op l = []
        end
    | Csvs c => default [] (c !! op) = entry_of <$> calls_of op l
    end.
Proof.
  intros (Hx & Hwf & _ & _)%InitMeasure_holds Hw l Ht. subst l. rewrite <- Hwf in *.
  destruct (event_steps_run evs g0 [] w Hx Ht Hw) as (g & w' & E & _ & Hh & _). exists g, w'.
  split; [exact E|]. intros op. cbn [app] in Hh. unfold measurer_holds in Hh.
  destruct (gm_measurer g) as [h|c]; [|apply Hh]. specialize (Hh op). destruct (h !! op) as [x|]; [|done].
  destruct Hh as (? & _ & Hr). split; [done|split; [|done]].
  by rewrite (law_TotalCount (recorded := recorded) (highest := highest)), Hr, length_fmap.
Qed.

(** The CSV log is complete.  After any history the output of the CSV measurer is
    the heading followed by one line per call measured outside the warm-up, with the
    operation, the start and the latency in microseconds, whatever order the operations
    are ranged over in. *)
Lemma csv_log_complete evs g0 w order csv_order render_table marshal :
  InitMeasure (W := W) p = Ok g0 → GetString p prop.MeasurementType prop.MeasurementTypeDefault = "csv" →
  (∀ c, csv_order c ≡ₚ map_to_list c) → (length evs <= length (io_clock w))%nat →
  let l := counted_calls (0 <? GetInt64 p prop.WarmUpTime 0) evs in
  Forall trackable l →
  ∃ g w' lines, event_steps evs g0 w = Ok (g, w') ∧
    measurer_Output order csv_order render_table marshal g w' = Ok (String.concat "" (csv_header :: lines), w') ∧
    lines ≡ₚ (λ c, csv_line c.1.1 (entry_of c)) <$> l.
Proof.
  intros (Hx & Hwf & _ & Hc)%InitMeasure_holds Hty Hord Hw l Ht. subst l. rewrite <- Hwf in *.
  destruct (event_steps_run evs g0 [] w Hx Ht Hw) as (g & w' & E & _ & Hh & _ & Hcsv).
  destruct (Hcsv _ (Hc Hty)) as (c & Eg). exists g, w', (csv_lines (csv_order c)). split; [exact E|].
  unfold measurer_Output. rewrite Eg in *. split; [reflexivity|]. rewrite (Hord c). apply Hh.
Qed.

(** ** The plain report *)

Definition summary_of (i : info) : list string :=
  [FloatToOneString (ELAPSED i); IntToString (COUNT i); FloatToOneString (QPS i); IntToString (AVG i);
   IntToString (MIN i); IntToString (MAX i); IntToString (PER50TH i); IntToString (PER90TH i);
   IntToString (PER95TH i); IntToString (PER99TH i); IntToString (PER999TH i); IntToString (PER9999TH i)].

(** [i] is what the histogram [x] reports at some time. *)
Definition info_of (x : histogram HD) (i : info) : Prop :=
  COUNT i = TotalCount (hist x) ∧ MIN i = hdr_Min (hist x) ∧ MAX i = hdr_Max (hist x) ∧
  AVG i = f64_to_int64 (hdr_Mean (hist x)) ∧ PER99TH i = ValueAtPercentile (hist x) (f64_lit 99 0) ∧
  QPS i = f64_div (f64_of_Z (COUNT i)) (ELAPSED i).

(** A line of the report, as a reader expects it. *)
Definition report_line (op : string) (i : info) : string :=
  pad_right 6 op +:+ " - " +:+ Join
    ["Takes(s): " +:+ FloatToOneString (ELAPSED i); "Count: " +:+ IntToString (COUNT i);
     "OPS: " +:+ FloatToOneString (QPS i); "Avg(us): " +:+ IntToString (AVG i);
     "Min(us): " +:+ IntToString (MIN i); "Max(us): " +:+ IntToString (MAX i);
     "50th(us): " +:+ IntToString (PER50TH i); "90th(us): " +:+ IntToString (PER90TH i);
     "95th(us): " +:+ IntToString (PER95TH i); "99th(us): " +:+ IntToString (PER99TH i);
     "99.9th(us): " +:+ IntToString (PER999TH i); "99.99th(us): " +:+ IntToString (PER9999TH i)] ", "
  +:+ newline.

Lemma histogram_Summary_run (x : histogram HD) w :
  io_clock w ≠ [] → ∃ i w', histogram_Summary x w = Ok (summary_of i, w') ∧ info_of x i ∧
    length (io_clock w) = S (length (io_clock w')).
Proof.
  intros Hw. unfold histogram_Summary, getInfo, io_now. destruct w as [[|t ts] cr out]; [done|].
  eexists _, _. split; [reflexivity|]. by repeat split.
Qed.

Lemma summaries_run (hs : list (string * histogram HD)) w :
  NoDup hs.*1 → (length hs <= length (io_clock w))%nat →
  ∃ infos w', summaries hs w = Ok (summary_of <$> infos, w') ∧ dom (infos : gmap string info) = list_to_set hs.*1 ∧
    ∀ op x, (op, x) ∈ hs → ∃ i, infos !! op = Some i ∧ info_of x i.
Proof.
  revert w. induction hs as [|[op x] hs IH]; intros w Hn Hw; cbn [summaries].
  { exists ∅, w. rewrite fmap_empty. split; [reflexivity|split; [apply dom_empty_L|]]. by intros ? ? ?%elem_of_nil. }
  rewrite fmap_cons in Hn. apply list.NoDup_cons in Hn as [Hop Hn]. simpl in Hw.
  destruct (histogram_Summary_run x w) as (i & w1 & E1 & Hi & Hl).
  { intros E0. rewrite E0 in Hw. simpl in Hw. lia. }
  rewrite (bind_Ok_1 _ _ _ _ _ E1). destruct (IH w1 Hn) as (infos & w' & E & Hd & Hin); [lia|].
  rewrite (bind_Ok_1 _ _ _ _ _ E). exists (<[op := i]> infos), w'. rewrite fmap_insert.
  split; [reflexivity|split; [by rewrite dom_insert_L, Hd|]].
  intros op' x' [[= -> ->]|Hx]%elem_of_cons; [exists i; by rewrite lookup_insert_eq|].
  rewrite lookup_insert_ne; [by apply Hin|]. intros <-. apply Hop. by apply (list_elem_of_fmap_2 fst _ (op, x')).
Qed.

Lemma render_lines_run (l : list (string * info)) :
  render_lines plain_format header ((λ oi, oi.1 :: summary_of oi.2) <$> l) =
  Ok (String.concat "" ((λ oi, report_line oi.1 oi.2) <$> l)).
Proof.
  induction l as [|[op i] l IH]; [done|]. rewrite !fmap_cons, concat_cons. cbn [render_lines].
  unfold header at 1. rewrite IH. reflexivity.
Qed.
(** The values of a map along its keys. *)
Lemma lookup_all (infos : gmap string info) keys :
  (∀ op, op ∈ keys → op ∈ dom infos) →
  ∃ l, l.*1 = keys ∧ (∀ op i, (op, i) ∈ l → infos !! op = Some i) ∧
    (λ op, op :: default [] ((summary_of <$> infos) !! op)) <$> keys =
    (λ oi, oi.1 :: summary_of oi.2) <$> l.
Proof.
  induction keys as [|op keys IH]; intros Hk.
  { exists []. split; [done|split; [|done]]. by intros ? ? ?%elem_of_nil. }
  destruct IH as (l & Hl & Hin & Hm); [intros; apply Hk; by right|].
  destruct (proj1 (elem_of_dom infos op)) as [i Hi]; [apply Hk; by left|].
  exists ((op, i) :: l). rewrite !fmap_cons, Hl, Hm, lookup_fmap, Hi. split; [done|split; [|done]].
  intros op' i' [[= -> ->]|?]%elem_of_cons; [done|by apply Hin].
Qed.

Lemma histograms_Output_plain (h : gmap string (histogram HD)) order render_table marshal w :
  GetString p prop.OutputStyle OutputStylePlain = OutputStylePlain → order h ≡ₚ map_to_list h →
  (size h <= length (io_clock w))%nat →
  ∃ l w', histograms_Output p order render_table marshal h w =
            Ok (String.concat "" ((λ oi, report_line oi.1 oi.2) <$> l), w') ∧
    l.*1 = sorted_keys h ∧ (∀ op i, (op, i) ∈ l → ∃ x, h !! op = Some x ∧ info_of x i).
Proof.
  intros Hs Ho Hw. destruct (summaries_run (order h) w) as (infos & w' & E & Hd & Hin).
  { rewrite Ho. apply NoDup_fst_map_to_list. } { by rewrite Ho, length_map_to_list. }
  assert (Hdom : dom infos = dom h).
  { rewrite Hd. apply set_eq. intros op. rewrite elem_of_list_to_set, Ho, elem_of_dom.
    rewrite list_elem_of_fmap. split.
    - intros ([op' x] & -> & Hx%elem_of_map_to_list). by exists x.
    - intros [x Hx]. exists (op, x). split; [done|by apply elem_of_map_to_list]. }
  destruct (lookup_all infos (sorted_keys h)) as (l & Hl & Hli & Hm).
  { intros op. rewrite Hdom, sorted_keys_elem. done. }
  exists l, w'. split; [|split; [done|]].
  - unfold histograms_Output, histograms_summary. rewrite (bind_Ok_1 _ _ _ _ _ E), Hs.
    unfold report_lines. rewrite (sorted_keys_dom (summary_of <$> infos) h) by by rewrite dom_fmap_L.
    rewrite Hm. unfold RenderString, lift. simpl. rewrite length_fmap.
    destruct l as [|oi l]; [done|]. rewrite decide_False by done. by rewrite render_lines_run.
  - intros op i Hi. assert (op ∈ dom h) as [x Hx]%elem_of_dom.
    { rewrite <- Hdom. apply elem_of_dom. exists i. by apply Hli. }
    destruct (Hin op x) as (i' & Hi' & Hx'); [rewrite Ho; by apply elem_of_map_to_list|].
    rewrite (Hli op i Hi) in Hi'. injection Hi' as ->. by exists x.
Qed.

(** The plain report lists every measured operation once, in the order of its name,
    on a line whose values stand under the right headings: the count of the operation's
    histogram after "Count", its minimum after "Min(us)", its 99th percentile after
    "99th(us)" and so on, whatever order the operations are ranged over in. *)
Lemma plain_report (h : gmap string (histogram HD)) order render_table marshal w :
  GetString p prop.OutputStyle OutputStylePlain = OutputStylePlain → order h ≡ₚ map_to_list h →
  (size h <= length (io_clock w))%nat →
  ∃ l w', histograms_Output p order render_table marshal h w =
            Ok (String.concat "" ((λ oi, report_line oi.1 oi.2) <$> l), w') ∧
    StronglySorted (λ a b, str_lt a b = true) l.*1 ∧ (∀ op, op ∈ l.*1 ↔ op ∈ dom h) ∧
    (∀ op i, (op, i) ∈ l → ∃ x, h !! op = Some x ∧ info_of x i).
Proof.
  intros Hs Ho Hw. destruct (histograms_Output_plain h order render_table marshal w Hs Ho Hw)
    as (l & w' & E & Hl & Hin).
  exists l, w'. rewrite Hl. split; [done|split; [apply sorted_keys_sorted|split; [apply sorted_keys_elem|done]]].
Qed.
End spec.

(** ** Witnesses *)

Definition ex_events : list event :=
  [Warm true; Meas "READ" 1000000 5000000; Warm false; Meas "READ" 2000000 7000; Meas "UPDATE" 3000000 1999;
   Meas "READ" 4000000 9000].

Definition ex_io : IO := {| io_clock := seqZ 0 10; io_create := λ _, None; io_out := [] |}.

Definition ex_measure (p : ref_props) : res (measurement ref_props list_hdr unit) := InitMeasure p.

Lemma ex_trackable : Forall trackable (counted_calls false ex_events).
Proof. repeat constructor; vm_compute; discriminate. Qed.

Lemma measurements_recorded_witness :
  ∃ g0 g w', ex_measure [] = Ok g0 ∧ event_steps ex_events g0 ex_io = Ok (g, w') ∧ ∀ op,
    let l := counted_calls false ex_events in
    match gm_measurer g with
    | Histograms h => match h !! op with
        | Some x => lh_values (hist x) = (λ c : string * Z * Z, Microseconds c.2) <$> calls_of op l ∧
                    TotalCount (hist x) = Z.of_nat (length (calls_of op l)) ∧ calls_of op l ≠ []
        | None => calls_of op l = []
        end
    | Csvs c => default [] (c !! op) = entry_of <$> calls_of op l
    end.
Proof.
  destruct (ex_measure []) as [g0|?|?|] eqn:E0; try discriminate E0. exists g0.
  destruct (measurements_recorded (W := unit) ([] : ref_props) lh_values lh_highest ex_events g0 ex_io E0) as (g & w' & E & Hr).
  - simpl. lia.
  - exact ex_trackable.
  - exists g, w'. split; [reflexivity|split; [exact E|exact Hr]].
Defined.

Definition ex_hists : gmap string (histogram list_hdr) :=
  {["READ" := {| startTime := 0; hist := {| lh_values := [7; 9]; lh_highest := longest |} |};
    "INSERT" := {| startTime := 0; hist := {| lh_values := [3]; lh_highest := longest |} |}]}.

