(* ===== verification/Prometheus.v ===== *)
(** * pkg/measurement/prometheus.go

    The time series pushed for each measured operation, the query that reads them back,
    the aggregation by benchmark number and its CSV file.  The HTTP transport with the
    decoding of the answer ([HttpClient]), the protobuf/snappy encoding of a write
    request ([encode]), what [math/rand] delivers for a seed ([rand_source]) and the
    formatted local time ([stamp]) are parameters; the order in which Go ranges over a map
    is [order]. *)

From stdpp Require Import sorting.
From S2P Require Import Prelude GoFloat GoRand GoStr GoConv GoText Props Util Measurement.

(** ** HTTP *)

Record Request := { req_method : string; req_url : string; req_header : list (string * string); req_body : string }.

(** An element of the [value] pair of a Prometheus answer. *)
Inductive json_value := JString (s : string) | JOther.

Record QueryResult := { Metric : gmap string string; ResultValue : list json_value }.

(** The body is what [json.Decoder.Decode] makes of it. *)
Record Response := { StatusCode : Z; Body : string + list QueryResult }.

Class HttpClient := {
  NewRequest_error : string → string → option string;
  Do : Request → M IO (string + Response)
}.

(** ** The writer *)

Record PrometheusRemoteWriter := { prometheusURL : string; writer_benchNo : string; randomNum : string }.

Record TimeSeries := { Labels : list (string * string); Timestamp : Z; SampleValue : float64 }.

Definition UnixMilli (t : Z) : Z := t / 1000000.

Definition benchNoSafe (w : PrometheusRemoteWriter) : string := ReplaceAll (writer_benchNo w) "-" "_".

Section writer.
Context (rand_source : Z → rand).

Definition generateRandomNum : M IO string :=
  seed ← io_now;
  '(n, _) ← lift (Intn 90000000 (rand_source seed));
  mret (FormatInt (10000000 + n)).

Definition NewPrometheusRemoteWriter (prometheusURL benchNo : string) : M IO PrometheusRemoteWriter :=
  n ← generateRandomNum;
  mret {| prometheusURL := TrimSuffix prometheusURL "/"; writer_benchNo := benchNo; randomNum := n |}.
End writer.

(** ** The time series *)

Definition createSeries (w : PrometheusRemoteWriter) (now : Z) (metricName : string) (value : float64)
    (opLabel : string) : TimeSeries :=
  {| Labels := [("__name__", metricName); ("bench_no", writer_benchNo w); ("operation", opLabel)];
     Timestamp := now; SampleValue := value |}.

Definition metricPrefix (w : PrometheusRemoteWriter) (op : string) : string :=
  "ycsb_" +:+ benchNoSafe w +:+ "_" +:+ randomNum w +:+ "_" +:+
  (if String.eqb op "TOTAL" then "all" else ToLower op).

(** Microseconds to milliseconds. *)
Definition millis (us : Z) : float64 := f64_div (f64_of_Z us) (f64_of_Z 1000).

(** The series of one operation. *)
Definition op_series (w : PrometheusRemoteWriter) (now : Z) (op : string) (i : info) : list TimeSeries :=
  let series suffix value := createSeries w now (metricPrefix w op +:+ suffix) value op in
  [series "_total_time" (ELAPSED i); series "_oper_count" (f64_of_Z (COUNT i)); series "_ops" (QPS i);
   series "_avg" (millis (AVG i)); series "_min" (millis (MIN i)); series "_max" (millis (MAX i));
   series "_p90" (millis (PER90TH i)); series "_p95" (millis (PER95TH i)); series "_p99" (millis (PER99TH i));
   series "_p999" (millis (PER999TH i)); series "_p9999" (millis (PER9999TH i))].

Section series.
Context {H : Type} `{HDR H}.

(** The operations pushed, sorted. *)
Definition pushed_ops (h : gmap string (histogram H)) (skipReadModifyWrite : bool) : list string :=
  merge_sort str_le
    (filter (λ op, skipReadModifyWrite && String.eqb op "READ_MODIFY_WRITE" = false) (map_to_list h).*1).

(** The loop that fills [infoCache] and adds up [calculatedTotalOps]. *)
Fixpoint info_cache (h : gmap string (histogram H)) (operations : list string) (total : float64)
    : M IO (list (string * info) * float64) :=
  match operations with
  | [] => mret ([], total)
  | op :: ops =>
      match h !! op with
      | None => panic "invalid memory address or nil pointer dereference"
      | Some hist =>
          i ← getInfo hist;
          '(cache, total) ← info_cache h ops (if String.eqb op "TOTAL" then total else f64_add total (QPS i));
          mret ((op, i) :: cache, total)
      end
  end.

Definition calculated_series (w : PrometheusRemoteWriter) (now : Z) (total : float64) : TimeSeries :=
  createSeries w now ("ycsb_" +:+ benchNoSafe w +:+ "_" +:+ randomNum w +:+ "_calculated_total_ops")
    total "CALCULATED".

Definition buildTimeSeries (w : PrometheusRemoteWriter) (h : gmap string (histogram H))
    (skipReadModifyWrite : bool) : M IO (list TimeSeries) :=
  t ← io_now;
  let now := UnixMilli t in
  '(infoCache, calculatedTotalOps) ← info_cache h (pushed_ops h skipReadModifyWrite) f64_zero;
  mret ((infoCache ≫= λ oi, op_series w now oi.1 oi.2) ++ [calculated_series w now calculatedTotalOps]).

(** ** Writing *)

Context `{HttpClient} (encode : list TimeSeries → string + string).

Definition write_headers : list (string * string) :=
  [("Content-Type", "application/x-protobuf"); ("Content-Encoding", "snappy");
   ("X-Prometheus-Remote-Write-Version", "0.1.0")].

(** The result is the error returned, if any. *)
Definition remoteWrite (w : PrometheusRemoteWriter) (timeseries : list TimeSeries) : M IO (option string) :=
  match encode timeseries with
  | inl err => mret (Some ("failed to marshal write request: " +:+ err))
  | inr compressed =>
      let url := prometheusURL w +:+ "/api/v1/write" in
      match NewRequest_error "POST" url with
      | Some err => mret (Some ("failed to create request: " +:+ err))
      | None =>
          r ← Do {| req_method := "POST"; req_url := url; req_header := write_headers; req_body := compressed |};
          match r with
          | inl err => mret (Some ("failed to send remote write request: " +:+ err))
          | inr resp =>
              if negb (StatusCode resp =? 204) && negb (StatusCode resp =? 200)
              then mret (Some ("remote write returned status " +:+ FormatInt (StatusCode resp) +:+ " (expected 204)"))
              else mret None
          end
      end
  end.

(** [g]: [globalMeasure], [None] before [InitMeasure]. *)
Definition WriteMetrics {P W : Type} `{Properties P} (g : option (measurement P H W))
    (w : PrometheusRemoteWriter) : M IO (option string) :=
  match g with
  | None => mret (Some "measurement not initialized")
  | Some g =>
      match gm_measurer g with
      | Csvs _ => mret (Some "prometheus remote write only supports histogram measurement type")
      | Histograms h =>
          let isWorkloadF := f64_ltb f64_zero (GetFloat64 (gm_p g) "readmodifywriteproportion" f64_zero) in
          timeseries ← buildTimeSeries w h isWorkloadF;
          if decide (timeseries = []) then mret (Some "no metrics to write") else remoteWrite w timeseries
      end
  end.
End series.

(** [PushToPrometheus] *)
Definition PushToPrometheus {H P W : Type} `{HDR H} `{HttpClient} `{Properties P} (rand_source : Z → rand)
    (encode : list TimeSeries → string + string) (g : option (measurement P H W)) (url benchNo : string)
    : M IO (option string) :=
  w ← NewPrometheusRemoteWriter rand_source url benchNo; WriteMetrics encode g w.

(** ** Querying *)

Section query.
Context `{HttpClient}.

Definition http_Get (url : string) : M IO (string + Response) :=
  match NewRequest_error "GET" url with
  | Some err => mret (inl err)
  | None => Do {| req_method := "GET"; req_url := url; req_header := []; req_body := "" |}
  end.

(** The loop over the results. *)
Definition add_result (metrics : gmap string float64) (r : QueryResult) : gmap string float64 :=
  let name := default "" (Metric r !! "__name__") in
  if String.eqb name "" then metrics else
  match ResultValue r with
  | _ :: JString valueStr :: _ =>
      match ParseFloat valueStr with
      | Some value => if f64_ltb f64_zero value then <[name := value]> metrics else metrics
      | None => metrics
      end
  | _ => metrics
  end.

Definition query_url (w : PrometheusRemoteWriter) (bench : string) : string :=
  let query := "{__name__=~" +:+ String dquote ("ycsb_" +:+ bench +:+ "_.+" +:+ String dquote "}") in
  prometheusURL w +:+ "/api/v1/query?query=" +:+ QueryEscape query.

Definition queryMetrics (w : PrometheusRemoteWriter) (bench : string) : M IO (string + gmap string float64) :=
  r ← http_Get (query_url w bench);
  mret match r with
  | inl err => inl ("failed to query Prometheus: " +:+ err)
  | inr resp =>
      if negb (StatusCode resp =? 200) then inl ("Prometheus returned status " +:+ FormatInt (StatusCode resp))
      else match Body resp with
      | inl err => inl ("failed to decode response: " +:+ err)
      | inr results =>
          let metrics := foldl add_result ∅ results in
          if decide (metrics = ∅) then inl ("no metrics found for bench-no: " +:+ writer_benchNo w)
          else inr metrics
      end
  end.

(** [queryMetricValue]; the value that comes with an error is not used. *)
Definition queryMetricValue (w : PrometheusRemoteWriter) (metricName : string) : M IO (string + float64) :=
  r ← http_Get (prometheusURL w +:+ "/api/v1/query?query=" +:+ metricName);
  mret match r with
  | inl err => inl err
  | inr resp =>
      if negb (StatusCode resp =? 200) then inl ("status " +:+ FormatInt (StatusCode resp))
      else match Body resp with
      | inl err => inl err
      | inr [] => inl "no data"
      | inr (r0 :: _) =>
          match ResultValue r0 with
          | _ :: JString valueStr :: _ =>
              match ParseFloat valueStr with
              | Some value => inr value
              | None => inl ("strconv.ParseFloat: parsing " +:+ valueStr)
              end
          | _ => inl "invalid value format"
          end
      end
  end.
End query.

(** ** Aggregation *)

Definition name_pattern (bench : string) : list rx_item :=
  rx_lit ("ycsb_" +:+ bench +:+ "_") ++
  [RxGroup rx_digit; RxChar "_"; RxGroup rx_word; RxChar "_"; RxGroup rx_word].

(** The four maps of [aggregateMetrics]. *)
Record aggregation := {
  aggregated : gmap string float64; counts : gmap string Z;
  minValues : gmap string float64; maxValues : gmap string float64
}.

(** [m[key] += value] *)
Definition add_to (m : gmap string float64) (key : string) (value : float64) : gmap string float64 :=
  <[key := f64_add (default f64_zero (m !! key)) value]> m.

(** [if current, exists := m[key]; !exists || better value current { m[key] = value }] *)
Definition keep_best (better : float64 → float64 → bool) (m : gmap string float64) (key : string) (value : float64)
    : gmap string float64 :=
  match m !! key with
  | Some current => if better value current then <[key := value]> m else m
  | None => <[key := value]> m
  end.

(** The switch on the metric.  A count is at most the number of metrics: it does not
    overflow. *)
Definition aggregate_value (oper metric : string) (value : float64) (a : aggregation) : aggregation :=
  let aggKey := oper +:+ "_" +:+ metric in
  if bool_decide (metric ∈ ["oper_count"; "total_time"; "ops"]) then
    {| aggregated := add_to (aggregated a) aggKey value; counts := counts a;
       minValues := minValues a; maxValues := maxValues a |}
  else if String.eqb metric "min" then
    let mins := keep_best f64_ltb (minValues a) aggKey value in
    {| aggregated := <[aggKey := default f64_zero (mins !! aggKey)]> (aggregated a); counts := counts a;
       minValues := mins; maxValues := maxValues a |}
  else if String.eqb metric "max" then
    let maxs := keep_best (λ v c, f64_ltb c v) (maxValues a) aggKey value in
    {| aggregated := <[aggKey := default f64_zero (maxs !! aggKey)]> (aggregated a); counts := counts a;
       minValues := minValues a; maxValues := maxs |}
  else if bool_decide (metric ∈ ["avg"; "p90"; "p95"; "p99"; "p999"; "p9999"]) then
    {| aggregated := add_to (aggregated a) aggKey value;
       counts := <[aggKey := default 0 (counts a !! aggKey) + 1]> (counts a);
       minValues := minValues a; maxValues := maxValues a |}
  else a.

(** One round of the loop over the metrics. *)
Definition aggregate_metric (bench : string) (a : aggregation) (mv : string * float64) : aggregation :=
  match rx_match (name_pattern bench) mv.1 with
  | Some [_; oper; metric] =>
      if String.eqb oper "calculated" then a else aggregate_value oper metric mv.2 a
  | _ => a
  end.

(** The averages. *)
Definition average (agg : gmap string float64) (kc : string * Z) : gmap string float64 :=
  if 0 <? kc.2 then <[kc.1 := f64_div (default f64_zero (agg !! kc.1)) (f64_of_Z kc.2)]> agg else agg.

Section aggregate.
Context (order : ∀ A, gmap string A → list (string * A)).

Definition aggregateMetrics (metrics : gmap string float64) (bench : string) : gmap string float64 :=
  let a := foldl (aggregate_metric bench)
             {| aggregated := ∅; counts := ∅; minValues := ∅; maxValues := ∅ |} (order _ metrics) in
  foldl average (aggregated a) (order _ (counts a)).

(** ** The CSV file *)

(** The lines of one section. *)
Definition csv_section (type : string) (m : gmap string float64) : list (list string) :=
  (λ name, [type; name; fmt_fixed 6 (default f64_zero (m !! name))]) <$> sorted_keys m.

Definition csv_rows (metrics aggregated : gmap string float64) : list (list string) :=
  [["Type"; "Metric Name"; "Value"]; ["RAW METRICS"; ""; ""]] ++ csv_section "raw" metrics ++
  [[""; ""; ""]; ["AGGREGATED METRICS"; ""; ""]] ++ csv_section "aggregated" aggregated.

Definition writeCSV (filename : string) (metrics aggregated : gmap string float64) : M IO (option string) :=
  f ← create filename;
  match f with
  | inl err => mret (Some ("failed to create file: " +:+ err))
  | inr file => _ ← write file (String.concat "" (csv_record <$> csv_rows metrics aggregated)); mret None
  end.

Context `{HttpClient} (stamp : Z → string).

(** The error, or the name of the file. *)
Definition QueryAndAggregate (w : PrometheusRemoteWriter) : M IO (string + string) :=
  r ← queryMetrics w (benchNoSafe w);
  match r with
  | inl err => mret (inl ("failed to query metrics: " +:+ err))
  | inr metrics =>
      if decide (metrics = ∅) then mret (inl ("no metrics found for bench-no: " +:+ writer_benchNo w)) else
      let agg := aggregateMetrics metrics (benchNoSafe w) in
      t ← io_now;
      let csvFileName := "ycsb-" +:+ writer_benchNo w +:+ "-" +:+ stamp t +:+ ".csv" in
      err ← writeCSV csvFileName metrics agg;
      mret match err with
           | Some err => inl ("failed to write CSV: " +:+ err)
           | None => inr csvFileName
           end
  end.

Definition QueryAndAggregateMetrics (rand_source : Z → rand) (url benchNo : string) : M IO (string + string) :=
  w ← NewPrometheusRemoteWriter rand_source url benchNo; QueryAndAggregate w.

Definition QueryOnly (url benchNo : string) : M IO (string + string) :=
  QueryAndAggregate {| prometheusURL := TrimSuffix url "/"; writer_benchNo := benchNo; randomNum := "" |}.
End aggregate.

Example aggregateMetrics_ex :
  aggregateMetrics (λ _, map_to_list)
    (list_to_map [("ycsb_b_1_1_read_ops", f64_of_Z 10); ("ycsb_b_1_2_read_ops", f64_of_Z 5);
                  ("ycsb_b_1_1_read_oper_count", f64_of_Z 7); ("ycsb_b_1_2_read_avg", f64_of_Z 3);
                  ("ycsb_b_1_1_read_avg", f64_of_Z 1)]) "b_1" =
  list_to_map [("read_ops", f64_of_Z 15); ("read_avg", f64_of_Z 2)].
Proof. vm_compute. reflexivity. Qed.
