(* ===== verification/PrometheusSpec.v ===== *)
(** * What the Prometheus export promises

    Names: what the aggregation reads back from the name of a pushed series.
    Aggregation: for every operation and metric the sum, minimum, maximum or mean of the
    values of the instances, and what it leaves out.  Writing: the series of one push. *)

From stdpp Require Import sorting.
From S2P Require Import Prelude GoFloat GoRand GoStr GoConv GoText Props Util Measurement MeasurementSpec Prometheus.

(** ** Names *)

Abbreviation tail_pattern := [RxGroup rx_word; RxChar "_"; RxGroup rx_word].

Definition word (s : string) : Prop := s ≠ "" ∧ all_in rx_word s = true.

(** A metric as the aggregation can read it: no underscore. *)
Definition plain_metric (s : string) : Prop := word s ∧ all_in (λ c, negb (Ascii.eqb c "_")) s = true.

#[global] Instance word_dec s : Decision (word s).
Proof. unfold word. apply _. Defined.

Lemma all_in_drop cls k s : all_in cls s = true → all_in cls (drop_str k s) = true.
Proof.
  unfold all_in. revert s. induction k as [|k IH]; intros s Hs; [done|]. destruct s as [|c s]; [done|].
  simpl in *. apply IH. by apply andb_true_iff in Hs as [_ ?].
Qed.

Lemma run_len_all cls s : all_in cls s = true → run_len cls s = String.length s.
Proof.
  unfold all_in. induction s as [|c s IH]; [done|]. simpl. intros [-> Hs]%andb_true_iff. by rewrite IH.
Qed.

Lemma take_str_all s : take_str (String.length s) s = s.
Proof. induction s as [|c s IH]; [done|]. simpl. by rewrite IH. Qed.

Lemma drop_str_all s : drop_str (String.length s) s = "".
Proof. by induction s. Qed.

(** A final group takes a word whole. *)
Lemma rx_match_last s : word s → rx_match [RxGroup rx_word] s = Some [s].
Proof.
  intros [Hs Hw]. rewrite rx_match_group, run_len_all by done.
  destruct s as [|c s]; [done|]. rewrite (rx_try_first [] (String c s) _ (String.length (String c s)) []).
  - by rewrite take_str_all.
  - simpl. lia.
  - by rewrite drop_str_all.
  - intros i Hi. lia.
Qed.

Lemma rx_match_last_inv s gs : rx_match [RxGroup rx_word] s = Some gs → gs = [s] ∧ word s.
Proof.
  rewrite rx_match_group. intros (j & gs' & -> & Hj & E & _)%rx_try_inv.
  cbn [rx_match] in E. destruct (drop_str j s) as [|] eqn:Ed; [|done]. injection E as <-.
  pose proof (take_drop_str j s) as Hs. rewrite Ed, string_app_nil_r in Hs.
  split; [by rewrite Hs|split].
  - intros ->. simpl in Hj. lia.
  - rewrite <- Hs. apply run_len_take. lia.
Qed.

(** A group that must be followed by a given character and a word. *)
Lemma rx_match_tail_inv s gs : rx_match tail_pattern s = Some gs →
  ∃ o m, gs = [o; m] ∧ s = o +:+ "_" +:+ m ∧ word o ∧ word m.
Proof.
  rewrite rx_match_group. intros (j & gs' & -> & Hj & E & _)%rx_try_inv.
  pose proof (take_drop_str j s) as Hs. cbn [rx_match] in E.
  destruct (drop_str j s) as [|c m] eqn:Ed; [done|].
  destruct (Ascii.eqb_spec "_" c) as [<-|]; [|done].
  apply (rx_match_last_inv m) in E as [-> Hm].
  exists (take_str j s), m. split; [done|split; [by rewrite <- Hs at 1|split; [|done]]]. split.
  - destruct j; [lia|]. destruct s; [simpl in Ed; discriminate Ed|done].
  - apply run_len_take. lia.
Qed.

Lemma drop_app_add o k t : drop_str (String.length o + k) (o +:+ t) = drop_str k t.
Proof.
  induction o as [|c o IH]; [done|]. change (String c o +:+ t) with (String c (o +:+ t)). exact IH.
Qed.

Lemma string_length_app s t : String.length (s +:+ t) = (String.length s + String.length t)%nat.
Proof.
  induction s as [|c s IH]; [done|]. change (String c s +:+ t) with (String c (s +:+ t)). simpl. by rewrite IH.
Qed.

(** The metric has no underscore, so the run of the operation is the longest. *)
Lemma rx_match_tail o m : word o → plain_metric m → rx_match tail_pattern (o +:+ "_" +:+ m) = Some [o; m].
Proof.
  intros [Ho Hwo] [Hm Hu]. rewrite rx_match_group.
  assert (all_in rx_word (o +:+ "_" +:+ m) = true) as Hall.
  { unfold all_in in *. rewrite !string_forall_app, Hwo. apply Hm. }
  rewrite run_len_all by done. rewrite (rx_try_first _ _ _ (String.length o) [m]); [by rewrite take_app_length|..].
  - split; [by destruct o; [|simpl; lia]|]. rewrite string_length_app. lia.
  - rewrite drop_app_length. change ("_" +:+ m) with (String "_" m).
    cbn [rx_match]. rewrite Ascii.eqb_refl. by apply (rx_match_last m).
  - intros i Hi. replace i with (String.length o + S (i - String.length o - 1))%nat by lia.
    rewrite drop_app_add. change ("_" +:+ m) with (String "_" m). cbn [drop_str].
    pose proof (all_in_drop _ (i - String.length o - 1) m Hu) as Hd.
    destruct (drop_str _ m) as [|c d]; [done|]. unfold all_in in Hd. simpl in Hd.
    apply andb_true_iff in Hd as [Hc _]. cbn [rx_match]. rewrite Ascii.eqb_sym. by destruct (Ascii.eqb c "_").
Qed.

Definition number (s : string) : Prop := s ≠ "" ∧ all_in is_digit s = true.

Definition metric_name (bench r o m : string) : string :=
  "ycsb_" +:+ bench +:+ "_" +:+ r +:+ "_" +:+ o +:+ "_" +:+ m.

Lemma metric_name_split bench r o m :
  metric_name bench r o m = ("ycsb_" +:+ bench +:+ "_") +:+ (r +:+ String "_" (o +:+ "_" +:+ m)).
Proof. unfold metric_name. by rewrite <- !string_app_assoc. Qed.

Lemma name_match_built bench r o m : number r → word o → plain_metric m →
  rx_match (name_pattern bench) (metric_name bench r o m) = Some [r; o; m].
Proof.
  intros [Hr Hd] Ho Hm. unfold name_pattern. rewrite metric_name_split, rx_match_lit, rx_match_group.
  rewrite run_len_app by done. change (run_len rx_digit (String "_" _)) with 0%nat. rewrite Nat.add_0_r.
  rewrite (rx_try_first _ _ _ (String.length r) [o; m]); [by rewrite take_app_length|..].
  - destruct r; [done|simpl; lia].
  - rewrite drop_app_length. cbn [rx_match]. rewrite Ascii.eqb_refl. by apply (rx_match_tail o m).
  - intros i Hi. lia.
Qed.

Lemma name_match_inv bench s gs : rx_match (name_pattern bench) s = Some gs →
  ∃ r o m, gs = [r; o; m] ∧ s = metric_name bench r o m ∧ number r ∧
    rx_match tail_pattern (o +:+ "_" +:+ m) = Some [o; m].
Proof.
  intros (t & -> & E)%rx_match_lit_inv. rewrite rx_match_group in E.
  apply rx_try_inv in E as (j & gs' & -> & Hj & E & _). pose proof (take_drop_str j t) as Ht.
  cbn [rx_match] in E. destruct (drop_str j t) as [|c u] eqn:Ed; [done|].
  destruct (Ascii.eqb_spec "_" c) as [<-|]; [|done].
  change (rx_match tail_pattern u = Some gs') in E.
  pose proof E as (o & m & -> & -> & _)%rx_match_tail_inv.
  exists (take_str j t), o, m. split; [done|split; [by rewrite metric_name_split, Ht|split; [|done]]]. split.
  - destruct j; [lia|]. destruct t; [simpl in Ed; discriminate Ed|done].
  - apply (run_len_take rx_digit). lia.
Qed.

(** ** Aggregation *)

(** The operation and metric under which the aggregation counts a name. *)
Definition counted_as (bench name : string) : option (string * string) :=
  match rx_match (name_pattern bench) name with
  | Some [_; oper; metric] => if String.eqb oper "calculated" then None else Some (oper, metric)
  | _ => None
  end.

(** The values of an operation's metric, in the order they are met. *)
Definition values (bench oper metric : string) (l : list (string * float64)) : list float64 :=
  omap (λ nv, if decide (counted_as bench nv.1 = Some (oper, metric)) then Some nv.2 else None) l.

Inductive method := Sum | Minimum | Maximum | Average | Ignored.

#[global] Instance method_eq_dec : EqDecision method.
Proof. solve_decision. Defined.

Definition method_of (metric : string) : method :=
  if bool_decide (metric ∈ ["oper_count"; "total_time"; "ops"]) then Sum
  else if String.eqb metric "min" then Minimum
  else if String.eqb metric "max" then Maximum
  else if bool_decide (metric ∈ ["avg"; "p90"; "p95"; "p99"; "p999"; "p9999"]) then Average
  else Ignored.

(** The first of the best values. *)
Definition best (better : float64 → float64 → bool) (vs : list float64) : option float64 :=
  foldl (λ acc v, match acc with Some c => if better v c then Some v else acc | None => Some v end) None vs.

Definition max_better (v c : float64) : bool := f64_ltb c v.

(** The running sum, from zero. *)
Definition total (vs : list float64) : option float64 :=
  if decide (vs = []) then None else Some (foldl f64_add f64_zero vs).

(** The loop's four maps for one key, as a function of the values met. *)
Record key_view := { kv_agg : option float64; kv_count : option Z; kv_min : option float64; kv_max : option float64 }.

Definition view_key (a : aggregation) (key : string) : key_view :=
  {| kv_agg := aggregated a !! key; kv_count := counts a !! key;
     kv_min := minValues a !! key; kv_max := maxValues a !! key |}.

Definition expected_view (k : method) (vs : list float64) : key_view :=
  {| kv_agg := match k with
               | Sum | Average => total vs
               | Minimum => best f64_ltb vs
               | Maximum => best max_better vs
               | Ignored => None
               end;
     kv_count := if decide (k = Average ∧ vs ≠ []) then Some (Z.of_nat (length vs)) else None;
     kv_min := if decide (k = Minimum) then best f64_ltb vs else None;
     kv_max := if decide (k = Maximum) then best max_better vs else None |}.

Definition agg_key (oper metric : string) : string := oper +:+ "_" +:+ metric.

(** An operation and a metric as a name is read. *)
Definition readable (oper metric : string) : Prop :=
  rx_match tail_pattern (agg_key oper metric) = Some [oper; metric].

Lemma readable_inj o m o' m' : readable o m → readable o' m' → agg_key o m = agg_key o' m' → (o, m) = (o', m').
Proof. unfold readable. intros E E' Hk. rewrite Hk, E' in E. by injection E as -> ->. Qed.

Lemma counted_readable bench name o m : counted_as bench name = Some (o, m) → readable o m.
Proof.
  unfold counted_as. destruct (rx_match _ name) as [gs|] eqn:E; [|done].
  destruct (name_match_inv _ _ _ E) as (r & o' & m' & -> & _ & _ & Ht).
  destruct (String.eqb o' "calculated"); [done|]. by intros [= -> ->].
Qed.

Lemma values_app bench o m l1 l2 : values bench o m (l1 ++ l2) = values bench o m l1 ++ values bench o m l2.
Proof. apply list.omap_app. Qed.

Lemma best_snoc better vs v :
  best better (vs ++ [v]) = match best better vs with Some c => Some (if better v c then v else c) | None => Some v end.
Proof. unfold best. rewrite foldl_app. simpl. by case_match; [case_match|]. Qed.

Lemma total_snoc vs v : total (vs ++ [v]) = Some (f64_add (default f64_zero (total vs)) v).
Proof.
  unfold total. rewrite decide_False by (by intros [_ ?]%app_nil). rewrite foldl_app. simpl.
  by case_decide; subst.
Qed.

Lemma best_some better vs : vs ≠ [] → ∃ v, best better vs = Some v.
Proof. induction vs as [|v vs _] using rev_ind; [done|]. intros _. rewrite best_snoc. case_match; eauto. Qed.

Lemma aggregate_metric_counted bench a nv :
  aggregate_metric bench a nv =
  match counted_as bench nv.1 with Some (o, m) => aggregate_value o m nv.2 a | None => a end.
Proof.
  unfold aggregate_metric, counted_as.
  destruct (rx_match _ nv.1) as [[|? [|? [|? [|]]]]|]; try done. by destruct (String.eqb _ _).
Qed.

Lemma keep_best_eq better m key v :
  keep_best better m key v !! key =
  Some (match m !! key with Some c => if better v c then v else c | None => v end).
Proof.
  unfold keep_best. destruct (m !! key) as [c|] eqn:E; [|by rewrite lookup_insert_eq].
  destruct (better v c); [by rewrite lookup_insert_eq|done].
Qed.

Lemma keep_best_ne better m key k v : k ≠ key → keep_best better m key v !! k = m !! k.
Proof. intros Hk. unfold keep_best. repeat case_match; try done; by rewrite lookup_insert_ne. Qed.

Lemma aggregate_value_other o m v a k :
  k ≠ agg_key o m → view_key (aggregate_value o m v a) k = view_key a k.
Proof.
  intros Hk. unfold aggregate_value, add_to. fold (agg_key o m).
  repeat case_match; unfold view_key; simpl; rewrite ?lookup_insert_ne, ?keep_best_ne by congruence; done.
Qed.

Lemma view_fields a k x : view_key a k = x ↔
  aggregated a !! k = kv_agg x ∧ counts a !! k = kv_count x ∧ minValues a !! k = kv_min x ∧ maxValues a !! k = kv_max x.
Proof. unfold view_key. destruct x. simpl. split; [by intros [=]|by intros (-> & -> & -> & ->)]. Qed.

Lemma aggregate_value_view o m v a vs :
  view_key a (agg_key o m) = expected_view (method_of m) vs →
  view_key (aggregate_value o m v a) (agg_key o m) = expected_view (method_of m) (vs ++ [v]).
Proof.
  rewrite !view_fields. unfold method_of, aggregate_value, add_to. fold (agg_key o m). cbv zeta.
  intros (Ha & Hc & Hmin & Hmax).
  repeat case_match; simpl in *; rewrite ?lookup_insert_eq, ?keep_best_eq, ?Ha, ?Hc, ?Hmin, ?Hmax, ?best_snoc, ?total_snoc;
    simpl; repeat split; try done; rewrite ?best_snoc; try (by case_match).
  rewrite (decide_True (P := Average = Average ∧ vs ++ [v] ≠ [])) by (split; [done|by intros [_ ?]%app_nil]).
  rewrite length_app. f_equal. case_decide as Hd; simpl; [lia|].
  destruct vs; [done|]. by destruct Hd.
Qed.

(** The loop, for one readable key. *)
Lemma aggregate_loop_view bench l o m : readable o m →
  view_key (foldl (aggregate_metric bench)
    {| aggregated := ∅; counts := ∅; minValues := ∅; maxValues := ∅ |} l) (agg_key o m) =
  expected_view (method_of m) (values bench o m l).
Proof.
  intros Hr. induction l as [|nv l IH] using rev_ind.
  - apply view_fields. simpl. rewrite !lookup_empty. destruct (method_of m); by repeat split.
  - rewrite foldl_app, values_app. simpl. rewrite aggregate_metric_counted.
    destruct (counted_as bench nv.1) as [[o' m']|] eqn:E.
    + destruct (decide ((o', m') = (o, m))) as [[= -> ->]|Hne].
      * rewrite decide_True by done. simpl. by apply aggregate_value_view.
      * rewrite decide_False by (by intros [= -> ->]). rewrite app_nil_r, aggregate_value_other; [done|].
        intros Hk. apply Hne. symmetry. eapply readable_inj; eauto using counted_readable.
    + rewrite decide_False by done. by rewrite app_nil_r.
Qed.

Lemma average_other l agg k : (∀ c, (k, c) ∉ l) → foldl average agg l !! k = agg !! k.
Proof.
  revert agg. induction l as [|[k' c] l IH]; intros agg Hl; [done|]. simpl.
  rewrite IH by (intros c' Hc; apply (Hl c'); by right).
  unfold average. simpl. case_match; [|done]. apply lookup_insert_ne. intros ->. apply (Hl c). by left.
Qed.

Lemma average_key l agg k c : NoDup l.*1 → (k, c) ∈ l → 0 < c →
  foldl average agg l !! k = Some (f64_div (default f64_zero (agg !! k)) (f64_of_Z c)).
Proof.
  revert agg. induction l as [|[k' c'] l IH]; intros agg Hn Hin Hc; [by apply elem_of_nil in Hin|].
  rewrite fmap_cons in Hn. apply list.NoDup_cons in Hn as [Hk Hn]. simpl.
  apply elem_of_cons in Hin as [[= <- <-]|Hin].
  - rewrite average_other.
    + unfold average. simpl. rewrite (proj2 (Z.ltb_lt 0 c) Hc). by rewrite lookup_insert_eq.
    + intros c0 Hc0. apply Hk. by apply (list_elem_of_fmap_2 fst _ (k, c0)).
  - rewrite IH by done. unfold average. simpl. case_match; [|done]. rewrite lookup_insert_ne; [done|].
    intros ->. apply Hk. by apply (list_elem_of_fmap_2 fst _ (k, c)).
Qed.

(** What the aggregation holds for the values of one metric. *)
Definition summary_value (k : method) (vs : list float64) : option float64 :=
  match k with
  | Sum => total vs
  | Minimum => best f64_ltb vs
  | Maximum => best max_better vs
  | Average => (λ s, f64_div s (f64_of_Z (Z.of_nat (length vs)))) <$> total vs
  | Ignored => None
  end.

Section aggregate.
Context (order : ∀ A, gmap string A → list (string * A)) (order_perm : ∀ A (m : gmap string A), order A m ≡ₚ map_to_list m).

Lemma aggregateMetrics_key metrics bench o m : readable o m →
  aggregateMetrics order metrics bench !! agg_key o m =
  summary_value (method_of m) (values bench o m (order _ metrics)).
Proof using order_perm.
  intros Hr. unfold aggregateMetrics.
  pose proof (aggregate_loop_view bench (order _ metrics) o m Hr) as Hv.
  set (a := foldl _ _ _) in *. set (vs := values _ _ _ _) in *.
  apply view_fields in Hv as (Ha & Hc & _ & _). simpl in Ha, Hc.
  assert (∀ c, (agg_key o m, c) ∈ order Z (counts a) ↔ counts a !! agg_key o m = Some c) as Hin
    by (intros c; rewrite order_perm; apply elem_of_map_to_list).
  case_decide as Hd.
  - destruct Hd as [Hm Hvs]. rewrite Hm in *. simpl.
    rewrite (average_key _ _ _ (Z.of_nat (length vs))), Ha.
    + unfold total. by rewrite !decide_False by done.
    + rewrite order_perm. apply NoDup_fst_map_to_list.
    + by apply Hin.
    + destruct vs; [done|]. simpl. lia.
  - rewrite average_other by (intros c Hx%Hin; congruence). rewrite Ha.
    destruct (method_of m); try done. simpl. unfold total. rewrite decide_True; [done|].
    destruct vs; [done|]. by destruct Hd.
Qed.

End aggregate.

(** The instances that pushed a value of the metric, in the order they are met. *)
Definition instances (bench oper metric : string) (l : list (string * float64)) : list string :=
  omap (λ nv : string * float64,
    match rx_match (name_pattern bench) nv.1 with
    | Some [r; o; m] => if decide ((o, m) = (oper, metric)) then Some r else None
    | _ => None
    end) l.

Lemma instances_values (metrics : gmap string float64) bench oper metric l :
  oper ≠ "calculated" → (∀ nv, nv ∈ l → metrics !! nv.1 = Some nv.2) →
  values bench oper metric l =
  (λ r, default f64_zero (metrics !! metric_name bench r oper metric)) <$> instances bench oper metric l.
Proof.
  intros Hc. induction l as [|nv l IH]; intros Hl; [done|]. cbn [values instances omap list_omap].
  specialize (IH (λ x Hx, Hl x (list_elem_of_further _ _ _ Hx))). fold (values bench oper metric l) in *.
  unfold counted_as. destruct (rx_match (name_pattern bench) nv.1) as [gs|] eqn:E; [|exact IH].
  pose proof (name_match_inv _ _ _ E) as (r & o & m & -> & Hn & _).
  destruct (decide ((o, m) = (oper, metric))) as [[= -> ->]|Hne].
  - rewrite decide_True by (by rewrite (proj2 (String.eqb_neq _ _) Hc)).
    rewrite fmap_cons, <- Hn, (Hl nv) by left. simpl. by f_equal.
  - rewrite decide_False; [exact IH|]. destruct (String.eqb o "calculated"); [done|]. by intros [= -> ->].
Qed.

Lemma elem_of_instances (l : list (string * float64)) bench oper metric r : word oper → plain_metric metric →
  r ∈ instances bench oper metric l ↔ number r ∧ ∃ v, (metric_name bench r oper metric, v) ∈ l.
Proof.
  intros Ho Hm. unfold instances. rewrite list_elem_of_omap. split.
  - intros ([name v] & Hin & E). cbn [fst] in E. destruct (rx_match _ name) as [gs|] eqn:Em; [|done].
    destruct (name_match_inv _ _ _ Em) as (r' & o' & m' & -> & -> & Hr & _).
    case_decide as Hd; [|done]. injection Hd as -> ->. injection E as ->. split; [done|]. by exists v.
  - intros [Hr [v Hv]]. exists (metric_name bench r oper metric, v). split; [done|]. cbn [fst].
    rewrite name_match_built by done. by rewrite decide_True.
Qed.

Lemma instances_nodup (l : list (string * float64)) bench oper metric :
  NoDup l.*1 → word oper → plain_metric metric → NoDup (instances bench oper metric l).
Proof.
  intros Hn Ho Hm. induction l as [|nv l IH]; [constructor|].
  rewrite fmap_cons in Hn. apply list.NoDup_cons in Hn as [Hnv Hn]. specialize (IH Hn).
  cbn [instances omap list_omap]. destruct (rx_match (name_pattern bench) nv.1) as [gs|] eqn:E; [|exact IH].
  destruct (name_match_inv _ _ _ E) as (r & o & m & -> & Hname & _ & _).
  case_decide as Hd; [|exact IH]. injection Hd as -> ->. constructor; [|exact IH].
  intros [_ [v Hv]]%(elem_of_instances l bench); [|done..]. apply Hnv. rewrite Hname.
  by apply (list_elem_of_fmap_2 fst _ (_, v)).
Qed.

Lemma best_exact (better leq : float64 → float64 → bool) vs x :
  (∀ a b, f64_pos a → f64_pos b → better a b = negb (leq b a)) →
  (∀ a, f64_pos a → leq a a = true) →
  (∀ a b, f64_pos a → f64_pos b → leq a b = false → leq b a = true) →
  (∀ a b c, f64_pos a → f64_pos b → f64_pos c → leq a b = true → leq b c = true → leq a c = true) →
  Forall f64_pos vs → best better vs = Some x → x ∈ vs ∧ ∀ u, u ∈ vs → leq x u = true.
Proof.
  intros Hb Hrefl Htot Htr Hp. revert x. induction vs as [|v vs IH] using rev_ind; intros x; [done|].
  apply list.Forall_app in Hp as [Hp Hv]. apply list.Forall_cons in Hv as [Hv _]. rewrite best_snoc.
  destruct (best better vs) as [c|] eqn:E; intros [= <-].
  - destruct (IH Hp c eq_refl) as [Hc Hall]. rewrite list.Forall_forall in Hp. rewrite Hb by auto.
    destruct (leq c v) eqn:Ec; simpl.
    + split; [set_solver|]. intros u [Hu| ->%list_elem_of_singleton]%elem_of_app; [by apply Hall|exact Ec].
    + split; [set_solver|]. intros u [Hu| ->%list_elem_of_singleton]%elem_of_app; [|by apply Hrefl].
      apply (Htr v c u); auto.
  - destruct vs as [|v' vs]; [|by destruct (best_some better (v' :: vs)); [|congruence]].
    split; [set_solver|]. intros u ->%list_elem_of_singleton. by apply Hrefl.
Qed.

Lemma best_min vs x : Forall f64_pos vs → best f64_ltb vs = Some x → x ∈ vs ∧ ∀ u, u ∈ vs → f64_leb x u = true.
Proof. apply best_exact; eauto using f64_ltb_leb, f64_leb_refl, f64_leb_total, f64_leb_trans. Qed.

Lemma best_max vs x : Forall f64_pos vs → best max_better vs = Some x → x ∈ vs ∧ ∀ u, u ∈ vs → f64_leb u x = true.
Proof.
  apply (best_exact max_better (λ a b, f64_leb b a)); eauto using f64_leb_refl, f64_leb_total, f64_leb_trans.
  intros a b Ha Hb. by apply f64_ltb_leb.
Qed.

Lemma method_readable oper metric :
  word oper → plain_metric metric → readable oper metric.
Proof. apply rx_match_tail. Qed.

Section exact.
Context (order : ∀ A, gmap string A → list (string * A)) (order_perm : ∀ A (m : gmap string A), order A m ≡ₚ map_to_list m).

(** Operation counts and elapsed times are never aggregated, although the code lists
    them among the summed metrics: their names end in [_count] and [_time] after the last
    underscore, where the pattern splits.  For the same reason the sum of the pushed
    [calculated_total_ops] does appear, although the code means to skip it. *)
Lemma counts_never_aggregated (metrics : gmap string float64) bench oper :
  word oper →
  aggregateMetrics order metrics bench !! agg_key oper "oper_count" = None ∧
  aggregateMetrics order metrics bench !! agg_key oper "total_time" = None ∧
  ∀ r v, number r → metrics = {[metric_name bench r "calculated" "total_ops" := v]} →
    aggregateMetrics order metrics bench !! "calculated_total_ops" = Some (f64_add f64_zero v).
Proof using order_perm.
  intros [Ho Hw]. assert (Hword : ∀ s, all_in rx_word s = true → word (oper +:+ s)).
  { intros s Hs. split; [by destruct oper|]. unfold all_in in *. by rewrite string_forall_app, Hw. }
  assert (Hkey : ∀ s m, agg_key oper (s +:+ "_" +:+ m) = agg_key (oper +:+ "_" +:+ s) m).
  { intros s m. unfold agg_key. by rewrite !string_app_assoc. }
  split; [|split].
  - change "oper_count" with ("oper" +:+ "_" +:+ "count").
    rewrite Hkey, (aggregateMetrics_key order order_perm) by (apply method_readable; [by apply Hword|done]). done.
  - change "total_time" with ("total" +:+ "_" +:+ "time").
    rewrite Hkey, (aggregateMetrics_key order order_perm) by (apply method_readable; [by apply Hword|done]). done.
  - intros r v Hr ->. change "calculated_total_ops" with (agg_key "calculated_total" "ops").
    rewrite (aggregateMetrics_key order order_perm) by by apply method_readable.
    assert (metric_name bench r "calculated" "total_ops" = metric_name bench r "calculated_total" "ops") as -> by done.
    assert (order float64 {[metric_name bench r "calculated_total" "ops" := v]} =
            [(metric_name bench r "calculated_total" "ops", v)]) as ->.
    { apply Permutation_singleton_r. by rewrite order_perm, map_to_list_singleton. }
    unfold values. cbn [omap list_omap fst snd]. unfold counted_as. rewrite name_match_built by done. done.
Qed.
(** C35: The aggregation of one operation's metrics is exact.  Let [rs] be the instances
    (random numbers) with a stored value of the metric, a word without an underscore, under
    this benchmark number.  If there is none, the aggregate is absent.  Otherwise it is the
    sum of their values, in the order they are met, for [ops]; their minimum for [min]; their
    maximum for [max]; their mean for [avg] and the percentiles; and nothing for any other
    metric.  The two pushed metrics whose names have an underscore, [oper_count] and
    [total_time], which the code lists among the summed ones, are never aggregated.  Stored
    values are positive, as [queryMetrics] leaves them. *)
Theorem aggregation_exact (metrics : gmap string float64) bench oper metric :
  map_Forall (λ _ v, f64_pos v) metrics → word oper → oper ≠ "calculated" → plain_metric metric →
  aggregateMetrics order metrics bench !! agg_key oper "oper_count" = None ∧
  aggregateMetrics order metrics bench !! agg_key oper "total_time" = None ∧
  let value r := metrics !! metric_name bench r oper metric in
  ∃ rs, NoDup rs ∧ (∀ r, r ∈ rs ↔ number r ∧ is_Some (value r)) ∧
    let vs := (λ r, default f64_zero (value r)) <$> rs in
    match aggregateMetrics order metrics bench !! agg_key oper metric with
    | None => rs = [] ∨ method_of metric = Ignored
    | Some x => rs ≠ [] ∧
        match method_of metric with
        | Sum => x = foldl f64_add f64_zero vs
        | Minimum => x ∈ vs ∧ ∀ u, u ∈ vs → f64_leb x u = true
        | Maximum => x ∈ vs ∧ ∀ u, u ∈ vs → f64_leb u x = true
        | Average => x = f64_div (foldl f64_add f64_zero vs) (f64_of_Z (Z.of_nat (length rs)))
        | Ignored => False
        end
    end.
Proof using order_perm.
  intros Hpos Ho Hc Hm. destruct (counts_never_aggregated metrics bench oper Ho) as (Hn1 & Hn2 & _).
  do 2 (split; [done|]). intros value. exists (instances bench oper metric (order _ metrics)).
  set (rs := instances _ _ _ _).
  assert (Hrs : ∀ r, r ∈ rs ↔ number r ∧ is_Some (value r)).
  { intros r. unfold rs. rewrite elem_of_instances by done. unfold is_Some, value.
    by setoid_rewrite order_perm; setoid_rewrite elem_of_map_to_list. }
  assert (Hvs : values bench oper metric (order _ metrics) = (λ r, default f64_zero (value r)) <$> rs).
  { apply instances_values; [done|]. intros nv Hnv. apply elem_of_map_to_list.
    rewrite <- order_perm. by destruct nv. }
  split; [|split; [exact Hrs|]].
  { apply instances_nodup; [|done..]. rewrite order_perm. apply NoDup_fst_map_to_list. }
  intros vs. rewrite (aggregateMetrics_key order order_perm) by by apply method_readable. rewrite Hvs. fold vs.
  assert (Hall : Forall f64_pos vs).
  { apply list.Forall_fmap, list.Forall_forall. intros r [_ [v Hv]]%Hrs. simpl. rewrite Hv. simpl. by apply Hpos in Hv. }
  assert (Hnil : rs = [] ↔ vs = []) by (unfold vs; by destruct rs).
  assert (Hlen : length vs = length rs) by (unfold vs; by rewrite length_fmap).
  destruct (method_of metric); cbn [summary_value].
  - unfold total. case_decide; [left|]; by rewrite Hnil.
  - destruct (best f64_ltb vs) as [x|] eqn:E.
    + split; [by rewrite Hnil; intros ->|].
      by apply best_min.
    + left. apply Hnil. destruct (decide (vs = [])) as [|Hne]; [done|].
      destruct (best_some f64_ltb vs Hne). congruence.
  - destruct (best max_better vs) as [x|] eqn:E.
    + split; [by rewrite Hnil; intros ->|].
      by apply best_max.
    + left. apply Hnil. destruct (decide (vs = [])) as [|Hne]; [done|].
      destruct (best_some max_better vs Hne). congruence.
  - unfold total. case_decide; simpl; [left; by rewrite Hnil|]. rewrite Hnil, Hlen. done.
  - by right.
Qed.

End exact.

(** ** What a push writes *)

(** The operation's part of the names of its series. *)
Definition opname (op : string) : string := if String.eqb op "TOTAL" then "all" else ToLower op.

Lemma metric_name_prefix w op m :
  metricPrefix w op +:+ ("_" +:+ m) = metric_name (benchNoSafe w) (randomNum w) (opname op) m.
Proof. unfold metricPrefix, metric_name, opname. by rewrite <- !string_app_assoc. Qed.

Section push.
Context {HD : Type} `{HDR HD}.

Lemma pushed_ops_keys (h : gmap string (histogram HD)) (skip : bool) :
  pushed_ops h skip = sorted_keys (if skip then delete "READ_MODIFY_WRITE" h else h).
Proof.
  apply (StronglySorted_unique str_le).
  - apply StronglySorted_merge_sort; apply _.
  - apply StronglySorted_merge_sort; apply _.
  - unfold pushed_ops, sorted_keys. rewrite !merge_sort_Permutation. destruct skip; simpl.
    + apply NoDup_Permutation.
      * apply list.NoDup_filter, NoDup_fst_map_to_list.
      * apply NoDup_fst_map_to_list.
      * intros op. rewrite list_elem_of_filter, !list_elem_of_fmap. rewrite String.eqb_neq. split.
        -- intros (Hne & [op' x] & -> & Hx%elem_of_map_to_list). exists (op', x). split; [done|].
           apply elem_of_map_to_list. by rewrite lookup_delete_ne.
        -- intros ([op' x] & -> & Hx%elem_of_map_to_list). apply lookup_delete_Some in Hx as [Hne Hx].
           split; [done|]. exists (op', x). split; [done|]. by apply elem_of_map_to_list.
    + generalize ((map_to_list h).*1). intros l. induction l as [|op l IH]; [done|].
      rewrite list.filter_cons_True by done. by constructor.
Qed.

(** What is reported of the histogram [x] at the time [t], by the names of the metrics:
    latencies are in milliseconds where the histogram has microseconds. *)
Definition reported (x : histogram HD) (t : Z) : list (string * float64) :=
  let elapsed := Seconds (t -! startTime x) in
  let ms us := f64_div (f64_of_Z us) (f64_of_Z 1000) in
  let percentile q := ms (ValueAtPercentile (hist x) q) in
  [("total_time", elapsed);
   ("oper_count", f64_of_Z (TotalCount (hist x)));
   ("ops", f64_div (f64_of_Z (TotalCount (hist x))) elapsed);
   ("avg", ms (f64_to_int64 (hdr_Mean (hist x))));
   ("min", ms (hdr_Min (hist x)));
   ("max", ms (hdr_Max (hist x)));
   ("p90", percentile (f64_lit 90 0));
   ("p95", percentile (f64_lit 95 0));
   ("p99", percentile (f64_lit 99 0));
   ("p999", percentile (f64_lit 999 1));
   ("p9999", percentile (f64_lit 9999 2))].

(** A sample of one metric of a benchmark run. *)
Definition sample (w : PrometheusRemoteWriter) (now : Z) (op name : string) (v : float64) : TimeSeries :=
  {| Labels := [("__name__", metric_name (ReplaceAll (writer_benchNo w) "-" "_") (randomNum w) (opname op) name);
                ("bench_no", writer_benchNo w); ("operation", op)];
     Timestamp := now; SampleValue := v |}.

(** What [getInfo] computes when the clock says [t]. *)
Definition info_at (x : histogram HD) (t : Z) : info :=
  let elapsed := Seconds (t -! startTime x) in
  let percentile n k := ValueAtPercentile (hist x) (f64_lit n k) in
  {| ELAPSED := elapsed; COUNT := TotalCount (hist x); QPS := f64_div (f64_of_Z (TotalCount (hist x))) elapsed;
     AVG := f64_to_int64 (hdr_Mean (hist x)); MIN := hdr_Min (hist x); MAX := hdr_Max (hist x);
     PER50TH := percentile 50 0; PER90TH := percentile 90 0; PER95TH := percentile 95 0;
     PER99TH := percentile 99 0; PER999TH := percentile 999 1; PER9999TH := percentile 9999 2 |}.

Lemma getInfo_run (x : histogram HD) t ts cr out :
  getInfo x {| io_clock := t :: ts; io_create := cr; io_out := out |} =
  Ok (info_at x t, {| io_clock := ts; io_create := cr; io_out := out |}).
Proof. reflexivity. Qed.

(** An operation with its histogram and the time it is reported. *)
Abbreviation report := (string * (histogram HD * Z))%type.

(** The sum of the rates of the operations but TOTAL. *)
Definition total_rate (reports : list report) : float64 :=
  foldl (λ sum '(op, (x, t)),
    if String.eqb op "TOTAL" then sum
    else f64_add sum (f64_div (f64_of_Z (TotalCount (hist x))) (Seconds (t -! startTime x)))) f64_zero reports.

Lemma info_cache_run (h : gmap string (histogram HD)) ops total ts cr out :
  (∀ op, op ∈ ops → op ∈ dom h) → (length ops <= length ts)%nat →
  ∃ reports, info_cache h ops total {| io_clock := ts; io_create := cr; io_out := out |} =
      Ok (((λ '(op, (x, t)), (op, info_at x t)) <$> reports,
           foldl (λ sum '(op, (x, t)), if String.eqb op "TOTAL" then sum else f64_add sum (QPS (info_at x t))) total reports),
          {| io_clock := drop (length ops) ts; io_create := cr; io_out := out |}) ∧
    reports.*1 = ops ∧ reports.*2.*2 = take (length ops) ts ∧ ∀ op x t, (op, (x, t)) ∈ reports → h !! op = Some x.
Proof.
  revert total ts. induction ops as [|op ops IH]; intros total ts Hops Hc; cbn [info_cache].
  { exists []. split; [done|]. split; [done|]. split; [done|]. by intros ? ? ? ?%elem_of_nil. }
  destruct (proj1 (elem_of_dom h op)) as [x Hx]; [apply Hops; by left|]. rewrite Hx.
  destruct ts as [|t ts]; [cbn in Hc; lia|]. rewrite (bind_Ok_1 _ _ _ _ _ (getInfo_run x t ts cr out)).
  destruct (IH (if String.eqb op "TOTAL" then total else f64_add total (QPS (info_at x t))) ts) as (reports & E & Hi & Ht & Hin).
  { intros op' Hop'. apply Hops. by right. } { cbn in Hc. lia. }
  rewrite (bind_Ok_1 _ _ _ _ _ E). exists ((op, (x, t)) :: reports). split; [done|].
  rewrite !fmap_cons, Hi, Ht. do 2 (split; [done|]).
  intros op' x' t' [[= -> -> ->]|Hp]%elem_of_cons; [done|by eapply Hin].
Qed.

Lemma op_series_reported w now op x t :
  op_series w now op (info_at x t) = (λ '(m, v), sample w now op m v) <$> reported x t.
Proof.
  unfold op_series, reported, sample. cbn [fmap list_fmap]. fold (benchNoSafe w).
  rewrite <- !metric_name_prefix. reflexivity.
Qed.

Context `{HttpClient} (encode : list TimeSeries → string + string) {P W : Type} `{Properties P}.

(** C36: One push sends one request.  It holds the eleven samples of every measured
    operation, in the order of the operations' names: elapsed seconds, count, rate, and in
    milliseconds the mean, minimum, maximum and the 90th, 95th, 99th, 99.9th and 99.99th
    percentile that the histogram of the operation reports, at the times the clock delivers
    one after the other; and then one sample with the sum of the rates of all operations but
    TOTAL.  The name of a sample is [ycsb_], the benchmark number with its dashes replaced,
    the random number, the operation in lower case ([all] for TOTAL) and the metric.  Only
    READ_MODIFY_WRITE is left out, from both, when its proportion is positive. *)
Theorem metrics_pushed (g : measurement P HD W) (h : gmap string (histogram HD)) w io :
  gm_measurer g = Histograms h → (size h < length (io_clock io))%nat →
  let skip := f64_ltb f64_zero (GetFloat64 (gm_p g) "readmodifywriteproportion" f64_zero) in
  ∃ t0 ts (reports : list report) io', io_clock io = t0 :: ts ∧
    WriteMetrics encode (Some g) w io =
    remoteWrite encode w
      ((reports ≫= λ '(op, (x, t)), (λ '(m, v), sample w (UnixMilli t0) op m v) <$> reported x t) ++
       [sample w (UnixMilli t0) "CALCULATED" "total_ops" (total_rate reports)]) io' ∧
    reports.*2.*2 = take (length reports) ts ∧
    StronglySorted (λ a b, str_lt a b = true) reports.*1 ∧
    (∀ op, op ∈ reports.*1 ↔ op ∈ dom h ∧ ~ (skip = true ∧ op = "READ_MODIFY_WRITE")) ∧
    ∀ op x t, (op, (x, t)) ∈ reports → h !! op = Some x.
Proof.
  intros Hg Hc skip. set (h' := if skip then delete "READ_MODIFY_WRITE" h else h).
  assert (Hdom : ∀ op, op ∈ dom h' ↔ op ∈ dom h ∧ ~ (skip = true ∧ op = "READ_MODIFY_WRITE")).
  { intros op. unfold h'. destruct skip; [rewrite dom_delete_L; set_solver|naive_solver]. }
  assert (Hkeys : (length (sorted_keys h') <= size h)%nat).
  { unfold sorted_keys. rewrite merge_sort_Permutation, length_fmap, length_map_to_list. unfold h'.
    destruct skip; [apply map_subseteq_size, delete_subseteq|done]. }
  unfold WriteMetrics. rewrite Hg. fold skip. unfold buildTimeSeries. destruct io as [[|t0 ts] cr out]; [simpl in Hc; lia|].
  destruct (info_cache_run h (pushed_ops h skip) f64_zero ts cr out) as (reports & E & Hi & Ht & Hin).
  { intros op. rewrite pushed_ops_keys, sorted_keys_elem. fold h'. rewrite Hdom. by intros [? _]. }
  { rewrite pushed_ops_keys. fold h'. simpl in *. lia. }
  assert (Hlen : length (pushed_ops h skip) = length reports) by (by rewrite <- Hi, length_fmap).
  exists t0, ts, reports. eexists. split; [reflexivity|]. rewrite Hlen in Ht. rewrite pushed_ops_keys in Hi. fold h' in Hi. rewrite Hi.
  split; [|split; [exact Ht|split; [apply sorted_keys_sorted|split; [intros op; by rewrite sorted_keys_elem|done]]]].
  cbn zeta. unfold mbind, M_bind, io_now. cbn -[info_cache pushed_ops op_series calculated_series remoteWrite total_rate sample reported].
  unfold mbind, M_bind in E. rewrite E. cbn -[op_series calculated_series remoteWrite total_rate sample reported].
  rewrite decide_False by (by intros [_ ?]%app_nil). f_equal. f_equal.
  clear. induction reports as [|[op [x t]] reports IH]; [done|]. 
  cbn [fmap list_fmap mbind list_bind fst snd]. by rewrite IH, op_series_reported.
Qed.
End push.

(** ** From the pushes to the statistics *)

(** One push: the writer, the time, the reported values and their sum. *)
Record push := { p_writer : PrometheusRemoteWriter; p_time : Z; p_infos : list (string * info); p_total : float64 }.

Definition push_series (p : push) : list TimeSeries :=
  (p_infos p ≫= λ oi, op_series (p_writer p) (p_time p) oi.1 oi.2) ++
  [calculated_series (p_writer p) (p_time p) (p_total p)].

Definition series_name (s : TimeSeries) : string := from_option snd "" (head (Labels s)).

(** The positive values of the pushed series under their names: what a query finds. *)
Definition served (metrics : gmap string float64) (l : list TimeSeries) : Prop :=
  ∀ name v, metrics !! name = Some v ↔ f64_pos v ∧ ∃ s, s ∈ l ∧ series_name s = name ∧ SampleValue s = v.

(** Pushes of one benchmark, of operations whose names are words. *)
Definition push_ok (bench : string) (p : push) : Prop :=
  benchNoSafe (p_writer p) = bench ∧ number (randomNum (p_writer p)) ∧
  ∀ op i, (op, i) ∈ p_infos p → word (opname op).

(** The operation and the metric a series is read as, with its value. *)
Definition read_as (bench : string) (s : TimeSeries) (o m : string) : Prop :=
  ∃ r, series_name s = metric_name bench r o m ∧ number r ∧ word o ∧ plain_metric m.

Lemma read_as_counted bench s o m : read_as bench s o m → o ≠ "calculated" → counted_as bench (series_name s) = Some (o, m).
Proof.
  intros (r & -> & Hr & Ho & Hm) Hc. unfold counted_as. rewrite name_match_built by done.
  by rewrite (proj2 (String.eqb_neq _ _) Hc).
Qed.

Lemma word_app o s : word o → all_in rx_word s = true → word (o +:+ s).
Proof. intros [Ho Hw] Hs. split; [by destruct o|]. unfold all_in in *. by rewrite string_forall_app, Hw. Qed.

(** The series of an operation: its own minimum and maximum, and series read as another
    metric. *)
Lemma op_series_read w now op i s : number (randomNum w) → word (opname op) → s ∈ op_series w now op i →
  ∃ o m, read_as (benchNoSafe w) s o m ∧
    (m = "min" → o = opname op ∧ SampleValue s = millis (MIN i)) ∧
    (m = "max" → o = opname op ∧ SampleValue s = millis (MAX i)).
Proof.
  intros Hr Ho Hs.
  assert (Hplain : ∀ m v, plain_metric m →
    read_as (benchNoSafe w) (createSeries w now (metricPrefix w op +:+ ("_" +:+ m)) v op) (opname op) m).
  { intros m v Hm. exists (randomNum w). split; [apply metric_name_prefix|done]. }
  assert (Hlong : ∀ x m v, all_in rx_word x = true → plain_metric m →
    read_as (benchNoSafe w) (createSeries w now (metricPrefix w op +:+ ("_" +:+ x +:+ "_" +:+ m)) v op)
      (opname op +:+ "_" +:+ x) m).
  { intros x m v Hx Hm. exists (randomNum w). split; [|split; [done|split; [by apply word_app|done]]].
    change (series_name _) with (metricPrefix w op +:+ ("_" +:+ x +:+ "_" +:+ m)).
    rewrite metric_name_prefix. unfold metric_name. by rewrite <- !string_app_assoc. }
  unfold op_series in Hs.
  repeat (apply elem_of_cons in Hs as [->|Hs]; [|]); [..|by apply elem_of_nil in Hs].
  1: by eexists _, _; split; [apply (Hlong "total" "time")|].
  1: by eexists _, _; split; [apply (Hlong "oper" "count")|].
  all: by eexists _, _; split; [by eapply Hplain with (m := _)|].
Qed.

Lemma calculated_read w now total : number (randomNum w) →
  read_as (benchNoSafe w) (calculated_series w now total) "calculated_total" "ops".
Proof. intros Hr. exists (randomNum w). split; [done|split; [done|by repeat split]]. Qed.

Lemma op_series_extremes w now op i :
  createSeries w now (metricPrefix w op +:+ "_min") (millis (MIN i)) op ∈ op_series w now op i ∧
  createSeries w now (metricPrefix w op +:+ "_max") (millis (MAX i)) op ∈ op_series w now op i.
Proof. unfold op_series. split; repeat first [by left|right]. Qed.

(** The positive values of [f] pushed for the operations called [o]. *)
Definition pushed_value (pushes : list push) (f : info → Z) (o : string) (v : float64) : Prop :=
  f64_pos v ∧ ∃ p op i, p ∈ pushes ∧ (op, i) ∈ p_infos p ∧ opname op = o ∧ v = millis (f i).

Section statistic.
Context (order : ∀ A, gmap string A → list (string * A)) (order_perm : ∀ A (m : gmap string A), order A m ≡ₚ map_to_list m).

(** The values aggregated as a minimum or maximum are those pushed. *)
Lemma served_values pushes bench metrics (f : info → Z) m o :
  Forall (push_ok bench) pushes → served metrics (pushes ≫= push_series) → o ≠ "calculated" →
  (m = "min" ∧ f = MIN ∨ m = "max" ∧ f = MAX) →
  ∀ v, v ∈ values bench o m (order _ metrics) ↔ pushed_value pushes f o v.
Proof using order_perm.
  intros Hok Hs Hc Hm v. rewrite list.Forall_forall in Hok. unfold values. rewrite list_elem_of_omap. split.
  - intros ([name u] & Hin & E). cbn [fst snd] in E. case_decide as Hcnt; [|done]. injection E as ->.
    rewrite order_perm in Hin. apply elem_of_map_to_list, Hs in Hin as (Hv & s & Hin & <- & <-).
    apply list_elem_of_bind in Hin as (p & Hin & Hp). destruct (Hok p Hp) as (<- & Hr & Hw). split; [done|].
    apply elem_of_app in Hin as [Hin| ->%list_elem_of_singleton].
    + apply list_elem_of_bind in Hin as ([op i] & Hin & Hi). cbn [fst snd] in Hin.
      destruct (op_series_read _ _ _ _ s Hr (Hw op i Hi) Hin) as (o' & m' & Hread & Hmin & Hmax).
      assert (o' = o ∧ m' = m) as [-> ->].
      { pose proof (read_as_counted _ _ _ _ Hread) as E. destruct (decide (o' = "calculated")) as [->|Hne].
        - destruct Hread as (r & Hname & Hrr & Ho & Hmm). unfold counted_as in Hcnt.
          rewrite Hname, name_match_built in Hcnt by done. done.
        - rewrite E in Hcnt by done. by injection Hcnt as -> ->. }
      exists p, op, i. split; [done|split; [done|]].
      destruct Hm as [[-> ->]|[-> ->]]; [destruct Hmin|destruct Hmax]; done.
    + pose proof (calculated_read (p_writer p) (p_time p) (p_total p) Hr) as Hread.
      rewrite (read_as_counted _ _ _ _ Hread) in Hcnt by done. injection Hcnt as _ <-.
      by destruct Hm as [[? _]|[? _]].
  - intros (Hv & p & op & i & Hp & Hi & <- & ->). destruct (Hok p Hp) as (Hb & Hr & Hw).
    exists (metricPrefix (p_writer p) op +:+ ("_" +:+ m), millis (f i)). split.
    + rewrite order_perm. apply elem_of_map_to_list, Hs. split; [done|].
      exists (createSeries (p_writer p) (p_time p) (metricPrefix (p_writer p) op +:+ ("_" +:+ m)) (millis (f i)) op).
      split; [|done]. apply list_elem_of_bind. exists p. split; [|done]. apply elem_of_app. left.
      apply list_elem_of_bind. exists (op, i). split; [|done].
      destruct (op_series_extremes (p_writer p) (p_time p) op i). by destruct Hm as [[-> ->]|[-> ->]].
    + cbn [fst snd]. rewrite decide_True; [done|]. unfold counted_as.
      rewrite metric_name_prefix, Hb, name_match_built; [|done|by eapply Hw|by destruct Hm as [[-> _]|[-> _]]].
      by rewrite (proj2 (String.eqb_neq _ _) Hc).
Qed.

Lemma served_positive metrics l : served metrics l → map_Forall (λ _ v, f64_pos v) metrics.
Proof. intros Hs name v Hv. by apply Hs in Hv as [? _]. Qed.

(** From the pushes to the statistics.  When the stored metrics are the positive
    values of the series that any number of instances pushed under one benchmark number,
    the statistics hold, for every operation, the smallest of the minimal and the largest
    of the maximal latencies (in milliseconds) over all instances, and no such entry if no
    instance pushed one. *)
Lemma statistic_extremes pushes bench metrics o :
  Forall (push_ok bench) pushes → served metrics (pushes ≫= push_series) → word o → o ≠ "calculated" →
  match aggregateMetrics order metrics bench !! agg_key o "min" with
  | Some x => pushed_value pushes MIN o x ∧ ∀ v, pushed_value pushes MIN o v → f64_leb x v = true
  | None => ∀ v, ~ pushed_value pushes MIN o v
  end ∧
  match aggregateMetrics order metrics bench !! agg_key o "max" with
  | Some x => pushed_value pushes MAX o x ∧ ∀ v, pushed_value pushes MAX o v → f64_leb v x = true
  | None => ∀ v, ~ pushed_value pushes MAX o v
  end.
Proof using order_perm.
  intros Hok Hs Ho Hc.
  pose proof (served_values pushes bench metrics MIN "min" o Hok Hs Hc (or_introl (conj eq_refl eq_refl))) as Hmin.
  pose proof (served_values pushes bench metrics MAX "max" o Hok Hs Hc (or_intror (conj eq_refl eq_refl))) as Hmax.
  rewrite !(aggregateMetrics_key order order_perm) by by apply method_readable.
  change (method_of "min") with Minimum. change (method_of "max") with Maximum. cbn [summary_value].
  assert (Hpos : ∀ f m, (∀ v, v ∈ values bench o m (order _ metrics) ↔ pushed_value pushes f o v) →
    Forall f64_pos (values bench o m (order _ metrics))) by (intros f m Hv; apply list.Forall_forall; by intros v [? _]%Hv).
  split.
  - destruct (best f64_ltb _) as [x|] eqn:E.
    + destruct (best_min _ x (Hpos _ _ Hmin) E) as [Hx Hall].
      split; [by apply Hmin|]. by intros v Hv%Hmin; apply Hall.
    + intros v Hv%Hmin. destruct (best_some f64_ltb (values bench o "min" (order _ metrics))); [|congruence].
      intros E0. rewrite E0 in Hv. by apply elem_of_nil in Hv.
  - destruct (best max_better _) as [x|] eqn:E.
    + destruct (best_max _ x (Hpos _ _ Hmax) E) as [Hx Hall].
      split; [by apply Hmax|]. by intros v Hv%Hmax; apply Hall.
    + intros v Hv%Hmax. destruct (best_some max_better (values bench o "max" (order _ metrics))); [|congruence].
      intros E0. rewrite E0 in Hv. by apply elem_of_nil in Hv.
Qed.
End statistic.

(** ** The metrics a query returns *)

Lemma add_results_positive results metrics :
  map_Forall (λ _ v, f64_pos v) metrics → map_Forall (λ _ v, f64_pos v) (foldl add_result metrics results).
Proof.
  revert metrics. induction results as [|r results IH]; intros metrics Hm; [done|]. apply IH.
  unfold add_result. repeat case_match; try done. by apply map_Forall_insert_2.
Qed.

Lemma queryMetrics_positive `{HttpClient} w bench io metrics io' :
  queryMetrics w bench io = Ok (inr metrics, io') → map_Forall (λ _ v, f64_pos v) metrics.
Proof.
  unfold queryMetrics. intros E. apply bind_Ok in E as (r & io1 & _ & E). injection E as E _.
  destruct r as [|resp]; [done|]. repeat case_match; try done. injection E as <-.
  apply add_results_positive, map_Forall_empty.
Qed.

(** Series with distinct names, stored. *)
Definition store (l : list TimeSeries) : gmap string float64 :=
  list_to_map ((λ s, (series_name s, SampleValue s)) <$> filter (λ s, f64_pos (SampleValue s)) l).

Lemma store_served l : NoDup (series_name <$> l) → served (store l) l.
Proof.
  intros Hn name v. unfold store. rewrite <- elem_of_list_to_map.
  - rewrite list_elem_of_fmap. split.
    + intros (s & [= -> ->] & [Hp Hs]%list_elem_of_filter). split; [done|]. by exists s.
    + intros (Hp & s & Hs & <- & <-). exists s. split; [done|]. by apply list_elem_of_filter.
  - rewrite <- list_fmap_compose. change (fst ∘ _) with series_name.
    induction l as [|s l IH]; [constructor|]. rewrite fmap_cons in Hn. apply list.NoDup_cons in Hn as [Hs Hn].
    rewrite filter_cons. case_decide; [|by apply IH]. rewrite fmap_cons. constructor; [|by apply IH].
    intros (s' & E & [_ Hs']%list_elem_of_filter)%list_elem_of_fmap. apply Hs. rewrite E. by apply list_elem_of_fmap_2.
Qed.

(** ** Witnesses *)

Definition ex_info (lo hi : Z) : info :=
  {| ELAPSED := f64_of_Z 2; COUNT := 4; QPS := f64_of_Z 2; AVG := 3000; MIN := lo; MAX := hi; PER50TH := 2000;
     PER90TH := 5000; PER95TH := 5000; PER99TH := 6000; PER999TH := 6000; PER9999TH := 6000 |}.

Definition ex_writer (r : string) : PrometheusRemoteWriter :=
  {| prometheusURL := "http://p"; writer_benchNo := "b-7"; randomNum := r |}.

Definition ex_push (r : string) (lo hi : Z) : push :=
  {| p_writer := ex_writer r; p_time := 1; p_infos := [("READ", ex_info lo hi); ("TOTAL", ex_info lo hi)];
     p_total := f64_of_Z 2 |}.

Definition ex_pushes : list push := [ex_push "10000001" 1500 9000; ex_push "10000002" 700 8000].

Definition ex_metrics : gmap string float64 := store (ex_pushes ≫= push_series).

Lemma ex_served : served ex_metrics (ex_pushes ≫= push_series).
Proof. apply store_served. apply (bool_decide_unpack _). vm_compute. exact I. Qed.

Lemma ex_push_ok r lo hi : number r → push_ok "b_7" (ex_push r lo hi).
Proof.
  intros Hr. split; [done|split; [done|]].
  by intros op i [[= -> ->]|[[= -> ->]| ?%elem_of_nil]%elem_of_cons]%elem_of_cons.
Qed.

Lemma ex_pushes_ok : Forall (push_ok "b_7") ex_pushes.
Proof. by repeat (constructor; [by apply ex_push_ok|]). Qed.

Definition ex_order : ∀ A, gmap string A → list (string * A) := λ A, map_to_list.

Lemma aggregation_exact_witness :
  aggregateMetrics ex_order ex_metrics "b_7" !! agg_key "read" "oper_count" = None ∧
  let value r := ex_metrics !! metric_name "b_7" r "read" "avg" in
  ∃ rs, NoDup rs ∧ (∀ r, r ∈ rs ↔ number r ∧ is_Some (value r)) ∧
    let vs := (λ r, default f64_zero (value r)) <$> rs in
    match aggregateMetrics ex_order ex_metrics "b_7" !! agg_key "read" "avg" with
    | None => rs = [] ∨ method_of "avg" = Ignored
    | Some x => rs ≠ [] ∧ x = f64_div (foldl f64_add f64_zero vs) (f64_of_Z (Z.of_nat (length rs)))
    end.
Proof.
  destruct (aggregation_exact ex_order (λ A m, Permutation_refl _) ex_metrics "b_7" "read" "avg"
    (served_positive _ _ ex_served)) as (Hn & _ & Hr); [by split|done|by split|]. split; [exact Hn|exact Hr].
Defined.

#[global] Instance ex_http : HttpClient := {
  NewRequest_error _ _ := None;
  Do _ := mret (inr {| StatusCode := 204; Body := inr [] |})
}.

Definition ex_globals : measurement ref_props list_hdr unit :=
  {| gm_p := []; gm_measurer := Histograms ex_hists; promeWriter := None; warmUp := 0 |}.

Lemma metrics_pushed_witness :
  ∃ t0 ts reports io', io_clock ex_io = t0 :: ts ∧
    WriteMetrics (λ _, inr "") (Some ex_globals) (ex_writer "1") ex_io =
    remoteWrite (λ _, inr "") (ex_writer "1")
      ((reports ≫= λ '(op, (x, t)), (λ '(m, v), sample (ex_writer "1") (UnixMilli t0) op m v) <$> reported x t) ++
       [sample (ex_writer "1") (UnixMilli t0) "CALCULATED" "total_ops" (total_rate reports)]) io' ∧
    ∀ op, op ∈ reports.*1 ↔ op ∈ dom ex_hists ∧ ~ (false = true ∧ op = "READ_MODIFY_WRITE").
Proof.
  destruct (metrics_pushed (λ _, inr "") ex_globals ex_hists (ex_writer "1") ex_io eq_refl)
    as (t0 & ts & reports & io' & Hc & E & _ & _ & Hd & _).
  { vm_compute. lia. }
  exists t0, ts, reports, io'. split; [exact Hc|]. split; [exact E|exact Hd].
Defined.
