(* ===== verification/Report.v ===== *)
(** * tool/report.go

    The tool that reads the logs of finished runs and writes one summary per workload.
    The file system is the state: the contents of the files, and the errors of opening
    them, which are inputs of a run.  [read_dir] is the listing [ioutil.ReadDir] returns;
    the order of the workloads is the parameter [order].  What the tool prints on the
    terminal is kept in [fs_out]. *)

From stdpp Require Import sorting.
From S2P Require Import Prelude GoFloat GoStr GoConv GoText Util Measurement.

Record FS := { files : gmap string string; open_error : string → option string; fs_out : list string }.

Definition print (s : string) : M FS unit :=
  modify (λ w, {| files := files w; open_error := open_error w; fs_out := fs_out w ++ [s] |}).

(** [os.Open] followed by the reads of a scanner; a missing file is an error. *)
Definition read_file (name : string) : M FS (string + string) :=
  w ← get;
  mret match open_error w name with
       | Some err => inl err
       | None => match files w !! name with
                 | Some text => inr text
                 | None => inl ("open " +:+ name +:+ ": no such file or directory")
                 end
       end.

(** Writing [text] from the start of a file opened with [O_RDWR|O_CREATE]: what lies
    behind it stays. *)
Definition overwrite (old text : string) : string := text +:+ drop_str (String.length text) old.

Definition write_file (name text : string) : M FS (option string) :=
  w ← get;
  match open_error w name with
  | Some err => mret (Some err)
  | None =>
      _ ← put {| files := <[name := overwrite (default "" (files w !! name)) text]> (files w);
                 open_error := open_error w; fs_out := fs_out w |};
      mret None
  end.

(** ** The known operations and workloads *)

Definition operations : list string := ["INSERT"; "READ"; "UPDATE"; "SCAN"; "READ_MODIFY_WRITE"; "DELETE"].

Definition workloads : list string :=
  ["load"; "workloada"; "workloadb"; "workloadc"; "workloadd"; "workloade"; "workloadf"].

(** ** Parsing a log *)

Record stat := { OPS : float64; P99 : float64 }.

Definition statFieldFunc (c : ascii) : bool := Ascii.eqb c ":" || Ascii.eqb c ",".

(** [i += 2] over the keys and values. *)
Fixpoint stat_loop (s : stat) (kvs : list string) : res (string + stat) :=
  match kvs with
  | [] => Ok (inr s)
  | [_] => Panic "index out of range"
  | k :: v :: kvs =>
      match ParseFloat (TrimSpace v) with
      | None => Ok (inl ("strconv.ParseFloat: parsing " +:+ TrimSpace v))
      | Some x =>
          let key := TrimSpace k in
          stat_loop (if String.eqb key "OPS" then {| OPS := x; P99 := P99 s |}
                     else if String.eqb key "99th(us)" then {| OPS := OPS s; P99 := x |} else s) kvs
      end
  end.

Definition newStat (line : string) : M FS (string + stat) :=
  let kvs := FieldsFunc line statFieldFunc in
  _ ← (if Nat.odd (length kvs) then print line else mret tt);
  lift (stat_loop {| OPS := f64_zero; P99 := f64_zero |} kvs).

Record dbStat := { stat_db : string; workload : string; summary : gmap string stat }.

(** The loop over the lines: the flag, and the summary so far. *)
Fixpoint scan_log (lines : list string) (handleSummary : bool) (sums : gmap string stat)
    : M FS (string + gmap string stat) :=
  match lines with
  | [] => mret (inr sums)
  | line :: lines =>
      if HasPrefix line "Run finished" then scan_log lines true sums
      else
        let seps := Split line "-" in
        let op := TrimSpace (default "" (seps !! 0%nat)) in
        if bool_decide (op ∈ operations) then
          match seps !! 1%nat with
          | None => panic "index out of range"
          | Some rest =>
              r ← newStat (TrimSpace rest);
              match r with
              | inl err => mret (inl err)
              | inr s => scan_log lines handleSummary (if handleSummary then <[op := s]> sums else sums)
              end
          end
        else scan_log lines handleSummary sums
  end.

(** The error, or the statistics unless the name is not that of a log. *)
Definition parseDBStat (pathName : string) : M FS (string + option dbStat) :=
  let fileName := path_Base pathName in
  match Split fileName "_" with
  | [db; rest] =>
      let wl := TrimSuffix rest ".log" in
      if bool_decide (wl ∈ workloads) then
        f ← read_file pathName;
        match f with
        | inl err => mret (inl err)
        | inr text =>
            let '(lines, scan_err) := Scan_all text in
            r ← scan_log lines false ∅;
            mret match r, scan_err with
                 | inl err, _ => inl err
                 | inr _, Some err => inl err
                 | inr sums, None => inr (Some {| stat_db := db; workload := wl; summary := sums |})
                 end
        end
      else mret (inr None)
  | _ => mret (inr None)
  end.

(** ** Writing the summaries *)

(** [dbStats.Less] *)
Definition db_le (a b : dbStat) : Prop := str_le (stat_db a) (stat_db b).

#[global] Instance db_le_dec : RelDecision db_le.
Proof. intros a b. unfold db_le. apply _. Defined.

Definition report_fields (workload : string) : list string :=
  if String.eqb workload "load" then ["INSERT"]
  else if String.eqb workload "workloada" then ["READ"; "UPDATE"]
  else if String.eqb workload "workloadb" then ["READ"; "UPDATE"]
  else if String.eqb workload "workloadc" then ["READ"]
  else if String.eqb workload "workloadd" then ["READ"; "INSERT"]
  else if String.eqb workload "workloade" then ["SCAN"; "INSERT"]
  else if String.eqb workload "workloadf" then ["READ_MODIFY_WRITE"]
  else [].

Definition heading (fields : list string) : string :=
  "DB" +:+ String.concat "" ((λ f, "," +:+ f +:+ " OPS," +:+ f +:+ " P99(us)") <$> fields) +:+ newline.

Definition stat_cells (s : option stat) : string :=
  match s with
  | None => ",0.0"
  | Some s => "," +:+ fmt_fixed 0 (OPS s) +:+ "," +:+ fmt_fixed 0 (P99 s)
  end.

Definition stat_row (fields : list string) (s : dbStat) : string :=
  stat_db s +:+ String.concat "" ((λ f, stat_cells (summary s !! f)) <$> fields) +:+ newline.

(** [sort.Sort] by database name; the order of two logs of one database is the sorting
    algorithm's. *)
Definition report_text (workload : string) (stats : list dbStat) : string :=
  let fields := report_fields workload in
  String.concat "" (heading fields :: (stat_row fields <$> merge_sort db_le stats)).

Definition report_file (logsPath workload : string) : string :=
  path_Join (path_Join logsPath "report") (workload +:+ "_summary.csv").

Definition reportDBStats (logsPath workload : string) (stats : list dbStat) : M FS (option string) :=
  write_file (report_file logsPath workload) (report_text workload stats).

(** ** main *)

Section main.
Context (read_dir : string → string + list (string * bool))
        (order : gmap string (list dbStat) → list (string * list dbStat)).

(** The loop over the directory: [isDir] entries are skipped, errors are printed. *)
Fixpoint read_logs (logsPath : string) (entries : list (string * bool)) (stats : gmap string (list dbStat))
    : M FS (gmap string (list dbStat)) :=
  match entries with
  | [] => mret stats
  | (name, isDir) :: entries =>
      if (isDir : bool) then read_logs logsPath entries stats
      else
        r ← parseDBStat (path_Join logsPath name);
        match r with
        | inl err =>
            _ ← print ("parse " +:+ name +:+ " failed " +:+ err +:+ newline); read_logs logsPath entries stats
        | inr None => read_logs logsPath entries stats
        | inr (Some s) =>
            read_logs logsPath entries
              (<[workload s := default [] (stats !! workload s) ++ [s]]> stats)
        end
  end.

Fixpoint write_reports (logsPath : string) (l : list (string * list dbStat)) : M FS unit :=
  match l with
  | [] => mret tt
  | (wl, s) :: l =>
      err ← reportDBStats logsPath wl s;
      _ ← match err with
          | Some err => print ("report " +:+ wl +:+ " failed " +:+ err +:+ newline)
          | None => mret tt
          end;
      write_reports logsPath l
  end.

(** [args]: [os.Args]. *)
Definition report_main (args : list string) : M FS unit :=
  let logsPath := match args with _ :: dir :: _ => dir | _ => "./logs" end in
  match read_dir logsPath with
  | inl err => print err
  | inr entries =>
      stats ← read_logs logsPath entries ∅;
      write_reports logsPath (order stats)
  end.
End main.

(** A file name as the comment of [parseDBStat] gives it for a run, which has two
    underscores. *)
Example run_log_ignored w : parseDBStat "logs/mysql_run_workloada.log" w = Ok (inr None, w).
Proof. reflexivity. Qed.

Definition ex_fs : FS :=
  {| files := {[ "logs/mysql_workloada.log" :=
       "READ   - OPS: 9.0, 99th(us): 1" +:+ newline +:+ "Run finished, takes 2s" +:+ newline +:+
       "READ   - Takes(s): 2.0, OPS: 12.6, 99th(us): 77" +:+ newline ]};
     open_error := λ _, None; fs_out := [] |}.

Example report_ex :
  match report_main (λ _, inr [("mysql_workloada.log", false); ("x", true)]) map_to_list ["report"; "./logs"] ex_fs with
  | Ok (_, w) => files w !! "logs/report/workloada_summary.csv" =
      Some ("DB,READ OPS,READ P99(us),UPDATE OPS,UPDATE P99(us)" +:+ newline +:+ "mysql,13,77,0.0" +:+ newline)
  | _ => False
  end.
Proof. vm_compute. reflexivity. Qed.
