(* ===== verification/ReportSpec.v ===== *)
(** * What the report tool reads back from a log

    The final report of a run in the plain style, read by the tool, gives the rate and the
    99th percentile printed for each operation; and what a report file holds afterwards. *)

From stdpp Require Import sorting.
From S2P Require Import Prelude GoFloat GoStr GoConv GoText Util Measurement MeasurementSpec Report.

(** ** The text of a line *)

(** Keys and values as the report prints them. *)
Definition kvs_text (l : list (string * string)) : string := Join ((λ kv, kv.1 +:+ ": " +:+ kv.2) <$> l) ", ".

Definition line_kvs (i : info) : list (string * string) := zip (list.tail header) (summary_of i).

Definition line_text (op : string) (i : info) : string := pad_right 6 op +:+ " - " +:+ kvs_text (line_kvs i).

Lemma report_line_text op i : report_line op i = line_text op i +:+ newline.
Proof. unfold report_line, line_text. rewrite <- !string_app_assoc. reflexivity. Qed.

(** Characters of the printed numbers, of the headings and of operation names. *)
Definition value_char (c : ascii) : bool := is_digit c || Ascii.eqb c ".".
Definition key_char (c : ascii) : bool := value_char c || is_alpha c || Ascii.eqb c "(" || Ascii.eqb c ")".
Definition op_char (c : ascii) : bool :=
  let n := N_of_ascii c in ((65 <=? n) && (n <=? 90))%N || Ascii.eqb c "_".

Definition stat_sep_free (c : ascii) : bool := negb (statFieldFunc c).

(** A number the tool can read. *)
Definition readable_value (v : string) : Prop := v ≠ "" ∧ all_in value_char v = true ∧ is_Some (ParseFloat v).
Definition readable_info (i : info) : Prop := Forall readable_value (summary_of i).

#[global] Instance readable_value_dec v : Decision (readable_value v).
Proof. unfold readable_value. apply _. Defined.
#[global] Instance readable_info_dec i : Decision (readable_info i).
Proof. unfold readable_info. apply _. Defined.

Definition plain_key (k : string) : Prop := k ≠ "" ∧ all_in key_char k = true.

Ltac char_cases := intros [[] [] [] [] [] [] [] []]; vm_compute; congruence.

Lemma value_char_key c : value_char c = true → key_char c = true.
Proof. unfold key_char. by intros ->. Qed.
Lemma key_char_sep c : key_char c = true → stat_sep_free c = true.
Proof. revert c. char_cases. Qed.
Lemma key_char_space c : key_char c = true → is_space c = false.
Proof. revert c. char_cases. Qed.
Lemma op_char_space c : op_char c = true → is_space c = false.
Proof. revert c. char_cases. Qed.
Lemma key_char_without c : key_char c = true →
  without "-" c = true ∧ without line_feed c = true ∧ without "013" c = true.
Proof. revert c. intros [[] [] [] [] [] [] [] []]; vm_compute; (discriminate || done). Qed.
Lemma op_char_without c : op_char c = true →
  without "-" c = true ∧ without line_feed c = true ∧ without "013" c = true.
Proof. revert c. intros [[] [] [] [] [] [] [] []]; vm_compute; (discriminate || done). Qed.

(** ** Its fields *)

Fixpoint flat (pre : string) (l : list (string * string)) : list string :=
  match l with
  | [] => []
  | (k, v) :: l => (pre +:+ k) :: (" " +:+ v) :: flat " " l
  end.

Definition plain_kv (kv : string * string) : Prop := plain_key kv.1 ∧ readable_value kv.2.

Lemma kvs_text_cons kv l : l ≠ [] → kvs_text (kv :: l) = kv.1 +:+ ": " +:+ kv.2 +:+ ", " +:+ kvs_text l.
Proof. intros Hl. destruct l as [|kv' l]; [done|]. unfold kvs_text, Join. simpl. by rewrite <- !string_app_assoc. Qed.

Lemma fields_kvs pre l : l ≠ [] → Forall plain_kv l → all_in stat_sep_free pre = true →
  FieldsFunc (pre +:+ kvs_text l) statFieldFunc = flat pre l.
Proof.
  intros Hn Hl. revert pre Hn. induction Hl as [|[k v] l [[Hk Hka] (Hv & Hva & _)] Hl IH]; intros pre Hn Hpre; [done|].
  cbn [fst snd flat] in *.
  assert (all_in stat_sep_free (pre +:+ k) = true) as Hpk.
  { rewrite all_in_app, Hpre. simpl. by apply (all_in_impl key_char); [apply key_char_sep|]. }
  assert (all_in stat_sep_free (" " +:+ v) = true) as Hsv.
  { change (all_in stat_sep_free v = true). apply (all_in_impl value_char); [|done].
    intros c Hc. by apply key_char_sep, value_char_key. }
  assert (pre +:+ k ≠ "") as Hpk0 by (destruct pre; [by destruct k|done]).
  destruct (decide (l = [])) as [->|Hl0].
  - unfold kvs_text, Join. simpl. rewrite string_app_assoc.
    change (": " +:+ v) with (String ":" (" " +:+ v)).
    by rewrite FieldsFunc_field, FieldsFunc_last.
  - rewrite kvs_text_cons by done. cbn [fst snd]. rewrite string_app_assoc.
    change (": " +:+ v +:+ ", " +:+ kvs_text l) with (String ":" ((" " +:+ v) +:+ String "," (" " +:+ kvs_text l))).
    rewrite FieldsFunc_field, FieldsFunc_field by done. f_equal. f_equal. by apply IH.
Qed.

Definition update_stat (s : stat) (kv : string * string) : stat :=
  let x := default f64_zero (ParseFloat kv.2) in
  if String.eqb kv.1 "OPS" then {| OPS := x; P99 := P99 s |}
  else if String.eqb kv.1 "99th(us)" then {| OPS := OPS s; P99 := x |} else s.

Lemma stat_loop_flat s pre l : all_in is_space pre = true → Forall plain_kv l →
  stat_loop s (flat pre l) = Ok (inr (foldl update_stat s l)).
Proof.
  intros Hpre Hl. revert s pre Hpre. induction Hl as [|[k v] l [[Hk Hka] (Hv & Hva & [x Hx])] Hl IH];
    intros s pre Hpre; [done|]. cbn [flat stat_loop fst snd] in *.
  assert (TrimSpace (" " +:+ v) = v) as ->.
  { rewrite <- (string_app_nil_r v) at 1. apply (TrimSpace_all value_char); try done.
    intros c Hc. by apply key_char_space, value_char_key. }
  assert (TrimSpace (pre +:+ k) = k) as ->.
  { rewrite <- (string_app_nil_r k) at 1. by apply (TrimSpace_all key_char); try apply key_char_space. }
  rewrite Hx, IH by done. cbn [foldl].
  assert (update_stat s (k, v) = (if String.eqb k "OPS" then {| OPS := x; P99 := P99 s |}
    else if String.eqb k "99th(us)" then {| OPS := OPS s; P99 := x |} else s)) as ->; [|done].
  unfold update_stat. cbn [fst snd]. by rewrite Hx.
Qed.

(** The statistics of a line. *)
Definition stat_of (i : info) : stat :=
  {| OPS := default f64_zero (ParseFloat (FloatToOneString (QPS i)));
     P99 := default f64_zero (ParseFloat (IntToString (PER99TH i))) |}.

Lemma line_kvs_plain i : readable_info i → Forall plain_kv (line_kvs i).
Proof.
  unfold readable_info, line_kvs, summary_of, header. cbn [list.tail zip zip_with].
  repeat setoid_rewrite list.Forall_cons. unfold plain_kv. cbn [fst snd].
  intros (? & ? & ? & ? & ? & ? & ? & ? & ? & ? & ? & ? & _). repeat (split; [split; [by split|done]|]). constructor.
Qed.

Lemma newStat_line i w : readable_info i → newStat (kvs_text (line_kvs i)) w = Ok (inr (stat_of i), w).
Proof.
  intros Hi. pose proof (line_kvs_plain i Hi) as Hl. unfold newStat.
  change (kvs_text (line_kvs i)) with ("" +:+ kvs_text (line_kvs i)).
  rewrite fields_kvs by done. change (Nat.odd (length (flat "" (line_kvs i)))) with false.
  rewrite (bind_Ok_1 _ _ w tt w) by done. unfold lift. rewrite stat_loop_flat by done. done.
Qed.

(** ** The lines of a log *)

Definition op_name (op : string) : Prop := op ≠ "" ∧ all_in op_char op = true.

Definition short (s : string) : Prop := Z.of_nat (String.length s) < MaxScanTokenSize.

(** A line of the final report. *)
Definition good_line (oi : string * info) : Prop :=
  op_name oi.1 ∧ readable_info oi.2 ∧ short (line_text oi.1 oi.2).

Lemma kvs_text_class (cls : ascii → bool) l :
  (∀ c, key_char c = true → cls c = true) → cls ":"%char = true → cls " "%char = true → cls ","%char = true →
  Forall plain_kv l → all_in cls (kvs_text l) = true.
Proof.
  intros Hk H1 H2 H3 Hl. assert (Hv : ∀ c, value_char c = true → cls c = true) by eauto using value_char_key.
  induction Hl as [|[k v] l [[_ Hka] (_ & Hva & _)] Hl IH]; [done|]. cbn [fst snd] in *.
  pose proof (all_in_impl _ cls k Hk Hka) as Ek. pose proof (all_in_impl _ cls v Hv Hva) as Ev.
  destruct (decide (l = [])) as [->|Hn].
  - unfold kvs_text, Join. simpl. rewrite !all_in_app, Ek, Ev. unfold all_in. simpl. by rewrite H1, H2.
  - rewrite kvs_text_cons by done. cbn [fst snd]. rewrite !all_in_app, Ek, Ev, IH. unfold all_in. simpl.
    by rewrite H1, H2, H3.
Qed.

Lemma pad_right_spaces w s : ∃ sp, pad_right w s = s +:+ sp ∧ all_in is_space sp = true ∧
  ∀ cls : ascii → bool, cls " "%char = true → all_in cls sp = true.
Proof.
  eexists. split; [reflexivity|].
  assert (∀ cls : ascii → bool, cls " "%char = true →
    all_in cls (String.concat "" (replicate (w - String.length s) " ")) = true) as Hc.
  { intros cls Hc. induction (w - String.length s)%nat as [|n IH]; [done|].
    change (replicate (S n) " ") with (" " :: replicate n " "). rewrite concat_cons, all_in_app, IH.
    unfold all_in. simpl. by rewrite Hc. }
  split; [by apply Hc|exact Hc].
Qed.

(** The parts of a line around the dash. *)
Lemma line_text_split op i : op_name op → readable_info i →
  Split (line_text op i) "-" = [pad_right 6 op +:+ " "; " " +:+ kvs_text (line_kvs i)].
Proof.
  intros [Ho Hop] Hi. unfold line_text.
  change (" - " +:+ kvs_text (line_kvs i)) with (" " +:+ String "-" (" " +:+ kvs_text (line_kvs i))).
  rewrite string_app_assoc, Split_app, Split_without.
  - done.
  - change (all_in (without "-") (kvs_text (line_kvs i)) = true).
    apply kvs_text_class; try done; [by intros c [? _]%key_char_without|by apply line_kvs_plain].
  - destruct (pad_right_spaces 6 op) as (sp & -> & _ & Hsp). rewrite !all_in_app, Hsp by done.
    rewrite (all_in_impl _ _ _ (λ c Hc, proj1 (op_char_without c Hc)) Hop). done.
Qed.

Lemma line_text_class (cls : ascii → bool) op i : op_name op → readable_info i →
  (∀ c, key_char c = true → cls c = true) → (∀ c, op_char c = true → cls c = true) →
  cls ":"%char = true → cls " "%char = true → cls ","%char = true → cls "-"%char = true → all_in cls (line_text op i) = true.
Proof.
  intros [_ Hop] Hi Hk Ho H1 H2 H3 H4. unfold line_text.
  destruct (pad_right_spaces 6 op) as (sp & -> & _ & Hsp).
  rewrite !all_in_app, (Hsp cls) by done. rewrite (all_in_impl _ _ _ Ho Hop).
  rewrite (kvs_text_class cls (line_kvs i)) by (try done; by apply line_kvs_plain).
  unfold all_in. simpl. by rewrite H2, H4.
Qed.

Lemma line_op op : op_name op → TrimSpace (pad_right 6 op +:+ " ") = op.
Proof.
  intros [Ho Hop]. destruct (pad_right_spaces 6 op) as (sp & -> & Hsp & _). rewrite <- string_app_assoc.
  change (op +:+ sp +:+ " ") with ("" +:+ op +:+ (sp +:+ " ")).
  apply (TrimSpace_all op_char); try done; [apply op_char_space|by rewrite all_in_app, Hsp].
Qed.

Lemma line_rest i : readable_info i → TrimSpace (" " +:+ kvs_text (line_kvs i)) = kvs_text (line_kvs i).
Proof.
  intros Hi. rewrite <- (string_app_nil_r (kvs_text (line_kvs i))) at 1. apply TrimSpace_solid; [done|done|done|].
  assert (Hlast : readable_value (IntToString (PER9999TH i))).
  { unfold readable_info, summary_of in Hi. rewrite list.Forall_forall in Hi. apply Hi. repeat first [by left|right]. }
  destruct Hlast as (Hn & Ha & _).
  assert (∃ a, kvs_text (line_kvs i) = a +:+ IntToString (PER9999TH i)) as [a ->].
  { eexists. unfold line_kvs, summary_of, header, kvs_text, Join. cbn -[String.append]. rewrite !string_app_assoc. reflexivity. }
  rewrite str_rev_app. pose proof (str_rev_nil _ Hn). rewrite <- (all_in_rev value_char) in Ha.
  assert (Hs : starts_solid (str_rev (IntToString (PER9999TH i)))).
  { eapply (starts_solid_all value_char); [|done|done]. intros c Hc. by apply key_char_space, value_char_key. }
  by destruct (str_rev (IntToString (PER9999TH i))).
Qed.

Lemma line_prefix op i : op_name op → HasPrefix (line_text op i) "Run finished" = false.
Proof.
  intros [Ho Hop]. unfold line_text. unfold all_in in Hop. destruct op as [|c1 [|c2 op]]; [done| |].
  - unfold HasPrefix. change (String.prefix "Run finished" (String c1 (String " " ("    " +:+ " - " +:+
      kvs_text (line_kvs i)))) = false). cbn [String.prefix]. by destruct (Ascii.ascii_dec "R" c1).
  - simpl in Hop. apply andb_true_iff in Hop as [_ [H2 _]%andb_true_iff].
    unfold HasPrefix, pad_right.
    change (String.prefix "Run finished" (String c1 (String c2 ((op +:+
      String.concat "" (replicate (6 - String.length (String c1 (String c2 op))) " ")) +:+ " - " +:+ kvs_text (line_kvs i)))) = false).
    cbn [String.prefix]. destruct (Ascii.ascii_dec "R" c1); [|done]. destruct (Ascii.ascii_dec "u" c2) as [<-|]; done.
Qed.

(** ** Reading a log *)

Definition text_of (lines : list string) : string := String.concat "" ((λ s, s +:+ newline) <$> lines).

(** A line that scanning leaves as it is. *)
Definition scannable (s : string) : Prop :=
  short s ∧ all_in (without line_feed) s = true ∧ all_in (without "013") s = true.

Lemma Scan_all_text lines : Forall scannable lines → Scan_all (text_of lines) = (lines, None).
Proof.
  intros Hl. assert (Hr : raw_lines (text_of lines) = lines).
  { induction Hl as [|s lines (_ & Hlf & _) Hl IH]; [done|]. unfold text_of. rewrite fmap_cons, concat_cons.
    rewrite <- string_app_assoc. change (newline +:+ ?x) with (String line_feed x).
    rewrite raw_lines_app by done. by f_equal. }
  unfold Scan_all. rewrite Hr. clear Hr. induction Hl as [|s lines (Hs & _ & Hcr) Hl IH]; [done|]. cbn [scanned].
  rewrite (proj2 (Z.leb_gt _ _) Hs), IH, drop_cr_without by done. done.
Qed.

Lemma good_line_scannable oi : good_line oi → scannable (line_text oi.1 oi.2).
Proof.
  intros (Ho & Hi & Hs). split; [done|split]; apply line_text_class; try done;
    intros c Hc; by (apply key_char_without in Hc as (? & ? & ?) || apply op_char_without in Hc as (? & ? & ?)).
Qed.

(** A line before the end of the run: one of no operation, or an earlier report. *)
Definition harmless (s : string) : Prop :=
  scannable s ∧
  ((HasPrefix s "Run finished" = false ∧ TrimSpace (default "" (Split s "-" !! 0%nat)) ∉ operations) ∨
   ∃ op i, good_line (op, i) ∧ s = line_text op i).

Definition add_stat (flag : bool) (sums : gmap string stat) (oi : string * info) : gmap string stat :=
  if flag && bool_decide (oi.1 ∈ operations) then <[oi.1 := stat_of oi.2]> sums else sums.

Lemma scan_log_line op i lines flag sums w : good_line (op, i) →
  scan_log (line_text op i :: lines) flag sums w = scan_log lines flag (add_stat flag sums (op, i)) w.
Proof.
  intros (Ho & Hi & _). cbn [fst snd] in *. cbn [scan_log]. rewrite line_prefix, line_text_split by done.
  cbn [lookup list_lookup default from_option id]. change (from_option (λ x, x) "" (Some ?x)) with x.
  unfold default. cbn [from_option]. rewrite line_op by done. unfold add_stat. cbn [fst snd].
  case_bool_decide; [|by rewrite andb_false_r].
  rewrite line_rest, (bind_Ok_1 _ _ _ _ _ (newStat_line i w Hi)) by done. by destruct flag.
Qed.

Lemma scan_log_harmless pre lines sums w : Forall harmless pre →
  scan_log (pre ++ lines) false sums w = scan_log lines false sums w.
Proof.
  induction 1 as [|s pre [_ [[Hp Hq]|(op & i & Hg & ->)]] Hpre IH]; [done|..].
  - rewrite <- IH. cbn [app scan_log]. by rewrite Hp, bool_decide_eq_false_2.
  - change ((line_text op i :: pre) ++ lines) with (line_text op i :: (pre ++ lines)).
    by rewrite scan_log_line.
Qed.

Lemma scan_log_report l sums w : Forall good_line l →
  scan_log ((λ oi, line_text oi.1 oi.2) <$> l) true sums w = Ok (inr (foldl (add_stat true) sums l), w).
Proof.
  intros Hl. revert sums. induction Hl as [|[op i] l Hg Hl IH]; intros sums; [done|].
  rewrite fmap_cons. cbn [fst snd]. by rewrite scan_log_line, IH.
Qed.

Lemma add_stats_lookup l sums op : NoDup l.*1 →
  foldl (add_stat true) sums l !! op =
  match list_to_map (M := gmap string info) l !! op with
  | Some i => if bool_decide (op ∈ operations) then Some (stat_of i) else sums !! op
  | None => sums !! op
  end.
Proof.
  revert sums. induction l as [|[op' i] l IH]; intros sums Hn; [done|]. rewrite fmap_cons in Hn.
  apply list.NoDup_cons in Hn as [Hop Hn]. cbn [foldl]. rewrite (IH _ Hn), list_to_map_cons. cbn [fst snd] in *.
  destruct (decide (op' = op)) as [->|Hne].
  - rewrite lookup_insert_eq, (not_elem_of_list_to_map_1 l) by done.
    unfold add_stat. cbn [fst snd andb]. case_bool_decide; [by rewrite lookup_insert_eq|done].
  - rewrite lookup_insert_ne by done. assert (add_stat true sums (op', i) !! op = sums !! op) as ->; [|done].
    unfold add_stat. cbn [fst snd andb]. destruct (bool_decide (op' ∈ operations)); [by rewrite lookup_insert_ne|done].
Qed.

(** The log of a finished run. *)
Definition log_text (pre : list string) (takes : string) (l : list (string * info)) : string :=
  text_of (pre ++ ["Run finished, takes " +:+ takes]) +:+ String.concat "" ((λ oi, report_line oi.1 oi.2) <$> l).

Lemma concat_app l1 l2 : String.concat "" (l1 ++ l2) = String.concat "" l1 +:+ String.concat "" l2.
Proof.
  induction l1 as [|s l1 IH]; [done|]. cbn [app]. by rewrite !concat_cons, IH, string_app_assoc.
Qed.

Lemma log_text_lines pre takes l : log_text pre takes l =
  text_of (pre ++ ("Run finished, takes " +:+ takes) :: ((λ oi, line_text oi.1 oi.2) <$> l)).
Proof.
  unfold log_text, text_of. rewrite <- concat_app. f_equal. rewrite !fmap_app, <- app_assoc. f_equal.
  cbn [fmap list_fmap app]. f_equal. induction l as [|[op i] l IH]; [done|]. rewrite !fmap_cons, IH.
  cbn [fst snd]. by rewrite report_line_text.
Qed.

(** C37: What a run reports, the tool reads back.  For a file [db_workload.log] that holds
    the output of a run in the plain style (any lines without operations and any earlier
    reports, the "Run finished" line, the final report), [parseDBStat] succeeds and its
    summary has, for exactly the operations of the final report that the tool knows, the
    rate and the 99th percentile printed for that operation; the percentile is the
    printed integer itself, correctly rounded. *)
Theorem report_roundtrip pathName db wl pre takes l w :
  path_Base pathName = db +:+ "_" +:+ wl +:+ ".log" → all_in (without "_") db = true → wl ∈ workloads →
  files w !! pathName = Some (log_text pre takes l) → open_error w pathName = None →
  Forall harmless pre → scannable ("Run finished, takes " +:+ takes) → Forall good_line l → NoDup l.*1 →
  ∃ s, parseDBStat pathName w = Ok (inr (Some s), w) ∧ stat_db s = db ∧ workload s = wl ∧
    (∀ op i, (op, i) ∈ l → op ∈ operations → ∃ st, summary s !! op = Some st ∧
      ParseFloat (FloatToOneString (QPS i)) = Some (OPS st) ∧
      (0 <= PER99TH i → f64_decimal false (PER99TH i) 0 = Some (P99 st))) ∧
    (∀ op, is_Some (summary s !! op) ↔ op ∈ operations ∧ op ∈ l.*1).
Proof.
  intros Hpath Hdb Hwl Hfile Hopen Hpre Htakes Hl Hn. unfold parseDBStat. rewrite Hpath.
  assert (Hsplit : Split (db +:+ "_" +:+ wl +:+ ".log") "_" = [db; wl +:+ ".log"]).
  { change ("_" +:+ wl +:+ ".log") with (String "_" (wl +:+ ".log")). rewrite Split_app by done. f_equal.
    apply Split_without. unfold workloads in Hwl. rewrite !elem_of_cons, elem_of_nil in Hwl.
    by destruct Hwl as [->|[->|[->|[->|[->|[->|[->|[]]]]]]]]. }
  assert (Htrim : TrimSuffix (wl +:+ ".log") ".log" = wl).
  { unfold workloads in Hwl. rewrite !elem_of_cons, elem_of_nil in Hwl.
    by destruct Hwl as [->|[->|[->|[->|[->|[->|[->|[]]]]]]]]. }
  rewrite Hsplit, Htrim, bool_decide_eq_true_2 by done. unfold read_file.
  unfold mbind, M_bind, get. rewrite Hopen, Hfile. unfold mret at 1, M_ret at 1. cbn iota.
  rewrite log_text_lines, Scan_all_text.
  2:{ apply list.Forall_app. split; [by apply (list.Forall_impl _ _ _ Hpre); intros s [? _]|].
      constructor; [done|]. apply list.Forall_fmap. apply (list.Forall_impl _ _ _ Hl), good_line_scannable. }
  rewrite scan_log_harmless by done. cbn [scan_log].
  change (HasPrefix ("Run finished, takes " +:+ takes) "Run finished") with true. cbn iota.
  rewrite scan_log_report by done. eexists. split; [reflexivity|split; [done|split; [done|]]]. cbn [summary].
  assert (Hi : ∀ op, list_to_map (M := gmap string info) l !! op = None ↔ op ∉ l.*1).
  { intros op. split; [apply not_elem_of_list_to_map_2|apply not_elem_of_list_to_map_1]. }
  split.
  - intros op i Hin Hop. exists (stat_of i). rewrite add_stats_lookup by done.
    rewrite (elem_of_list_to_map_1 l op i Hn Hin), bool_decide_eq_true_2 by done. split; [done|].
    rewrite list.Forall_forall in Hl. destruct (Hl _ Hin) as (_ & Hr & _). cbn [snd] in Hr.
    unfold readable_info, summary_of in Hr. rewrite list.Forall_forall in Hr. unfold stat_of. cbn [OPS P99]. split.
    + destruct (Hr (FloatToOneString (QPS i))) as (_ & _ & [x Hx]); [repeat first [by left|right]|]. by rewrite Hx.
    + intros H0. destruct (Hr (IntToString (PER99TH i))) as (_ & _ & [x Hx]); [repeat first [by left|right]|].
      rewrite Hx. unfold IntToString, FormatInt in Hx. rewrite (proj2 (Z.ltb_ge _ _) H0) in Hx.
      pose proof (ParseFloat_fixed 0 (PER99TH i)) as Hf. change (fixed_str 0 ?n) with (FormatUint n) in Hf.
      change (- 0) with 0 in Hf. rewrite <- Hf, Hx by done. done.
  - intros op. rewrite add_stats_lookup by done. rewrite lookup_empty.
    destruct (list_to_map l !! op) as [i|] eqn:E.
    + assert (op ∈ l.*1) by (destruct (decide (op ∈ l.*1)); [done|]; apply Hi in n; congruence).
      case_bool_decide; (split; [by intros [? ?]|intros [? _]; by eauto || done]).
    + apply Hi in E. split; [by intros [? ?]|by intros [_ ?]].
Qed.

(** ** The report files *)

Lemma drop_str_ge n s : (String.length s <= n)%nat → drop_str n s = "".
Proof.
  revert s. induction n as [|n IH]; intros s Hs.
  - destruct s as [|c s]; [done|]. simpl in Hs. lia.
  - destruct s as [|c s]; [done|]. apply IH. simpl in Hs. lia.
Qed.

(** Writing a report touches its file only.  The file then holds the report, but is not
    truncated: the end of an older, longer report stays behind the new one. *)
Lemma report_stale_tail logsPath wl stats w :
  let name := report_file logsPath wl in
  let text := report_text wl stats in
  open_error w name = None →
  ∃ w', reportDBStats logsPath wl stats w = Ok (None, w') ∧
    (∀ f, f ≠ name → files w' !! f = files w !! f) ∧
    match files w !! name with
    | Some old => (String.length old <= String.length text)%nat ↔ files w' !! name = Some text
    | None => files w' !! name = Some text
    end.
Proof.
  intros name text Hopen. unfold reportDBStats, write_file, mbind, M_bind, get. fold name. rewrite Hopen.
  eexists. split; [reflexivity|]. cbn [files]. split.
  - intros f Hf. by rewrite lookup_insert_ne.
  - rewrite lookup_insert_eq. fold text. destruct (files w !! name) as [old|]; unfold overwrite, default; cbn [from_option id].
    + split.
      * intros Hlen. by rewrite drop_str_ge, string_app_nil_r.
      * intros [= E]. apply (f_equal String.length) in E. rewrite str_length_app, drop_str_length in E. lia.
    + rewrite drop_str_ge, string_app_nil_r; [done|]. simpl. lia.
Qed.

(** The number of commas of a text. *)
Definition commas (s : string) : nat := length (filter (λ c, c = ","%char) (list_ascii_of_string s)).

Lemma commas_app s t : commas (s +:+ t) = (commas s + commas t)%nat.
Proof.
  unfold commas. induction s as [|c s IH]; [done|]. change (String c s +:+ t) with (String c (s +:+ t)).
  cbn [list_ascii_of_string]. rewrite !filter_cons. case_decide; simpl; lia.
Qed.

(** The heading has two columns per operation, a row only one where the log has no
    summary for the operation, so the cells behind it shift. *)
Lemma missing_cell_shifts st : commas (stat_cells None) = 1%nat ∧ (2 <= commas (stat_cells (Some st)))%nat.
Proof. split; [done|]. unfold stat_cells. rewrite !commas_app. change (commas ",") with 1%nat. lia. Qed.

(** ** Witness *)

Definition ex_line_info : info :=
  {| ELAPSED := f64_lit 25 1; COUNT := 41; QPS := f64_lit 164 1; AVG := 812; MIN := 95; MAX := 30211; PER50TH := 600;
     PER90TH := 1207; PER95TH := 1500; PER99TH := 2999; PER999TH := 30211; PER9999TH := 30211 |}.

Definition ex_report : list (string * info) := [("READ", ex_line_info); ("TOTAL", ex_line_info)].

Definition ex_pre : list string := ["***************** properties *****************"; line_text "UPDATE" ex_line_info].

Definition ex_log_fs : FS :=
  {| files := {[ "logs/mysql_workloada.log" := log_text ex_pre "2.5s" ex_report ]};
     open_error := λ _, None; fs_out := [] |}.

Lemma good_line_ex op : op = "READ" ∨ op = "TOTAL" ∨ op = "UPDATE" → good_line (op, ex_line_info).
Proof. by intros [->|[->| ->]]; (split; [by split|split; [apply (bool_decide_unpack _); by vm_compute|done]]). Qed.

Lemma report_roundtrip_witness :
  ∃ s, parseDBStat "logs/mysql_workloada.log" ex_log_fs = Ok (inr (Some s), ex_log_fs) ∧
    (∃ st, summary s !! "READ" = Some st ∧ ParseFloat "16.4" = Some (OPS st)) ∧
    (∀ op, is_Some (summary s !! op) ↔ op ∈ operations ∧ op ∈ ex_report.*1).
Proof.
  destruct (report_roundtrip "logs/mysql_workloada.log" "mysql" "workloada" ex_pre "2.5s" ex_report ex_log_fs)
    as (s & E & _ & _ & Hop & Hd).
  - reflexivity.
  - reflexivity.
  - right; left.
  - reflexivity.
  - reflexivity.
  - constructor; [|constructor; [|constructor]].
    + split; [by split|left]. split; [reflexivity|]. apply (bool_decide_unpack _). by vm_compute.
    + assert (good_line ("UPDATE", ex_line_info)) as Hg by (apply good_line_ex; auto).
      split; [by apply (good_line_scannable ("UPDATE", ex_line_info))|right]. by exists "UPDATE", ex_line_info.
  - by split.
  - constructor; [apply good_line_ex; auto|constructor; [apply good_line_ex; auto|constructor]].
  - apply (bool_decide_unpack _). by vm_compute.
  - exists s. split; [exact E|split; [|exact Hd]].
    destruct (Hop "READ" ex_line_info) as (st & Hs & Ho & _); [by left|right; left|].
    exists st. split; [exact Hs|exact Ho].
Defined.
