(* ===== verification/Sql.v ===== *)
(** * db/mysql and db/pg

    The statements the SQL drivers build, and the drivers over [database/sql].  The
    connection of a thread is the class [SqlConn]: preparing, closing and running
    statements on the database's driver.  A driver state is the connection, the thread's
    cache of prepared statements, the buffer pool and what verbose mode prints (the
    statement and its arguments).  The order in which Go ranges over a row is the
    parameter [order].  A NULL column and an empty one are both the empty byte string. *)

From S2P Require Import Prelude GoFloat GoStr Props Util Ycsb TikvRows.

(** ** Statements *)

(** An argument: a key, a field's value, a count. *)
Inductive sql_arg := ArgString (s : string) | ArgBytes (b : bytes) | ArgInt (n : Z).

Record statement := { query : string; args : list sql_arg }.

(** [*], or the fields. *)
Definition columns (fields : list string) : string := if decide (fields = []) then "*" else Join fields ",".

(** [n] times [x]. *)
Definition repeated (n : nat) (x : string) : string := String.concat "" (replicate n x).

Definition values_of (pairs : FieldPairs) : list sql_arg := (λ p, ArgBytes (PairValue p)) <$> pairs.

(** The loop that writes [" ,"] and a field. *)
Definition insert_columns (pairs : FieldPairs) : string := String.concat "" ((λ p, " ," +:+ Field p) <$> pairs).

(** The loop that writes the assignments, with its [firstField] flag. *)
Fixpoint assignments (first : bool) (pairs : FieldPairs) : string :=
  match pairs with
  | [] => ""
  | p :: pairs => (if first then "" else ", ") +:+ Field p +:+ "= ?" +:+ assignments false pairs
  end.

(** The question marks of an [IN] list. *)
Fixpoint question_marks (n : nat) : string :=
  match n with
  | O => ""
  | S O => "?"
  | S m => "?," +:+ question_marks m
  end.

(** What the columns of [CREATE TABLE] are. *)
Definition create_columns (column : Z → string) (fieldCount : Z) : string :=
  String.concat "" (column <$> seqZ 0 fieldCount).

Definition varchar_column (fieldLength i : Z) : string :=
  ", FIELD" +:+ FormatInt i +:+ " VARCHAR(" +:+ FormatInt fieldLength +:+ ")".

(** *** mysql *)

Definition my_read (force table key : string) (fields : list string) : statement :=
  {| query := "SELECT " +:+ columns fields +:+ " FROM " +:+ table +:+ " " +:+ force +:+ " WHERE YCSB_KEY = ?";
     args := [ArgString key] |}.

Definition my_batch_read (force table : string) (keys fields : list string) : statement :=
  {| query := "SELECT " +:+ columns fields +:+ " FROM " +:+ table +:+ " " +:+ force +:+ " WHERE YCSB_KEY IN (" +:+
              question_marks (length keys) +:+ ")";
     args := ArgString <$> keys |}.

Definition my_scan (force table startKey : string) (count : Z) (fields : list string) : statement :=
  {| query := "SELECT " +:+ columns fields +:+ " FROM " +:+ table +:+ " " +:+ force +:+
              " WHERE YCSB_KEY >= ? LIMIT ?";
     args := [ArgString startKey; ArgInt count] |}.

(** Shared with sqlite and cassandra. *)
Definition update_stmt (table key : string) (pairs : FieldPairs) : statement :=
  {| query := "UPDATE " +:+ table +:+ " SET " +:+ assignments true pairs +:+ " WHERE YCSB_KEY = ?";
     args := values_of pairs ++ [ArgString key] |}.

Definition insert_stmt (verb table key : string) (pairs : FieldPairs) : statement :=
  {| query := verb +:+ " INTO " +:+ table +:+ " (YCSB_KEY" +:+ insert_columns pairs +:+ ") VALUES (?" +:+
              repeated (length pairs) " ,?" +:+ ")";
     args := ArgString key :: values_of pairs |}.

Definition delete_stmt (table key : string) : statement :=
  {| query := "DELETE FROM " +:+ table +:+ " WHERE YCSB_KEY = ?"; args := [ArgString key] |}.

Definition my_batch_delete (table : string) (keys : list string) : statement :=
  {| query := "DELETE FROM " +:+ table +:+ " WHERE YCSB_KEY IN (" +:+ question_marks (length keys) +:+ ")";
     args := ArgString <$> keys |}.

(** *** pg: numbered placeholders *)

Definition pg_read (table key : string) (fields : list string) : statement :=
  {| query := "SELECT " +:+ columns fields +:+ " FROM " +:+ table +:+ " WHERE YCSB_KEY = $1";
     args := [ArgString key] |}.

Definition pg_scan (table startKey : string) (count : Z) (fields : list string) : statement :=
  {| query := "SELECT " +:+ columns fields +:+ " FROM " +:+ table +:+ " WHERE YCSB_KEY >= $1 LIMIT $2";
     args := [ArgString startKey; ArgInt count] |}.

Fixpoint pg_assignments (first : bool) (placeHolderIndex : Z) (pairs : FieldPairs) : string :=
  match pairs with
  | [] => ""
  | p :: pairs =>
      (if first then "" else ", ") +:+ Field p +:+ " = $" +:+ FormatInt placeHolderIndex +:+
      pg_assignments false (placeHolderIndex + 1) pairs
  end.

Definition pg_update (table key : string) (pairs : FieldPairs) : statement :=
  {| query := "UPDATE " +:+ table +:+ " SET " +:+ pg_assignments true 1 pairs +:+ " WHERE YCSB_KEY = $" +:+
              FormatInt (1 + Z.of_nat (length pairs));
     args := values_of pairs ++ [ArgString key] |}.

Definition pg_insert (table key : string) (pairs : FieldPairs) : statement :=
  {| query := "INSERT INTO " +:+ table +:+ " (YCSB_KEY" +:+ insert_columns pairs +:+ ") VALUES ($1" +:+
              String.concat "" ((λ i, " ,$" +:+ FormatInt (i + 2)) <$> seqZ 0 (Z.of_nat (length pairs))) +:+
              ") ON CONFLICT DO NOTHING";
     args := ArgString key :: values_of pairs |}.

Definition pg_delete (table key : string) : statement :=
  {| query := "DELETE FROM " +:+ table +:+ " WHERE YCSB_KEY = $1"; args := [ArgString key] |}.

(** ** database/sql *)

(** The rows of an answer: the column names, the rows until an error of [Scan], and the
    error of [rows.Err]. *)
Record sql_rows := { rows_Columns : error + list string; rows_Values : list (error + list bytes); rows_Err : option error }.

Abbreviation stmt_id := nat.

Class SqlConn (C : Type) := {
  sql_Conn : M C (option error);
  sql_Prepare : string → M C (error + stmt_id);
  sql_StmtClose : stmt_id → M C unit;
  sql_StmtQuery : stmt_id → list sql_arg → M C (error + sql_rows);
  sql_StmtExec : stmt_id → list sql_arg → M C (option error);
  sql_Exec : string → M C (option error);
  sql_ConnClose : M C unit;
  sql_Close : M C (option error)
}.

Definition ErrConnDone : error := "sql: connection is already closed".

(** The statements a thread has open, with their texts. *)
Class SqlConnLaws (C : Type) `{SqlConn C} (open : C → gmap stmt_id string) : Prop := {
  law_sql_Conn : ∀ c r c', sql_Conn c = Ok (r, c') → open c' = open c;
  law_sql_Prepare : ∀ q c r c', sql_Prepare q c = Ok (r, c') →
    match r with inr s => open c !! s = None ∧ open c' = <[s := q]> (open c) | inl _ => open c' = open c end;
  law_sql_StmtClose : ∀ s c c', sql_StmtClose s c = Ok (tt, c') → open c' = delete s (open c);
  law_sql_StmtQuery : ∀ s a c r c', sql_StmtQuery s a c = Ok (r, c') → open c' = open c;
  law_sql_StmtExec : ∀ s a c r c', sql_StmtExec s a c = Ok (r, c') → open c' = open c;
  law_sql_Exec : ∀ q c r c', sql_Exec q c = Ok (r, c') → open c' = open c;
  law_sql_ConnClose : ∀ c c', sql_ConnClose c = Ok (tt, c') → open c' = open c
}.

Record sql_state (C : Type) := {
  sql_client : C; stmtCache : gmap string stmt_id; sql_pool : Pool; sql_out : list statement
}.
Arguments sql_client {C} _.
Arguments stmtCache {C} _.
Arguments sql_pool {C} _.
Arguments sql_out {C} _.

Record mysqlDB := { my_verbose : bool; forceIndexKeyword : string }.

Section sql.
Context {C : Type} `{SqlConn C} (order : row → list (string * bytes)).

Abbreviation S := (sql_state C).

Definition in_sql {A} (m : M C A) : M S A :=
  zoom sql_client (λ c s, {| sql_client := c; stmtCache := stmtCache s; sql_pool := sql_pool s; sql_out := sql_out s |}) m.

Definition set_cache (f : gmap string stmt_id → gmap string stmt_id) : M S unit :=
  modify (λ s, {| sql_client := sql_client s; stmtCache := f (stmtCache s); sql_pool := sql_pool s; sql_out := sql_out s |}).

Definition verbose_print (verbose : bool) (st : statement) : M S unit :=
  if verbose then modify (λ s, {| sql_client := sql_client s; stmtCache := stmtCache s; sql_pool := sql_pool s;
                                  sql_out := sql_out s ++ [st] |})
  else mret tt.

(** [InitThread]: a connection of its own, an empty cache. *)
Definition my_InitThread : M S unit :=
  err ← in_sql sql_Conn;
  match err with
  | Some e => panic ("failed to create db conn " +:+ e)
  | None => set_cache (λ _, ∅)
  end.

(** Closing the statements of the cache, in the order of a range over it. *)
Fixpoint close_all (stmts : list stmt_id) : M S unit :=
  match stmts with
  | [] => mret tt
  | s :: stmts => _ ← in_sql (sql_StmtClose s); close_all stmts
  end.

Definition my_CleanupThread : M S unit :=
  s ← get;
  _ ← close_all (map_to_list (stmtCache s)).*2;
  in_sql sql_ConnClose.

Definition getAndCacheStmt (q : string) : M S (error + stmt_id) :=
  s ← get;
  match stmtCache s !! q with
  | Some stmt => mret (inr stmt)
  | None =>
      r ← in_sql (sql_Prepare q);
      r ← match r with
          | inl e =>
              if String.eqb e ErrConnDone then
                err ← in_sql sql_Conn;
                match err with Some e => mret (inl e) | None => in_sql (sql_Prepare q) end
              else mret (inl e)
          | inr stmt => mret (inr stmt)
          end;
      match r with
      | inl e => mret (inl e)
      | inr stmt => _ ← set_cache (<[q := stmt]>); mret (inr stmt)
      end
  end.

Definition clearCacheIfFailed (q : string) (err : option error) : M S unit :=
  match err with
  | None => mret tt
  | Some _ =>
      s ← get;
      _ ← match stmtCache s !! q with Some stmt => in_sql (sql_StmtClose stmt) | None => mret tt end;
      set_cache (delete q)
  end.

(** The loop over the rows: each is a map from the columns; an error of [Scan] drops them. *)
Fixpoint scan_values (cols : list string) (rows : list (error + list bytes)) : error + list row :=
  match rows with
  | [] => inr []
  | inl e :: _ => inl e
  | inr v :: rows =>
      match scan_values cols rows with
      | inl e => inl e
      | inr vs => inr (foldl (λ m kv, <[kv.1 := kv.2]> m) (∅ : row) (zip cols v) :: vs)
      end
  end.

(** What [queryRows] makes of the rows; [count] is the capacity of the result, and
    [rows.Err] comes with the rows read. *)
Definition collect_rows (count : Z) (r : sql_rows) : res (list row * option error) :=
  match rows_Columns r with
  | inl e => Ok ([], Some e)
  | inr cols =>
      if count <? 0 then Panic "makeslice: cap out of range"
      else Ok match scan_values cols (rows_Values r) with
              | inl e => ([], Some e)
              | inr vs => (vs, rows_Err r)
              end
  end.

Definition queryRows (verbose : bool) (count : Z) (st : statement) : M S (list row * option error) :=
  _ ← verbose_print verbose st;
  r ← getAndCacheStmt (query st);
  match r with
  | inl e => mret ([], Some e)
  | inr stmt =>
      r ← in_sql (sql_StmtQuery stmt (args st));
      match r with inl e => mret ([], Some e) | inr rows => lift (collect_rows count rows) end
  end.

(** A query whose statement is dropped from the cache when it fails. *)
Definition cached_query (verbose : bool) (count : Z) (st : statement) : M S (list row * option error) :=
  '(rows, err) ← queryRows verbose count st;
  _ ← clearCacheIfFailed (query st) err;
  mret (rows, err).

Definition execQuery (verbose : bool) (st : statement) : M S (option error) :=
  _ ← verbose_print verbose st;
  r ← getAndCacheStmt (query st);
  match r with
  | inl e => mret (Some e)
  | inr stmt =>
      err ← in_sql (sql_StmtExec stmt (args st));
      _ ← clearCacheIfFailed (query st) err;
      mret err
  end.

Definition first_row (r : list row * option error) : row * option error :=
  match r with
  | (_, Some e) => (∅, Some e)
  | ([], None) => (∅, None)
  | (v :: _, None) => (v, None)
  end.

Definition all_rows (r : list row * option error) : list row * option error :=
  match r with (_, Some e) => ([], Some e) | (vs, None) => (vs, None) end.

(** The buffer a statement is written into, borrowed from the pool, and what is put back:
    the [bytes.Buffer] with the text, or (in the batches) the empty slice taken out. *)
Definition sql_with_buf {A} (written : string) (f : M S A) : M S A :=
  with_buf sql_pool
    (λ p s, {| sql_client := sql_client s; stmtCache := stmtCache s; sql_pool := p; sql_out := sql_out s |})
    (λ buf, a ← f; mret (a, buf ++ bytes_of_string written)).

(** A statement built in a [bytes.Buffer] and run. *)
Definition exec_written (verbose : bool) (st : statement) : M S (option error) :=
  sql_with_buf (query st) (execQuery verbose st).

(** *** mysql *)

Definition my_Read (db : mysqlDB) (table key : string) (fs : list string) : M S (row * option error) :=
  r ← cached_query (my_verbose db) 1 (my_read (forceIndexKeyword db) table key fs); mret (first_row r).

Definition my_BatchRead (db : mysqlDB) (table : string) (keys fs : list string) : M S (list row * option error) :=
  sql_with_buf "" (r ← cached_query (my_verbose db) (Z.of_nat (length keys)) (my_batch_read (forceIndexKeyword db) table keys fs);
                mret (all_rows r)).

Definition my_Scan (db : mysqlDB) (table startKey : string) (count : Z) (fs : list string)
    : M S (list row * option error) :=
  cached_query (my_verbose db) count (my_scan (forceIndexKeyword db) table startKey count fs).

Definition my_Update (db : mysqlDB) (table key : string) (values : row) : M S (option error) :=
  exec_written (my_verbose db) (update_stmt table key (NewFieldPairs (order values))).

Fixpoint my_BatchUpdate (db : mysqlDB) (table : string) (keys : list string) (values : list row) : M S (option error) :=
  match keys, values with
  | [], _ => mret None
  | _ :: _, [] => panic "index out of range"
  | k :: keys, v :: values =>
      err ← my_Update db table k v;
      match err with Some e => mret (Some e) | None => my_BatchUpdate db table keys values end
  end.

Definition my_Insert (db : mysqlDB) (table key : string) (values : row) : M S (option error) :=
  exec_written (my_verbose db) (insert_stmt "INSERT IGNORE" table key (NewFieldPairs (order values))).

(** The arguments of a batch: each key with its own row. *)
Fixpoint batch_args (keys : list string) (values : list row) : res (list sql_arg) :=
  match keys, values with
  | [], _ => Ok []
  | _ :: _, [] => Panic "index out of range"
  | k :: keys, v :: values =>
      rest ← batch_args keys values; Ok (ArgString k :: values_of (NewFieldPairs (order v)) ++ rest)
  end.

(** The columns and the groups of placeholders are those of the first row. *)
Definition my_batch_insert (table : string) (keys : list string) (values : list row) : res statement :=
  match values with
  | [] => Panic "index out of range"
  | v0 :: _ =>
      let pairs := NewFieldPairs (order v0) in
      let valueString := "(?" +:+ repeated (length pairs) " ,?" +:+ ")" in
      a ← batch_args keys values;
      Ok {| query := "INSERT IGNORE INTO " +:+ table +:+ " (YCSB_KEY" +:+ insert_columns pairs +:+ ") VALUES " +:+
                     Join (replicate (length keys) valueString) ",";
            args := a |}
  end.

Definition my_BatchInsert (db : mysqlDB) (table : string) (keys : list string) (values : list row) : M S (option error) :=
  sql_with_buf "" (st ← lift (my_batch_insert table keys values); execQuery (my_verbose db) st).

Definition my_Delete (db : mysqlDB) (table key : string) : M S (option error) :=
  execQuery (my_verbose db) (delete_stmt table key).

Definition my_BatchDelete (db : mysqlDB) (table : string) (keys : list string) : M S (option error) :=
  sql_with_buf "" (execQuery (my_verbose db) (my_batch_delete table keys)).

Definition my_Analyze (table : string) : M S (option error) := in_sql (sql_Exec ("ANALYZE TABLE " +:+ table)).

Definition my_DB (db : mysqlDB) : DB S := {|
  Close := in_db (in_sql sql_Close);
  InitThread _ _ := in_db my_InitThread;
  CleanupThread := in_db my_CleanupThread;
  Read table key fs := in_db (my_Read db table key fs);
  Scan table key n fs := in_db (my_Scan db table key n fs);
  Update table key v := in_db (my_Update db table key v);
  Insert table key v := in_db (my_Insert db table key v);
  Delete table key := in_db (my_Delete db table key);
  as_BatchDB := Some {|
    BatchInsert table ks vs := in_db (my_BatchInsert db table ks vs);
    BatchRead table ks fs := in_db (my_BatchRead db table ks fs);
    BatchUpdate table ks vs := in_db (my_BatchUpdate db table ks vs);
    BatchDelete table ks := in_db (my_BatchDelete db table ks) |};
  as_AnalyzeDB := Some (λ table, in_db (my_Analyze table));
  as_CountDB := None;
  as_CleanDB := None
|}.

(** *** pg, whose statement cache is mysql's *)

Definition pg_InitThread : M S unit := my_InitThread.
Definition pg_CleanupThread : M S unit := my_CleanupThread.
Definition pg_getAndCacheStmt : string → M S (error + stmt_id) := getAndCacheStmt.
Definition pg_clearCacheIfFailed : string → option error → M S unit := clearCacheIfFailed.
Definition pg_queryRows : bool → Z → statement → M S (list row * option error) := queryRows.
Definition pg_execQuery : bool → statement → M S (option error) := execQuery.

Definition pg_Read (verbose : bool) (table key : string) (fs : list string) : M S (row * option error) :=
  r ← cached_query verbose 1 (pg_read table key fs); mret (first_row r).

Definition pg_Scan (verbose : bool) (table startKey : string) (count : Z) (fs : list string)
    : M S (list row * option error) :=
  cached_query verbose count (pg_scan table startKey count fs).

Definition pg_Update (verbose : bool) (table key : string) (values : row) : M S (option error) :=
  exec_written verbose (pg_update table key (NewFieldPairs (order values))).

Definition pg_Insert (verbose : bool) (table key : string) (values : row) : M S (option error) :=
  exec_written verbose (pg_insert table key (NewFieldPairs (order values))).

Definition pg_Delete (verbose : bool) (table key : string) : M S (option error) :=
  pg_execQuery verbose (pg_delete table key).

Definition pg_DB (verbose : bool) : DB S := {|
  Close := in_db (in_sql sql_Close);
  InitThread _ _ := in_db pg_InitThread;
  CleanupThread := in_db pg_CleanupThread;
  Read table key fs := in_db (pg_Read verbose table key fs);
  Scan table key n fs := in_db (pg_Scan verbose table key n fs);
  Update table key v := in_db (pg_Update verbose table key v);
  Insert table key v := in_db (pg_Insert verbose table key v);
  Delete table key := in_db (pg_Delete verbose table key);
  as_BatchDB := None;
  as_AnalyzeDB := None;
  as_CountDB := None;
  as_CleanDB := None
|}.

(** *** Creating the table *)

Context {P : Type} `{Properties P} (p : P).

Definition table_columns : string :=
  create_columns (varchar_column (GetInt64 p prop.FieldLength prop.FieldLengthDefault))
    (GetInt64 p prop.FieldCount prop.FieldCountDefault).

(** [DROP TABLE] first, when [drop] says so. *)
Definition create_with (drop : bool) (stmt : string) : M S (option error) :=
  let tableName := GetString p prop.TableName prop.TableNameDefault in
  err ← (if drop then in_sql (sql_Exec ("DROP TABLE IF EXISTS " +:+ tableName)) else mret None);
  match err with
  | Some e => mret (Some e)
  | None => in_sql (sql_Exec stmt)
  end.

Definition my_createTable (driverName : string) : M S (option error) :=
  let tableName := GetString p prop.TableName prop.TableNameDefault in
  create_with (GetBool p prop.DropData prop.DropDataDefault && negb (GetBool p prop.DoTransactions true))
    ("CREATE TABLE IF NOT EXISTS " +:+ tableName +:+ " (YCSB_KEY VARCHAR(64) PRIMARY KEY" +:+
     (if (String.eqb driverName "tidb" || String.eqb driverName "mysql") && GetBool p "tidb.cluster_index" true
      then " /*T![clustered_index] CLUSTERED */" else "") +:+ table_columns +:+ ");").

Definition pg_createTable : M S (option error) :=
  let tableName := GetString p prop.TableName prop.TableNameDefault in
  create_with (GetBool p prop.DropData prop.DropDataDefault)
    ("CREATE TABLE IF NOT EXISTS " +:+ tableName +:+ " (YCSB_KEY VARCHAR(64) PRIMARY KEY" +:+ table_columns +:+ ");").
End sql.

(** ** Opening the databases *)

Section open.
Context {P : Type} `{Properties P} (p : P).

(** The instances of [tidb.instances], trimmed, the empty ones left out. *)
Definition tidb_addrs : list string :=
  filter (λ a, a ≠ "") (TrimSpace <$> Split (GetString p "tidb.instances" "") ",").

Definition tidb_dsn (user pass db addr : string) : string :=
  user +:+ ":" +:+ pass +:+ "@tcp(" +:+ addr +:+ ")/" +:+ db.

(** The data sources [mysqlCreator.Create] opens: one per TiDB instance, or one. *)
Definition my_dsns : list string :=
  let user := GetString p "mysql.user" "root" in
  let password := GetString p "mysql.password" "" in
  let dbName := GetString p "mysql.db" "test" in
  if decide (tidb_addrs = []) then
    [user +:+ ":" +:+ password +:+ "@tcp(" +:+ GetString p "mysql.host" "127.0.0.1" +:+ ":" +:+
     FormatInt (GetInt p "mysql.port" 3306) +:+ ")/" +:+ dbName]
  else tidb_dsn user password dbName <$> tidb_addrs.

Definition pg_dsn : string :=
  "postgres://" +:+ GetString p "pg.user" "root" +:+ ":" +:+ GetString p "pg.password" "" +:+ "@" +:+
  GetString p "pg.host" "127.0.0.1" +:+ ":" +:+ FormatInt (GetInt p "pg.port" 5432) +:+ "/" +:+
  GetString p "pg.db" "test" +:+ "?sslmode=" +:+ GetString p "pg.sslmode" "disable".
End open.

(** [Create]: open, then create the table.  [sql_Open] stands for [sql.Open] (and, for
    several data sources, the registered [muxDriver]) and the limits on its connections; [script] are the choices of the
    buffer pool. *)
Section create.
Context {P : Type} `{Properties P} (p : P) {C : Type} `{SqlConn C}.

Definition create_sql {D} (sql_Open : list string → error + C) (dsns : list string) (script : list nat) (db : D)
    (createTable : M (sql_state C) (option error)) : res (error + D * sql_state C) :=
  match sql_Open dsns with
  | inl e => Ok (inl e)
  | inr c =>
      '(err, s) ← createTable {| sql_client := c; stmtCache := ∅; sql_pool := NewBufPool script; sql_out := [] |};
      Ok match err with Some e => inl e | None => inr (db, s) end
  end.

Definition my_Create (driverName : string) (sql_Open : list string → error + C) (script : list nat)
    : res (error + mysqlDB * sql_state C) :=
  create_sql sql_Open (my_dsns p) script
    {| my_verbose := GetBool p prop.Verbose prop.VerboseDefault;
       forceIndexKeyword := if GetBool p "mysql.force_index" true then "FORCE INDEX(`PRIMARY`)" else "" |}
    (my_createTable p driverName).

Definition pg_Create (sql_Open : list string → error + C) (script : list nat) : res (error + bool * sql_state C) :=
  create_sql sql_Open [pg_dsn p] script (GetBool p prop.Verbose prop.VerboseDefault) (pg_createTable p).
End create.

(** [muxDriver.Open]: the next instance in turn; the cursor is an unsigned 64-bit
    counter, and its conversion to [int] may be negative. *)
Definition mux_Open (instances : list string) (cursor : Z) : Z * res string :=
  let k := u64 (cursor + 1) in
  (k, if decide (instances = []) then Panic "integer divide by zero" else
      let i := Z.rem (wrap64 k) (Z.of_nat (length instances)) in
      if i <? 0 then Panic "index out of range" else
      match instances !! Z.to_nat i with
      | Some dsn => Ok dsn
      | None => Panic "index out of range"
      end).

(** [openTiDBInstances]: [registered] are the [muxDriver]s known to [database/sql], by
    name; the name has the digest ([sha1hex]) of the addresses only. *)
Definition openTiDBInstances (sha1hex : string → string) (registered : gmap string (list string))
    (addrs : list string) (user pass db : string) : gmap string (list string) * list string :=
  let instances := tidb_dsn user pass db <$> addrs in
  let driver := "tidb:" +:+ sha1hex (String.concat "" ((λ addr, "+" +:+ addr) <$> addrs)) in
  match registered !! driver with
  | Some old => (registered, old)
  | None => (<[driver := instances]> registered, instances)
  end.

(** Connections go to the instances in turn. *)
Lemma mux_round_robin instances cursor :
  instances ≠ [] → 0 <= cursor < max_int64 →
  ∃ dsn, instances !! Z.to_nat ((cursor + 1) mod Z.of_nat (length instances)) = Some dsn ∧ mux_Open instances cursor = (cursor + 1, Ok dsn).
Proof.
  intros Hne Hc. assert (0 < Z.of_nat (length instances)) as Hl by (destruct instances; [done|cbn; lia]).
  pose proof (Z.mod_pos_bound (cursor + 1) _ Hl) as Hm.
  destruct (lookup_lt_is_Some_2 instances (Z.to_nat ((cursor + 1) mod Z.of_nat (length instances)))) as [dsn Hd]; [lia|].
  exists dsn. split; [done|]. unfold mux_Open. assert (u64 (cursor + 1) = cursor + 1) as -> by (unfold u64; apply Z.mod_small; width).
  rewrite decide_False, wrap64_id by (done || width).
  rewrite Z.rem_mod_nonneg by lia. destruct (Z.ltb_spec ((cursor + 1) mod Z.of_nat (length instances)) 0); [lia|]. by rewrite Hd.
Qed.

(** A second database on the same addresses is opened with the data sources, the user and
    the database of the first. *)
Lemma tidb_instances_kept sha1hex registered addrs user pass db user' pass' db' :
  let first := openTiDBInstances sha1hex registered addrs user pass db in
  openTiDBInstances sha1hex (fst first) addrs user' pass' db' = first.
Proof.
  unfold openTiDBInstances. cbn zeta. destruct (registered !! _) as [old|] eqn:E; cbn [fst]; [by rewrite E|]. by rewrite lookup_insert_eq.
Qed.

Example sql_ex :
  let pairs := NewFieldPairs [("f2", [x61]); ("f1", [x62])] in
  (query (update_stmt "t" "k" pairs), query (insert_stmt "INSERT IGNORE" "t" "k" pairs), query (pg_update "t" "k" pairs),
   query (pg_insert "t" "k" pairs), query (my_batch_read "F" "t" ["a"; "b"] ["x"; "y"])) =
  ("UPDATE t SET f1= ?, f2= ? WHERE YCSB_KEY = ?", "INSERT IGNORE INTO t (YCSB_KEY ,f1 ,f2) VALUES (? ,? ,?)",
   "UPDATE t SET f1 = $1, f2 = $2 WHERE YCSB_KEY = $3",
   "INSERT INTO t (YCSB_KEY ,f1 ,f2) VALUES ($1 ,$2 ,$3) ON CONFLICT DO NOTHING",
   "SELECT x,y FROM t F WHERE YCSB_KEY IN (?,?)").
Proof. vm_compute. reflexivity. Qed.
