(* ===== verification/SqlSpec.v ===== *)
(** * What the SQL drivers guarantee

    Statements: one placeholder per argument, in the order of the arguments, independent of
    the order Go ranges over a row.  The cache of prepared statements: every operation
    keeps it equal to the set of statements the thread has open, so none is used after it
    was closed and none leaks. *)

From stdpp Require Import sorting.
From S2P Require Import Prelude GoFloat GoStr GoConv GoText Props Util Ycsb TikvRows Sql.

(** ** Placeholders *)

(** The question marks of a text. *)
Fixpoint marks (s : string) : nat :=
  match s with
  | String c s' => ((if Ascii.eqb c "?" then 1 else 0) + marks s')%nat
  | EmptyString => 0%nat
  end.

(** The numbers behind the dollar signs of a text. *)
Fixpoint dollar_refs (s : string) : list Z :=
  match s with
  | String c s' => (if Ascii.eqb c "$" then [digits_val (span_digits s').1] else []) ++ dollar_refs s'
  | EmptyString => []
  end.

Lemma marks_app s t : marks (s +:+ t) = (marks s + marks t)%nat.
Proof.
  induction s as [|c s IH]; [done|]. change (String c s +:+ t) with (String c (s +:+ t)). cbn [marks]. rewrite IH. lia.
Qed.

Lemma dollar_refs_app s t : all_in (without "$") s = true → dollar_refs (s +:+ t) = dollar_refs t.
Proof.
  unfold all_in, without. induction s as [|c s IH]; [done|]. change (String c s +:+ t) with (String c (s +:+ t)).
  simpl. intros [Hc Hs]%andb_true_iff. apply negb_true_iff in Hc. by rewrite Hc, IH.
Qed.

Lemma digits_str_without l c : Forall (λ d, 0 <= d < 10) l → is_digit c = false → all_in (without c) (digits_str l) = true.
Proof.
  intros Hl Hc. unfold all_in, without. induction Hl as [|d l Hd Hl IH]; [done|]. simpl. rewrite IH, andb_true_r.
  apply negb_true_iff, Ascii.eqb_neq. intros <-. by rewrite (proj1 (is_digit_char d Hd)) in Hc.
Qed.

(** A numbered placeholder that no digit follows. *)
Lemma dollar_refs_ref n t : 0 <= n → (∀ c u, t = String c u → is_digit c = false) →
  dollar_refs (String "$" (FormatInt n +:+ t)) = n :: dollar_refs t.
Proof.
  intros Hn Ht. unfold FormatInt. rewrite (proj2 (Z.ltb_ge n 0)) by done. unfold FormatUint. cbn [dollar_refs].
  change (Ascii.eqb "$" "$") with true. cbv iota. rewrite span_digits_str by (try apply digits_Forall; done).
  cbn [fst app]. rewrite digits_value by done. f_equal. apply dollar_refs_app, digits_str_without; [apply digits_Forall|done].
Qed.

Lemma marks_concat (l : list string) : marks (String.concat "" l) = sum_list_with marks l.
Proof.
  induction l as [|s l IH]; [done|]. cbn [sum_list_with]. rewrite <- IH.
  destruct l; [simpl; lia|]. cbn [String.concat]. by rewrite !marks_app.
Qed.

Lemma marks_replicate n x : marks (repeated n x) = (n * marks x)%nat.
Proof.
  unfold repeated. rewrite marks_concat. induction n as [|n IH]; [done|].
  change (replicate (S n) x) with (x :: replicate n x). cbn [sum_list_with]. rewrite IH. lia.
Qed.

Lemma marks_insert_columns ps : Forall (λ p, marks (Field p) = 0%nat) ps → marks (insert_columns ps) = 0%nat.
Proof.
  intros Hp. unfold insert_columns. rewrite marks_concat. induction Hp as [|p ps Hp Hps IH]; [done|].
  rewrite fmap_cons. cbn [sum_list_with]. rewrite marks_app, Hp, IH. done.
Qed.

Lemma marks_assignments first ps : Forall (λ p, marks (Field p) = 0%nat) ps → marks (assignments first ps) = length ps.
Proof.
  intros Hp. revert first. induction Hp as [|p ps Hp Hps IH]; intros first; [done|]. cbn [assignments length].
  rewrite !marks_app, Hp, IH. destruct first; done.
Qed.

(** ** The cache of statements *)

Section cache.
Context {C : Type} `{SqlConn C} (open : C → gmap stmt_id string) `{!SqlConnLaws C open}.
Context (order : row → list (string * bytes)).

Abbreviation S := (sql_state C).

(** The cached statements are exactly the open ones, each under its text. *)
Definition cache_exact (s : S) : Prop :=
  ∀ q st, stmtCache s !! q = Some st ↔ open (sql_client s) !! st = Some q.

(** An operation that keeps it so. *)
Definition keeps {A} (m : M S A) : Prop := ∀ s a s', cache_exact s → m s = Ok (a, s') → cache_exact s'.

Lemma cache_keeps_bind {A B} (m : M S A) (f : A → M S B) : keeps m → (∀ a, keeps (f a)) → keeps (m ≫= f).
Proof. intros Hm Hf s b s' Hs (a & s1 & E1 & E2)%bind_Ok. eapply Hf; [|exact E2]. by eapply Hm. Qed.

Lemma cache_keeps_ret {A} (a : A) : keeps (mret a).
Proof. intros s b s' Hs E. by injection E as <- <-. Qed.

Lemma keeps_get : keeps get.
Proof. intros s a s' Hs [= <- <-]. done. Qed.

Lemma keeps_lift {A} (r : res A) : keeps (lift r).
Proof. intros s a s' Hs E. unfold lift in E. by destruct r; run_inv. Qed.

Lemma cache_keeps_panic {A} msg : keeps (A := A) (panic msg).
Proof. by intros s a s' Hs E. Qed.

(** A step that touches neither the connection's statements nor the cache. *)
Lemma keeps_frame {A} (m : M S A) :
  (∀ s a s', m s = Ok (a, s') → stmtCache s' = stmtCache s ∧ open (sql_client s') = open (sql_client s)) → keeps m.
Proof. intros Hm s a s' Hs E q st. destruct (Hm _ _ _ E) as [-> ->]. apply Hs. Qed.

Lemma keeps_in_sql {A} (m : M C A) : (∀ c a c', m c = Ok (a, c') → open c' = open c) → keeps (in_sql m).
Proof. intros Hm. apply keeps_frame. unfold in_sql. intros s a s' E. run_inv. simpl. eauto. Qed.

Lemma keeps_verbose v st : keeps (verbose_print v st).
Proof. apply keeps_frame. intros s a s' E. unfold verbose_print in E. destruct v; unfold modify in E; by run_inv. Qed.

(** Preparing a statement that is not cached, and caching it. *)
Lemma prepare_keeps s q st c' : cache_exact s → stmtCache s !! q = None →
  open (sql_client s) !! st = None → open c' = <[st := q]> (open (sql_client s)) →
  cache_exact {| sql_client := c'; stmtCache := <[q := st]> (stmtCache s); sql_pool := sql_pool s; sql_out := sql_out s |}.
Proof.
  intros Hs Hq Hst Ho q' st'. simpl. rewrite Ho.
  destruct (decide (q = q')) as [<-|Hne], (decide (st = st')) as [<-|Hne'];
    rewrite ?lookup_insert_eq, ?lookup_insert_ne by done.
  - done.
  - split; [by intros [= <-]|]. intros Hl%Hs. congruence.
  - split; [|by intros [= <-]]. intros Hl%Hs. congruence.
  - apply Hs.
Qed.

Lemma getAndCacheStmt_keeps q : keeps (getAndCacheStmt q).
Proof.
  intros s r s' Hs E. unfold getAndCacheStmt in E. apply bind_Ok in E as (s0 & ? & [= <- <-] & E).
  destruct (stmtCache s !! q) as [st|] eqn:Eq; [by run_inv|].
  apply bind_Ok in E as (r1 & s1 & E1 & E). apply bind_Ok in E as (r2 & s2 & E2 & E).
  unfold in_sql in E1. apply zoom_Ok in E1 as (c1 & E1 & ->). apply (law_sql_Prepare (open := open)) in E1.
  assert (r2 = r1 ∧ s2 = {| sql_client := c1; stmtCache := stmtCache s; sql_pool := sql_pool s; sql_out := sql_out s |} ∧ (∃ st, r1 = inr st) ∨
    (∃ c0, open c0 = open (sql_client s) ∧
      s2 = {| sql_client := c0; stmtCache := stmtCache s; sql_pool := sql_pool s; sql_out := sql_out s |} ∧
      (∃ e, r2 = inl e)) ∨
    ∃ c0, open c0 = open (sql_client s) ∧ ∃ st c2, r2 = inr st ∧ open c0 !! st = None ∧
      open c2 = <[st := q]> (open c0) ∧
      s2 = {| sql_client := c2; stmtCache := stmtCache s; sql_pool := sql_pool s; sql_out := sql_out s |}) as Hcase.
  { destruct r1 as [e|st]; [right|left; run_inv; eauto].
    destruct (String.eqb e ErrConnDone); [|left; run_inv; eauto 10].
    apply bind_Ok in E2 as (err & s3 & E3 & E2). unfold in_sql in E3. apply zoom_Ok in E3 as (c3 & E3 & ->).
    apply (law_sql_Conn (open := open)) in E3. cbn [sql_client] in E3. destruct err as [e'|]; [left; run_inv; exists c3; split; [congruence|eauto]|].
    unfold in_sql in E2. apply zoom_Ok in E2 as (c4 & E2 & ->). apply (law_sql_Prepare (open := open)) in E2. cbn [sql_client] in E2.
    destruct r2 as [e2|st]; [left; exists c4; split; [congruence|eauto]|right].
    destruct E2 as [E2a E2b]. exists c3. split; [congruence|]. by exists st, c4. }
  destruct Hcase as [(-> & -> & [st ->])|[(c0 & Ho & -> & [e ->])|(c0 & Ho & st & c2 & -> & Hst & Ho2 & ->)]].
  - unfold set_cache, modify in E. run_inv. destruct E1 as [E1a E1b]. by apply prepare_keeps.
  - run_inv. intros q' st'. simpl. rewrite Ho. apply Hs.
  - unfold set_cache, modify in E. run_inv. rewrite Ho in *. by apply prepare_keeps.
Qed.

Lemma clearCacheIfFailed_keeps q err : keeps (clearCacheIfFailed q err).
Proof.
  intros s r s' Hs E. unfold clearCacheIfFailed in E. destruct err as [e|]; [|by run_inv].
  apply bind_Ok in E as (s0 & ? & [= <- <-] & E). apply bind_Ok in E as ([] & s1 & E1 & E).
  unfold set_cache, modify in E. injection E as <- <-. destruct (stmtCache s !! q) as [st|] eqn:Eq.
  - unfold in_sql in E1. apply zoom_Ok in E1 as (c1 & E1 & ->). apply (law_sql_StmtClose (open := open)) in E1.
    pose proof (proj1 (Hs q st) Eq) as Hq. intros q' st'. simpl. rewrite E1.
    destruct (decide (q = q')) as [<-|Hne], (decide (st = st')) as [<-|Hne'];
      rewrite ?lookup_delete_eq, ?lookup_delete_ne by done.
    + done.
    + split; [done|]. intros Hl%Hs. congruence.
    + split; [|done]. intros Hl%Hs. congruence.
    + apply Hs.
  - run_inv. intros q' st'. simpl. destruct (decide (q = q')) as [<-|Hne].
    + rewrite lookup_delete_eq, <- (Hs q st'), Eq. done.
    + rewrite lookup_delete_ne by done. apply Hs.
Qed.

Lemma sql_with_buf_keeps {A} w (f : M S A) : keeps f → keeps (sql_with_buf w f).
Proof.
  intros Hf s a s' Hs (buf & q & b & s2 & q2 & E & ->)%with_buf_Ok.
  apply bind_Ok in E as (x & s3 & E & E'). run_inv. eapply (Hf _ _ _ _ E).
Unshelve. done.
Qed.

Create HintDb keeps.
#[local] Hint Resolve cache_keeps_ret keeps_get keeps_lift cache_keeps_panic keeps_verbose getAndCacheStmt_keeps
  clearCacheIfFailed_keeps : keeps.

Lemma keeps_query st a : keeps (in_sql (sql_StmtQuery st a)).
Proof. apply keeps_in_sql. intros c r c'. apply law_sql_StmtQuery. Qed.
Lemma keeps_exec st a : keeps (in_sql (sql_StmtExec st a)).
Proof. apply keeps_in_sql. intros c r c'. apply law_sql_StmtExec. Qed.
Lemma keeps_dbexec q : keeps (in_sql (sql_Exec q)).
Proof. apply keeps_in_sql. intros c r c'. apply law_sql_Exec. Qed.
#[local] Hint Resolve keeps_query keeps_exec keeps_dbexec : keeps.

(** [keep] proves that a driver operation keeps the cache exact. *)
Ltac keep :=
  repeat first
    [ progress intros
    | solve [auto with keeps]
    | apply sql_with_buf_keeps | apply cache_keeps_bind
    | match goal with |- context [match ?x with _ => _ end] => destruct x end ].

Lemma cached_query_keeps v n st : keeps (cached_query v n st).
Proof. unfold cached_query, queryRows. keep. Qed.

Lemma execQuery_keeps v st : keeps (execQuery v st).
Proof. unfold execQuery. keep. Qed.
#[local] Hint Resolve cached_query_keeps execQuery_keeps : keeps.

Lemma my_Update_keeps db t k v : keeps (my_Update order db t k v).
Proof. unfold my_Update. keep. Qed.
#[local] Hint Resolve my_Update_keeps : keeps.

Lemma my_BatchUpdate_keeps db t ks vs : keeps (my_BatchUpdate order db t ks vs).
Proof. revert vs. induction ks as [|k ks IH]; intros [|v vs]; cbn [my_BatchUpdate]; keep. Qed.
#[local] Hint Resolve my_BatchUpdate_keeps : keeps.

(** Closing the statements of the cache. *)
Lemma close_all_Ok stmts s s' : close_all stmts s = Ok (tt, s') →
  ∀ st, open (sql_client s') !! st = if decide (st ∈ stmts) then None else open (sql_client s) !! st.
Proof.
  revert s. induction stmts as [|st0 stmts IH]; intros s E st; cbn [close_all] in E.
  - by run_inv.
  - apply bind_Ok in E as ([] & s1 & E1 & E). unfold in_sql in E1. apply zoom_Ok in E1 as (c1 & E1 & ->).
    apply (law_sql_StmtClose (open := open)) in E1. rewrite (IH _ E). cbn [sql_client]. rewrite E1.
    destruct (decide (st = st0)) as [->|Hne].
    + rewrite lookup_delete_eq. rewrite (decide_True (P := st0 ∈ st0 :: stmts)) by left. by case_decide.
    + rewrite lookup_delete_ne by done. repeat case_decide; set_solver.
Qed.

(** C33: The cache of prepared statements is exact.  When a thread's cache holds exactly the
    statements its connection has open, each under its own text, every operation of the
    mysql driver, successful or not, leaves it so: a failed statement is closed and
    forgotten together, a cached one is never closed, and a lost connection is replaced
    once.  [CleanupThread] leaves no statement open.  The pg driver has the same cache. *)
Theorem statement_cache_exact db verbose :
  (∀ t k fs, keeps (my_Read db t k fs)) ∧ (∀ t ks fs, keeps (my_BatchRead db t ks fs)) ∧
  (∀ t k n fs, keeps (my_Scan db t k n fs)) ∧ (∀ t k v, keeps (my_Update order db t k v)) ∧
  (∀ t ks vs, keeps (my_BatchUpdate order db t ks vs)) ∧ (∀ t k v, keeps (my_Insert order db t k v)) ∧
  (∀ t ks vs, keeps (my_BatchInsert order db t ks vs)) ∧ (∀ t k, keeps (my_Delete db t k)) ∧
  (∀ t ks, keeps (my_BatchDelete db t ks)) ∧ (∀ t, keeps (my_Analyze t)) ∧
  (∀ t k fs, keeps (pg_Read verbose t k fs)) ∧ (∀ t k n fs, keeps (pg_Scan verbose t k n fs)) ∧
  (∀ t k v, keeps (pg_Update order verbose t k v)) ∧ (∀ t k v, keeps (pg_Insert order verbose t k v)) ∧
  (∀ t k, keeps (pg_Delete verbose t k)) ∧
  ∀ s s', cache_exact s → my_CleanupThread s = Ok (tt, s') → open (sql_client s') = ∅.
Proof.
  unfold my_Read, my_BatchRead, my_Scan, my_Insert, my_BatchInsert, my_Delete, my_BatchDelete, my_Analyze,
    pg_Read, pg_Scan, pg_Update, pg_Insert, pg_Delete, pg_execQuery, exec_written.
  repeat (split; [by keep|]). intros s s' Hs E. unfold my_CleanupThread in E.
  apply bind_Ok in E as (s0 & ? & [= <- <-] & E). apply bind_Ok in E as ([] & s1 & E1 & E).
  unfold in_sql in E. apply zoom_Ok in E as (c & E & ->). apply (law_sql_ConnClose (open := open)) in E.
  cbn [sql_client]. rewrite E. apply map_eq. intros st. rewrite (close_all_Ok _ _ _ E1), lookup_empty.
  case_decide as Hin; [done|]. destruct (open (sql_client s) !! st) as [q|] eqn:Eq; [|done].
  destruct Hin. apply Hs in Eq. apply list_elem_of_fmap. exists (q, st). split; [done|by apply elem_of_map_to_list].
Qed.
End cache.

(** ** Statements and their arguments *)

(** A text starts with no digit. *)
Definition no_digit (t : string) : Prop := ∀ c u, t = String c u → is_digit c = false.

Lemma dollar_refs_assignments first i ps t :
  0 <= i → Forall (λ p, all_in (without "$") (Field p) = true) ps → no_digit t →
  dollar_refs (pg_assignments first i ps +:+ t) = seqZ i (Z.of_nat (length ps)) ++ dollar_refs t.
Proof.
  intros Hi Hp Ht. revert first i Hi. induction Hp as [|p ps Hp Hps IH]; intros first i Hi; [done|].
  cbn [pg_assignments length]. rewrite Nat2Z.inj_succ, seqZ_cons, Z.pred_succ by lia.
  rewrite <- !string_app_assoc, (dollar_refs_app (if first then _ else _)), (dollar_refs_app (Field p)) by (done || by destruct first).
  change (" = $" +:+ ?x) with (" = " +:+ String "$" x). rewrite dollar_refs_app, dollar_refs_ref by
    (done || by destruct ps; [exact Ht|intros c u [= <- _]]).
  cbn [app]. f_equal. replace (Z.succ i) with (i + 1) by lia. apply IH. lia.
Qed.

Lemma dollar_refs_values i n t : 0 <= i → no_digit t →
  dollar_refs (String.concat "" ((λ k, " ,$" +:+ FormatInt (k + 2)) <$> seqZ i (Z.of_nat n)) +:+ t) =
  seqZ (i + 2) (Z.of_nat n) ++ dollar_refs t.
Proof.
  intros Hi Ht. revert i Hi. induction n as [|n IH]; intros i Hi; [done|].
  rewrite Nat2Z.inj_succ, (seqZ_cons i), (seqZ_cons (i + 2)), Z.pred_succ by lia. rewrite fmap_cons.
  rewrite concat_cons, <- string_app_assoc.
  change ((" ,$" +:+ FormatInt (i + 2)) +:+ ?x) with (" ," +:+ String "$" (FormatInt (i + 2) +:+ x)).
  rewrite dollar_refs_app, dollar_refs_ref; [|lia| |done].
  - cbn [app]. f_equal. rewrite IH by lia. do 2 f_equal. lia.
  - destruct n as [|n]; [exact Ht|]. rewrite Nat2Z.inj_succ, seqZ_cons by lia. rewrite fmap_cons, concat_cons.
    intros c u. change ((" ,$" +:+ ?x) +:+ ?y) with (String " " (",$" +:+ (x +:+ y))). by intros [= <- _].
Qed.

Lemma sorted_fields ps : StronglySorted fields_lt ps → StronglySorted (λ a b, str_lt a b = true) (Field <$> ps).
Proof.
  induction 1 as [|p ps Hs IH Hp]; [constructor|]. rewrite fmap_cons. constructor; [done|].
  by apply list.Forall_fmap.
Qed.

Lemma pairs_values (values : row) ps : map (λ p, (Field p, PairValue p)) ps ≡ₚ map_to_list values →
  values_of ps = (λ f, ArgBytes (default [] (values !! f))) <$> (Field <$> ps) ∧ ∀ f, f ∈ Field <$> ps ↔ f ∈ dom values.
Proof.
  intros Hp. assert (Hl : ∀ p, p ∈ ps → values !! Field p = Some (PairValue p)).
  { intros p Hin. apply elem_of_map_to_list. rewrite <- Hp. by apply (list_elem_of_fmap_2 (λ p, (Field p, PairValue p))). }
  split.
  - unfold values_of. rewrite <- list_fmap_compose. apply list_fmap_ext. intros i p Hi. simpl.
    by rewrite (Hl p) by by eapply list_elem_of_lookup_2.
  - intros f. rewrite list_elem_of_fmap, elem_of_dom. split.
    + intros (p & -> & Hin). rewrite (Hl p Hin). by eexists.
    + intros [b Hb]. apply elem_of_map_to_list in Hb. rewrite <- Hp in Hb.
      apply (list_elem_of_fmap (λ p, (Field p, PairValue p))) in Hb as (p & [= -> ->] & Hin). by exists p.
Qed.

(** A text no placeholder occurs in. *)
Definition unmarked (s : string) : Prop := marks s = 0%nat ∧ all_in (without "$") s = true.

#[global] Instance unmarked_dec s : Decision (unmarked s).
Proof. unfold unmarked. apply _. Defined.

(** The statements bind their arguments.  For a row ranged over in any order, the
    UPDATE and INSERT statements name its fields in increasing order, so two writes of the
    same fields share a prepared statement; the arguments are the values of these fields in
    the same order, with the key last (UPDATE) or first (INSERT); a question-mark
    statement has as many marks as arguments, and in a pg statement the placeholders are
    $1, $2, ... in order, one per argument. *)
Lemma statements_bind (values : row) entries verb table key :
  entries ≡ₚ map_to_list values → unmarked verb → unmarked table → (∀ f, f ∈ dom values → unmarked f) →
  ∃ fs, StronglySorted (λ a b, str_lt a b = true) fs ∧ (∀ f, f ∈ fs ↔ f ∈ dom values) ∧
    let ps := NewFieldPairs entries in
    let vs := (λ f, ArgBytes (default [] (values !! f))) <$> fs in
    Field <$> ps = fs ∧
    (let st := update_stmt table key ps in args st = vs ++ [ArgString key] ∧ marks (query st) = length (args st)) ∧
    (let st := insert_stmt verb table key ps in args st = ArgString key :: vs ∧ marks (query st) = length (args st)) ∧
    (let st := pg_update table key ps in
     args st = vs ++ [ArgString key] ∧ dollar_refs (query st) = seqZ 1 (Z.of_nat (length (args st)))) ∧
    (let st := pg_insert table key ps in
     args st = ArgString key :: vs ∧ dollar_refs (query st) = seqZ 1 (Z.of_nat (length (args st)))).
Proof.
  intros He [Hverb _] [Htab Htab'] Hf. destruct (field_pairs_sorted values entries He) as (Hp & Hs & _).
  set (ps := NewFieldPairs entries) in *. destruct (pairs_values values ps Hp) as [Hv Hd].
  exists (Field <$> ps). split; [by apply sorted_fields|split; [done|]]. cbn zeta.
  assert (Hlen : length (values_of ps) = length ps) by (unfold values_of; by rewrite length_fmap).
  assert (Hm : Forall (λ p, marks (Field p) = 0%nat) ps).
  { apply list.Forall_forall. intros p Hin. apply Hf, Hd. by apply list_elem_of_fmap_2. }
  assert (Hm' : Forall (λ p, all_in (without "$") (Field p) = true) ps).
  { apply list.Forall_forall. intros p Hin. apply Hf, Hd. by apply list_elem_of_fmap_2. }
  assert (Hcols : all_in (without "$") (insert_columns ps) = true).
  { clear -Hm'. unfold insert_columns. induction Hm' as [|p ps Hp Hps IH]; [done|].
    by rewrite fmap_cons, concat_cons, !all_in_app, Hp, IH. }
  rewrite <- Hv. split; [done|]. unfold update_stmt, insert_stmt, pg_update, pg_insert. cbn [query args].
  repeat (split; [split; [done|]|]); [..|split; [done|]].
  - rewrite !marks_app, Htab, marks_assignments, length_app, Hlen by done. simpl. lia.
  - rewrite !marks_app, Hverb, Htab, marks_insert_columns, marks_replicate by done. cbn [length]. rewrite Hlen. simpl. lia.
  - rewrite (dollar_refs_app "UPDATE "), (dollar_refs_app table), (dollar_refs_app " SET "), dollar_refs_assignments by
      (done || by intros c u [= <- _]).
    change (" WHERE YCSB_KEY = $" +:+ ?x) with (" WHERE YCSB_KEY = " +:+ String "$" x). rewrite dollar_refs_app by done.
    rewrite <- (string_app_nil_r (FormatInt _)), dollar_refs_ref by (done || lia).
    rewrite length_app, Hlen. cbn [length]. rewrite Nat2Z.inj_add, seqZ_app by lia.
    f_equal.
  - rewrite (dollar_refs_app "INSERT INTO "), (dollar_refs_app table), (dollar_refs_app " (YCSB_KEY"),
      (dollar_refs_app (insert_columns ps)) by done.
    change (") VALUES ($1" +:+ ?x) with (") VALUES (" +:+ String "$" (FormatInt 1 +:+ x)). rewrite dollar_refs_app by done.
    rewrite dollar_refs_ref; [|lia|].
    + rewrite dollar_refs_values by (lia || by intros c u [= <- _]). cbn [length]. rewrite Hlen, Nat2Z.inj_succ, (seqZ_cons 1), Z.pred_succ by lia. f_equal. by rewrite app_nil_r.
    + intros c u. destruct (length ps) as [|n]; [by cbn; intros [= <- _]|].
      rewrite Nat2Z.inj_succ, seqZ_cons by lia. rewrite fmap_cons, concat_cons.
      by cbn -[FormatInt String.concat]; intros [= <- _].
Qed.

(** A batch insert has the placeholders of its first row for every row, but each row's own
    arguments: they match exactly when the rows have as many fields as the first. *)
Lemma batch_args_length order keys values a :
  (∀ v : row, order v ≡ₚ map_to_list v) → batch_args order keys values = Ok a →
  (length keys <= length values)%nat ∧ length a = (length keys + sum_list_with size (take (length keys) values))%nat.
Proof.
  intros Ho. revert values a. induction keys as [|k keys IH]; intros values a E.
  - cbn in E. injection E as <-. split; [simpl; lia|done].
  - destruct values as [|v values]; [done|]. cbn [batch_args] in E.
    destruct (batch_args order keys values) as [rest|?|?|] eqn:Er; try done. injection E as <-.
    destruct (IH _ _ Er) as [Hl Hr]. cbn [length take sum_list_with]. split; [lia|].
    rewrite length_app, Hr. unfold values_of. rewrite length_fmap.
    assert (length (NewFieldPairs (order v)) = size v) as ->; [|lia].
    unfold NewFieldPairs. by rewrite Sort_perm, length_map, Ho, length_map_to_list.
Qed.

Lemma my_batch_insert_marks order table keys v0 values st :
  (∀ v : row, order v ≡ₚ map_to_list v) → unmarked table → (∀ f, f ∈ dom v0 → unmarked f) →
  my_batch_insert order table keys (v0 :: values) = Ok st →
  marks (query st) = (length keys * (1 + size v0))%nat ∧
  length (args st) = (length keys + sum_list_with size (take (length keys) (v0 :: values)))%nat.
Proof.
  intros Ho [Ht _] Hf E. unfold my_batch_insert in E.
  destruct (batch_args order keys (v0 :: values)) as [a|?|?|] eqn:Ea; try done. injection E as <-. cbn [query args].
  split; [|by apply (batch_args_length order) in Ea as [_ ?]].
  destruct (field_pairs_sorted v0 (order v0) (Ho v0)) as (Hp & _ & _). set (ps := NewFieldPairs _) in *.
  destruct (pairs_values v0 ps Hp) as [_ Hd].
  assert (Hlen : length ps = size v0) by (rewrite <- length_map_to_list, <- Hp; by rewrite length_map).
  rewrite !marks_app, Ht, marks_insert_columns.
  2:{ apply list.Forall_forall. intros p Hin. apply Hf, Hd. by apply list_elem_of_fmap_2. }
  assert (∀ n x, marks (Join (replicate n x) ",") = (n * marks x)%nat) as Hj.
  { intros n x. unfold Join. induction n as [|[|n] IH]; [done|simpl; lia|].
    change (replicate (S (S n)) x) with (x :: replicate (S n) x).
    change (String.concat "," (x :: replicate (S n) x)) with (x +:+ "," +:+ String.concat "," (replicate (S n) x)).
    rewrite !marks_app, IH. change (marks ",") with 0%nat. lia. }
  rewrite Hj, !marks_app, marks_replicate, Hlen. simpl. lia.
Qed.

(** ** A reference connection, and the witnesses *)

(** The open statements; every query answers with no rows. *)
Record mem_sql := { ms_open : gmap stmt_id string }.

#[global] Instance mem_SqlConn : SqlConn mem_sql := {
  sql_Conn := mret None;
  sql_Prepare q := λ c, let s := base.fresh (dom (ms_open c)) in Ok (inr s, {| ms_open := <[s := q]> (ms_open c) |});
  sql_StmtClose s := λ c, Ok (tt, {| ms_open := delete s (ms_open c) |});
  sql_StmtQuery _ _ := mret (inr {| rows_Columns := inr []; rows_Values := []; rows_Err := None |});
  sql_StmtExec _ a := mret (if decide (length a = 0%nat) then Some "no arguments" else None);
  sql_Exec _ := mret None;
  sql_ConnClose := mret tt;
  sql_Close := mret None
}.

#[global] Instance mem_SqlConnLaws : SqlConnLaws mem_sql ms_open.
Proof.
  split; simpl; unfold mret, M_ret; intros; simplify_eq; try done.
  split; [|done]. apply not_elem_of_dom, is_fresh.
Qed.

Definition ex_sql : sql_state mem_sql :=
  {| sql_client := {| ms_open := ∅ |}; stmtCache := ∅; sql_pool := NewBufPool []; sql_out := [] |}.

Definition ex_mysql : mysqlDB := {| my_verbose := true; forceIndexKeyword := "FORCE INDEX(`PRIMARY`)" |}.

Lemma statement_cache_exact_witness :
  ∃ s err, my_Update mem_order ex_mysql "t" "k" {[ "f" := [x61] ]} ex_sql = Ok (err, s) ∧
    cache_exact ms_open s ∧ stmtCache s ≠ ∅.
Proof.
  destruct (my_Update mem_order ex_mysql "t" "k" {[ "f" := [x61] ]} ex_sql) as [[err s]|?|?|] eqn:E;
    [|by vm_compute in E..].
  exists s, err. split; [reflexivity|split].
  - destruct (statement_cache_exact ms_open mem_order ex_mysql true) as (_ & _ & _ & Hu & _).
    eapply Hu; [|exact E]. intros q st. split; intros Hx; vm_compute in Hx; discriminate Hx.
  - intros E0. assert (bool_decide (stmtCache s = ∅) = false) as Hb; [|by rewrite (bool_decide_eq_true_2 _ E0) in Hb].
    clear E0. vm_compute in E. injection E as _ <-. by vm_compute.
Defined.

