(* ===== verification/Sqlite.v ===== *)
(** * db/sqlite

    The sqlite driver runs every operation in a transaction that it retries while the
    commit finds the database busy; the variable a transaction's function assigns to
    ([output]) outlives the retries.  Transactions are the class [SqlTx]. *)

From S2P Require Import Prelude GoFloat GoStr GoText Props Util Ycsb TikvRows Sql.

(** ** sqlite *)

Abbreviation tx_id := nat.

Class SqlTx (C : Type) := {
  tx_Begin : M C (error + tx_id);
  tx_Query : tx_id → statement → M C (error + sql_rows);
  tx_Exec : tx_id → statement → M C (option error);
  tx_Commit : tx_id → M C (option error);
  tx_Rollback : tx_id → M C (option error);
  tx_DBExec : string → M C (option error);   (* outside of a transaction *)
  tx_Close : M C (option error);
  sqlite_busy : error → bool   (* [ErrBusy], or the extended code [ErrIoErrUnlock] *)
}.

Record sqliteDB := { lite_verbose : bool; optimistic : bool; backoffMs : Z }.

(** What verbose mode prints: a statement with its arguments, or a message. *)
Inductive printed := PrintStatement (st : statement) | PrintText (s : string).

(** The connection, the buffer pool, what is printed and the back-off waits. *)
Record lite_state (C : Type) := { lite_client : C; lite_pool : Pool; lite_out : list printed; lite_waits : list Z }.
Arguments lite_client {C} _.
Arguments lite_pool {C} _.
Arguments lite_out {C} _.
Arguments lite_waits {C} _.

Definition lite_read (table key : string) (fields : list string) : statement :=
  {| query := "SELECT " +:+ columns fields +:+ " FROM " +:+ table +:+ " WHERE YCSB_KEY = ?"; args := [ArgString key] |}.

Definition lite_scan (table startKey : string) (count : Z) (fields : list string) : statement :=
  {| query := "SELECT " +:+ columns fields +:+ " FROM " +:+ table +:+ " WHERE YCSB_KEY >= ? LIMIT ?";
     args := [ArgString startKey; ArgInt count] |}.

Section sqlite.
Context {C : Type} `{SqlTx C} (order : row → list (string * bytes)).

Abbreviation S := (lite_state C).

Definition in_lite {A} (m : M C A) : M S A :=
  zoom lite_client
    (λ c s, {| lite_client := c; lite_pool := lite_pool s; lite_out := lite_out s; lite_waits := lite_waits s |}) m.

Definition lite_print (db : sqliteDB) (st : printed) : M S unit :=
  if lite_verbose db then modify (λ s, {| lite_client := lite_client s; lite_pool := lite_pool s;
                                          lite_out := lite_out s ++ [st]; lite_waits := lite_waits s |})
  else mret tt.

Definition lite_sleep (ms : Z) : M S unit :=
  modify (λ s, {| lite_client := lite_client s; lite_pool := lite_pool s; lite_out := lite_out s;
                  lite_waits := lite_waits s ++ [ms *! 1000000] |}).

Definition lite_with_buf {A} (written : string) (f : M S A) : M S A :=
  with_buf lite_pool
    (λ p s, {| lite_client := lite_client s; lite_pool := p; lite_out := lite_out s; lite_waits := lite_waits s |})
    (λ buf, a ← f; mret (a, buf ++ bytes_of_string written)).

(** [f] takes and gives back the captured variable; [fuel] bounds the attempts. *)
Fixpoint optimisticTx {A} (fuel : nat) (db : sqliteDB) (f : A → tx_id → M S (A * option error)) (output : A)
    : M S (A * option error) :=
  match fuel with
  | O => stuck
  | Datatypes.S fuel =>
      r ← in_lite tx_Begin;
      match r with
      | inl e => mret (output, Some e)
      | inr tx =>
          '(output, err) ← f output tx;
          match err with
          | Some e => _ ← in_lite (tx_Rollback tx); mret (output, Some e)
          | None =>
              err ← in_lite (tx_Commit tx);
              match err with
              | Some e =>
                  if optimistic db && sqlite_busy e then _ ← lite_sleep (backoffMs db); optimisticTx fuel db f output
                  else mret (output, Some e)
              | None => mret (output, None)
              end
          end
      end
  end.

Definition doQueryRows (db : sqliteDB) (tx : tx_id) (count : Z) (st : statement) : M S (list row * option error) :=
  _ ← lite_print db (PrintStatement st);
  r ← in_lite (tx_Query tx st);
  match r with inl e => mret ([], Some e) | inr rows => lift (collect_rows count rows) end.

Definition doRead (db : sqliteDB) (tx : tx_id) (table key : string) (fs : list string) : M S (row * option error) :=
  r ← doQueryRows db tx 1 (lite_read table key fs); mret (first_row r).

Definition doScan (db : sqliteDB) (tx : tx_id) (table startKey : string) (count : Z) (fs : list string)
    : M S (list row * option error) :=
  doQueryRows db tx count (lite_scan table startKey count fs).

Definition doUpdate (tx : tx_id) (table key : string) (values : row) : M S (option error) :=
  let st := update_stmt table key (NewFieldPairs (order values)) in
  lite_with_buf (query st) (in_lite (tx_Exec tx st)).

(** In verbose mode a failed insert is printed. *)
Definition doInsert (db : sqliteDB) (tx : tx_id) (table key : string) (values : row) : M S (option error) :=
  let st := insert_stmt "INSERT OR IGNORE" table key (NewFieldPairs (order values)) in
  lite_with_buf (query st) (
    err ← in_lite (tx_Exec tx st);
    _ ← match err with
        | Some e => lite_print db (PrintText ("error(doInsert): " +:+ query st +:+ ": " +:+ e +:+ String "010" ""))
        | None => mret tt
        end;
    mret err).

Definition doDelete (tx : tx_id) (table key : string) : M S (option error) :=
  in_lite (tx_Exec tx (delete_stmt table key)).

(** A transaction without a captured variable. *)
Definition lite_tx (fuel : nat) (db : sqliteDB) (f : tx_id → M S (option error)) : M S (option error) :=
  '(_, err) ← optimisticTx fuel db (λ _ tx, err ← f tx; mret (tt, err)) tt; mret err.

Definition lite_Read (fuel : nat) (db : sqliteDB) (table key : string) (fs : list string) : M S (row * option error) :=
  optimisticTx fuel db (λ _ tx, doRead db tx table key fs) ∅.

Definition lite_Scan (fuel : nat) (db : sqliteDB) (table startKey : string) (count : Z) (fs : list string)
    : M S (list row * option error) :=
  optimisticTx fuel db (λ _ tx, doScan db tx table startKey count fs) [].

Definition lite_Update (fuel : nat) (db : sqliteDB) (table key : string) (values : row) : M S (option error) :=
  lite_tx fuel db (λ tx, doUpdate tx table key values).

Definition lite_Insert (fuel : nat) (db : sqliteDB) (table key : string) (values : row) : M S (option error) :=
  lite_tx fuel db (λ tx, doInsert db tx table key values).

Definition lite_Delete (fuel : nat) (db : sqliteDB) (table key : string) : M S (option error) :=
  lite_tx fuel db (λ tx, doDelete tx table key).

(** The loops of the batches: [values[i]] may be out of range. *)
Fixpoint each_row (f : string → row → M S (option error)) (keys : list string) (values : list row)
    : M S (option error) :=
  match keys, values with
  | [], _ => mret None
  | _ :: _, [] => panic "index out of range"
  | k :: keys, v :: values =>
      err ← f k v;
      match err with Some e => mret (Some e) | None => each_row f keys values end
  end.

Fixpoint each_key (f : string → M S (option error)) (keys : list string) : M S (option error) :=
  match keys with
  | [] => mret None
  | k :: keys =>
      err ← f k;
      match err with Some e => mret (Some e) | None => each_key f keys end
  end.

(** [output = append(output, res)] *)
Fixpoint read_batch (db : sqliteDB) (tx : tx_id) (table : string) (keys fs : list string) (output : list row)
    : M S (list row * option error) :=
  match keys with
  | [] => mret (output, None)
  | k :: keys =>
      '(res, err) ← doRead db tx table k fs;
      match err with
      | Some e => mret (output, Some e)
      | None => read_batch db tx table keys fs (output ++ [res])
      end
  end.

Definition lite_BatchInsert (fuel : nat) (db : sqliteDB) (table : string) (keys : list string) (values : list row)
    : M S (option error) :=
  lite_tx fuel db (λ tx, each_row (doInsert db tx table) keys values).

Definition lite_BatchRead (fuel : nat) (db : sqliteDB) (table : string) (keys fs : list string)
    : M S (list row * option error) :=
  optimisticTx fuel db (λ output tx, read_batch db tx table keys fs output) [].

Definition lite_BatchUpdate (fuel : nat) (db : sqliteDB) (table : string) (keys : list string) (values : list row)
    : M S (option error) :=
  lite_tx fuel db (λ tx, each_row (doUpdate tx table) keys values).

Definition lite_BatchDelete (fuel : nat) (db : sqliteDB) (table : string) (keys : list string) : M S (option error) :=
  lite_tx fuel db (λ tx, each_key (doDelete tx table) keys).

Definition lite_DB (fuel : nat) (db : sqliteDB) : DB S := {|
  Close := in_db (in_lite tx_Close);
  InitThread _ _ := mret tt;
  CleanupThread := mret tt;
  Read table key fs := in_db (lite_Read fuel db table key fs);
  Scan table key n fs := in_db (lite_Scan fuel db table key n fs);
  Update table key v := in_db (lite_Update fuel db table key v);
  Insert table key v := in_db (lite_Insert fuel db table key v);
  Delete table key := in_db (lite_Delete fuel db table key);
  as_BatchDB := Some {|
    BatchInsert table ks vs := in_db (lite_BatchInsert fuel db table ks vs);
    BatchRead table ks fs := in_db (lite_BatchRead fuel db table ks fs);
    BatchUpdate table ks vs := in_db (lite_BatchUpdate fuel db table ks vs);
    BatchDelete table ks := in_db (lite_BatchDelete fuel db table ks) |};
  as_AnalyzeDB := None;
  as_CountDB := None;
  as_CleanDB := None
|}.
End sqlite.

(** *** Opening the database *)

Section lite_open.
Context {C : Type} `{SqlTx C} {P : Type} `{Properties P} (p : P).

Definition lite_create_table : string :=
  "CREATE TABLE IF NOT EXISTS " +:+ GetString p prop.TableName prop.TableNameDefault +:+
  " (YCSB_KEY VARCHAR(64) PRIMARY KEY" +:+
  create_columns (varchar_column (GetInt64 p prop.FieldLength prop.FieldLengthDefault))
    (GetInt64 p prop.FieldCount prop.FieldCountDefault) +:+ ");".

Definition lite_createTable (db : sqliteDB) : M (lite_state C) (option error) :=
  _ ← lite_print db (PrintText (lite_create_table +:+ String "010" ""));
  in_lite (tx_DBExec lite_create_table).

(** [url.Values.Encode] writes the keys in order. *)
Definition lite_dsn : string :=
  "file:" +:+ GetString p "sqlite.db" "/tmp/sqlite.db" +:+ "?_journal_mode=" +:+
  QueryEscape (GetString p "sqlite.journalmode" "WAL") +:+ "&cache=" +:+ QueryEscape (GetString p "sqlite.cache" "shared") +:+
  "&mode=" +:+ QueryEscape (GetString p "sqlite.mode" "rwc").

(** What is asked of the outside: the file to remove first, the data source, the limits
    on open and idle connections. *)
Record lite_open_args := { removed : option string; dsn : string; maxOpenConns : Z; maxIdleConns : Z }.

Definition lite_opening : lite_open_args := {|
  removed := if GetBool p prop.DropData prop.DropDataDefault then Some (GetString p "sqlite.db" "/tmp/sqlite.db") else None;
  dsn := lite_dsn;
  maxOpenConns := GetInt p "sqlite.maxopenconns" 1;
  maxIdleConns := GetInt p "sqlite.maxidleconns" 2
|}.

Definition lite_config : sqliteDB := {|
  lite_verbose := GetBool p prop.Verbose prop.VerboseDefault;
  optimistic := GetBool p "sqlite.optimistic" false;
  backoffMs := GetInt p "sqlite.optimistic_backoff_ms" 5
|}.

(** [sql_Open] stands for removing the file, [sql.Open] and the limits. *)
Definition lite_Create (sql_Open : lite_open_args → error + C) (script : list nat)
    : res (error + sqliteDB * lite_state C) :=
  match sql_Open lite_opening with
  | inl e => Ok (inl e)
  | inr c =>
      '(err, s) ← lite_createTable lite_config
                    {| lite_client := c; lite_pool := NewBufPool script; lite_out := []; lite_waits := [] |};
      Ok match err with Some e => inl e | None => inr (lite_config, s) end
  end.
End lite_open.

(** *** Its transactions *)

(** The open transactions, and how many have been begun.  A transaction is over after
    [Commit] or [Rollback], whatever they return. *)
Class SqlTxLaws (C : Type) `{SqlTx C} (opened : C → gset tx_id) (begun : C → nat) : Prop := {
  law_tx_Begin : ∀ c r c', tx_Begin c = Ok (r, c') →
    match r with
    | inr tx => tx ∉ opened c ∧ opened c' = {[tx]} ∪ opened c ∧ begun c' = Datatypes.S (begun c)
    | inl _ => opened c' = opened c ∧ begun c' = begun c
    end;
  law_tx_Query : ∀ tx st c r c', tx_Query tx st c = Ok (r, c') → opened c' = opened c ∧ begun c' = begun c;
  law_tx_Exec : ∀ tx st c r c', tx_Exec tx st c = Ok (r, c') → opened c' = opened c ∧ begun c' = begun c;
  law_tx_Commit : ∀ tx c r c', tx_Commit tx c = Ok (r, c') → opened c' = opened c ∖ {[tx]} ∧ begun c' = begun c;
  law_tx_Rollback : ∀ tx c r c', tx_Rollback tx c = Ok (r, c') → opened c' = opened c ∖ {[tx]} ∧ begun c' = begun c
}.

Section sqlite_spec.
Context {C : Type} `{SqlTx C} (opened : C → gset tx_id) (begun : C → nat) `{!SqlTxLaws C opened begun}.
Context (order : row → list (string * bytes)).

Abbreviation S := (lite_state C).

(** Work inside a transaction: it begins and ends none. *)
Definition within {A} (m : M S A) : Prop := ∀ s a s', m s = Ok (a, s') →
  opened (lite_client s') = opened (lite_client s) ∧ begun (lite_client s') = begun (lite_client s).

(** An operation leaves no transaction open. *)
Definition tx_closed {A} (m : M S A) : Prop := ∀ s a s', m s = Ok (a, s') →
  opened (lite_client s') = opened (lite_client s).

Lemma within_bind {A B} (m : M S A) (f : A → M S B) : within m → (∀ a, within (f a)) → within (m ≫= f).
Proof.
  intros Hm Hf s b s' (a & s1 & E1 & E2)%bind_Ok. destruct (Hm _ _ _ E1), (Hf _ _ _ _ E2). split; congruence.
Qed.

Lemma within_ret {A} (a : A) : within (mret a).
Proof. intros s b s' E. by injection E as _ <-. Qed.

Lemma within_lift {A} (r : res A) : within (lift r).
Proof. intros s a s' E. unfold lift in E. by destruct r; run_inv. Qed.

Lemma within_panic {A} msg : within (A := A) (panic msg).
Proof. by intros s a s' E. Qed.

Lemma within_in_lite {A} (m : M C A) :
  (∀ c a c', m c = Ok (a, c') → opened c' = opened c ∧ begun c' = begun c) → within (in_lite m).
Proof. intros Hm s a s' E. unfold in_lite in E. apply zoom_Ok in E as (c & E & ->). by apply Hm in E. Qed.

Lemma within_query tx st : within (in_lite (tx_Query tx st)).
Proof. apply within_in_lite. intros c r c'. apply law_tx_Query. Qed.

Lemma within_exec tx st : within (in_lite (tx_Exec tx st)).
Proof. apply within_in_lite. intros c r c'. apply law_tx_Exec. Qed.

Lemma within_print db x : within (lite_print db x).
Proof. intros s a s' E. unfold lite_print, modify in E. by destruct (lite_verbose db); run_inv. Qed.

Lemma within_buf {A} w (f : M S A) : within f → within (lite_with_buf w f).
Proof.
  intros Hf s a s' (buf & q & b & s2 & q2 & E & ->)%with_buf_Ok.
  apply bind_Ok in E as (x & s3 & E & E'). run_inv. by apply Hf in E.
Qed.

Create HintDb within.
#[local] Hint Resolve within_ret within_lift within_panic within_query within_exec within_print : within.

Ltac within :=
  repeat first
    [ progress intros
    | solve [auto with within]
    | apply within_buf | apply within_bind
    | match goal with |- context [match ?x with _ => _ end] => destruct x end ].

Lemma doRead_within db tx t k fs : within (doRead db tx t k fs).
Proof. unfold doRead, doQueryRows. within. Qed.
Lemma doScan_within db tx t k n fs : within (doScan db tx t k n fs).
Proof. unfold doScan, doQueryRows. within. Qed.
Lemma doUpdate_within tx t k v : within (doUpdate order tx t k v).
Proof. unfold doUpdate. within. Qed.
Lemma doInsert_within db tx t k v : within (doInsert order db tx t k v).
Proof. unfold doInsert. within. Qed.
Lemma doDelete_within tx t k : within (doDelete tx t k).
Proof. unfold doDelete. within. Qed.
#[local] Hint Resolve doRead_within doScan_within doUpdate_within doInsert_within doDelete_within : within.

Lemma each_row_within f keys values : (∀ k v, within (f k v)) → within (each_row (C := C) f keys values).
Proof. intros Hf. revert values. induction keys as [|k keys IH]; intros [|v values]; cbn [each_row]; within. Qed.

Lemma each_key_within f keys : (∀ k, within (f k)) → within (each_key (C := C) f keys).
Proof. intros Hf. induction keys as [|k keys IH]; cbn [each_key]; within. Qed.

Lemma read_batch_within db tx t keys fs out : within (read_batch db tx t keys fs out).
Proof. revert out. induction keys as [|k keys IH]; intros out; cbn [read_batch]; within. Qed.
#[local] Hint Resolve each_row_within each_key_within read_batch_within : within.

Lemma optimisticTx_closed {A} fuel db (f : A → tx_id → M S (A * option error)) out :
  (∀ o tx, within (f o tx)) → tx_closed (optimisticTx fuel db f out).
Proof.
  intros Hf. revert out. induction fuel as [|fuel IH]; intros out s a s' E; [done|]. cbn [optimisticTx] in E.
  apply bind_Ok in E as (r & s1 & E1 & E). unfold in_lite in E1. apply zoom_Ok in E1 as (c1 & E1 & ->).
  apply (law_tx_Begin (opened := opened) (begun := begun)) in E1. destruct r as [e|tx]; [run_inv; by destruct E1|].
  destruct E1 as (Hfresh & Ho & _). apply bind_Ok in E as ([out' err] & s2 & E2 & E).
  apply Hf in E2 as [E2 _]. cbn [lite_client] in E2.
  destruct err as [e|].
  - apply bind_Ok in E as (r & s3 & E3 & E). unfold in_lite in E3. apply zoom_Ok in E3 as (c3 & E3 & ->).
    apply (law_tx_Rollback (opened := opened) (begun := begun)) in E3 as [E3 _]. run_inv. rewrite E3, E2, Ho. set_solver.
  - apply bind_Ok in E as (err & s3 & E3 & E). unfold in_lite in E3. apply zoom_Ok in E3 as (c3 & E3 & ->).
    apply (law_tx_Commit (opened := opened) (begun := begun)) in E3 as [E3 _].
    assert (Hc : opened c3 = opened (lite_client s)) by (rewrite E3, E2, Ho; set_solver).
    destruct err as [e|]; [|run_inv; done]. destruct (optimistic db && sqlite_busy e); [|run_inv; done].
    apply bind_Ok in E as ([] & s4 & E4 & E). unfold lite_sleep, modify in E4. injection E4 as <-.
    apply IH in E. by rewrite E.
Qed.

Lemma lite_tx_closed fuel db f : (∀ tx, within (f tx)) → tx_closed (lite_tx (C := C) fuel db f).
Proof.
  intros Hf s a s' E. unfold lite_tx in E. apply bind_Ok in E as ([u err] & s1 & E1 & E). run_inv.
  eapply (optimisticTx_closed fuel db _ tt); [|exact E1]. intros o tx. apply within_bind; [apply Hf|intros; apply within_ret].
Qed.

Lemma read_batch_length db tx t keys fs out s rows s' :
  read_batch db tx t keys fs out s = Ok ((rows, None), s') → length rows = (length out + length keys)%nat.
Proof.
  revert out s. induction keys as [|k keys IH]; intros out s E; cbn [read_batch] in E.
  - run_inv. simpl. lia.
  - apply bind_Ok in E as ([res err] & s1 & E1 & E). destruct err as [e|]; [run_inv|].
    apply IH in E. rewrite length_app in E. simpl in *. lia.
Qed.

Lemma batch_read_loop fuel db t keys fs out s rows s' :
  optimisticTx fuel db (λ output tx, read_batch db tx t keys fs output) out s = Ok ((rows, None), s') →
  ∃ n, (0 < n)%nat ∧ begun (lite_client s') = (begun (lite_client s) + n)%nat ∧
    length rows = (length out + n * length keys)%nat.
Proof.
  revert out s. induction fuel as [|fuel IH]; intros out s E; [done|]. cbn [optimisticTx] in E.
  apply bind_Ok in E as (r & s1 & E1 & E). unfold in_lite in E1. apply zoom_Ok in E1 as (c1 & E1 & ->).
  apply (law_tx_Begin (opened := opened) (begun := begun)) in E1. destruct r as [e|tx]; [run_inv|].
  destruct E1 as (_ & _ & Hb). apply bind_Ok in E as ([out' err] & s2 & E2 & E).
  destruct err as [e|]; [apply bind_Ok in E as (r & s3 & E3 & E); run_inv|].
  pose proof (read_batch_within _ _ _ _ _ _ _ _ _ E2) as [_ Hb2]. cbn [lite_client] in Hb2.
  apply read_batch_length in E2.
  apply bind_Ok in E as (err & s3 & E3 & E). unfold in_lite in E3. apply zoom_Ok in E3 as (c3 & E3 & ->).
  apply (law_tx_Commit (opened := opened) (begun := begun)) in E3 as [_ Hb3].
  destruct err as [e|].
  - destruct (optimistic db && sqlite_busy e); [|run_inv].
    apply bind_Ok in E as ([] & s4 & E4 & E). unfold lite_sleep, modify in E4. injection E4 as <-.
    apply IH in E as (n & Hn & Hbn & Hl). cbn [lite_client] in Hbn. exists (Datatypes.S n). split; [lia|split; [lia|]]. lia.
  - run_inv. exists 1%nat. cbn [lite_client]. split; [lia|split; [lia|]]. lia.
Qed.

(** C34: The sqlite driver's transactions.  No operation leaves a transaction open, on any
    path and after any number of retries.  A batch read that reports no error returns one
    row per key for every transaction it began: after a busy commit the rows of the failed
    attempt are still there, so with a retry it returns each row more than once. *)
Theorem sqlite_transactions fuel db :
  (∀ t k fs, tx_closed (lite_Read fuel db t k fs)) ∧ (∀ t k n fs, tx_closed (lite_Scan fuel db t k n fs)) ∧
  (∀ t k v, tx_closed (lite_Update order fuel db t k v)) ∧ (∀ t k v, tx_closed (lite_Insert order fuel db t k v)) ∧
  (∀ t k, tx_closed (lite_Delete fuel db t k)) ∧ (∀ t ks vs, tx_closed (lite_BatchInsert order fuel db t ks vs)) ∧
  (∀ t ks fs, tx_closed (lite_BatchRead fuel db t ks fs)) ∧ (∀ t ks vs, tx_closed (lite_BatchUpdate order fuel db t ks vs)) ∧
  (∀ t ks, tx_closed (lite_BatchDelete fuel db t ks)) ∧
  ∀ t ks fs s rows s', lite_BatchRead fuel db t ks fs s = Ok ((rows, None), s') →
    ∃ n, (0 < n)%nat ∧ begun (lite_client s') = (begun (lite_client s) + n)%nat ∧ length rows = (n * length ks)%nat.
Proof.
  repeat (split; [intros; first [apply optimisticTx_closed|apply lite_tx_closed]; auto with within|]).
  intros t ks fs s rows s' E. by apply batch_read_loop in E.
Qed.
End sqlite_spec.

(** ** A reference database, and the witness *)

(** The open transactions, the number begun, and the errors of the next commits. *)
Record mem_tx := { mt_open : gset tx_id; mt_begun : nat; mt_commits : list error }.

#[global] Instance mem_SqlTx : SqlTx mem_tx := {
  tx_Begin c :=
    let tx := base.fresh (mt_open c) in
    Ok (inr tx, {| mt_open := {[tx]} ∪ mt_open c; mt_begun := Datatypes.S (mt_begun c); mt_commits := mt_commits c |});
  tx_Query tx st c := Ok (inr {| rows_Columns := inr []; rows_Values := [inr []]; rows_Err := None |}, c);
  tx_Exec tx st c := Ok (None, c);
  tx_Commit tx c :=
    Ok (head (mt_commits c),
        {| mt_open := mt_open c ∖ {[tx]}; mt_begun := mt_begun c; mt_commits := tail (mt_commits c) |});
  tx_Rollback tx c :=
    Ok (None, {| mt_open := mt_open c ∖ {[tx]}; mt_begun := mt_begun c; mt_commits := mt_commits c |});
  tx_DBExec q c := Ok (None, c);
  tx_Close c := Ok (None, c);
  sqlite_busy e := String.eqb e "database is locked"
}.

#[global] Instance mem_SqlTxLaws : SqlTxLaws mem_tx mt_open mt_begun.
Proof.
  split.
  - intros c r c' E. injection E as <- <-. split; [apply is_fresh|done].
  - intros tx st c r c' E. by injection E as _ <-.
  - intros tx st c r c' E. by injection E as _ <-.
  - intros tx c r c' E. by injection E as _ <-.
  - intros tx c r c' E. by injection E as _ <-.
Qed.

Definition ex_lite : sqliteDB := {| lite_verbose := false; optimistic := true; backoffMs := 5 |}.
Definition ex_lite_state : lite_state mem_tx :=
  {| lite_client := {| mt_open := ∅; mt_begun := 0; mt_commits := ["database is locked"] |};
     lite_pool := NewBufPool []; lite_out := []; lite_waits := [] |}.

Definition opened_none (s : lite_state mem_tx) : Prop := mt_open (lite_client s) = ∅.

(** One busy commit: two keys, four rows. *)
Lemma sqlite_transactions_witness :
  ∃ rows s, lite_BatchRead 2 ex_lite "t" ["a"; "b"] [] ex_lite_state = Ok ((rows, None), s) ∧
    length rows = 4%nat ∧ opened_none s ∧
    ∃ n, (0 < n)%nat ∧ mt_begun (lite_client s) = (0 + n)%nat ∧ length rows = (n * 2)%nat.
Proof.
  destruct (lite_BatchRead 2 ex_lite "t" ["a"; "b"] [] ex_lite_state) as [[[rows [e|]] s]|?|?|] eqn:E;
    try (vm_compute in E; discriminate).
  exists rows, s. split; [done|].
  destruct (sqlite_transactions mt_open mt_begun mem_order 2 ex_lite) as (_ & _ & _ & _ & _ & _ & Hc & _ & _ & Hr).
  split; [vm_compute in E; by injection E as <- _|].
  split; [by apply Hc in E|]. by apply Hr in E.
Defined.
