(* ===== verification/Cassandra.v ===== *)
(** * db/cassandra

    The cassandra driver (also registered as scylla): statements on a session, which is
    the class [CqlSession].  Scans are refused, and a row that is not found is nil. *)

From S2P Require Import Prelude GoFloat GoStr Props Util Ycsb TikvRows Sql.

(** A session: running a statement, and the values of the columns of its one row ([Scan]
    into as many variables as the statement has columns; [ErrNotFound] without a row). *)
Class CqlSession (C : Type) := {
  cql_Exec : statement → M C (option error);
  cql_Scan : statement → nat → M C (error + list bytes);
  cql_Close : M C unit
}.

Definition ErrNotFound : error := "not found".

(** [session] may be nil only before [Create] has opened it, so it always is there. *)
Record cassandraDB := { cql_verbose : bool; keySpace : string; fieldNames : list string }.

Record cql_state (C : Type) := { cql_client : C; cql_pool : Pool; cql_out : list statement }.
Arguments cql_client {C} _.
Arguments cql_pool {C} _.
Arguments cql_out {C} _.

(** [fmt.Sprintf("%s.%s", db.keySpace, table)] *)
Definition qualified (db : cassandraDB) (table : string) : string := keySpace db +:+ "." +:+ table.

Definition cql_fields (db : cassandraDB) (fields : list string) : list string :=
  if decide (fields = []) then fieldNames db else fields.

Definition cql_read (db : cassandraDB) (table key : string) (fields : list string) : statement :=
  {| query := "SELECT " +:+ Join (cql_fields db fields) "," +:+ " FROM " +:+ qualified db table +:+ " WHERE YCSB_KEY = ?";
     args := [ArgString key] |}.

Section cassandra.
Context {C : Type} `{CqlSession C} (order : row → list (string * bytes)).

Abbreviation S := (cql_state C).

Definition in_cql {A} (m : M C A) : M S A :=
  zoom cql_client (λ c s, {| cql_client := c; cql_pool := cql_pool s; cql_out := cql_out s |}) m.

Definition cql_print (db : cassandraDB) (st : statement) : M S unit :=
  if cql_verbose db then modify (λ s, {| cql_client := cql_client s; cql_pool := cql_pool s; cql_out := cql_out s ++ [st] |})
  else mret tt.

Definition cql_with_buf {A} (written : string) (f : M S A) : M S A :=
  with_buf cql_pool (λ p s, {| cql_client := cql_client s; cql_pool := p; cql_out := cql_out s |})
    (λ buf, a ← f; mret (a, buf ++ bytes_of_string written)).

(** Verbose mode prints the query alone.  The values go under the fields, in order, so a
    field asked for twice keeps the last value. *)
Definition cql_Read (db : cassandraDB) (table key : string) (fields : list string) : M S (row * option error) :=
  let st := cql_read db table key fields in
  _ ← cql_print db {| query := query st; args := [] |};
  r ← in_cql (cql_Scan st (length (cql_fields db fields)));
  mret match r with
       | inl e => if String.eqb e ErrNotFound then (∅, None) else (∅, Some e)
       | inr vs => (foldl (λ m kv, <[kv.1 := kv.2]> m) (∅ : row) (zip (cql_fields db fields) vs), None)
       end.

Definition cql_Scan_rows (table startKey : string) (count : Z) (fields : list string) : M S (list row * option error) :=
  mret ([], Some "scan is not supported").

Definition cql_execQuery (db : cassandraDB) (st : statement) : M S (option error) :=
  _ ← cql_print db st; in_cql (cql_Exec st).

(** A statement built in a [bytes.Buffer] and run. *)
Definition cql_exec_written (db : cassandraDB) (st : statement) : M S (option error) :=
  cql_with_buf (query st) (cql_execQuery db st).

Definition cql_Update (db : cassandraDB) (table key : string) (values : row) : M S (option error) :=
  cql_exec_written db (update_stmt (qualified db table) key (NewFieldPairs (order values))).

Definition cql_Insert (db : cassandraDB) (table key : string) (values : row) : M S (option error) :=
  cql_exec_written db (insert_stmt "INSERT" (qualified db table) key (NewFieldPairs (order values))).

Definition cql_Delete (db : cassandraDB) (table key : string) : M S (option error) :=
  cql_execQuery db (delete_stmt (qualified db table) key).

Definition cql_DB (db : cassandraDB) : DB S := {|
  Close := in_db (_ ← in_cql cql_Close; mret None);
  InitThread _ _ := mret tt;
  CleanupThread := mret tt;
  Read table key fs := in_db (cql_Read db table key fs);
  Scan table key n fs := in_db (cql_Scan_rows table key n fs);
  Update table key v := in_db (cql_Update db table key v);
  Insert table key v := in_db (cql_Insert db table key v);
  Delete table key := in_db (cql_Delete db table key);
  as_BatchDB := None;
  as_AnalyzeDB := None;
  as_CountDB := None;
  as_CleanDB := None
|}.

(** *** Creating the table *)

Context {P : Type} `{Properties P} (p : P).

(** [make([]string, fieldCount)] *)
Definition cql_fieldNames : res (list string) :=
  let fieldCount := GetInt64 p prop.FieldCount prop.FieldCountDefault in
  if fieldCount <? 0 then Panic "makeslice: len out of range"
  else Ok ((λ i, "field" +:+ FormatInt i) <$> seqZ 0 fieldCount).

Definition cql_create_stmt (keyspace table : string) : statement :=
  {| query := "CREATE TABLE IF NOT EXISTS " +:+ keyspace +:+ "." +:+ table +:+ " (YCSB_KEY VARCHAR PRIMARY KEY" +:+
              create_columns (λ i, ", FIELD" +:+ FormatInt i +:+ " VARCHAR")
                (GetInt64 p prop.FieldCount prop.FieldCountDefault) +:+ ");";
     args := [] |}.

(** It gives back the driver with its field names. *)
Definition cql_createTable (db : cassandraDB) : M S (error + cassandraDB) :=
  let tableName := GetString p prop.TableName prop.TableNameDefault in
  err ← (if GetBool p prop.DropData prop.DropDataDefault
         then in_cql (cql_Exec {| query := "DROP TABLE IF EXISTS " +:+ qualified db tableName; args := [] |})
         else mret None);
  match err with
  | Some e => mret (inl e)
  | None =>
      names ← lift cql_fieldNames;
      _ ← cql_print db (cql_create_stmt (keySpace db) tableName);
      err ← in_cql (cql_Exec (cql_create_stmt (keySpace db) tableName));
      mret match err with
           | Some e => inl e
           | None => inr {| cql_verbose := cql_verbose db; keySpace := keySpace db; fieldNames := names |}
           end
  end.

(** What the cluster is configured with: hosts, keyspace, connections, user, password. *)
Record cql_config := {
  Hosts : list string; Keyspace : string; NumConns : Z; Username : string; Password : string
}.

Definition cql_cluster : cql_config := {|
  Hosts := Split (GetString p "cassandra.cluster" "127.0.0.1:9042") ",";
  Keyspace := GetString p "cassandra.keyspace" "test";
  NumConns := GetInt p "cassandra.connections" 2;
  Username := GetString p "cassandra.username" "cassandra";
  Password := GetString p "cassandra.password" "cassandra"
|}.

(** [CreateSession] stands for gocql's. *)
Definition cql_Create (CreateSession : cql_config → error + C) (script : list nat) : res (error + cassandraDB * S) :=
  match CreateSession cql_cluster with
  | inl e => Ok (inl e)
  | inr c =>
      '(r, s) ← cql_createTable
          {| cql_verbose := GetBool p prop.Verbose prop.VerboseDefault; keySpace := Keyspace cql_cluster; fieldNames := [] |}
          {| cql_client := c; cql_pool := NewBufPool script; cql_out := [] |};
      Ok match r with inl e => inl e | inr db => inr (db, s) end
  end.
End cassandra.
