(* ===== verification/LocalKV.v ===== *)
(** * db/badger, db/boltdb and db/rocksdb

    The drivers of the embedded key-value stores.  badger and bolt run a function in a
    transaction ([View], [Update]: the class [TxRunner], for any Go state [X] and result
    [A] the function captures); what a transaction offers are the classes [BadgerTx] and
    [BoltTx], and rocksdb is the class [RocksDB].  The state of a driver is the database
    and the buffer pool. *)

From S2P Require Import Prelude GoFloat GoStr Props Row Util Ycsb KV TikvRows.

(** ** The stores *)

(** [db.View(f)] and [db.Update(f)]; the first argument is what the captured variable
    holds before [f] runs. *)
Class TxRunner (C T : Type) := {
  run_View : ∀ {X A : Type}, A → M (T * X) (A * option error) → M (C * X) (A * option error);
  run_Update : ∀ {X A : Type}, A → M (T * X) (A * option error) → M (C * X) (A * option error)
}.

(** An item of badger is what its [Value] gives.  [bt_From] are the items from a [Seek]
    on, in the order of [Next]. *)
Class BadgerTx (T : Type) := {
  bt_Get : bytes → M T (error + (error + bytes));
  bt_Set : bytes → bytes → M T (option error);
  bt_Delete : bytes → M T (option error);
  bt_From : bytes → M T (list (error + bytes))
}.

(** Buckets go by their names; [bx_Seek] are the entries from a cursor's [Seek] on. *)
Class BoltTx (T : Type) := {
  bx_Bucket : bytes → M T bool;
  bx_CreateBucketIfNotExists : bytes → M T (option error);
  bx_DeleteBucket : bytes → M T (option error);
  bx_Get : bytes → bytes → M T (option bytes);
  bx_Put : bytes → bytes → bytes → M T (option error);
  bx_Delete : bytes → bytes → M T (option error);
  bx_KeyN : bytes → M T Z;
  bx_Seek : bytes → bytes → M T (list (bytes * bytes))
}.

(** A missing key is an empty slice.  [rk_Seek] are the values of an iterator until it is
    no longer valid, and its status then. *)
Class RocksDB (C : Type) := {
  rk_Get : bytes → M C (error + bytes);
  rk_Put : bytes → bytes → M C (option error);
  rk_Delete : bytes → M C (option error);
  rk_Seek : bytes → M C (list bytes * option error);
  rk_Close : M C unit
}.

(** ** Code the drivers share *)

Definition in_tx {T X A} (m : M T A) : M (T * X) A := zoom fst (λ t s, (t, snd s)) m.

Definition loc_with_buf {T A} : (bytes → M (T * Pool) (A * bytes)) → M (T * Pool) A :=
  with_buf snd (λ p s, (fst s, p)).

(** [make([]map[string][]byte, count)]: nil rows. *)
Definition make_rows (count : Z) : res (list row) :=
  if count <? 0 then Panic "makeslice: len out of range" else Ok (replicate (Z.to_nat count) ∅).

(** [make([]map[string][]byte, 0, count)] *)
Definition check_cap (count : Z) : res unit := if count <? 0 then Panic "makeslice: cap out of range" else Ok tt.

(** The loop of [Scan]: [res[i] = m]. *)
Fixpoint fill_rows (r : RowCodec) (fs : list string) (items : list (error + bytes)) (i : nat) (count : Z)
    (rows : list row) : res (list row * option error) :=
  match items with
  | [] => Ok (rows, None)
  | item :: items =>
      if Z.of_nat i <? count then
        match item with
        | inl e => Ok (rows, Some e)
        | inr value =>
            d ← Decode r value fs;
            match d with
            | inl e => Ok (rows, Some e)
            | inr m => fill_rows r fs items (S i) count (<[i := m]> rows)
            end
        end
      else Ok (rows, None)
  end.

(** Encoding a row into a borrowed buffer and storing it.  A deferred function that captures
    the variable puts back what the encoding left in it; [defer] with the variable as its
    argument, the buffer taken out. *)
Definition encode_and {T} (captured : bool) (r : RowCodec) (order : row → list (string * bytes)) (values : row)
    (set : bytes → M T (option error)) : M (T * Pool) (option error) :=
  loc_with_buf (λ buf,
    match Encode r buf (order values) with
    | inl e => mret (Some e, if captured then [] else buf)
    | inr enc => err ← in_tx (set enc); mret (err, if captured then enc else buf)
    end).

(** Decoding a stored row, merging, storing it again. *)
Definition merge_and {T} (captured : bool) (r : RowCodec) (order : row → list (string * bytes)) (value : bytes) (values : row)
    (set : bytes → M T (option error)) : M (T * Pool) (option error) :=
  d ← lift (Decode r value []);
  match d with
  | inl e => mret (Some e)
  | inr data => encode_and captured r order (merge_row values data) set
  end.

(** A transaction without a captured variable. *)
Definition run_tx {C T X} `{TxRunner C T} (f : M (T * X) (option error)) : M (C * X) (option error) :=
  '(_, err) ← run_Update tt (err ← f; mret (tt, err)); mret err.

(** [Decode] into the captured variable: nil with an error. *)
Definition decode_row (r : RowCodec) (value : bytes) (fs : list string) : res (row * option error) :=
  d ← Decode r value fs; Ok match d with inl e => (∅, Some e) | inr m => (m, None) end.

(** ** badger *)

Section badger.
Context {C T : Type} `{TxRunner C T} `{BadgerTx T} (order : row → list (string * bytes)) (r : RowCodec).

Definition badger_Read (table key : string) (fs : list string) : M (C * Pool) (row * option error) :=
  run_View ∅ (
    item ← in_tx (bt_Get (getRowKey table key));
    match item with
    | inl e => mret (∅, Some e)
    | inr (inl e) => mret (∅, Some e)
    | inr (inr value) => lift (decode_row r value fs)
    end).

Definition badger_Scan (table startKey : string) (count : Z) (fs : list string) : M (C * Pool) (list row * option error) :=
  rows ← lift (make_rows count);
  run_View rows (
    items ← in_tx (bt_From (getRowKey table startKey));
    lift (fill_rows r fs items 0 count rows)).

Definition badger_Update (table key : string) (values : row) : M (C * Pool) (option error) :=
  run_tx (
    item ← in_tx (bt_Get (getRowKey table key));
    match item with
    | inl e => mret (Some e)
    | inr (inl e) => mret (Some e)
    | inr (inr value) => merge_and true r order value values (bt_Set (getRowKey table key))
    end).

Definition badger_Insert (table key : string) (values : row) : M (C * Pool) (option error) :=
  run_tx (encode_and true r order values (bt_Set (getRowKey table key))).

Definition badger_Delete (table key : string) : M (C * Pool) (option error) :=
  run_tx (in_tx (bt_Delete (getRowKey table key))).
End badger.

(** ** bolt *)

Section bolt.
Context {C T : Type} `{TxRunner C T} `{BoltTx T} (order : row → list (string * bytes)) (r : RowCodec).

Definition table_not_found (table : string) : error := "table not found: " +:+ table.
Definition key_not_found (table key : string) : error := "key not found: " +:+ table +:+ "." +:+ key.

(** Looking the table and the key up, as [Read] and [Update] begin. *)
Definition bolt_find {X A} (none : A) (table key : string) (f : bytes → M (T * X) (A * option error))
    : M (T * X) (A * option error) :=
  bucket ← in_tx (bx_Bucket (bytes_of_string table));
  if (bucket : bool) then
    v ← in_tx (bx_Get (bytes_of_string table) (bytes_of_string key));
    match v with
    | None => mret (none, Some (key_not_found table key))
    | Some value => f value
    end
  else mret (none, Some (table_not_found table)).

Definition bolt_Read (table key : string) (fs : list string) : M (C * Pool) (row * option error) :=
  run_View ∅ (bolt_find ∅ table key (λ value, lift (decode_row r value fs))).

Definition bolt_Scan (table startKey : string) (count : Z) (fs : list string) : M (C * Pool) (list row * option error) :=
  rows ← lift (make_rows count);
  run_View rows (
    bucket ← in_tx (bx_Bucket (bytes_of_string table));
    if (bucket : bool) then
      entries ← in_tx (bx_Seek (bytes_of_string table) (bytes_of_string startKey));
      lift (fill_rows r fs (inr <$> entries.*2) 0 count rows)
    else mret (rows, Some (table_not_found table))).

Definition bolt_Update (table key : string) (values : row) : M (C * Pool) (option error) :=
  '(_, err) ← run_Update tt (bolt_find tt table key (λ value,
    err ← merge_and true r order value values (bx_Put (bytes_of_string table) (bytes_of_string key)); mret (tt, err)));
  mret err.

Definition bolt_Insert (table key : string) (values : row) : M (C * Pool) (option error) :=
  run_tx (
    err ← in_tx (bx_CreateBucketIfNotExists (bytes_of_string table));
    match err with
    | Some e => mret (Some e)
    | None => encode_and true r order values (bx_Put (bytes_of_string table) (bytes_of_string key))
    end).

(** A table whose statistics report no key left is dropped, whatever that returns. *)
Definition bolt_Delete (table key : string) : M (C * Pool) (option error) :=
  run_tx (in_tx (
    bucket ← bx_Bucket (bytes_of_string table);
    if (bucket : bool) then
      err ← bx_Delete (bytes_of_string table) (bytes_of_string key);
      match err with
      | Some e => mret (Some e)
      | None =>
          n ← bx_KeyN (bytes_of_string table);
          _ ← (if n =? 0 then bx_DeleteBucket (bytes_of_string table) else mret None);
          mret None
      end
    else mret None)).
End bolt.

(** ** rocksdb *)

Section rocksdb.
Context {C : Type} `{RocksDB C} (order : row → list (string * bytes)) (r : RowCodec).

Definition rocks_Read (table key : string) (fs : list string) : M (C * Pool) (row * option error) :=
  v ← in_tx (rk_Get (getRowKey table key));
  match v with
  | inl e => mret (∅, Some e)
  | inr value => lift (decode_row r value fs)
  end.

(** The iterator's status counts once the loop has run it to its end. *)
Definition rocks_Scan (table startKey : string) (count : Z) (fs : list string) : M (C * Pool) (list row * option error) :=
  rows ← lift (make_rows count);
  '(values, status) ← in_tx (rk_Seek (getRowKey table startKey));
  '(rows, err) ← lift (fill_rows r fs (inr <$> values) 0 count rows);
  mret match err with
       | Some e => ([], Some e)
       | None =>
           match (if Z.of_nat (length values) <=? count then status else None) with
           | Some e => ([], Some e)
           | None => (rows, None)
           end
       end.

(** The buffer that is put back is the one taken out: [defer] has evaluated its argument. *)
Definition rocks_put (table key : string) (values : row) : M (C * Pool) (option error) :=
  loc_with_buf (λ buf,
    match Encode r buf (order values) with
    | inl e => mret (Some e, buf)
    | inr enc => err ← in_tx (rk_Put (getRowKey table key) enc); mret (err, buf)
    end).

Definition rocks_Update (table key : string) (values : row) : M (C * Pool) (option error) :=
  '(m, err) ← rocks_Read table key [];
  match err with
  | Some e => mret (Some e)
  | None => rocks_put table key (merge_row values m)
  end.

Definition rocks_Insert (table key : string) (values : row) : M (C * Pool) (option error) :=
  rocks_put table key values.

Definition rocks_Delete (table key : string) : M (C * Pool) (option error) :=
  in_tx (rk_Delete (getRowKey table key)).
End rocksdb.

(** ** The drivers as databases, and opening them *)

Definition local_DB {C} (close : M (C * Pool) (option error))
    (read : string → string → list string → M (C * Pool) (row * option error))
    (scan : string → string → Z → list string → M (C * Pool) (list row * option error))
    (update insert : string → string → row → M (C * Pool) (option error))
    (delete : string → string → M (C * Pool) (option error)) : DB (C * Pool) := {|
  Close := in_db close;
  InitThread _ _ := mret tt;
  CleanupThread := mret tt;
  Read table key fs := in_db (read table key fs);
  Scan table key n fs := in_db (scan table key n fs);
  Update table key v := in_db (update table key v);
  Insert table key v := in_db (insert table key v);
  Delete table key := in_db (delete table key);
  as_BatchDB := None;
  as_AnalyzeDB := None;
  as_CountDB := None;
  as_CleanDB := None
|}.

Definition badger_DB {C T} `{TxRunner C T} `{BadgerTx T} (close : M C (option error)) (order : row → list (string * bytes))
    (r : RowCodec) : DB (C * Pool) :=
  local_DB (in_tx close) (badger_Read r) (badger_Scan r) (badger_Update order r) (badger_Insert order r) badger_Delete.

Definition bolt_DB {C T} `{TxRunner C T} `{BoltTx T} (close : M C (option error)) (order : row → list (string * bytes))
    (r : RowCodec) : DB (C * Pool) :=
  local_DB (in_tx close) (bolt_Read r) (bolt_Scan r) (bolt_Update order r) (bolt_Insert order r) bolt_Delete.

Definition rocks_DB {C} `{RocksDB C} (order : row → list (string * bytes)) (r : RowCodec) : DB (C * Pool) :=
  local_DB (_ ← in_tx rk_Close; mret None) (rocks_Read r) (rocks_Scan r) (rocks_Update order r) (rocks_Insert order r)
    rocks_Delete.

Section options.
Context {P : Type} `{Properties P} `{MoreProperties P} (p : P).

(** A loading mode is set when the property names one; anything else keeps the default. *)
Definition loading_mode (option name default : string) : settings :=
  let b := GetString p name default in
  if String.eqb b "FileIO" || String.eqb b "LoadToRAM" || String.eqb b "MemoryMap" then [(option, SMode b)] else [].

Definition badger_dir : string := GetString p "badger.dir" "/tmp/badger".
Definition badger_valuedir : string := GetString p "badger.valuedir" badger_dir.

Definition badger_options : settings :=
  [("Dir", SString badger_dir);
   ("ValueDir", SString badger_valuedir);
   ("SyncWrites", SBool (GetBool p "badger.sync_writes" false));
   ("NumVersionsToKeep", SInt (GetInt p "badger.num_versions_to_keep" 1));
   ("MaxTableSize", SInt (GetInt64 p "badger.max_table_size" 67108864));
   ("LevelSizeMultiplier", SInt (GetInt p "badger.level_size_multiplier" 10));
   ("MaxLevels", SInt (GetInt p "badger.max_levels" 7));
   ("ValueThreshold", SInt (GetInt p "badger.value_threshold" 32));
   ("NumMemtables", SInt (GetInt p "badger.num_memtables" 5));
   ("NumLevelZeroTables", SInt (GetInt p "badger.num_level0_tables" 5));
   ("NumLevelZeroTablesStall", SInt (GetInt p "badger.num_level0_tables_stall" 10));
   ("LevelOneSize", SInt (GetInt64 p "badger.level_one_size" 268435456));
   ("ValueLogFileSize", SInt (GetInt64 p "badger.value_log_file_size" 1073741824));
   ("ValueLogMaxEntries", SInt (u32 (GetUint64 p "badger.value_log_max_entries" 1000000)));
   ("NumCompactors", SInt (GetInt p "badger.num_compactors" 3));
   ("DoNotCompact", SBool (GetBool p "badger.do_not_compact" false))] ++
  loading_mode "TableLoadingMode" "badger.table_loading_mode" "LoadToRAM" ++
  loading_mode "ValueLogLoadingMode" "badger.value_log_loading_mode" "MemoryMap".

Definition bolt_path : string := GetString p "bolt.path" "/tmp/boltdb".

Definition bolt_options : settings :=
  [("Timeout", SDuration (GetDuration p "bolt.timeout" 0));
   ("NoGrowSync", SBool (GetBool p "bolt.no_grow_sync" false));
   ("ReadOnly", SBool (GetBool p "bolt.read_only" false));
   ("MmapFlags", SInt (GetInt p "bolt.mmap_flags" 0));
   ("InitialMmapSize", SInt (GetInt p "bolt.initial_mmap_size" 0))].

Definition rocks_filter : settings :=
  if String.eqb (GetString p "rocksdb.filter_policy" "") "rocksdb.BuiltinBloomFilter"
  then [("SetFilterPolicy", SInt 10)] else [].

Definition rocks_index : settings :=
  let indexType := GetString p "rocksdb.index_type" "kBinarySearch" in
  if String.eqb indexType "kBinarySearch" || String.eqb indexType "kHashSearch" ||
     String.eqb indexType "kTwoLevelIndexSearch"
  then [("SetIndexType", SMode indexType)] else [].

Definition rocks_table_options : settings :=
  [("SetBlockSize", SInt (GetInt p "rocksdb.block_size" 4096));
   ("SetBlockSizeDeviation", SInt (GetInt p "rocksdb.block_size_deviation" 10));
   ("SetCacheIndexAndFilterBlocks", SBool (GetBool p "rocksdb.cache_index_and_filter_blocks" false));
   ("SetNoBlockCache", SBool (GetBool p "rocksdb.no_block_cache" false));
   ("SetPinL0FilterAndIndexBlocksInCache", SBool (GetBool p "rocksdb.pin_l0_filter_and_index_blocks_in_cache" false));
   ("SetWholeKeyFiltering", SBool (GetBool p "rocksdb.whole_key_filtering" true));
   ("SetBlockRestartInterval", SInt (GetInt p "rocksdb.block_restart_interval" 16))] ++
  rocks_filter ++ rocks_index.

Definition rocks_dir : string := GetString p "rocksdb.dir" "/tmp/rocksdb".

Definition rocks_options : settings :=
  [("SetCreateIfMissing", SBool true);
   ("SetAllowConcurrentMemtableWrites", SBool (GetBool p "rocksdb.allow_concurrent_memtable_writes" true));
   ("SetAllowMmapReads", SBool (GetBool p "rocksdb.allow_mmap_reads" false));
   ("SetAllowMmapWrites", SBool (GetBool p "rocksdb.allow_mmap_writes" false));
   ("SetArenaBlockSize", SInt (GetInt p "rocksdb.arena_block_size" 0));
   ("SetDbWriteBufferSize", SInt (GetInt p "rocksdb.db_write_buffer_size" 0));
   ("SetHardPendingCompactionBytesLimit",
      SInt (GetUint64 p "rocksdb.hard_pending_compaction_bytes_limit" 274877906944));
   ("SetLevel0FileNumCompactionTrigger", SInt (GetInt p "rocksdb.level0_file_num_compaction_trigger" 4));
   ("SetLevel0SlowdownWritesTrigger", SInt (GetInt p "rocksdb.level0_slowdown_writes_trigger" 20));
   ("SetLevel0StopWritesTrigger", SInt (GetInt p "rocksdb.level0_stop_writes_trigger" 36));
   ("SetMaxBytesForLevelBase", SInt (GetUint64 p "rocksdb.max_bytes_for_level_base" 268435456));
   ("SetMaxBytesForLevelMultiplier",
      SFloat (GetFloat64 p "rocksdb.max_bytes_for_level_multiplier" (f64_of_Z 10)));
   ("SetMaxTotalWalSize", SInt (GetUint64 p "rocksdb.max_total_wal_size" 0));
   ("SetMemtableHugePageSize", SInt (GetInt p "rocksdb.memtable_huge_page_size" 0));
   ("SetNumLevels", SInt (GetInt p "rocksdb.num_levels" 7));
   ("SetUseDirectReads", SBool (GetBool p "rocksdb.use_direct_reads" false));
   ("SetUseFsync", SBool (GetBool p "rocksdb.use_fsync" false));
   ("SetWriteBufferSize", SInt (GetInt p "rocksdb.write_buffer_size" 67108864));
   ("SetMaxWriteBufferNumber", SInt (GetInt p "rocksdb.max_write_buffer_number" 2));
   ("SetWalDir", SString (GetString p "rocksdb.wal_dir" ""))] ++
  rocks_table_options.

(** [Create]: the paths removed first, then opening at a path with the settings ([open]
    stands for both); a driver is its codec and its state. *)
Definition local_Create {C} (open : list string → string → settings → error + C) (paths : list string)
    (path : string) (opts : settings) (script : list nat) : error + RowCodec * (C * Pool) :=
  match open (if GetBool p prop.DropData prop.DropDataDefault then paths else []) path opts with
  | inl e => inl e
  | inr c => inr (NewRowCodec p, (c, NewBufPool script))
  end.

Definition badger_Create {C} (open : list string → string → settings → error + C) (script : list nat) :=
  local_Create open [badger_dir; badger_valuedir] badger_dir badger_options script.

Definition bolt_Create {C} (open : list string → string → settings → error + C) (script : list nat) :=
  local_Create open [bolt_path] bolt_path bolt_options script.

Definition rocks_Create {C} (open : list string → string → settings → error + C) (script : list nat) :=
  local_Create open [rocks_dir] rocks_dir rocks_options script.
End options.
