(* ===== verification/Json.v ===== *)
(** * encoding/json and encoding/base64, as the drivers use them

    [json.Marshal] of a row ([map[string][]byte]: an object of base64 strings, the keys in
    order), and [json.Unmarshal] and [Decoder.Decode] into one: the scanner for the whole
    of JSON, strings with their escapes and surrogates, and what each kind of value means
    for a byte slice.  A nil slice and an empty one are both the empty byte string.  The
    round trip is proved for keys of ASCII characters. *)

From stdpp Require Import sorting.
From S2P Require Import Prelude GoStr GoText Util.

(** ** base64.StdEncoding *)

Definition b64_alphabet : list ascii :=
  list_ascii_of_string "ABCDEFGHIJKLMNOPQRSTUVWXYZabcdefghijklmnopqrstuvwxyz0123456789+/".

Definition b64_char (n : Z) : ascii := nth (Z.to_nat n) b64_alphabet "="%char.

Definition ascii_Z (c : ascii) : Z := Z.of_N (N_of_ascii c).

Definition b64_value (c : ascii) : option Z :=
  let z := ascii_Z c in
  if (65 <=? z) && (z <=? 90) then Some (z - 65)
  else if (97 <=? z) && (z <=? 122) then Some (z - 71)
  else if (48 <=? z) && (z <=? 57) then Some (z + 4)
  else if z =? 43 then Some 62
  else if z =? 47 then Some 63
  else None.

Fixpoint b64_encode (b : bytes) : string :=
  match b with
  | [] => ""
  | [x] =>
      let n := byte_to_Z x in
      String (b64_char (n / 4)) (String (b64_char (n mod 4 * 16)) "==")
  | [x; y] =>
      let n := byte_to_Z x * 256 + byte_to_Z y in
      String (b64_char (n / 1024)) (String (b64_char (n / 16 mod 64)) (String (b64_char (n mod 16 * 4)) "="))
  | x :: y :: z :: b =>
      let n := byte_to_Z x * 65536 + byte_to_Z y * 256 + byte_to_Z z in
      String (b64_char (n / 262144)) (String (b64_char (n / 4096 mod 64))
        (String (b64_char (n / 64 mod 64)) (String (b64_char (n mod 64)) (b64_encode b))))
  end.

(** Quanta of four characters; the bits the padding leaves over are ignored. *)
Fixpoint b64_quanta (s : string) : option bytes :=
  match s with
  | EmptyString => Some []
  | String a (String b (String c (String d s))) =>
      a ← b64_value a; b ← b64_value b;
      if Ascii.eqb d "=" then
        match s with
        | EmptyString =>
            if Ascii.eqb c "=" then Some [byte_of_Z (a * 4 + b / 16)]
            else c ← b64_value c; Some [byte_of_Z (a * 4 + b / 16); byte_of_Z (b mod 16 * 16 + c / 4)]
        | _ => None
        end
      else
        c ← b64_value c; d ← b64_value d; rest ← b64_quanta s;
        Some (byte_of_Z (a * 4 + b / 16) :: byte_of_Z (b mod 16 * 16 + c / 4) :: byte_of_Z (c mod 4 * 64 + d) :: rest)
  | _ => None
  end.

Fixpoint drop_newlines (s : string) : string :=
  match s with
  | EmptyString => ""
  | String c s => if Ascii.eqb c "010" || Ascii.eqb c "013" then drop_newlines s else String c (drop_newlines s)
  end.

Definition b64_decode (s : string) : option bytes := b64_quanta (drop_newlines s).

(** ** UTF-8 *)

Definition between (lo hi z : Z) : bool := (lo <=? z) && (z <=? hi).

Definition continuation (s : string) : bool :=
  match s with String c _ => between 128 191 (ascii_Z c) | EmptyString => false end.

(** The number of bytes after the first of the valid sequence that starts with [c] and
    goes on with [s]: [utf8.DecodeRune]. *)
Definition rune_tail (c : ascii) (s : string) : option nat :=
  let z := ascii_Z c in
  if z <? 128 then Some 0%nat else
  match s with
  | EmptyString => None
  | String c1 s1 =>
      let z1 := ascii_Z c1 in
      if between 194 223 z then (if between 128 191 z1 then Some 1%nat else None)
      else if between 224 239 z then
        if (if z =? 224 then between 160 191 z1 else if z =? 237 then between 128 159 z1 else between 128 191 z1)
           && continuation s1
        then Some 2%nat else None
      else if between 240 244 z then
        if (if z =? 240 then between 144 191 z1 else if z =? 244 then between 128 143 z1 else between 128 191 z1)
           && continuation s1 && match s1 with String _ s2 => continuation s2 | EmptyString => false end
        then Some 3%nat else None
      else None
  end.

(** [utf8.AppendRune] *)
Definition char_Z (z : Z) : ascii := ascii_of_N (Z.to_N z).

Definition rune_string (r : Z) : string :=
  if r <? 128 then String (char_Z r) ""
  else if r <? 2048 then String (char_Z (192 + r / 64)) (String (char_Z (128 + r mod 64)) "")
  else if r <? 65536 then
    String (char_Z (224 + r / 4096)) (String (char_Z (128 + r / 64 mod 64)) (String (char_Z (128 + r mod 64)) ""))
  else
    String (char_Z (240 + r / 262144)) (String (char_Z (128 + r / 4096 mod 64))
      (String (char_Z (128 + r / 64 mod 64)) (String (char_Z (128 + r mod 64)) ""))).

Definition RuneError : Z := 65533.

(** ** Marshal *)

Definition hex_digit (d : Z) : ascii :=
  nth (Z.to_nat d) (list_ascii_of_string "0123456789abcdef") "0"%char.

(** An ASCII character in a JSON string; HTML characters are escaped. *)
Definition json_char (c : ascii) : string :=
  let z := ascii_Z c in
  if Ascii.eqb c dquote then String "\" (String dquote "")
  else if Ascii.eqb c "\" then "\\"
  else if z =? 8 then "\b" else if z =? 12 then "\f" else if z =? 10 then "\n"
  else if z =? 13 then "\r" else if z =? 9 then "\t"
  else if (z <? 32) || Ascii.eqb c "<" || Ascii.eqb c ">" || Ascii.eqb c "&"
  then "\u00" +:+ String (hex_digit (z / 16)) (String (hex_digit (z mod 16)) "")
  else String c "".

(** [U+2028] and [U+2029]: three bytes that are escaped. *)
Definition line_separator (c : ascii) (s : string) : option string :=
  match s with
  | String c1 (String c2 _) =>
      if (ascii_Z c =? 226) && (ascii_Z c1 =? 128) then
        if ascii_Z c2 =? 168 then Some "\u2028" else if ascii_Z c2 =? 169 then Some "\u2029" else None
      else None
  | _ => None
  end.

(** [n] bytes of the current character are left, to be copied or (escaped already) not. *)
Fixpoint json_text (n : nat) (copy : bool) (s : string) : string :=
  match s with
  | EmptyString => ""
  | String c s =>
      match n with
      | S n => if copy then String c (json_text n copy s) else json_text n copy s
      | O =>
          if ascii_Z c <? 128 then json_char c +:+ json_text 0 true s
          else match line_separator c s with
               | Some esc => esc +:+ json_text 2 false s
               | None =>
                   match rune_tail c s with
                   | Some n => String c (json_text n true s)
                   | None => "\ufffd" +:+ json_text 0 true s
                   end
               end
      end
  end.

Definition quote (s : string) : string := String dquote s +:+ String dquote "".

Definition json_member (m : gmap string bytes) (k : string) : string :=
  quote (json_text 0 true k) +:+ ":" +:+ quote (b64_encode (default [] (m !! k))).

(** [json.Marshal(row)] never fails. *)
Definition Marshal (m : gmap string bytes) : string :=
  "{" +:+ String.concat "," (json_member m <$> sorted_keys m) +:+ "}".

(** ** Parsing *)

Inductive json :=
  | JNull | JBool (b : bool) | JNumber (literal : string) | JString (s : string)
  | JArray (l : list json) | JObject (members : list (string * json)).

Fixpoint skip_space (s : string) : string :=
  match s with
  | String c s' => if existsb (Ascii.eqb c) [" "; "009"; "010"; "013"]%char then skip_space s' else s
  | EmptyString => ""
  end.

(** The next character, after white space. *)
Definition next_char (s : string) : option (ascii * string) :=
  match skip_space s with String c s => Some (c, s) | EmptyString => None end.

Definition hex_value (c : ascii) : option Z :=
  let z := ascii_Z c in
  if between 48 57 z then Some (z - 48) else if between 97 102 z then Some (z - 87)
  else if between 65 70 z then Some (z - 55) else None.

Definition hex4 (a b c d : ascii) : option Z :=
  a ← hex_value a; b ← hex_value b; c ← hex_value c; d ← hex_value d; Some (a * 4096 + b * 256 + c * 16 + d).

Definition simple_escape (c : ascii) : option string :=
  if existsb (Ascii.eqb c) [dquote; "\"; "/"]%char then Some (String c "")
  else if Ascii.eqb c "b" then Some (String "008" "") else if Ascii.eqb c "f" then Some (String "012" "")
  else if Ascii.eqb c "n" then Some (String "010" "") else if Ascii.eqb c "r" then Some (String "013" "")
  else if Ascii.eqb c "t" then Some (String "009" "") else None.

Definition is_surrogate (r : Z) : bool := between 55296 57343 r.

(** [utf16.DecodeRune] *)
Definition surrogate_pair (r r2 : Z) : option Z :=
  if between 55296 56319 r && between 56320 57343 r2 then Some ((r - 55296) * 1024 + (r2 - 56320) + 65536) else None.

(** The string up to its closing quote, unescaped; [n] bytes of the current character
    are still to be copied. *)
Fixpoint parse_string (n : nat) (s : string) : option (string * string) :=
  match s with
  | EmptyString => None
  | String c s =>
      match n with
      | S n => '(t, rest) ← parse_string n s; Some (String c t, rest)
      | O =>
          if Ascii.eqb c dquote then Some ("", s)
          else if Ascii.eqb c "\" then
            match s with
            | EmptyString => None
            | String e s =>
                if Ascii.eqb e "u" then
                  match s with
                  | String h1 (String h2 (String h3 (String h4 s))) =>
                      r ← hex4 h1 h2 h3 h4;
                      if is_surrogate r then
                        match s with
                        | String b1 (String b2 (String g1 (String g2 (String g3 (String g4 s2))))) =>
                            match (if Ascii.eqb b1 "\" && Ascii.eqb b2 "u" then r2 ← hex4 g1 g2 g3 g4; surrogate_pair r r2 else None) with
                            | Some r => '(t, rest) ← parse_string 0 s2; Some (rune_string r +:+ t, rest)
                            | None => '(t, rest) ← parse_string 0 s; Some (rune_string RuneError +:+ t, rest)
                            end
                        | _ => '(t, rest) ← parse_string 0 s; Some (rune_string RuneError +:+ t, rest)
                        end
                      else '(t, rest) ← parse_string 0 s; Some (rune_string r +:+ t, rest)
                  | _ => None
                  end
                else x ← simple_escape e; '(t, rest) ← parse_string 0 s; Some (x +:+ t, rest)
            end
          else if ascii_Z c <? 32 then None
          else match rune_tail c s with
               | Some n => '(t, rest) ← parse_string n s; Some (String c t, rest)
               | None => '(t, rest) ← parse_string 0 s; Some (rune_string RuneError +:+ t, rest)
               end
      end
  end.

(** Digits, and the rest. *)
Fixpoint take_digits (s : string) : string * string :=
  match s with
  | String c s' => if is_digit c then let '(d, rest) := take_digits s' in (String c d, rest) else ("", s)
  | EmptyString => ("", "")
  end.

(** A sign at most. *)
Definition take_sign (signs : list ascii) (s : string) : string * string :=
  match s with
  | String c s' => if existsb (Ascii.eqb c) signs then (String c "", s') else ("", s)
  | EmptyString => ("", "")
  end.

(** One digit at least. *)
Definition some_digits (s : string) : option (string * string) :=
  match take_digits s with (EmptyString, _) => None | r => Some r end.

Definition integer_part (s : string) : option (string * string) :=
  match s with
  | String c s' => if Ascii.eqb c "0" then Some ("0", s') else some_digits s
  | EmptyString => None
  end.

Definition fraction_part (s : string) : option (string * string) :=
  match s with
  | String c s' => if Ascii.eqb c "." then '(d, s') ← some_digits s'; Some (String c d, s') else Some ("", s)
  | EmptyString => Some ("", "")
  end.

Definition exponent_part (s : string) : option (string * string) :=
  match s with
  | String c s' =>
      if Ascii.eqb c "e" || Ascii.eqb c "E" then
        let '(sign, s') := take_sign ["+"; "-"]%char s' in '(d, s') ← some_digits s'; Some (String c (sign +:+ d), s')
      else Some ("", s)
  | EmptyString => Some ("", "")
  end.

Definition parse_number (s : string) : option (string * string) :=
  let '(sign, s) := take_sign ["-"]%char s in
  '(i, s) ← integer_part s; '(f, s) ← fraction_part s; '(e, s) ← exponent_part s;
  Some (sign +:+ i +:+ f +:+ e, s).

Definition parse_word (w : string) (v : json) (s : string) : option (json * string) :=
  if HasPrefix s w then Some (v, drop_str (String.length w) s) else None.

Definition max_depth : nat := 10000.

(** [Stuck] without fuel, [Ok None] for a syntax error.  [depth] counts the arrays and
    objects that are open. *)
Fixpoint parse_value (fuel depth : nat) (s : string) : res (option (json * string)) :=
  match fuel with
  | O => Stuck
  | S fuel =>
      match next_char s with
      | None => Ok None
      | Some (c, t) =>
          if Ascii.eqb c "{" then
            if (max_depth <=? depth)%nat then Ok None else
            match next_char t with
            | Some (d, t') =>
                if Ascii.eqb d "}" then Ok (Some (JObject [], t'))
                else r ← parse_members fuel (S depth) t; Ok ('(l, t) ← r; Some (JObject l, t))
            | None => Ok None
            end
          else if Ascii.eqb c "[" then
            if (max_depth <=? depth)%nat then Ok None else
            match next_char t with
            | Some (d, t') =>
                if Ascii.eqb d "]" then Ok (Some (JArray [], t'))
                else r ← parse_elements fuel (S depth) t; Ok ('(l, t) ← r; Some (JArray l, t))
            | None => Ok None
            end
          else if Ascii.eqb c dquote then Ok ('(x, t) ← parse_string 0 t; Some (JString x, t))
          else if Ascii.eqb c "n" then Ok (parse_word "null" JNull (String c t))
          else if Ascii.eqb c "t" then Ok (parse_word "true" (JBool true) (String c t))
          else if Ascii.eqb c "f" then Ok (parse_word "false" (JBool false) (String c t))
          else Ok ('(x, t) ← parse_number (String c t); Some (JNumber x, t))
      end
  end
with parse_members (fuel depth : nat) (s : string) : res (option (list (string * json) * string)) :=
  match fuel with
  | O => Stuck
  | S fuel =>
      match (
        '(c, s) ← next_char s;
        if Ascii.eqb c dquote then
          '(k, s) ← parse_string 0 s; '(c, s) ← next_char s;
          if Ascii.eqb c ":" then Some (k, s) else None
        else None) with
      | None => Ok None
      | Some (k, s) =>
          r ← parse_value fuel depth s;
          match r with
          | None => Ok None
          | Some (v, s) =>
              match next_char s with
              | None => Ok None
              | Some (c, s) =>
                  if Ascii.eqb c "," then
                    r ← parse_members fuel depth s; Ok ('(l, s) ← r; Some ((k, v) :: l, s))
                  else if Ascii.eqb c "}" then Ok (Some ([(k, v)], s))
                  else Ok None
              end
          end
      end
  end
with parse_elements (fuel depth : nat) (s : string) : res (option (list json * string)) :=
  match fuel with
  | O => Stuck
  | S fuel =>
      r ← parse_value fuel depth s;
      match r with
      | None => Ok None
      | Some (v, s) =>
          match next_char s with
          | None => Ok None
          | Some (c, s) =>
              if Ascii.eqb c "," then r ← parse_elements fuel depth s; Ok ('(l, s) ← r; Some (v :: l, s))
              else if Ascii.eqb c "]" then Ok (Some ([v], s))
              else Ok None
          end
      end
  end.

Definition parse_json (s : string) : res (option (json * string)) := parse_value (S (2 * String.length s)) 0 s.

(** ** Decoding into a row *)

Inductive json_error := SyntaxError | UnexpectedEOF | UnmarshalTypeError | CorruptInputError.

(** The first of two errors is kept. *)
Definition first_error (a b : option json_error) : option json_error := match a with Some _ => a | None => b end.

(** An element of an array, as a [uint8]. *)
Definition decode_uint8 (v : json) : byte * option json_error :=
  match v with
  | JNull => (x00, None)
  | JNumber l =>
      match parse_digits 0 l with
      | Some n => if (0 <? Z.of_nat (String.length l)) && (n <? 256) then (byte_of_Z n, None) else (x00, Some UnmarshalTypeError)
      | None => (x00, Some UnmarshalTypeError)
      end
  | _ => (x00, Some UnmarshalTypeError)
  end.

(** A value as a byte slice: nil when it has the wrong type or is not base64. *)
Definition decode_bytes (v : json) : bytes * option json_error :=
  match v with
  | JNull => ([], None)
  | JString s => match b64_decode s with Some b => (b, None) | None => ([], Some CorruptInputError) end
  | JArray l => ((fst ∘ decode_uint8) <$> l, foldr first_error None ((snd ∘ decode_uint8) <$> l))
  | _ => ([], Some UnmarshalTypeError)
  end.

Fixpoint decode_members (m : gmap string bytes) (l : list (string * json)) : gmap string bytes * option json_error :=
  match l with
  | [] => (m, None)
  | (k, v) :: l =>
      let '(b, e) := decode_bytes v in
      let '(m, e') := decode_members (<[k := b]> m) l in
      (m, first_error e e')
  end.

(** A value decoded into the row [m]. *)
Definition decode_map (m : gmap string bytes) (v : json) : gmap string bytes * option json_error :=
  match v with
  | JNull => (∅, None)
  | JObject l => decode_members m l
  | _ => (m, Some UnmarshalTypeError)
  end.

(** [json.Unmarshal(data, &m)]: nothing but white space may follow the value. *)
Definition Unmarshal (data : string) (m : gmap string bytes) : res (gmap string bytes * option json_error) :=
  r ← parse_json data;
  Ok match r with
     | Some (v, rest) => match next_char rest with None => decode_map m v | Some _ => (m, Some SyntaxError) end
     | None => (m, Some SyntaxError)
     end.

(** [json.NewDecoder(r).Decode(&m)]: the first value of the stream. *)
Definition Decoder_Decode (data : string) (m : gmap string bytes) : res (gmap string bytes * option json_error) :=
  r ← parse_json data;
  Ok match r with
     | Some (v, _) => decode_map m v
     | None => (m, Some SyntaxError)
     end.

(** In the examples an apostrophe stands for a double quote. *)
Definition dq (s : string) : string := ReplaceAll s "'" dquote.

Example json_ex :
  Marshal {["f1" := [x61; x62]; dq "a'<" := [x00]]} = dq "{'a\'\u003c':'AA==','f1':'YWI='}" ∧
  (r ← Unmarshal (dq " {'f1' : 'YWI=', 'x':[1, 255,null],'y':null,'z':'\u00e9'} ") ∅; Ok (map_to_list r.1, r.2)) =
    Ok (map_to_list ({["f1" := [x61; x62]; "x" := [x01; xff; x00]; "y" := []; "z" := []]} : gmap string bytes), Some CorruptInputError) ∧
  (r ← Unmarshal (dq "{'k':-1.5e+3}") ∅; Ok r.2) = Ok (Some UnmarshalTypeError) ∧
  (r ← Unmarshal (dq "{'k':01}") ∅; Ok r.2) = Ok (Some SyntaxError) ∧
  parse_string 0 (dq "\ud83d\ude00'rest") = Some (rune_string 128512, "rest").
Proof. vm_compute. done. Qed.

(** ** base64 round trip *)

(** Characters that stand for themselves in a JSON string and in base64 text. *)
Definition plain_char (c : ascii) : bool :=
  (32 <=? ascii_Z c) && (ascii_Z c <? 128) && negb (Ascii.eqb c dquote) && negb (Ascii.eqb c "\").

Lemma b64_table :
  forallb (λ n, bool_decide (b64_value (b64_char n) = Some n) && plain_char (b64_char n) && negb (Ascii.eqb (b64_char n) "="))
    (seqZ 0 64) = true.
Proof. vm_compute. reflexivity. Qed.

Lemma b64_char_spec n : 0 <= n < 64 →
  b64_value (b64_char n) = Some n ∧ plain_char (b64_char n) = true ∧ Ascii.eqb (b64_char n) "=" = false.
Proof.
  intros Hn. pose proof (proj1 (forallb_forall _ _) b64_table n) as Hf.
  assert (Hin : In n (seqZ 0 64)) by (apply list_elem_of_In, elem_of_seqZ; lia).
  specialize (Hf Hin). apply andb_true_iff in Hf as [[Hv%bool_decide_eq_true Hp]%andb_true_iff He%negb_true_iff]. done.
Qed.

Lemma b64_value_char n : 0 <= n < 64 → b64_value (b64_char n) = Some n.
Proof. intros Hn. by destruct (b64_char_spec n Hn). Qed.

Lemma b64_char_eqb n : 0 <= n < 64 → Ascii.eqb (b64_char n) "=" = false.
Proof. intros Hn. by destruct (b64_char_spec n Hn) as (_ & _ & ?). Qed.

Lemma byte_of_to x z : z = byte_to_Z x → byte_of_Z z = x.
Proof. intros ->. apply byte_of_to_Z. Qed.

Ltac b64_bounds :=
  repeat match goal with x : byte |- _ => lazymatch goal with
    | _ : 0 <= byte_to_Z x < 256 |- _ => fail
    | _ => pose proof (byte_to_Z_range x) end end;
  Z.div_mod_to_equations; lia.

Lemma b64_quanta_encode b : b64_quanta (b64_encode b) = Some b.
Proof.
  induction b as [b IH] using (induction_ltof1 _ length). unfold ltof in IH.
  destruct b as [|x [|y [|z b]]]; [done|..]; cbn [b64_encode b64_quanta].
  - rewrite !b64_value_char by b64_bounds. cbn [mbind option_bind Ascii.eqb].
    do 2 f_equal. apply byte_of_to. b64_bounds.
  - rewrite !b64_value_char, b64_char_eqb by b64_bounds. cbn. do 2 f_equal; [|f_equal]; apply byte_of_to; b64_bounds.
  - rewrite !b64_value_char, b64_char_eqb by b64_bounds. cbn [mbind option_bind].
    rewrite IH by (simpl; lia). cbn [mbind option_bind].
    do 2 f_equal; [|f_equal; [|f_equal]]; apply byte_of_to; b64_bounds.
Qed.

Lemma b64_encode_plain b : all_in plain_char (b64_encode b) = true.
Proof.
  induction b as [b IH] using (induction_ltof1 _ length). unfold ltof, all_in in *.
  assert (Hp : ∀ n, 0 <= n < 64 → plain_char (b64_char n) = true) by (intros n Hn; by destruct (b64_char_spec n Hn) as (_ & ? & _)).
  destruct b as [|x [|y [|z b]]]; [done|..]; cbn [b64_encode list_ascii_of_string forallb];
    rewrite !Hp by b64_bounds; [done..|]. cbn [andb]. apply IH. simpl. lia.
Qed.

Lemma drop_newlines_plain s : all_in plain_char s = true → drop_newlines s = s.
Proof.
  unfold all_in. induction s as [|c s IH]; [done|]. cbn [list_ascii_of_string forallb drop_newlines].
  intros [Hc Hs]%andb_true_iff. rewrite (IH Hs).
  destruct (Ascii.eqb_spec c "010") as [->|_]; [done|]. by destruct (Ascii.eqb_spec c "013") as [->|_].
Qed.

Lemma b64_decode_encode b : b64_decode (b64_encode b) = Some b.
Proof. unfold b64_decode. rewrite drop_newlines_plain by apply b64_encode_plain. apply b64_quanta_encode. Qed.

(** ** Strings *)

Definition ascii7 (c : ascii) : bool := ascii_Z c <? 128.

Lemma parse_string_char c t : ascii7 c = true →
  parse_string 0 (json_char c +:+ t) = '(x, rest) ← parse_string 0 t; Some (String c x, rest).
Proof.
  destruct c as [[] [] [] [] [] [] [] []]; intros E; first [discriminate E|reflexivity].
Qed.

Lemma parse_string_plain_char c t : plain_char c = true →
  parse_string 0 (String c t) = '(x, rest) ← parse_string 0 t; Some (String c x, rest).
Proof.
  destruct c as [[] [] [] [] [] [] [] []]; intros E; first [discriminate E|reflexivity].
Qed.

Lemma parse_json_text s t : all_in ascii7 s = true →
  parse_string 0 (json_text 0 true s +:+ String dquote t) = Some (s, t).
Proof.
  unfold all_in. induction s as [|c s IH]; [done|]. cbn [list_ascii_of_string forallb json_text].
  intros [Hc Hs]%andb_true_iff. unfold ascii7 in Hc. rewrite Hc, <- string_app_assoc.
  by rewrite (parse_string_char c _ Hc), (IH Hs).
Qed.

Lemma parse_plain_text s t : all_in plain_char s = true → parse_string 0 (s +:+ String dquote t) = Some (s, t).
Proof.
  unfold all_in. induction s as [|c s IH]; [done|]. cbn [list_ascii_of_string forallb].
  intros [Hc Hs]%andb_true_iff. change (String c s +:+ String dquote t) with (String c (s +:+ String dquote t)).
  by rewrite (parse_string_plain_char c _ Hc), (IH Hs).
Qed.

(** ** The parser always has an answer *)

Lemma skip_space_length s : (String.length (skip_space s) <= String.length s)%nat.
Proof. induction s as [|c s IH]; [done|]. cbn [skip_space]. destruct (existsb _ _); simpl; lia. Qed.

Lemma next_char_length s c t : next_char s = Some (c, t) → (String.length t < String.length s)%nat.
Proof.
  unfold next_char. pose proof (skip_space_length s). destruct (skip_space s); [done|]. intros [= <- <-]. simpl in *. lia.
Qed.

Lemma parse_string_length n s x t : parse_string n s = Some (x, t) → (String.length t < String.length s)%nat.
Proof.
  revert n x t. induction s as [s IH] using (induction_ltof1 _ String.length). unfold ltof in IH. intros n x t.
  assert (Hgo : ∀ n s' (pre : string → string) x t, (String.length s' < String.length s)%nat →
            ('(t0, rest) ← parse_string n s'; Some (pre t0, rest)) = Some (x, t) → (String.length t < String.length s)%nat).
  { intros n' s' pre x' t' Hs' E. destruct (parse_string n' s') as [[t0 rest]|] eqn:E1; [|done].
    cbn in E. injection E as <- <-. apply IH in E1; [lia|done]. }
  destruct s as [|c s]; [done|]. cbn [parse_string]. destruct n as [|n]; [|intros E; eapply (Hgo n s (String c)); [simpl; lia|exact E]].
  destruct (Ascii.eqb c dquote); [intros [= <- <-]; simpl; lia|]. destruct (Ascii.eqb c "\").
  - destruct s as [|e s]; [done|]. destruct (Ascii.eqb e "u").
    + destruct s as [|h1 [|h2 [|h3 [|h4 s]]]]; try done. destruct (hex4 h1 h2 h3 h4) as [r|]; [|done]. cbn [mbind option_bind].
      destruct (is_surrogate r); [|apply (Hgo 0%nat s (λ t, rune_string r +:+ t)); simpl; lia].
      assert (Hlone : ∀ x t, ('(t0, rest) ← parse_string 0 s; Some (rune_string RuneError +:+ t0, rest)) = Some (x, t) →
                (String.length t < String.length (String c (String e (String h1 (String h2 (String h3 (String h4 s)))))))%nat)
        by (intros x' t'; apply (Hgo 0%nat s (λ t, rune_string RuneError +:+ t)); simpl; lia).
      destruct s as [|b1 [|b2 [|g1 [|g2 [|g3 [|g4 s]]]]]]; try apply Hlone.
      destruct (if Ascii.eqb b1 "\" && _ then _ else _) as [r2|]; [|apply Hlone].
      apply (Hgo 0%nat s (λ t, rune_string r2 +:+ t)). simpl. lia.
    + destruct (simple_escape e) as [y|]; [|done]. apply (Hgo 0%nat s (λ t, y +:+ t)). simpl. lia.
  - destruct (ascii_Z c <? 32); [done|].
    destruct (rune_tail c s) as [n|]; [apply (Hgo n s (String c))|apply (Hgo 0%nat s (λ t, rune_string RuneError +:+ t))]; simpl; lia.
Qed.

Lemma take_digits_length s d t : take_digits s = (d, t) → String.length s = (String.length d + String.length t)%nat.
Proof.
  revert d t. induction s as [|c s IH]; intros d t; cbn [take_digits]; [by intros [= <- <-]|].
  destruct (is_digit c); [|by intros [= <- <-]]. destruct (take_digits s) as [d' t']. intros [= <- <-].
  simpl. by rewrite (IH _ _ eq_refl).
Qed.

Lemma some_digits_length s d t : some_digits s = Some (d, t) → (String.length t < String.length s)%nat.
Proof.
  unfold some_digits. destruct (take_digits s) as [d' t'] eqn:E. apply take_digits_length in E.
  destruct d'; [done|]. intros [= <- <-]. simpl in E. lia.
Qed.

Lemma take_sign_length l s d t : take_sign l s = (d, t) → (String.length t <= String.length s)%nat.
Proof. unfold take_sign. destruct s; [by intros [= <- <-]|]. destruct (existsb _ _); intros [= <- <-]; simpl; lia. Qed.

Lemma parse_number_length s x t : parse_number s = Some (x, t) → (String.length t < String.length s)%nat.
Proof.
  unfold parse_number. destruct (take_sign _ s) as [sg s1] eqn:E1. apply take_sign_length in E1.
  destruct (integer_part s1) as [[i s2]|] eqn:E2; [|done]. cbn [mbind option_bind].
  destruct (fraction_part s2) as [[f s3]|] eqn:E3; [|done]. cbn [mbind option_bind].
  destruct (exponent_part s3) as [[e s4]|] eqn:E4; [|done]. cbn [mbind option_bind]. intros [= <- <-].
  assert (String.length s2 < String.length s1)%nat.
  { unfold integer_part in E2. destruct s1 as [|c s1]; [done|].
    destruct (Ascii.eqb c "0"); [injection E2 as <- <-; simpl; lia|by apply some_digits_length in E2]. }
  assert (String.length s3 <= String.length s2)%nat.
  { unfold fraction_part in E3. destruct s2 as [|c s2]; [by injection E3 as <- <-|].
    destruct (Ascii.eqb c "."); [|by injection E3 as <- <-].
    destruct (some_digits s2) as [[d s']|] eqn:Ed; [|done]. cbn in E3. injection E3 as <- <-. apply some_digits_length in Ed. simpl. lia. }
  assert (String.length s4 <= String.length s3)%nat.
  { unfold exponent_part in E4. destruct s3 as [|c s3]; [by injection E4 as <- <-|].
    destruct (Ascii.eqb c "e" || Ascii.eqb c "E"); [|by injection E4 as <- <-].
    destruct (take_sign _ s3) as [sg' s'] eqn:Es. apply take_sign_length in Es.
    destruct (some_digits s') as [[d s'']|] eqn:Ed; [|done]. cbn in E4. injection E4 as <- <-. apply some_digits_length in Ed. simpl. lia. }
  lia.
Qed.

Lemma parse_word_length w v s x t : parse_word w v s = Some (x, t) → w ≠ "" → s ≠ "" → (String.length t < String.length s)%nat.
Proof.
  unfold parse_word. destruct (HasPrefix s w); [|done]. intros [= <- <-] Hw Hs. rewrite drop_str_length.
  destruct w, s; try done. simpl. lia.
Qed.

(** With enough fuel the parser answers, and what it leaves is shorter. *)
Definition answers {A} (s : string) (r : res (option (A * string))) : Prop :=
  ∃ o, r = Ok o ∧ ∀ x t, o = Some (x, t) → (String.length t < String.length s)%nat.

Lemma answers_ok {A} s (o : option (A * string)) :
  (∀ x t, o = Some (x, t) → (String.length t < String.length s)%nat) → answers s (Ok o).
Proof. intros Ho. by exists o. Qed.

Lemma answers_none {A} s : answers (A := A) s (Ok None).
Proof. by apply answers_ok. Qed.

Lemma answers_map {A B} s t (r : res (option (A * string))) (f : A → B) :
  answers t r → (String.length t <= String.length s)%nat →
  answers s (o ← r; Ok ('(x, t) ← o; Some (f x, t))).
Proof.
  intros (o & -> & Ho) Hl. apply answers_ok. intros x u E. destruct o as [[y u']|]; [|done]. cbn in E. injection E as _ <-.
  specialize (Ho y u' eq_refl). lia.
Qed.

Lemma answers_option {A B} s t (o : option (A * string)) (f : A → B) :
  (∀ x u, o = Some (x, u) → (String.length u < String.length t)%nat) → (String.length t <= String.length s)%nat →
  answers s (Ok ('(x, t) ← o; Some (f x, t))).
Proof.
  intros Ho Hl. apply answers_ok. intros x u E. destruct o as [[y u']|]; [|done]. cbn in E. injection E as _ <-.
  specialize (Ho y u' eq_refl). lia.
Qed.

Lemma parse_answers fuel :
  (∀ d s, (2 * String.length s < fuel)%nat → answers s (parse_value fuel d s)) ∧
  (∀ d s, (2 * String.length s < fuel)%nat → answers s (parse_members fuel d s)) ∧
  (∀ d s, (2 * String.length s + 1 < fuel)%nat → answers s (parse_elements fuel d s)).
Proof.
  induction fuel as [|fuel (IHv & IHm & IHe)]; [split; [|split]; intros; lia|]. split; [|split]; intros d s Hf.
  - cbn [parse_value]. destruct (next_char s) as [[c t]|] eqn:En; [|apply answers_none]. apply next_char_length in En.
    destruct (Ascii.eqb c "{").
    { destruct (_ <=? _)%nat; [apply answers_none|]. destruct (next_char t) as [[e t']|] eqn:En'; [|apply answers_none].
      apply next_char_length in En'. destruct (Ascii.eqb e "}"); [apply answers_ok; intros x u [= <- <-]; lia|].
      eapply answers_map; [apply IHm; lia|lia]. }
    destruct (Ascii.eqb c "[").
    { destruct (_ <=? _)%nat; [apply answers_none|]. destruct (next_char t) as [[e t']|] eqn:En'; [|apply answers_none].
      apply next_char_length in En'. destruct (Ascii.eqb e "]"); [apply answers_ok; intros x u [= <- <-]; lia|].
      eapply answers_map; [apply IHe; lia|lia]. }
    assert (Hw : ∀ w v, w ≠ "" → answers s (Ok (parse_word w v (String c t)))).
    { intros w v Hw. apply answers_ok. intros x u E. apply parse_word_length in E; [simpl in E; lia|done|done]. }
    destruct (Ascii.eqb c dquote); [eapply (answers_option s t); [intros x u; apply parse_string_length|lia]|].
    destruct (Ascii.eqb c "n"); [by apply Hw|]. destruct (Ascii.eqb c "t"); [by apply Hw|]. destruct (Ascii.eqb c "f"); [by apply Hw|].
    eapply (answers_option s (String c t)); [intros x u; apply parse_number_length|simpl; lia].
  - cbn [parse_members]. destruct (next_char s) as [[c s1]|] eqn:E1; [|apply answers_none]. apply next_char_length in E1.
    cbn [mbind option_bind]. destruct (Ascii.eqb c dquote); [|apply answers_none].
    destruct (parse_string 0 s1) as [[k s2]|] eqn:E2; [|apply answers_none]. apply parse_string_length in E2. cbn [mbind option_bind].
    destruct (next_char s2) as [[c2 s3]|] eqn:E3; [|apply answers_none]. apply next_char_length in E3. cbn [mbind option_bind].
    destruct (Ascii.eqb c2 ":"); [|apply answers_none].
    destruct (IHv d s3) as (o & -> & Ho); [lia|]. cbn [mbind res_bind]. destruct o as [[v s4]|]; [|apply answers_none].
    specialize (Ho v s4 eq_refl). destruct (next_char s4) as [[c4 s5]|] eqn:E5; [|apply answers_none]. apply next_char_length in E5.
    destruct (Ascii.eqb c4 ","); [eapply answers_map; [apply IHm; lia|lia]|].
    destruct (Ascii.eqb c4 "}"); [|apply answers_none]. apply answers_ok. intros x u [= <- <-]. lia.
  - cbn [parse_elements]. destruct (IHv d s) as (o & -> & Ho); [lia|]. cbn [mbind res_bind].
    destruct o as [[v s4]|]; [|apply answers_none].
    specialize (Ho v s4 eq_refl). destruct (next_char s4) as [[c4 s5]|] eqn:E5; [|apply answers_none]. apply next_char_length in E5.
    destruct (Ascii.eqb c4 ","); [eapply answers_map; [apply IHe; lia|lia]|].
    destruct (Ascii.eqb c4 "]"); [|apply answers_none]. apply answers_ok. intros x u [= <- <-]. lia.
Qed.

Lemma parse_json_total s : ∃ o, parse_json s = Ok o.
Proof.
  destruct (parse_answers (S (2 * String.length s))) as (Hv & _).
  destruct (Hv 0%nat s) as (o & E & _); [lia|]. by exists o.
Qed.

Lemma Unmarshal_total data m : ∃ m' e, Unmarshal data m = Ok (m', e).
Proof.
  unfold Unmarshal. destruct (parse_json_total data) as (o & ->). cbn [mbind res_bind].
  destruct o as [[v rest]|]; [|by eexists _, _]. destruct (next_char rest); [by eexists _, _|].
  destruct (decode_map m v) as [m' e]. by exists m', e.
Qed.

(** ** The round trip of a row *)

Definition json_value (b : bytes) : json := JString (b64_encode b).

Lemma next_char_solid c s : existsb (Ascii.eqb c) [" "; "009"; "010"; "013"]%char = false → next_char (String c s) = Some (c, s).
Proof. intros Hc. unfold next_char. cbn [skip_space]. by rewrite Hc. Qed.

Lemma quote_app s t : quote s +:+ t = String dquote (s +:+ String dquote t).
Proof. unfold quote. change (String dquote s +:+ String dquote "") with (String dquote (s +:+ String dquote "")).
  change (String dquote (s +:+ String dquote "") +:+ t) with (String dquote ((s +:+ String dquote "") +:+ t)).
  by rewrite <- string_app_assoc.
Qed.

Lemma json_member_app m k t :
  json_member m k +:+ t =
  String dquote (json_text 0 true k +:+ String dquote (String ":" (quote (b64_encode (default [] (m !! k))) +:+ t))).
Proof. unfold json_member. rewrite <- !string_app_assoc, quote_app. done. Qed.

Lemma parse_quoted fuel d b rest :
  parse_value (S fuel) d (quote (b64_encode b) +:+ rest) = Ok (Some (json_value b, rest)).
Proof.
  rewrite quote_app. cbn [parse_value]. rewrite next_char_solid by done. cbn [Ascii.eqb dquote Bool.eqb].
  by rewrite (parse_plain_text _ _ (b64_encode_plain b)).
Qed.

Definition member_of (m : gmap string bytes) (k : string) : string * json := (k, json_value (default [] (m !! k))).

(** A member and what follows it. *)
Lemma parse_member fuel d m k t :
  all_in ascii7 k = true →
  parse_members (S (S fuel)) d (json_member m k +:+ t) =
  match next_char t with
  | None => Ok None
  | Some (c, s) =>
      if Ascii.eqb c "," then r ← parse_members (S fuel) d s; Ok ('(l, s) ← r; Some (member_of m k :: l, s))
      else if Ascii.eqb c "}" then Ok (Some ([member_of m k], s)) else Ok None
  end.
Proof.
  intros Hk. rewrite json_member_app.
  change (parse_members (S (S fuel))) with (λ d s, parse_members (S (S fuel)) d s).
  cbn [parse_members]. rewrite next_char_solid by done. cbn [mbind option_bind Ascii.eqb dquote Bool.eqb].
  rewrite (parse_json_text _ _ Hk). cbn [mbind option_bind]. rewrite next_char_solid by done.
  cbn [mbind option_bind Ascii.eqb Bool.eqb]. rewrite (parse_quoted fuel). done.
Qed.

Lemma parse_members_text d m ks rest fuel :
  ks ≠ [] → Forall (λ k, all_in ascii7 k = true) ks → (length ks < fuel)%nat →
  parse_members fuel d (String.concat "," (json_member m <$> ks) +:+ String "}" rest) = Ok (Some (member_of m <$> ks, rest)).
Proof.
  revert fuel. induction ks as [|k ks IH]; intros fuel Hne Hks Hf; [done|].
  apply list.Forall_cons in Hks as [Hk Hks]. destruct fuel as [|[|fuel]]; [simpl in Hf; lia..|].
  destruct ks as [|k' ks].
  - cbn [fmap list_fmap String.concat]. by rewrite (parse_member fuel d m k _ Hk).
  - change (String.concat "," (json_member m <$> k :: k' :: ks)) with
      (json_member m k +:+ ("," +:+ String.concat "," (json_member m <$> k' :: ks))).
    rewrite <- string_app_assoc, (parse_member fuel d m k _ Hk).
    change (("," +:+ String.concat "," (json_member m <$> k' :: ks)) +:+ String "}" rest) with
      (String "," (String.concat "," (json_member m <$> k' :: ks) +:+ String "}" rest)).
    rewrite next_char_solid by done. cbn [Ascii.eqb Bool.eqb]. rewrite IH by (done || simpl in *; lia). done.
Qed.

Lemma decode_members_rows m0 m ks :
  decode_members m0 (member_of m <$> ks) = (foldl (λ r k, <[k := default [] (m !! k)]> r) m0 ks, None).
Proof.
  revert m0. induction ks as [|k ks IH]; intros m0; [done|]. cbn [fmap list_fmap decode_members member_of json_value decode_bytes].
  rewrite b64_decode_encode. fold (json_value (default [] (m !! k))). by rewrite IH.
Qed.

Lemma put_keys (m m0 : gmap string bytes) ks : (∀ k, k ∈ ks ↔ k ∈ dom m) →
  foldl (λ r k, <[k := default [] (m !! k)]> r) m0 ks = m ∪ m0.
Proof.
  intros Hks. apply map_eq. intros k.
  assert (Hl : ∀ m0 : gmap string bytes, foldl (λ r k, <[k := default [] (m !! k)]> r) m0 ks !! k =
                 if decide (k ∈ ks) then Some (default [] (m !! k)) else m0 !! k).
  { clear Hks m0. induction ks as [|k' ks IH]; intros m0; cbn [foldl]; [by case_decide as Hk; [apply elem_of_nil in Hk|]|].
    rewrite IH. destruct (decide (k = k')) as [->|Hne]; [rewrite lookup_insert_eq|rewrite lookup_insert_ne by done];
      repeat case_decide; set_solver. }
  rewrite Hl, lookup_union. case_decide as Hk.
  - apply Hks, elem_of_dom in Hk as [b ->]. by destruct (m0 !! k).
  - rewrite Hks in Hk. apply not_elem_of_dom in Hk as ->. by destruct (m0 !! k).
Qed.

Lemma json_member_length m k : (0 < String.length (json_member m k))%nat.
Proof. rewrite <- (string_app_nil_r (json_member m k)), json_member_app. simpl. lia. Qed.

Lemma members_length m ks : (length ks <= String.length (String.concat "," (json_member m <$> ks)))%nat.
Proof.
  induction ks as [|k ks IH]; [done|]. pose proof (json_member_length m k) as Hm. destruct ks as [|k' ks].
  - cbn [fmap list_fmap String.concat]. simpl. lia.
  - change (String.concat "," (json_member m <$> k :: k' :: ks)) with
      (json_member m k +:+ String "," (String.concat "," (json_member m <$> k' :: ks))).
    rewrite str_length_app. cbn [length String.length] in *. lia.
Qed.

Lemma members_head m k ks rest : ∃ t, String.concat "," (json_member m <$> k :: ks) +:+ rest = String dquote t.
Proof.
  destruct ks as [|k' ks]; cbn [fmap list_fmap String.concat]; [rewrite json_member_app; by eexists|].
  rewrite <- string_app_assoc, json_member_app. by eexists.
Qed.

(** Keys of ASCII characters. *)
Definition ascii_keys (m : gmap string bytes) : Prop := ∀ k, k ∈ dom m → all_in ascii7 k = true.

Lemma Marshal_cons m : Marshal m = String "{" (String.concat "," (json_member m <$> sorted_keys m) +:+ "}").
Proof. reflexivity. Qed.

Lemma parse_Marshal m rest fuel : ascii_keys m → (2 * String.length (Marshal m) < fuel)%nat →
  parse_value fuel 0 (Marshal m +:+ rest) = Ok (Some (JObject (member_of m <$> sorted_keys m), rest)).
Proof.
  intros Hm Hf. rewrite Marshal_cons in *. set (text := String.concat "," (json_member m <$> sorted_keys m)) in *.
  change (String "{" (text +:+ "}") +:+ rest) with (String "{" ((text +:+ "}") +:+ rest)).
  rewrite <- string_app_assoc. change ("}" +:+ rest) with (String "}" rest).
  destruct fuel as [|fuel]; [lia|]. cbn [parse_value]. rewrite next_char_solid by done. cbn [Ascii.eqb Bool.eqb].
  change (max_depth <=? 0)%nat with false. cbn iota. destruct (sorted_keys m) as [|k ks] eqn:Ek.
  { change (text +:+ String "}" rest) with (String "}" rest). by rewrite next_char_solid. }
  destruct (members_head m k ks (String "}" rest)) as (t & Et). fold text in Et.
  assert (Hnext : next_char (text +:+ String "}" rest) = Some (dquote, t)) by (by rewrite Et, next_char_solid).
  rewrite Hnext. cbn [Ascii.eqb dquote Bool.eqb]. unfold text. rewrite parse_members_text; [done|done| |].
  - rewrite <- Ek. apply list.Forall_forall. intros k' Hk'. by apply Hm, sorted_keys_elem.
  - pose proof (members_length m (k :: ks)) as Hl. fold text in Hl. cbn [String.length] in Hf. rewrite str_length_app in Hf. lia.
Qed.

Lemma next_char_nil : next_char "" = None.
Proof. reflexivity. Qed.

(** What a row was marshalled to is decoded into a row [m0] as an overwrite. *)
Lemma Unmarshal_Marshal m m0 : ascii_keys m → Unmarshal (Marshal m) m0 = Ok (m ∪ m0, None).
Proof.
  intros Hm. unfold Unmarshal, parse_json. pose proof (parse_Marshal m "" (S (2 * String.length (Marshal m))) Hm) as E.
  rewrite string_app_nil_r in E. rewrite E by lia. cbn [mbind res_bind decode_map]. rewrite next_char_nil.
  by rewrite decode_members_rows, put_keys by apply sorted_keys_elem.
Qed.

(** The same at the head of a stream. *)
Lemma Decoder_Decode_Marshal m rest m0 : ascii_keys m → Decoder_Decode (Marshal m +:+ rest) m0 = Ok (m ∪ m0, None).
Proof.
  intros Hm. unfold Decoder_Decode, parse_json. rewrite str_length_app, parse_Marshal by (done || lia).
  cbn [mbind res_bind decode_map]. by rewrite decode_members_rows, put_keys by apply sorted_keys_elem.
Qed.
