(* ===== verification/MapIter.v ===== *)
(** * pkg/util/concurrent_map.go: the goroutines of Iter and IterBuffered

    [snapshot] starts a goroutine per shard, which locks it, makes a channel of its size
    and sends its items; [fanIn] starts a goroutine per channel, which moves the items to
    the channel the caller ranges over, and closes that one in the end.  Here every access
    to a channel or a lock is a step, and other goroutines may write to a shard that is
    not locked.  ConcurrentMap.v states the result, [IterBuffered]; this file proves it of
    the goroutines. *)

From S2P Require Import Prelude GoStr GoConv Util Json ConcurrentMap.

Abbreviation Tuple := (Z * Z)%type.

(** The goroutine of [snapshot]: before [RLock], sending the rest of the items, after
    [RUnlock], and after [close]. *)
Inductive producer := Waiting | Sending (items : list Tuple) | Unlocked | Closed.

(** The goroutine of [fanIn]: not started, at the head of its loop, sending, after [Done]. *)
Inductive forwarder := Idle | Receiving | Forwarding (t : Tuple) | Done.

(** One shard with its two goroutines and the channel between them.  [taken] is not in
    the program: the items the shard had when it was locked. *)
Record lane := {
  shard : gmap Z Z; prod : producer; buffer : list Tuple; fwd : forwarder; taken : list Tuple
}.

(** The caller: in [snapshot]; the goroutine of [fanIn] at [wg.Wait]; after [close(out)];
    and the caller's loop has ended. *)
Inductive stage := Snapshot | Fan | OutClosed | Ended.

(** [cap] is the capacity of the channel returned: 0 for [Iter], the sum of the sizes for
    [IterBuffered]. *)
Record iter := { lanes : list lane; at_ : stage; out : list Tuple; received : list Tuple }.

Definition set_lane (i : nat) (l : lane) (s : iter) : iter :=
  {| lanes := <[i := l]> (lanes s); at_ := at_ s; out := out s; received := received s |}.
Definition set_prod (p : producer) (b : list Tuple) (l : lane) : lane :=
  {| shard := shard l; prod := p; buffer := b; fwd := fwd l; taken := taken l |}.
Definition set_fwd (f : forwarder) (b : list Tuple) (l : lane) : lane :=
  {| shard := shard l; prod := prod l; buffer := b; fwd := f; taken := taken l |}.
Definition set_stage (a : stage) (s : iter) : iter :=
  {| lanes := lanes s; at_ := a; out := out s; received := received s |}.
Definition set_out (o r : list Tuple) (s : iter) : iter :=
  {| lanes := lanes s; at_ := at_ s; out := o; received := r |}.

Definition started (l : lane) : bool := match prod l with Waiting => false | _ => true end.
Definition finished (l : lane) : bool := match fwd l with Done => true | _ => false end.

(** [Iter] or [IterBuffered]; the capacity is known when [snapshot] has returned. *)
Definition capacity (buffered : bool) (s : iter) : nat :=
  if buffered then length (concat (taken <$> lanes s)) else 0%nat.

Inductive iter_step (buffered : bool) (s : iter) : iter → Prop :=
| it_lock i l items : lanes s !! i = Some l → prod l = Waiting → items ≡ₚ map_to_list (shard l) →
    iter_step buffered s (set_lane i {| shard := shard l; prod := Sending items; buffer := []; fwd := fwd l; taken := items |} s)
| it_produce i l t items : lanes s !! i = Some l → prod l = Sending (t :: items) → (length (buffer l) < length (taken l))%nat →
    iter_step buffered s (set_lane i (set_prod (Sending items) (buffer l ++ [t]) l) s)
| it_unlock i l : lanes s !! i = Some l → prod l = Sending [] → iter_step buffered s (set_lane i (set_prod Unlocked (buffer l) l) s)
| it_close i l : lanes s !! i = Some l → prod l = Unlocked → iter_step buffered s (set_lane i (set_prod Closed (buffer l) l) s)
| it_fan : at_ s = Snapshot → Forall (λ l, started l = true) (lanes s) →
    iter_step buffered s (set_stage Fan {| lanes := (λ l, set_fwd Receiving (buffer l) l) <$> lanes s; at_ := at_ s; out := out s; received := received s |})
| it_receive i l t b : lanes s !! i = Some l → fwd l = Receiving → buffer l = t :: b →
    iter_step buffered s (set_lane i (set_fwd (Forwarding t) b l) s)
| it_range_end i l : lanes s !! i = Some l → fwd l = Receiving → buffer l = [] → prod l = Closed →
    iter_step buffered s (set_lane i (set_fwd Done [] l) s)
| it_forward i l t : lanes s !! i = Some l → fwd l = Forwarding t → (length (out s) < capacity buffered s)%nat →
    iter_step buffered s (set_out (out s ++ [t]) (received s) (set_lane i (set_fwd Receiving (buffer l) l) s))
| it_hand_over i l t : lanes s !! i = Some l → fwd l = Forwarding t → out s = [] →
    iter_step buffered s (set_out [] (received s ++ [t]) (set_lane i (set_fwd Receiving (buffer l) l) s))
| it_close_out : at_ s = Fan → Forall (λ l, finished l = true) (lanes s) → iter_step buffered s (set_stage OutClosed s)
| it_next t o : at_ s ≠ Snapshot → out s = t :: o → iter_step buffered s (set_out o (received s ++ [t]) s)
| it_end : at_ s = OutClosed → out s = [] → iter_step buffered s (set_stage Ended s).

(** Another goroutine writes to a shard nobody has locked for reading. *)
Inductive write_step (s : iter) : iter → Prop :=
| it_write i l m : lanes s !! i = Some l → (∀ items, prod l ≠ Sending items) →
    write_step s (set_lane i {| shard := m; prod := prod l; buffer := buffer l; fwd := fwd l; taken := taken l |} s).

(** A run of [n] steps of the iteration, with any writes between them or with none. *)
Inductive iter_run (buffered writes : bool) (s0 : iter) : nat → iter → Prop :=
| run_nil : iter_run buffered writes s0 0 s0
| run_step n s s' : iter_run buffered writes s0 n s → iter_step buffered s s' → iter_run buffered writes s0 (S n) s'
| run_write n s s' : writes = true → iter_run buffered writes s0 n s → write_step s s' → iter_run buffered writes s0 n s'.

Definition Iter_start (m : ConcurrentMap) : iter := {|
  lanes := (λ s, {| shard := s; prod := Waiting; buffer := []; fwd := Idle; taken := [] |}) <$> shards m;
  at_ := Snapshot; out := []; received := []
|}.

(** [MarshalJSON]: [json.Marshal] writes the keys as text and sorts them as such. *)
Definition MarshalJSON (arrival : list Tuple) : string :=
  let tmp : gmap string Z := list_to_map ((λ '(k, v), (FormatInt k, v)) <$> map_to_list (Items arrival)) in
  "{" +:+ String.concat "," ((λ k, quote k +:+ ":" +:+ FormatInt (default 0 (tmp !! k))) <$> sorted_keys tmp) +:+ "}".

(** ** Where the items are *)

Definition unsent (p : producer) : list Tuple := match p with Sending items => items | _ => [] end.
Definition in_hand (f : forwarder) : list Tuple := match f with Forwarding t => [t] | _ => [] end.

(** The items of a lane that have not reached the channel of the caller. *)
Definition pending (l : lane) : list Tuple := unsent (prod l) ++ buffer l ++ in_hand (fwd l).

Record lane_ok (a : stage) (l : lane) : Prop := {
  ok_waiting : prod l = Waiting → buffer l = [] ∧ taken l = [] ∧ a = Snapshot;
  ok_room : (length (unsent (prod l)) + length (buffer l) <= length (taken l))%nat;
  ok_idle : fwd l = Idle ↔ a = Snapshot;
  ok_done : fwd l = Done → prod l = Closed ∧ buffer l = [];
  ok_closed : a = OutClosed ∨ a = Ended → fwd l = Done
}.

Record iter_ok (s : iter) : Prop := {
  ok_lanes : Forall (lane_ok (at_ s)) (lanes s);
  ok_items : received s ++ out s ++ concat (pending <$> lanes s) ≡ₚ concat (taken <$> lanes s);
  ok_silent : at_ s = Snapshot → out s = [];
  ok_ended : at_ s = Ended → out s = []
}.

(** A lane moves on, and with it what is in the channel of the caller and beyond. *)
Lemma set_lane_ok s i l l' o r :
  iter_ok s → lanes s !! i = Some l → lane_ok (at_ s) l' →
  r ++ o ++ pending l' ++ taken l ≡ₚ received s ++ out s ++ pending l ++ taken l' →
  (at_ s = Snapshot ∨ at_ s = Ended → o = []) → iter_ok (set_out o r (set_lane i l' s)).
Proof.
  intros [Hl Hi _ _] E Hl' Hp Ho. split; cbn [set_out set_lane lanes at_ out received]; [by apply Forall_insert| |intros; apply Ho; tauto..].
  destruct (concat_insert pending taken (lanes s) i l l' E) as (rest & rest' & H1 & H2 & H3 & H4). count_items.
Qed.

Lemma set_lane_ok_same s i l l' :
  iter_ok s → lanes s !! i = Some l → lane_ok (at_ s) l' → pending l' ++ taken l ≡ₚ pending l ++ taken l' → iter_ok (set_lane i l' s).
Proof.
  intros Hs E Hl' Hp. apply (set_lane_ok s i l l' (out s) (received s)); [done..| |by destruct Hs; intros []; auto].
  count_items.
Qed.

Lemma iter_ok_start m : iter_ok (Iter_start m).
Proof.
  split; cbn [Iter_start lanes at_ out received]; [| |done|done].
  - apply list.Forall_fmap, list.Forall_true. intros s. split; cbn; [done|lia|done|done|by intros []].
  - rewrite <- !list_fmap_compose. unfold compose. by induction (shards m).
Qed.

Lemma lane_of s i l : iter_ok s → lanes s !! i = Some l → lane_ok (at_ s) l.
Proof. intros Hs E. by eapply list.Forall_lookup_1; [apply Hs|]. Qed.

Lemma iter_ok_step buffered s s' : iter_ok s → iter_step buffered s s' → iter_ok s'.
Proof.
  intros Hs Hst. destruct Hst as [i l items E Hp Hm|i l t items E Hp Hr|i l E Hp|i l E Hp|Ha Hall|i l t b E Hf Hb|i l E Hf Hb Hp|i l t E Hf Hc
    |i l t E Hf Ho|Ha Hall|t o Ha Ho|Ha Ho]; try pose proof (lane_of s i l Hs E) as [H1 H2 H3 H4 H5].
  - destruct (H1 Hp) as (Hb & Ht & Ha). apply (set_lane_ok_same s i l); [done..| |].
    + split; cbn; [done|lia|done|intros Hd; destruct (H4 Hd); congruence|done].
    + unfold pending. rewrite Hp, Hb, Ht. cbn. count_items.
  - apply (set_lane_ok_same s i l); [done..| |].
    + rewrite Hp in H2. split; cbn in *; [done|rewrite length_app; cbn; lia|done|intros Hd; destruct (H4 Hd); congruence|done].
    + unfold pending. cbn. rewrite Hp. cbn. count_items.
  - apply (set_lane_ok_same s i l); [done..| |by unfold pending; cbn; rewrite Hp].
    rewrite Hp in H2. split; cbn in *; [done|lia|done|intros Hd; destruct (H4 Hd); congruence|done].
  - apply (set_lane_ok_same s i l); [done..| |by unfold pending; cbn; rewrite Hp].
    rewrite Hp in H2. split; cbn in *; [done|lia|done|intros Hd; by destruct (H4 Hd)|done].
  - destruct Hs as [Hl Hi Ho He]. split; cbn [set_stage lanes at_ out received]; [| |done|done].
    + apply list.Forall_fmap, list.Forall_forall. intros l Hin. apply (list.Forall_forall _ (lanes s)) with (x := l) in Hl as [H1 H2 H3 H4 H5]; [|done].
      apply (list.Forall_forall _ (lanes s)) with (x := l) in Hall as Hw; [|done].
      split; cbn; [|done|done|done|by intros []]. intros Hp. unfold started in Hw. by rewrite Hp in Hw.
    + rewrite <- !list_fmap_compose. rewrite (list_fmap_ext (pending ∘ _) pending) by
        (intros i l E; unfold pending; cbn; pose proof (list.Forall_lookup_1 _ _ _ _ Hl E) as [_ _ Hidle _ _]; by rewrite (proj2 Hidle Ha)).
      exact Hi.
  - apply (set_lane_ok_same s i l); [done..| |].
    + rewrite Hb in H1, H2. split; cbn in *; [intros Hp; by destruct (H1 Hp)|lia| |done|]; [rewrite <- H3, Hf; done|intros Ha%H5; congruence].
    + unfold pending. cbn. rewrite Hb, Hf. cbn. count_items.
  - apply (set_lane_ok_same s i l); [done..| |by unfold pending; cbn; rewrite Hb, Hf].
    split; cbn; [congruence|rewrite Hp; cbn; lia| |done|done]. rewrite <- H3, Hf. done.
  - apply (set_lane_ok s i l); [done..| | |].
    + split; cbn; [done|done| |done|]; [rewrite <- H3, Hf; done|intros Ha%H5; congruence].
    + unfold pending. cbn. rewrite Hf. cbn. count_items.
    + intros [Ha|Ha]; [apply H3 in Ha; congruence|specialize (H5 (or_intror Ha)); congruence].
  - apply (set_lane_ok s i l); [done..| | |done].
    + split; cbn; [done|done| |done|]; [rewrite <- H3, Hf; done|intros Ha%H5; congruence].
    + unfold pending. cbn. rewrite Hf, Ho. cbn. count_items.
  - destruct Hs as [Hl Hi Ho He]. split; cbn [set_stage lanes at_ out received]; [|done|done|done].
    apply list.Forall_forall. intros l Hin. apply (list.Forall_forall _ (lanes s)) with (x := l) in Hl as [H1 H2 H3 H4 H5]; [|done].
    apply (list.Forall_forall _ (lanes s)) with (x := l) in Hall as Hd; [|done]. rewrite Ha in H1, H3.
    unfold finished in Hd. destruct (fwd l) eqn:Ef; try done.
    split; [intros Hp; by destruct (H1 Hp) as (_ & _ & ?)|done|by rewrite Ef|by rewrite Ef|done].
  - destruct Hs as [Hl Hi Hsi He]. split; cbn [set_out lanes at_ out received]; [done| |done|].
    + rewrite Ho in Hi. count_items.
    + intros Hend. rewrite He in Ho by done. done.
  - destruct Hs as [Hl Hi Hsi He]. split; cbn [set_stage lanes at_ out received]; [|done|done|done].
    eapply list.Forall_impl; [exact Hl|]. intros l [H1 H2 H3 H4 H5]. rewrite Ha in *.
    split; [intros Hp; by destruct (H1 Hp) as (_ & _ & ?)|done|by rewrite H3|done|intros _; by apply H5; left].
Qed.

Lemma iter_ok_write s s' : iter_ok s → write_step s s' → iter_ok s'.
Proof.
  intros Hs [i l m E Hp]. destruct (lane_of s i l Hs E) as [H1 H2 H3 H4 H5].
  by apply (set_lane_ok_same s i l); [done..|split|].
Qed.

Lemma iter_ok_run buffered writes m n s : iter_run buffered writes (Iter_start m) n s → iter_ok s.
Proof.
  induction 1 as [|n s s' _ IH Hs|n s s' _ _ IH Hw]; [apply iter_ok_start|by eapply iter_ok_step|by eapply iter_ok_write].
Qed.

(** What a lane has taken is what its shard held when it was locked; shards nobody
    writes to keep it. *)
Definition took_shard (l : lane) : Prop := prod l ≠ Waiting → taken l ≡ₚ map_to_list (shard l).

Lemma took_step buffered s s' : Forall took_shard (lanes s) → iter_step buffered s s' → Forall took_shard (lanes s').
Proof.
  intros Hl Hst. assert (Hin : ∀ i l, lanes s !! i = Some l → took_shard l) by (intros i l E; by eapply list.Forall_lookup_1).
  destruct Hst as [i l items E Hp Hm|i l t items E Hp Hr|i l E Hp|i l E Hp|Ha Hall|i l t b E Hf Hb|i l E Hf Hb Hp|i l t E Hf Hc
    |i l t E Hf Ho|Ha Hall|t o Ha Ho|Ha Ho]; cbn [set_lane set_out set_stage lanes]; try exact Hl;
    try (apply Forall_insert; [done|]; intros ?; cbn; try done; apply (Hin i l E); first [congruence|done]).
  - apply list.Forall_fmap. eapply list.Forall_impl; [exact Hl|]. intros l H Hp. by apply H.
Qed.

Lemma shards_step buffered s s' : iter_step buffered s s' → shard <$> lanes s' = shard <$> lanes s.
Proof.
  intros Hst. destruct Hst as [i l items E Hp Hm|i l t items E Hp Hr|i l E Hp|i l E Hp|Ha Hall|i l t b E Hf Hb|i l E Hf Hb Hp|i l t E Hf Hc
    |i l t E Hf Ho|Ha Hall|t o Ha Ho|Ha Ho]; cbn [set_lane set_out set_stage lanes]; try done;
    try (rewrite list_fmap_insert; apply list_insert_id; by rewrite list_lookup_fmap, E).
  by rewrite <- list_fmap_compose.
Qed.

Lemma quiet_run buffered m n s :
  iter_run buffered false (Iter_start m) n s → Forall took_shard (lanes s) ∧ shard <$> lanes s = shards m.
Proof.
  induction 1 as [|n s s' _ [IH1 IH2] Hs|n s s' Hw]; [|split; [by eapply took_step|by erewrite shards_step]|done].
  cbn [Iter_start lanes]. split; [apply list.Forall_fmap, list.Forall_true; intros x; by intros []|].
  rewrite <- list_fmap_compose. apply list_fmap_id.
Qed.

(** ** The iteration ends *)

Definition lane_work (l : lane) : Z :=
  match prod l with Waiting => 3 | Sending items => 4 * Z.of_nat (length items) + 2 | Unlocked => 1 | Closed => 0 end
  + 3 * Z.of_nat (length (buffer l))
  + match fwd l with Idle | Receiving => 1 | Forwarding _ => 3 | Done => 0 end.

Definition stage_work (a : stage) : Z := match a with Snapshot => 3 | Fan => 2 | OutClosed => 1 | Ended => 0 end.

(** The steps left, not counting the items of shards that are not locked yet. *)
Definition work (s : iter) : Z := total_of lane_work (lanes s) + Z.of_nat (length (out s)) + stage_work (at_ s).

Definition all_taken (s : iter) : Z := total_of (λ l, Z.of_nat (length (taken l))) (lanes s).

Lemma all_taken_length s : all_taken s = Z.of_nat (length (concat (taken <$> lanes s))).
Proof. unfold all_taken. induction (lanes s) as [|l L IH]; [done|]. rewrite fmap_cons. cbn [concat total_of]. rewrite length_app. lia. Qed.

Lemma work_step buffered s s' : iter_ok s → iter_step buffered s s' → work s' - 4 * all_taken s' < work s - 4 * all_taken s.
Proof.
  intros Hs Hst. unfold work, all_taken.
  destruct Hst as [i l items E Hp Hm|i l t items E Hp Hr|i l E Hp|i l E Hp|Ha Hall|i l t b E Hf Hb|i l E Hf Hb Hp|i l t E Hf Hc
    |i l t E Hf Ho|Ha Hall|t o Ha Ho|Ha Ho]; cbn [set_lane set_out set_stage lanes at_ out];
    rewrite ?(total_of_insert lane_work _ _ _ _ E), ?(total_of_insert (λ l, Z.of_nat (length (taken l))) _ _ _ _ E);
    unfold lane_work; cbn [set_prod set_fwd prod buffer fwd taken];
    rewrite ?Hp, ?Hf, ?Hb, ?Ho, ?Ha, ?length_app; cbn [length stage_work]; try lia.
  - destruct (ok_waiting _ _ (lane_of s i l Hs E) Hp) as (-> & -> & _). cbn [length]. lia.
  - assert (total_of lane_work ((λ l, set_fwd Receiving (buffer l) l) <$> lanes s) = total_of lane_work (lanes s) ∧
      total_of (λ l, Z.of_nat (length (taken l))) ((λ l, set_fwd Receiving (buffer l) l) <$> lanes s) =
      total_of (λ l, Z.of_nat (length (taken l))) (lanes s)) as [H1 H2]; [|unfold lane_work in *; lia].
    pose proof (ok_lanes s Hs) as Hl. rewrite Ha in Hl. clear -Hl. induction Hl as [|l L Hl _ [IH1 IH2]]; [done|].
    rewrite fmap_cons. cbn [total_of]. rewrite IH1, IH2. unfold lane_work. cbn. by rewrite (proj2 (ok_idle _ _ Hl) eq_refl).
Qed.

Lemma work_run buffered writes m n s :
  iter_run buffered writes (Iter_start m) n s →
  Z.of_nat n + work s <= 4 * all_taken s + 4 * Z.of_nat (length (shards m)) + 3.
Proof.
  induction 1 as [|n s s' Hr IH Hs|n s s' _ Hr IH [i l m' E Hp]].
  - unfold work, all_taken. cbn [Iter_start lanes out at_ stage_work]. induction (shards m) as [|x L IH]; [cbn; lia|].
    rewrite fmap_cons. cbn [total_of length lane_work] in *. unfold lane_work in *. cbn [prod buffer fwd taken length] in *. lia.
  - pose proof (work_step _ _ _ (iter_ok_run _ _ _ _ _ Hr) Hs). lia.
  - unfold work, all_taken in *. cbn [set_lane lanes out at_]. rewrite !(total_of_insert _ _ _ _ _ E). unfold lane_work in *. cbn. lia.
Qed.

Lemma unfinished (f : lane → bool) L : ¬ Forall (λ l, f l = true) L → ∃ i l, L !! i = Some l ∧ f l = false.
Proof.
  intros (l & Hin & Hl)%list.not_Forall_Exists%list.Exists_exists; [|intros; apply _]. apply list_elem_of_lookup in Hin as [i Hi].
  exists i, l. split; [done|]. by apply not_true_is_false.
Qed.

Lemma iter_progress buffered s : iter_ok s → at_ s ≠ Ended → ∃ s', iter_step buffered s s'.
Proof.
  intros Hs Hne. destruct (at_ s) eqn:Ha; [| | |done].
  - destruct (decide (Forall (λ l, started l = true) (lanes s))) as [Hall|Hn]; [eexists; by apply it_fan|].
    apply unfinished in Hn as (i & l & E & Hl). eexists. apply (it_lock _ _ i l (map_to_list (shard l))); [done| |done].
    unfold started in Hl. by destruct (prod l).
  - destruct (decide (Forall (λ l, finished l = true) (lanes s))) as [Hall|Hn]; [eexists; by apply it_close_out|].
    apply unfinished in Hn as (i & l & E & Hl). destruct (lane_of s i l Hs E) as [H1 H2 H3 H4 H5]. rewrite Ha in *.
    unfold finished in Hl. destruct (fwd l) as [| |t|] eqn:Hf; [discriminate (proj1 H3 eq_refl)| | |done].
    + destruct (buffer l) as [|t b] eqn:Hb; [|eexists; by eapply it_receive].
      destruct (prod l) as [|[|t items]| |] eqn:Hp;
        [by destruct (H1 eq_refl) as (_ & _ & ?)|eexists; by eapply it_unlock|eexists; eapply it_produce; [done..|]|eexists; by eapply it_close|eexists; by eapply it_range_end].
      rewrite Hb. cbn in *. lia.
    + destruct (out s) as [|t' o] eqn:Ho; eexists; [by eapply it_hand_over|by eapply it_next; [rewrite Ha|]].
  - destruct (out s) as [|t o] eqn:Ho; eexists; [by apply it_end|by eapply it_next; [rewrite Ha|]].
Qed.

(** C7: Iterating over the concurrent map.  However the goroutines of [Iter] or
    [IterBuffered] interleave, with each other and with writers of shards they have not
    locked: no run of theirs takes more than four steps per item taken, four per shard and
    three, and until the caller's loop has ended a step is possible, so the loop ends.
    Then the caller has received every item the shards held when they were locked, each
    once; without writers these are the items of the map. *)
Theorem map_iteration_complete buffered writes m n s :
  iter_run buffered writes (Iter_start m) n s →
  Z.of_nat n <= 4 * Z.of_nat (length (concat (taken <$> lanes s))) + 4 * Z.of_nat (length (shards m)) + 3 ∧
  (at_ s ≠ Ended → ∃ s', iter_step buffered s s') ∧
  (at_ s = Ended → received s ≡ₚ concat (taken <$> lanes s) ∧ (writes = false → IterBuffered m (received s))).
Proof.
  intros Hr. pose proof (iter_ok_run _ _ _ _ _ Hr) as Hs. split; [|split; [by apply iter_progress|]].
  - pose proof (work_run _ _ _ _ _ Hr) as Hw. rewrite <- all_taken_length.
    assert (0 <= work s); [|lia]. unfold work. assert (∀ L, 0 <= total_of lane_work L); [|destruct (at_ s); cbn; specialize (H (lanes s)); lia].
    clear. induction L as [|l L IH]; cbn [total_of]; [lia|]. unfold lane_work at 1. destruct (prod l), (fwd l); lia.
  - intros He. destruct Hs as [Hl Hi _ Ho]. rewrite (Ho He) in Hi. rewrite He in Hl.
    assert (Hd : Forall (λ l, pending l = [] ∧ prod l ≠ Waiting) (lanes s)).
    { eapply list.Forall_impl; [exact Hl|]. intros l [H1 H2 H3 H4 H5]. specialize (H5 ltac:(by right)). destruct (H4 H5) as [Hp Hb].
      unfold pending. by rewrite Hp, Hb, H5. }
    assert (Hr' : received s ≡ₚ concat (taken <$> lanes s)).
    { assert (concat (pending <$> lanes s) = []) as E by (clear -Hd; induction Hd as [|l L [Hl _] _ IH]; [done|]; rewrite fmap_cons; cbn [concat]; by rewrite Hl).
      by rewrite E, !app_nil_r in Hi. }
    split; [done|]. intros ->. unfold IterBuffered, snapshot. rewrite Hr'. apply quiet_run in Hr as [Ht <-].
    clear -Ht Hd. induction Hd as [|l L [_ Hl] _ IH]; [done|]. apply list.Forall_cons in Ht as [Ht HL]. rewrite !fmap_cons. cbn [concat].
    by rewrite (Ht Hl), (IH HL).
Qed.

Example MarshalJSON_ex : MarshalJSON [(9, 1); (-3, 7); (10, 2)] = dq "{'-3':7,'10':2,'9':1}".
Proof. vm_compute. reflexivity. Qed.

(** One shard with one item: the longest run. *)
Definition ex_map : ConcurrentMap := {| shards := [{[1 := 2]}]; shardCount := 1 |}.

Definition ex_lane (p : producer) (b : list Tuple) (f : forwarder) : lane :=
  {| shard := {[1 := 2]}; prod := p; buffer := b; fwd := f; taken := [(1, 2)] |}.

Definition ex_state (a : stage) (l : lane) (o r : list Tuple) : iter := {| lanes := [l]; at_ := a; out := o; received := r |}.

Lemma ex_iteration : iter_run true false (Iter_start ex_map) 11 (ex_state Ended (ex_lane Closed [] Done) [] [(1, 2)]).
Proof.
  eapply run_step; [|by apply (it_end _ (ex_state OutClosed (ex_lane Closed [] Done) [] [(1, 2)]))].
  eapply run_step; [|apply (it_close_out _ (ex_state Fan (ex_lane Closed [] Done) [] [(1, 2)])); [done|by repeat constructor]].
  eapply run_step; [|by apply (it_range_end _ (ex_state Fan (ex_lane Closed [] Receiving) [] [(1, 2)]) 0 (ex_lane Closed [] Receiving))].
  eapply run_step; [|by apply (it_close _ (ex_state Fan (ex_lane Unlocked [] Receiving) [] [(1, 2)]) 0 (ex_lane Unlocked [] Receiving))].
  eapply run_step; [|by apply (it_unlock _ (ex_state Fan (ex_lane (Sending []) [] Receiving) [] [(1, 2)]) 0 (ex_lane (Sending []) [] Receiving))].
  eapply run_step; [|by apply (it_next _ (ex_state Fan (ex_lane (Sending []) [] Receiving) [(1, 2)] []) (1, 2) [])].
  eapply run_step; [|apply (it_forward _ (ex_state Fan (ex_lane (Sending []) [] (Forwarding (1, 2))) [] []) 0 (ex_lane (Sending []) [] (Forwarding (1, 2))) (1, 2)); [done..|cbn; lia]].
  eapply run_step; [|by apply (it_receive _ (ex_state Fan (ex_lane (Sending []) [(1, 2)] Receiving) [] []) 0 (ex_lane (Sending []) [(1, 2)] Receiving) (1, 2) [])].
  eapply run_step; [|apply (it_fan _ (ex_state Snapshot (ex_lane (Sending []) [(1, 2)] Idle) [] [])); [done|by repeat constructor]].
  eapply run_step; [|apply (it_produce _ (ex_state Snapshot (ex_lane (Sending [(1, 2)]) [] Idle) [] []) 0 (ex_lane (Sending [(1, 2)]) [] Idle) (1, 2) []); [done..|cbn; lia]].
  eapply run_step; [constructor|].
  refine (it_lock true (Iter_start ex_map) 0 {| shard := {[1 := 2]}; prod := Waiting; buffer := []; fwd := Idle; taken := [] |} [(1, 2)] eq_refl eq_refl _).
  cbn [shard]. by rewrite map_to_list_singleton.
Qed.

Lemma map_iteration_complete_witness :
  Z.of_nat 11 <= 4 * 1 + 4 * 1 + 3 ∧ IterBuffered ex_map [(1, 2)].
Proof.
  destruct (map_iteration_complete true false ex_map 11 _ ex_iteration) as (Hn & _ & He).
  split; [exact Hn|]. exact (proj2 (He eq_refl) eq_refl).
Defined.
