(* ===== verification/Etcd.v ===== *)
(** * db/etcd

    The etcd driver: a record is one key whose value is the JSON text of the row.  The
    client is the class [EtcdClient]; how an error of [encoding/json] reads is the
    parameter [json_message]. *)

From S2P Require Import Prelude GoFloat GoStr GoText Props Util Ycsb KV TikvRows LocalKV Json.

(** The options of a [Get]. *)
Record get_options := { fromKey : bool; limit : option Z; serializable : bool }.

(** [etcd_Get] gives the count of the keys in the range and the values. *)
Class EtcdClient (C : Type) := {
  etcd_Get : string → get_options → M C (error + Z * list string);
  etcd_Put : string → string → M C (option error);
  etcd_Del : string → M C (option error);
  etcd_Close : M C (option error)
}.

Definition etcd_key (table key : string) : string := table +:+ ":" +:+ key.

Section etcd.
Context {C : Type} `{EtcdClient C} (json_message : json_error → error).
Context {P : Type} `{Properties P} (p : P).

Definition serializable_reads : bool := GetBool p "etcd.serializable_reads" false.

(** The fields asked for are ignored. *)
Definition etcd_Read (table key : string) (fields : list string) : M C (row * option error) :=
  let rkey := etcd_key table key in
  r ← etcd_Get rkey {| fromKey := false; limit := None; serializable := serializable_reads |};
  match r with
  | inl e => mret (∅, Some e)
  | inr (count, kvs) =>
      if count =? 0 then mret (∅, Some ("could not find value for key [" +:+ rkey +:+ "]"))
      else
        v ← lift (index kvs 0);
        '(r, err) ← lift (Decoder_Decode v ∅);
        mret match err with Some e => (∅, Some (json_message e)) | None => (r, None) end
  end.

(** The loop of [Scan]: [res = append(res, r)] after the [count] nil rows. *)
Fixpoint append_rows (values : list string) (rows : list row) : res (list row * option error) :=
  match values with
  | [] => Ok (rows, None)
  | v :: values =>
      '(r, err) ← Decoder_Decode v ∅;
      match err with
      | Some e => Ok ([], Some (json_message e))
      | None => append_rows values (rows ++ [r])
      end
  end.

Definition etcd_Scan (table startKey : string) (count : Z) (fields : list string) : M C (list row * option error) :=
  rows ← lift (make_rows count);
  let rkey := etcd_key table startKey in
  r ← etcd_Get rkey {| fromKey := true; limit := Some count; serializable := serializable_reads |};
  match r with
  | inl e => mret ([], Some e)
  | inr (n, kvs) =>
      if n =? count then lift (append_rows kvs rows)
      else mret ([], Some ("unexpected number of result for key [" +:+ rkey +:+ "], expected " +:+ FormatInt count +:+
                           " but was " +:+ FormatInt n))
  end.

Definition etcd_Update (table key : string) (values : row) : M C (option error) :=
  etcd_Put (etcd_key table key) (Marshal values).

Definition etcd_Insert : string → string → row → M C (option error) := etcd_Update.

Definition etcd_Delete (table key : string) : M C (option error) := etcd_Del (etcd_key table key).

Definition etcd_DB : DB C := {|
  Close := in_db etcd_Close;
  InitThread _ _ := mret tt;
  CleanupThread := mret tt;
  Read table key fs := in_db (etcd_Read table key fs);
  Scan table key n fs := in_db (etcd_Scan table key n fs);
  Update table key v := in_db (etcd_Update table key v);
  Insert table key v := in_db (etcd_Insert table key v);
  Delete table key := in_db (etcd_Delete table key);
  as_BatchDB := None;
  as_AnalyzeDB := None;
  as_CountDB := None;
  as_CleanDB := None
|}.

(** *** Opening *)

Context `{MoreProperties P}.

(** [T] is a TLS configuration, made from certificate, key and CA file by [tls_config]. *)
Record etcd_config (T : Type) := { Endpoints : list string; DialTimeout : Z; TLS : option T }.
Arguments Endpoints {T} _.
Arguments DialTimeout {T} _.
Arguments TLS {T} _.

Definition getClientConfig {T} (tls_config : string → string → string → error + T) : res (error + etcd_config T) :=
  let endpoints := GetString p "etcd.endpoints" "localhost:2379" in
  let cfg tls := {| Endpoints := Split endpoints ","; DialTimeout := GetDuration p "etcd.dial_timeout" 2000000000; TLS := tls |} in
  if Contains endpoints "https" then
    cert ← MustGetString p "etcd.cert_file";
    key ← MustGetString p "etcd.key_file";
    ca ← MustGetString p "etcd.cacert_file";
    Ok match tls_config cert key ca with inl e => inl e | inr t => inr (cfg (Some t)) end
  else Ok (inr (cfg None)).

Definition etcd_Create {T} (tls_config : string → string → string → error + T) (clientv3_New : etcd_config T → error + C)
    : res (error + C) :=
  cfg ← getClientConfig tls_config;
  Ok match cfg with inl e => inl e | inr cfg => clientv3_New cfg end.
End etcd.

(** ** What it does to the records *)

(** The keys of a range in order; [Count] counts the whole range, whatever the limit.
    Serializable reads may be stale, so they have no law. *)
Definition from_key (m : gmap string string) (k : string) : list string :=
  filter (λ k', str_lt k' k = false) (sorted_keys m).

Class EtcdLaws (C : Type) `{EtcdClient C} (view : C → gmap string string) : Prop := {
  law_etcd_Get : ∀ k o c n vs c', serializable o = false → etcd_Get k o c = Ok (inr (n, vs), c') →
    view c' = view c ∧
    if fromKey o then
      n = Z.of_nat (length (from_key (view c) k)) ∧
      vs = (match limit o with Some l => if l =? 0 then id else take (Z.to_nat l) | None => id end)
             ((λ k', default "" (view c !! k')) <$> from_key (view c) k)
    else match view c !! k with Some v => n = 1 ∧ vs = [v] | None => n = 0 ∧ vs = [] end;
  law_etcd_Put : ∀ k v c c', etcd_Put k v c = Ok (None, c') → view c' = <[k := v]> (view c);
  law_etcd_Del : ∀ k c c', etcd_Del k c = Ok (None, c') → view c' = delete k (view c)
}.

Section etcd_spec.
Context {C : Type} `{EtcdClient C} (view : C → gmap string string) `{!EtcdLaws C view}.
Context (json_message : json_error → error) {P : Type} `{Properties P} (p : P).
Context (Hreads : serializable_reads p = false).

Lemma etcd_Read_Ok table key fs c r c' :
  etcd_Read json_message p table key fs c = Ok ((r, None), c') →
  view c' = view c ∧ ∃ v, view c !! etcd_key table key = Some v ∧ Decoder_Decode v ∅ = Ok (r, None).
Proof.
  intros E. unfold etcd_Read in E. apply bind_Ok in E as (g & c1 & E1 & E).
  destruct g as [e|[n vs]]; [run_inv|]. apply (law_etcd_Get (view := view)) in E1 as [Hc Hg]; [|done]. cbn [fromKey] in Hg.
  destruct (view c !! etcd_key table key) as [v|]; destruct Hg as [-> ->]; cbn [Z.eqb Pos.eqb] in E; [|run_inv].
  apply bind_Ok in E as (v' & c2 & E2 & E). unfold lift in E2. cbn in E2. injection E2 as <- <-.
  apply bind_Ok in E as ([r' err] & c3 & E3 & E). unfold lift in E3.
  destruct (Decoder_Decode v ∅) as [[r2 err2]|?|?|] eqn:Ed; try done. injection E3 as <- <- <-.
  destruct err2 as [e|]; run_inv. split; [done|]. by exists v.
Qed.

Lemma append_rows_length values rows out :
  append_rows json_message values rows = Ok (out, None) →
  ∃ more, out = rows ++ more ∧ length more = length values.
Proof.
  revert rows. induction values as [|v values IH]; intros rows E; cbn [append_rows] in E.
  - injection E as <-. exists []. by rewrite app_nil_r.
  - apply res_bind_Ok in E as ([r err] & _ & E). destruct err; [done|].
    destruct (IH _ E) as (more & -> & Hl). exists (r :: more). rewrite <- app_assoc. split; [done|simpl; lia].
Qed.

(** Records in etcd.  After an insert or an update without an error, a read without
    an error returns exactly the row given (fields in ASCII): an update replaces the whole
    record, and the fields a read asks for are ignored.  No other key changes. *)
Lemma etcd_rows_replaced table key values fs c c1 r c2 :
  ascii_keys values →
  etcd_Update table key values c = Ok (None, c1) ∨ etcd_Insert table key values c = Ok (None, c1) →
  etcd_Read json_message p table key fs c1 = Ok ((r, None), c2) →
  r = values ∧ view c2 = view c1 ∧ ∀ k, k ≠ etcd_key table key → view c1 !! k = view c !! k.
Proof.
  intros Ha Hu E. assert (Hv : view c1 = <[etcd_key table key := Marshal values]> (view c))
    by (destruct Hu as [E1|E1]; by apply (law_etcd_Put (view := view)) in E1).
  apply etcd_Read_Ok in E as [Hc (v & Hl & E)]. rewrite Hv, lookup_insert_eq in Hl. injection Hl as <-.
  rewrite <- (string_app_nil_r (Marshal values)), (Decoder_Decode_Marshal values "" ∅ Ha) in E. injection E as <-.
  rewrite (right_id_L ∅ (∪)). split; [done|split; [done|]]. intros k Hk. by rewrite Hv, lookup_insert_ne.
Qed.

(** Scans in etcd.  A scan only succeeds when the database holds exactly as many keys
    from the start key on, of any table, as rows are asked for, because the count it
    checks is not limited; and then it returns twice as many rows, the first half nil. *)
Lemma etcd_scan_doubled table key n fs c rows c' :
  etcd_Scan json_message p table key n fs c = Ok ((rows, None), c') →
  n = Z.of_nat (length (from_key (view c) (etcd_key table key))) ∧
  Z.of_nat (length rows) = 2 * n ∧ take (Z.to_nat n) rows = replicate (Z.to_nat n) ∅ ∧ view c' = view c.
Proof.
  intros E. unfold etcd_Scan in E. apply bind_Ok in E as (rs & c1 & E1 & E). unfold lift, make_rows in E1.
  destruct (n <? 0) eqn:Hn; [done|]. apply Z.ltb_ge in Hn. injection E1 as <- <-.
  apply bind_Ok in E as (g & c2 & E2 & E). destruct g as [e|[cnt vs]]; [run_inv|].
  apply (law_etcd_Get (view := view)) in E2 as [Hc Hg]; [|done]. cbn [fromKey limit] in Hg. destruct Hg as [Hcnt Hvs].
  destruct (cnt =? n) eqn:Hcn; [|run_inv]. apply Z.eqb_eq in Hcn as <-. rewrite <- Hcnt in *.
  unfold lift in E. destruct (append_rows json_message vs _) as [[out err]|?|?|] eqn:Ea; try done. injection E as <- -> <-.
  destruct (append_rows_length _ _ _ Ea) as (more & -> & Hl).
  split; [done|]. split; [|split; [|done]].
  - assert (Z.of_nat (length vs) = cnt) as Hlv.
    { rewrite Hvs. destruct (cnt =? 0) eqn:Hz; unfold id; rewrite ?length_take, length_fmap; lia. }
    rewrite length_app, length_replicate. lia.
  - rewrite take_app_le by (rewrite length_replicate; lia). apply take_ge. by rewrite length_replicate.
Qed.
End etcd_spec.

(** ** A store that never fails, and the witnesses *)

#[global] Instance mem_EtcdClient : EtcdClient (gmap string string) := {
  etcd_Get k o := λ m, Ok (inr (
    if fromKey o then
      (Z.of_nat (length (from_key m k)),
       (match limit o with Some l => if l =? 0 then id else take (Z.to_nat l) | None => id end)
         ((λ k', default "" (m !! k')) <$> from_key m k))
    else match m !! k with Some v => (1, [v]) | None => (0, []) end), m);
  etcd_Put k v := λ m, Ok (None, <[k := v]> m);
  etcd_Del k := λ m, Ok (None, delete k m);
  etcd_Close := mret None
}.

#[global] Instance mem_EtcdLaws : EtcdLaws (gmap string string) id.
Proof.
  split; cbn [etcd_Get etcd_Put etcd_Del mem_EtcdClient]; unfold id at 1.
  - intros k o m n vs m' _ E. destruct (fromKey o).
    + injection E as <- <- <-. done.
    + unfold id. destruct (m !! k); by injection E as <- <- <-.
  - by intros k v c c' [= <-].
  - by intros k c c' [= <-].
Qed.

