(* ===== verification/Redis.v ===== *)
(** * db/redis

    The redis driver in its three data types: a record is a hash, a JSON document, or a
    string holding the JSON text of the row.  The client is the class [RedisClient]; how
    an error of [encoding/json] reads is the parameter [json_message], and the order in
    which Go ranges over a row is [order]. *)

From S2P Require Import Prelude GoFloat GoStr GoText Props Util Ycsb KV TikvRows Json.

(** What is known of a command of a pipeline: [cmd.Err()] and [cmd.Text()]. *)
Record cmd_reply := { cmd_Err : option error; cmd_Text : error + string }.

(** [rd_DoStrings] is [Do(...).StringSlice()], [rd_DoErr] is [Do(...).Err()]. *)
Class RedisClient (C : Type) := {
  rd_Get : string → M C (error + string);
  rd_Set : string → string → M C (option error);
  rd_Del : string → M C (option error);
  rd_DoErr : list string → M C (option error);
  rd_DoStrings : list string → M C (error + list string);
  rd_Pipeline : list (list string) → M C (option error * list cmd_reply);
  rd_Ping : M C (option error);
  rd_FlushDB : M C (option error);
  rd_ReloadState : M C unit;
  rd_Close : M C (option error)
}.

Definition HASH_DATATYPE : string := "hash".
Definition STRING_DATATYPE : string := "string".
Definition JSON_DATATYPE : string := "json".
Definition JSON_SET : string := "JSON.SET".
Definition JSON_GET : string := "JSON.GET".
Definition HSET : string := "HSET".
Definition HMGET : string := "HMGET".

Record redis := { redis_mode : string; datatype : string; fieldcount : Z }.

Definition getKeyName (table key : string) : string := table +:+ "/" +:+ key.
Definition getFieldJsonPath (fieldName : string) : string := "$." +:+ fieldName.

(** The value between quotes, as it is. *)
Definition jsonEscape (b : bytes) : string := quote (string_of_bytes b).

Section redis.
Context {C : Type} `{RedisClient C} (json_message : json_error → error) (order : row → list (string * bytes)) (r : redis).

(** The texts of the replies, into the row: it stops at the first error. *)
Fixpoint read_texts (fields : list string) (replies : list cmd_reply) (data : row) : res (row * option error) :=
  match fields with
  | [] => Ok (data, None)
  | f :: fields =>
      match replies with
      | [] => Panic "invalid memory address or nil pointer dereference"
      | c :: replies =>
          match cmd_Text c with
          | inl e => Ok (data, Some e)
          | inr s => read_texts fields replies (<[f := bytes_of_string s]> data)
          end
      end
  end.

(** [data[fields[pos]] = []byte(slicePos)] for the elements of the reply. *)
Fixpoint read_slice (fields replies : list string) (data : row) : res row :=
  match replies with
  | [] => Ok data
  | s :: replies =>
      match fields with
      | [] => Panic "index out of range"
      | f :: fields => read_slice fields replies (<[f := bytes_of_string s]> data)
      end
  end.

Definition message (e : option json_error) : option error := json_message <$> e.

(** In the hash type the error of the command is not the one returned. *)
Definition redis_Read (table key : string) (fields : list string) : M C (row * option error) :=
  if String.eqb (datatype r) JSON_DATATYPE then
    '(err, replies) ← rd_Pipeline ((λ f, [JSON_GET; getKeyName table key; getFieldJsonPath f]) <$> fields);
    match err with
    | Some e => mret (∅, Some e)
    | None => lift (read_texts fields replies ∅)
    end
  else if String.eqb (datatype r) HASH_DATATYPE then
    sliceReply ← rd_DoStrings (HMGET :: getKeyName table key :: fields);
    match sliceReply with
    | inl errI => mret (∅, None)
    | inr l => data ← lift (read_slice fields l ∅); mret (data, None)
    end
  else
    res ← rd_Get (getKeyName table key);
    match res with
    | inl e => mret (∅, Some e)
    | inr s => '(data, err) ← lift (Unmarshal s ∅); mret (data, message err)
    end.

Definition redis_Scan (table startKey : string) (count : Z) (fields : list string) : M C (list row * option error) :=
  mret ([], Some "scan is not supported").

(** The map is nil after a JSON null, and assigning to it panics. *)
Definition unmarshals_null (s : string) : res bool :=
  v ← parse_json s;
  Ok match v with Some (JNull, rest) => match next_char rest with None => true | Some _ => false end | _ => false end.

Definition mergeEncodedJsonWithMap (stringReply : string) (values : row) : res (error + string) :=
  '(curVal, err) ← Unmarshal stringReply ∅;
  match err with
  | Some e => Ok (inl (json_message e))
  | None =>
      null ← unmarshals_null stringReply;
      if (null : bool) && negb (bool_decide (values = ∅)) then Panic "assignment to entry in nil map"
      else Ok (inr (Marshal (merge_row values curVal)))
  end.

(** The first error of the commands. *)
Fixpoint first_failed (replies : list cmd_reply) : option error :=
  match replies with
  | [] => None
  | c :: replies => match cmd_Err c with Some e => Some e | None => first_failed replies end
  end.

(** The arguments of [HSET]. *)
Definition hset_args (table key : string) (values : row) : list string :=
  HSET :: getKeyName table key :: concat ((λ kv, [fst kv; string_of_bytes (snd kv)]) <$> order values).

Definition json_set_fields (table key : string) (values : row) : list (list string) :=
  (λ kv, [JSON_SET; getKeyName table key; getFieldJsonPath (fst kv); jsonEscape (snd kv)]) <$> order values.

Definition redis_Update (table key : string) (values : row) : M C (option error) :=
  let fullUpdate := Z.of_nat (size values) =? fieldcount r in
  if String.eqb (datatype r) JSON_DATATYPE then
    '(err, replies) ← rd_Pipeline (json_set_fields table key values);
    mret match err with Some e => Some e | None => first_failed replies end
  else if String.eqb (datatype r) HASH_DATATYPE then rd_DoErr (hset_args table key values)
  else if fullUpdate then rd_Set (getKeyName table key) (Marshal values)
  else
    initialEncodedJson ← rd_Get (getKeyName table key);
    match initialEncodedJson with
    | inl e => mret (Some e)
    | inr s =>
        encodedJson ← lift (mergeEncodedJsonWithMap s values);
        match encodedJson with inl e => mret (Some e) | inr s => rd_Set (getKeyName table key) s end
    end.

Definition redis_Insert (table key : string) (values : row) : M C (option error) :=
  let data := Marshal values in
  if String.eqb (datatype r) JSON_DATATYPE then rd_DoErr [JSON_SET; getKeyName table key; "."; data]
  else if String.eqb (datatype r) HASH_DATATYPE then rd_DoErr (hset_args table key values)
  else rd_Set (getKeyName table key) data.

Definition redis_Delete (table key : string) : M C (option error) := rd_Del (getKeyName table key).

Definition redis_DB : DB C := {|
  Close := in_db rd_Close;
  InitThread _ _ := mret tt;
  CleanupThread := mret tt;
  Read table key fs := in_db (redis_Read table key fs);
  Scan table key n fs := in_db (redis_Scan table key n fs);
  Update table key v := in_db (redis_Update table key v);
  Insert table key v := in_db (redis_Insert table key v);
  Delete table key := in_db (redis_Delete table key);
  as_BatchDB := None;
  as_AnalyzeDB := None;
  as_CountDB := None;
  as_CleanDB := None
|}.
End redis.

(** ** Opening *)

Section open.
Context {P : Type} `{Properties P} `{MoreProperties P} (p : P).

(** [p.Get(k)], ignoring whether it is set. *)
Definition get_or_empty (k : string) : string := default "" (Get p k).

(** [CreateTLSConfig] stands for [util.CreateTLSConfig]; an error gives no configuration. *)
Definition parseTLS {T} (CreateTLSConfig : string → string → string → bool → error + T) : option T :=
  let caPath := get_or_empty "redis.tls_ca" in
  let certPath := get_or_empty "redis.tls_cert" in
  let keyPath := get_or_empty "redis.tls_key" in
  let insecureSkipVerify := GetBool p "redis.tls_insecure_skip_verify" false in
  if (negb (String.eqb certPath "") && negb (String.eqb keyPath "")) || negb (String.eqb caPath "") then
    match CreateTLSConfig caPath certPath keyPath insecureSkipVerify with inr config => Some config | inl _ => None end
  else None.

(** The pool size, from the number of threads when it is not set. *)
Definition redis_pool_size : res Z :=
  let PoolSize := GetInt p "redis.pool_size" 0 in
  threadCount ← MustGetInt p "threadcount";
  Ok (if PoolSize =? 0 then threadCount else PoolSize).

(** The settings of both kinds of client. *)
Definition redis_common : settings :=
  [("Username", SString (GetString p "redis.username" ""));
   ("Password", SString (get_or_empty "redis.password"));
   ("MaxRetries", SInt (GetInt p "redis.max_retries" 0));
   ("MinRetryBackoff", SDuration (GetDuration p "redis.min_retry_backoff" 8000000));
   ("MaxRetryBackoff", SDuration (GetDuration p "redis.max_retry_backoff" 512000000));
   ("DialTimeout", SDuration (GetDuration p "redis.dial_timeout" 5000000000));
   ("ReadTimeout", SDuration (GetDuration p "redis.read_timeout" 3000000000));
   ("WriteTimeout", SDuration (GetDuration p "redis.write_timeout" (GetDuration p "redis.read_timeout" 3000000000)))].

Definition redis_pool (PoolSize : Z) : settings :=
  [("PoolSize", SInt PoolSize);
   ("MinIdleConns", SInt (GetInt p "redis.min_idle_conns" PoolSize));
   ("MaxIdleConns", SInt (GetInt p "redis.max_idle_conns" PoolSize));
   ("ConnMaxLifetime", SDuration (GetDuration p "redis.max_conn_age" (-1)));
   ("PoolTimeout", SDuration (GetDuration p "redis.pool_timeout" (1000000000 +! GetDuration p "redis.read_timeout" 3000000000)));
   ("ConnMaxIdleTime", SDuration (GetDuration p "redis.idle_timeout" (-1)))].

Definition getOptionsSingle : res settings :=
  PoolSize ← redis_pool_size;
  Ok ([("Addr", SString (GetString p "redis.addr" "localhost:6379"));
       ("DB", SInt (GetInt p "redis.db" 0));
       ("Network", SString (GetString p "redis.network" "tcp"))] ++ redis_common ++ redis_pool PoolSize).

(** The addresses are separated by semicolons. *)
Definition getOptionsCluster : res (list string * settings) :=
  PoolSize ← redis_pool_size;
  Ok (Split (get_or_empty "redis.addr") ";",
      [("MaxRedirects", SInt (GetInt p "redis.max_redirects" 0));
       ("ReadOnly", SBool (GetBool p "redis.read_only" false));
       ("RouteByLatency", SBool (GetBool p "redis.route_by_latency" false));
       ("RouteRandomly", SBool (GetBool p "redis.route_randomly" false))] ++ redis_common ++ redis_pool PoolSize).

(** [Create]: [NewClient] and [NewClusterClient] make the clients, with a TLS
    configuration or none. *)
Definition redis_Create {C T} `{RedisClient C} (CreateTLSConfig : string → string → string → bool → error + T)
    (NewClient : settings → option T → C) (NewClusterClient : list string → settings → option T → C)
    : res (error + redis * C) :=
  let mode := GetString p "redis.mode" "single" in
  let cluster := String.eqb mode "cluster" in
  c ← (if cluster then '(addrs, o) ← getOptionsCluster; Ok (NewClusterClient addrs o (parseTLS CreateTLSConfig))
       else o ← getOptionsSingle; Ok (NewClient o (parseTLS CreateTLSConfig)));
  '(err, c) ← (
    _ ← (if cluster then rd_ReloadState else mret tt);
    err ← rd_Ping;
    match err with
    | Some e => mret (Some e)
    | None => if GetBool p prop.DropData prop.DropDataDefault then rd_FlushDB else mret None
    end) c;
  Ok match err with
     | Some e => inl e
     | None => inr ({| redis_mode := if cluster then "cluster" else "single";
                       datatype := GetString p "redis.datatype" "hash";
                       fieldcount := GetInt64 p prop.FieldCount prop.FieldCountDefault |}, c)
     end.
End open.
