(* ===== verification/RedisSpec.v ===== *)
(** * What the redis driver does to a record, in each data type *)

From S2P Require Import Prelude GoFloat GoStr GoText Props Util Ycsb KV TikvRows Json Redis.

(** The string keys of the database. *)
Class RedisLaws (C : Type) `{RedisClient C} (view : C → gmap string string) : Prop := {
  law_rd_Get : ∀ k c r c', rd_Get k c = Ok (r, c') → view c' = view c ∧ ∀ s, r = inr s → view c !! k = Some s;
  law_rd_Set : ∀ k s c c', rd_Set k s c = Ok (None, c') → view c' = <[k := s]> (view c)
}.

Lemma unmarshals_null_Marshal m : ascii_keys m → unmarshals_null (Marshal m) = Ok false.
Proof.
  intros Hm. unfold unmarshals_null, parse_json. pose proof (parse_Marshal m "" (S (2 * String.length (Marshal m))) Hm) as E.
  rewrite string_app_nil_r in E. by rewrite E by lia.
Qed.

Lemma merge_Marshal json_message values m :
  ascii_keys m → mergeEncodedJsonWithMap json_message (Marshal m) values = Ok (inr (Marshal (values ∪ m))).
Proof.
  intros Hm. unfold mergeEncodedJsonWithMap. rewrite (Unmarshal_Marshal m ∅ Hm). cbn [mbind res_bind].
  rewrite (unmarshals_null_Marshal m Hm). cbn [mbind res_bind andb]. by rewrite (right_id_L ∅ (∪)).
Qed.

Section strings.
Context {C : Type} `{RedisClient C} (view : C → gmap string string) `{!RedisLaws C view}.
Context (json_message : json_error → error) (order : row → list (string * bytes)) (r : redis).
Context (Hjson : datatype r ≠ JSON_DATATYPE) (Hhash : datatype r ≠ HASH_DATATYPE).

(** The record is the JSON text of the row [v]. *)
Definition record (c : C) (table key : string) (v : row) : Prop :=
  view c !! getKeyName table key = Some (Marshal v) ∧ ascii_keys v.

Lemma other_type : String.eqb (datatype r) JSON_DATATYPE = false ∧ String.eqb (datatype r) HASH_DATATYPE = false.
Proof. by split; apply String.eqb_neq. Qed.

Lemma set_record table key v c c' :
  ascii_keys v → rd_Set (getKeyName table key) (Marshal v) c = Ok (None, c') →
  record c' table key v ∧ ∀ k, k ≠ getKeyName table key → view c' !! k = view c !! k.
Proof.
  intros Ha E. apply (law_rd_Set (view := view)) in E. unfold record. rewrite E, lookup_insert_eq.
  split; [done|]. intros k Hk. by rewrite lookup_insert_ne.
Qed.

Lemma read_record table key fs v c c' data err :
  record c table key v → redis_Read json_message r table key fs c = Ok ((data, err), c') →
  view c' = view c ∧ (err = None → data = v).
Proof.
  intros [Hv Ha] E. unfold redis_Read in E. destruct other_type as [Hj Hh]. rewrite Hj, Hh in E.
  apply bind_Ok in E as (g & c1 & E1 & E). apply (law_rd_Get (view := view)) in E1 as [Hc Hg].
  destruct g as [e|s]; [run_inv; done|]. specialize (Hg s eq_refl). rewrite Hv in Hg. injection Hg as <-.
  unfold lift in E. rewrite (Unmarshal_Marshal v ∅ Ha) in E. cbn in E. run_inv. split; [done|]. intros _.
  by rewrite (right_id_L ∅ (∪)).
Qed.

Lemma update_record table key values v0 c c' :
  Z.of_nat (size values) ≠ fieldcount r → ascii_keys values → record c table key v0 →
  redis_Update json_message order r table key values c = Ok (None, c') →
  record c' table key (values ∪ v0) ∧ ∀ k, k ≠ getKeyName table key → view c' !! k = view c !! k.
Proof.
  intros Hn Ha [Hv Ha0] E. unfold redis_Update in E. destruct other_type as [Hj Hh]. rewrite Hj, Hh in E.
  rewrite (proj2 (Z.eqb_neq _ _) Hn) in E. apply bind_Ok in E as (g & c1 & E1 & E).
  apply (law_rd_Get (view := view)) in E1 as [Hc Hg]. destruct g as [e|s]; [run_inv|].
  specialize (Hg s eq_refl). rewrite Hv in Hg. injection Hg as <-.
  apply bind_Ok in E as (x & c2 & E2 & E). unfold lift in E2. rewrite (merge_Marshal _ values v0 Ha0) in E2. injection E2 as <- <-.
  rewrite <- Hc. apply set_record; [|exact E]. intros k Hk. rewrite dom_union_L in Hk.
  apply elem_of_union in Hk as [Hk|Hk]; [by apply Ha|by apply Ha0].
Qed.

(** The string type.  An insert makes the record the row; a partial update merges into
    the stored row, an update of as many fields as the workload has replaces it without a
    look at what was stored, and a partial update of an absent record fails; a read gives
    back the whole row, whatever fields it asks for.  No other key changes.  (Field names
    are ASCII.) *)
Lemma redis_strings table key values fs c c1 :
  ascii_keys values →
  (redis_Insert order r table key values c = Ok (None, c1) ∨
   Z.of_nat (size values) = fieldcount r ∧ redis_Update json_message order r table key values c = Ok (None, c1) →
     record c1 table key values ∧ ∀ k, k ≠ getKeyName table key → view c1 !! k = view c !! k) ∧
  (∀ v0, Z.of_nat (size values) ≠ fieldcount r → record c table key v0 →
     redis_Update json_message order r table key values c = Ok (None, c1) →
     record c1 table key (values ∪ v0) ∧ ∀ k, k ≠ getKeyName table key → view c1 !! k = view c !! k) ∧
  (Z.of_nat (size values) ≠ fieldcount r → view c !! getKeyName table key = None →
     ∀ err, redis_Update json_message order r table key values c = Ok (err, c1) → err ≠ None ∧ view c1 = view c) ∧
  (∀ v data err, record c table key v → redis_Read json_message r table key fs c = Ok ((data, err), c1) →
     view c1 = view c ∧ (err = None → data = v)).
Proof.
  intros Ha. destruct other_type as [Hj Hh]. split; [|split; [|split]].
  - intros [E|[Hn E]].
    + unfold redis_Insert in E. rewrite Hj, Hh in E. by apply set_record.
    + unfold redis_Update in E. rewrite Hj, Hh in E. rewrite (proj2 (Z.eqb_eq _ _) Hn) in E. by apply set_record.
  - intros v0 Hn Hr E. by apply (update_record table key values v0 c c1).
  - intros Hn Hv err E. unfold redis_Update in E. rewrite Hj, Hh in E. rewrite (proj2 (Z.eqb_neq _ _) Hn) in E.
    apply bind_Ok in E as (g & c2 & E1 & E). apply (law_rd_Get (view := view)) in E1 as [Hc Hg].
    destruct g as [e|s]; [run_inv; done|]. specialize (Hg s eq_refl). congruence.
  - intros v data err Hr E. by apply (read_record table key fs v c c1).
Qed.
End strings.

(** ** The hash and JSON types *)

Section others.
Context {C : Type} `{RedisClient C} (json_message : json_error → error) (order : row → list (string * bytes)) (r : redis).

Lemma read_slice_zip fields replies data :
  (length replies <= length fields)%nat →
  read_slice fields replies data = Ok (foldl (λ m kv, <[fst kv := bytes_of_string (snd kv)]> m) data (zip fields replies)).
Proof.
  revert fields data. induction replies as [|s replies IH]; intros [|f fields] data Hl; simpl in *; try done; [lia|].
  apply IH. lia.
Qed.

(** The hash type reads without errors: whatever the command answers, an error too,
    [Read] reports success, with an empty row after an error and otherwise with the
    values of the reply under the fields asked for; and the error, whatever it is, is
    gone. *)
Lemma redis_hash_hides_errors table key fs c :
  datatype r = HASH_DATATYPE →
  (∀ e c1, rd_DoStrings (HMGET :: getKeyName table key :: fs) c = Ok (inl e, c1) →
     redis_Read json_message r table key fs c = Ok ((∅, None), c1)) ∧
  (∀ l c1, rd_DoStrings (HMGET :: getKeyName table key :: fs) c = Ok (inr l, c1) → (length l <= length fs)%nat →
     redis_Read json_message r table key fs c =
       Ok ((foldl (λ m kv, <[fst kv := bytes_of_string (snd kv)]> m) ∅ (zip fs l), None), c1)) ∧
  (∀ data err c1, redis_Read json_message r table key fs c = Ok ((data, err), c1) → err = None).
Proof.
  intros Hd. assert (Hj : String.eqb (datatype r) JSON_DATATYPE = false) by (by rewrite Hd).
  assert (Hh : String.eqb (datatype r) HASH_DATATYPE = true) by (by rewrite Hd).
  unfold redis_Read. rewrite Hj, Hh. split; [|split].
  - intros e c1 E. unfold mbind, M_bind. by rewrite E.
  - intros l c1 E Hl. unfold mbind, M_bind. rewrite E. unfold lift. by rewrite read_slice_zip.
  - intros data err c1 E. apply bind_Ok in E as (g & c2 & E1 & E). destruct g as [e|l]; [by run_inv|].
    apply bind_Ok in E as (d & c3 & E2 & E). by run_inv.
Qed.

(** The JSON type stores the same value in two ways.  The document an insert sends
    holds every value as base64 text, while an update sends the bytes themselves between
    quotes: for a value of plain characters that is another JSON string, and a value that
    starts with a quote is the empty string with something behind it. *)
Lemma redis_json_encodings table key (values : row) f b :
  datatype r = JSON_DATATYPE → ascii_keys values → values !! f = Some b →
  (∃ doc l, (∀ c, redis_Insert order r table key values c = rd_DoErr [JSON_SET; getKeyName table key; "."; doc] c) ∧
     parse_json doc = Ok (Some (JObject l, "")) ∧ (f, JString (b64_encode b)) ∈ l) ∧
  ((f, b) ∈ order values →
     [JSON_SET; getKeyName table key; getFieldJsonPath f; jsonEscape b] ∈ json_set_fields order table key values) ∧
  (all_in plain_char (string_of_bytes b) = true → parse_json (jsonEscape b) = Ok (Some (JString (string_of_bytes b), ""))) ∧
  (∀ s, string_of_bytes b = String dquote s → ∃ rest, parse_json (jsonEscape b) = Ok (Some (JString "", rest)) ∧ rest = s +:+ String dquote "").
Proof.
  intros Hd Ha Hf. split; [|split; [|split]].
  - eexists _, _. split; [intros c; unfold redis_Insert; by rewrite Hd|]. split.
    + unfold parse_json. pose proof (parse_Marshal values "" (S (2 * String.length (Marshal values))) Ha) as E.
      rewrite string_app_nil_r in E. by rewrite E by lia.
    + apply list_elem_of_fmap. exists f. unfold member_of, json_value. rewrite Hf. split; [done|].
      apply sorted_keys_elem, elem_of_dom. by exists b.
  - intros Hin. apply list_elem_of_fmap. by exists (f, b).
  - intros Hp. unfold jsonEscape, parse_json. cbn [parse_value].
    rewrite <- (string_app_nil_r (quote (string_of_bytes b))), quote_app.
    rewrite next_char_solid by done. cbn [Ascii.eqb dquote Bool.eqb]. by rewrite (parse_plain_text _ _ Hp).
  - intros s Hs. eexists. split; [|done]. unfold jsonEscape, parse_json. rewrite Hs. reflexivity.
Qed.
End others.

(** ** A client in memory, on which the laws hold *)

#[global] Instance mem_RedisClient : RedisClient (gmap string string) := {
  rd_Get k := λ m, Ok (match m !! k with Some s => inr s | None => inl "redis: nil" end, m);
  rd_Set k s := λ m, Ok (None, <[k := s]> m);
  rd_Del k := λ m, Ok (None, delete k m);
  rd_DoErr _ := mret None;
  rd_DoStrings _ := mret (inl "connection refused");
  rd_Pipeline _ := mret (Some "connection refused", []);
  rd_Ping := mret None;
  rd_FlushDB := λ m, Ok (None, ∅);
  rd_ReloadState := mret tt;
  rd_Close := mret None
}.

#[global] Instance mem_RedisLaws : RedisLaws (gmap string string) id.
Proof.
  split; cbn [rd_Get rd_Set mem_RedisClient]; unfold id.
  - intros k m r m' E. destruct (m !! k) as [s|] eqn:Ek; injection E as <- <-; (split; [done|]); intros s' Hs; by simplify_eq.
  - by intros k s c c' [= <-].
Qed.
