(* ===== verification/LocalSpec.v ===== *)
(** * What the embedded drivers do to a table

    The contracts of the stores, the abstract table of rows with its steps
    ([table_step]), and the proofs that the drivers of LocalKV.v implement it, history by
    history, and what their scans return. *)

From S2P Require Import Prelude GoFloat GoStr Props Row Util Ycsb KV TikvRows LocalKV.

(** ** Contracts *)

(** [View] changes nothing.  An [Update] without an error has committed what the function
    did; one with an error has done nothing, or failed after the function had succeeded
    and may have committed all it did. *)
Class TxRunnerLaws (C T V : Type) `{TxRunner C T} (committed : C → V) (seen : T → V) : Prop := {
  law_View : ∀ X A (d : A) f (c : C) (x : X) r c' x', run_View d f (c, x) = Ok (r, (c', x')) →
    committed c' = committed c ∧
    (snd r = None → ∃ t t', seen t = committed c ∧ f (t, x) = Ok (r, (t', x')));
  law_Update : ∀ X A (d : A) f (c : C) (x : X) r c' x', run_Update d f (c, x) = Ok (r, (c', x')) →
    (snd r ≠ None ∧ committed c' = committed c) ∨
    ∃ t t', seen t = committed c ∧ f (t, x) = Ok ((fst r, None), (t', x')) ∧ committed c' = seen t'
}.

Class BadgerTxLaws (T : Type) `{BadgerTx T} (seen : T → store) : Prop := {
  law_bt_Get : ∀ k t r t', bt_Get k t = Ok (r, t') →
    seen t' = seen t ∧ ∀ b, r = inr (inr b) → seen t !! k = Some b;
  law_bt_Set : ∀ k v t t', bt_Set k v t = Ok (None, t') → seen t' = <[k := v]> (seen t);
  law_bt_Delete : ∀ k t t', bt_Delete k t = Ok (None, t') → seen t' = delete k (seen t);
  law_bt_From : ∀ k t items t', bt_From k t = Ok (items, t') →
    Forall2 (λ item kv, ∀ b, item = inr b → b = snd kv) items (range_entries (seen t) k None)
}.

(** [KeyN] counts entries: when it reports none, the bucket has none. *)
Class BoltTxLaws (T : Type) `{BoltTx T} (seen : T → gmap bytes store) : Prop := {
  law_bx_Bucket : ∀ n t r t', bx_Bucket n t = Ok (r, t') →
    seen t' = seen t ∧ r = bool_decide (is_Some (seen t !! n));
  law_bx_Create : ∀ n t t', bx_CreateBucketIfNotExists n t = Ok (None, t') →
    seen t' = <[n := default ∅ (seen t !! n)]> (seen t);
  law_bx_DeleteBucket : ∀ n t err t', bx_DeleteBucket n t = Ok (err, t') →
    seen t' = seen t ∨ seen t' = delete n (seen t);
  law_bx_Get : ∀ n k t b r t', seen t !! n = Some b → bx_Get n k t = Ok (r, t') → seen t' = seen t ∧ r = b !! k;
  law_bx_Put : ∀ n k v t b t', seen t !! n = Some b → bx_Put n k v t = Ok (None, t') →
    seen t' = <[n := <[k := v]> b]> (seen t);
  law_bx_Delete : ∀ n k t b t', seen t !! n = Some b → bx_Delete n k t = Ok (None, t') →
    seen t' = <[n := delete k b]> (seen t);
  law_bx_KeyN : ∀ n t b r t', seen t !! n = Some b → bx_KeyN n t = Ok (r, t') →
    seen t' = seen t ∧ (r = 0 → b = ∅);
  law_bx_Seek : ∀ n k t b l t', seen t !! n = Some b → bx_Seek n k t = Ok (l, t') → l = range_entries b k None
}.

(** A put or a delete with an error may have been applied. *)
Class RocksDBLaws (C : Type) `{RocksDB C} (view : C → store) : Prop := {
  law_rk_Get : ∀ k c r c', rk_Get k c = Ok (r, c') →
    view c' = view c ∧ ∀ b, r = inr b → b = default [] (view c !! k);
  law_rk_Put : ∀ k v c err c', rk_Put k v c = Ok (err, c') →
    view c' = <[k := v]> (view c) ∨ err ≠ None ∧ view c' = view c;
  law_rk_Delete : ∀ k c err c', rk_Delete k c = Ok (err, c') →
    view c' = delete k (view c) ∨ err ≠ None ∧ view c' = view c;
  law_rk_Seek : ∀ k c vs status c', rk_Seek k c = Ok ((vs, status), c') →
    view c' = view c ∧ vs `prefix_of` (range_entries (view c) k None).*2 ∧
    (status = None → vs = (range_entries (view c) k None).*2)
}.

(** ** The abstract table *)

Inductive table_write := TInsert (k : string) (v : row) | TUpdate (k : string) (v : row) | TDelete (k : string).

Inductive table_call := TRead (k : string) (fs : list string) | TWrite (w : table_write).

Inductive answer := Done (err : option error) | Got (r : row) (err : option error).

(** What a write that is done has done; with [upsert] an absent record is an empty one. *)
Definition table_apply (upsert : bool) (m : gmap string row) (w : table_write) : option (gmap string row) :=
  match w with
  | TInsert k v => Some (<[k := v]> m)
  | TUpdate k v =>
      match m !! k with
      | Some d => Some (<[k := merge_row v d]> m)
      | None => if upsert then Some (<[k := v]> m) else None
      end
  | TDelete k => Some (delete k m)
  end.

(** A table is what its writes do ([apply], [None] for a write that fails) and whether
    reading an absent record gives an empty row or an error.  A write with an error has
    done nothing or all. *)
Section table.
Context (apply : gmap string row → table_write → option (gmap string row)) (nil_reads : bool).

Inductive table_step (m : gmap string row) : table_call → answer → gmap string row → Prop :=
  | step_done w m' : apply m w = Some m' → table_step m (TWrite w) (Done None) m'
  | step_failed w e : table_step m (TWrite w) (Done (Some e)) m
  | step_unsure w e m' : apply m w = Some m' → table_step m (TWrite w) (Done (Some e)) m'
  | step_read k fs v : m !! k = Some v → table_step m (TRead k fs) (Got (restrict fs v) None) m
  | step_read_absent k fs : nil_reads = true → m !! k = None → table_step m (TRead k fs) (Got ∅ None) m
  | step_read_failed k fs r e : table_step m (TRead k fs) (Got r (Some e)) m.

Inductive table_run : gmap string row → list (table_call * answer) → gmap string row → Prop :=
  | run_nil m : table_run m [] m
  | run_cons m o a m1 l m2 : table_step m o a m1 → table_run m1 l m2 → table_run m ((o, a) :: l) m2.
End table.

(** A driver's operations on one table, and a history of calls. *)
Record Table (S : Type) := {
  t_Read : string → list string → M S (row * option error);
  t_Insert : string → row → M S (option error);
  t_Update : string → row → M S (option error);
  t_Delete : string → M S (option error)
}.
Arguments t_Read {S} _ _ _.
Arguments t_Insert {S} _ _ _.
Arguments t_Update {S} _ _ _.
Arguments t_Delete {S} _ _.

Definition table_do {S} (d : Table S) (o : table_call) : M S answer :=
  match o with
  | TRead k fs => '(r, err) ← t_Read d k fs; mret (Got r err)
  | TWrite (TInsert k v) => err ← t_Insert d k v; mret (Done err)
  | TWrite (TUpdate k v) => err ← t_Update d k v; mret (Done err)
  | TWrite (TDelete k) => err ← t_Delete d k; mret (Done err)
  end.

Fixpoint table_history {S} (d : Table S) (os : list table_call) : M S (list (table_call * answer)) :=
  match os with
  | [] => mret []
  | o :: os => a ← table_do d o; l ← table_history d os; mret ((o, a) :: l)
  end.

Definition badger_table {C T} `{TxRunner C T} `{BadgerTx T} order r (table : string) : Table (C * Pool) := {|
  t_Read := badger_Read r table;
  t_Insert := badger_Insert order r table;
  t_Update := badger_Update order r table;
  t_Delete := badger_Delete table
|}.

Definition bolt_table {C T} `{TxRunner C T} `{BoltTx T} order r (table : string) : Table (C * Pool) := {|
  t_Read := bolt_Read r table;
  t_Insert := bolt_Insert order r table;
  t_Update := bolt_Update order r table;
  t_Delete := bolt_Delete table
|}.

Definition rocks_table {C} `{RocksDB C} order r (table : string) : Table (C * Pool) := {|
  t_Read := rocks_Read r table;
  t_Insert := rocks_Insert order r table;
  t_Update := rocks_Update order r table;
  t_Delete := rocks_Delete table
|}.

(** A driver implements the abstract table when every call is one of its steps; then its
    histories are runs. *)
Section refines.
Context (fits : table_call → Prop) (apply : gmap string row → table_write → option (gmap string row)) (nil_reads : bool).
Context {S : Type} (d : Table S) (holds : S → gmap string row → Prop).

Definition implements : Prop := ∀ o s m a s',
  fits o → holds s m → table_do d o s = Ok (a, s') → ∃ m', table_step apply nil_reads m o a m' ∧ holds s' m'.

Definition refines : Prop := ∀ os s m l s',
  Forall fits os → holds s m → table_history d os s = Ok (l, s') →
  l.*1 = os ∧ ∃ m', table_run apply nil_reads m l m' ∧ holds s' m'.

Lemma implements_refines : implements → refines.
Proof.
  intros Hd os s m l s' Hos. revert s m l. induction Hos as [|o os Ho Hos IH]; intros s m l Hh E; cbn [table_history] in E.
  - run_inv. split; [done|]. exists m. split; [constructor|done].
  - apply bind_Ok in E as (a & s1 & E1 & E). apply bind_Ok in E as (l' & s2 & E2 & E). run_inv.
    destruct (Hd _ _ _ _ _ Ho Hh E1) as (m1 & Hs1 & Hh1). destruct (IH _ _ _ Hh1 E2) as (<- & m2 & Hr & Hh2).
    split; [done|]. exists m2. split; [by econstructor|done].
Qed.
End refines.

(** ** Proofs *)

#[global] Instance getRowKey_inj table : Inj (=) (=) (getRowKey table).
Proof. intros k k'. rewrite (getRowKey_app table k), (getRowKey_app table k'). intros E%(inj _). by apply (inj bytes_of_string) in E. Qed.

Section spec.
Context {P : Type} `{PropertiesLaws P} (p : P).
Context (order : row → list (string * bytes)) (Horder : ∀ m, order m ≡ₚ map_to_list m).

Abbreviation codec := (NewRowCodec p).

(** The rows of a call are ones the codec carries. *)
Definition call_fits (o : table_call) : Prop :=
  match o with
  | TRead _ fs => ∀ f, f ∈ fs → f ∈ fields codec
  | TWrite (TInsert _ v) | TWrite (TUpdate _ v) => row_ok p v
  | TWrite (TDelete _) => True
  end.

(** The rows [m] are stored in [V] under the keys [key]. *)
Definition stored (key : string → bytes) (V : store) (m : gmap string row) : Prop := ∀ k,
  match m !! k with
  | Some v => ∃ enc, V !! key k = Some enc ∧ encodes p enc v
  | None => V !! key k = None
  end.

Lemma stored_find key V m k enc : stored key V m → V !! key k = Some enc → ∃ v, m !! k = Some v ∧ encodes p enc v.
Proof.
  intros Hs Hk. specialize (Hs k). destruct (m !! k) as [v|]; [|congruence].
  destruct Hs as (enc' & E & He). exists v. split; [done|]. congruence.
Qed.

Lemma stored_insert key V m k v enc :
  Inj (=) (=) key → encodes p enc v → stored key V m → stored key (<[key k := enc]> V) (<[k := v]> m).
Proof.
  intros Hi He Hs k'. destruct (decide (k' = k)) as [->|Hne].
  - rewrite lookup_insert_eq. exists enc. by rewrite lookup_insert_eq.
  - rewrite !lookup_insert_ne by (congruence || (intros ?%(inj key); congruence)). apply Hs.
Qed.

Lemma stored_delete key V m k : Inj (=) (=) key → stored key V m → stored key (delete (key k) V) (delete k m).
Proof.
  intros Hi Hs k'. destruct (decide (k' = k)) as [->|Hne].
  - by rewrite !lookup_delete_eq.
  - rewrite !lookup_delete_ne by (congruence || (intros ?%(inj key); congruence)). apply Hs.
Qed.

Lemma stored_empty key m : stored key ∅ m → m = ∅.
Proof.
  intros Hs. apply map_eq. intros k. specialize (Hs k). rewrite lookup_empty. destruct (m !! k); [|done].
  destruct Hs as (enc & E & _). by rewrite lookup_empty in E.
Qed.

Lemma in_tx_Ok {T X A} (m : M T A) (t : T) (x : X) a t' x' :
  in_tx m (t, x) = Ok (a, (t', x')) → m t = Ok (a, t') ∧ x' = x.
Proof. unfold in_tx. intros E. apply zoom_Ok in E as (t1 & E & [= <- <-]). done. Qed.

Lemma encode_and_Ok {T} captured v (set : bytes → M T (option error)) t x t' x' :
  row_ok p v → encode_and captured codec order v set (t, x) = Ok (None, (t', x')) →
  ∃ enc, encodes p enc v ∧ set enc t = Ok (None, t').
Proof.
  intros Hv E. unfold encode_and, loc_with_buf in E. apply with_buf_Ok in E as (buf & q & b & [t2 q2] & q3 & E & [= -> ->]).
  cbn [fst snd] in *. destruct (Encode codec buf (order v)) as [e|enc] eqn:Ee; [run_inv|].
  apply bind_Ok in E as (err & [t3 q4] & E & E'). apply in_tx_Ok in E as [E ->]. run_inv.
  eexists. split; [eapply encode_encodes; [apply Horder|done|exact Ee]|exact E].
Qed.

Lemma merge_and_Ok {T} captured enc0 v0 v (set : bytes → M T (option error)) t x t' x' :
  encodes p enc0 v0 → row_ok p v → merge_and captured codec order enc0 v set (t, x) = Ok (None, (t', x')) →
  ∃ enc, encodes p enc (merge_row v v0) ∧ set enc t = Ok (None, t').
Proof.
  intros He Hv E. unfold merge_and in E. rewrite (encodes_decode_all p enc0 v0 He) in E.
  apply bind_Ok in E as (d & s1 & E1 & E). unfold lift in E1. injection E1 as <- <-.
  apply encode_and_Ok in E; [done|]. apply row_ok_union; [done|apply He].
Qed.

Lemma decode_row_Ok enc v fs r err :
  encodes p enc v → (∀ f, f ∈ fs → f ∈ fields codec) → decode_row codec enc fs = Ok (r, err) →
  r = restrict fs v ∧ err = None.
Proof. intros He Hfs E. unfold decode_row in E. rewrite (encodes_decode p enc v fs He Hfs) in E. by injection E as <- <-. Qed.

(** *** Transactions run by functions *)

Section runner.
Context {C T V : Type} `{TxRunner C T} (committed : C → V) (seen : T → V) `{!TxRunnerLaws C T V committed seen}.
Context (rep : V → gmap string row → Prop).

Lemma run_Update_step (f : M (T * Pool) (() * option error)) w m c x err c' x' :
  (∀ t t' u x', seen t = committed c → f (t, x) = Ok ((u, None), (t', x')) →
     ∃ m', table_apply false m w = Some m' ∧ rep (seen t') m') →
  rep (committed c) m → ('(_, err) ← run_Update tt f; mret err) (c, x) = Ok (err, (c', x')) →
  ∃ m', table_step (table_apply false) false m (TWrite w) (Done err) m' ∧ rep (committed c') m'.
Proof.
  intros Hf Hr E. apply bind_Ok in E as ([u err'] & [c1 x1] & E1 & E). run_inv.
  apply (law_Update (committed := committed) (seen := seen)) in E1 as [[Hne Hc]|(t & t' & Ht & E1 & Hc)].
  - cbn [snd] in Hne. destruct err as [e|]; [|done]. exists m. split; [constructor|congruence].
  - cbn [fst] in E1. destruct (Hf _ _ _ _ Ht E1) as (m' & Ha & Hr'). exists m'. rewrite Hc. split; [|done].
    destruct err; by constructor.
Qed.

Lemma run_tx_step (f : M (T * Pool) (option error)) w m c x err c' x' :
  (∀ t t' x', seen t = committed c → f (t, x) = Ok (None, (t', x')) →
     ∃ m', table_apply false m w = Some m' ∧ rep (seen t') m') →
  rep (committed c) m → run_tx f (c, x) = Ok (err, (c', x')) →
  ∃ m', table_step (table_apply false) false m (TWrite w) (Done err) m' ∧ rep (committed c') m'.
Proof.
  intros Hf. apply run_Update_step. intros t t' u y Ht E.
  apply bind_Ok in E as (err1 & [t1 y1] & E1 & E). run_inv. by eapply Hf.
Qed.

Lemma run_View_step (f : M (T * Pool) (row * option error)) k fs m c x r err c' x' :
  (∀ t t' r x', seen t = committed c → f (t, x) = Ok ((r, None), (t', x')) → ∃ v, m !! k = Some v ∧ r = restrict fs v) →
  rep (committed c) m → run_View ∅ f (c, x) = Ok ((r, err), (c', x')) →
  ∃ m', table_step (table_apply false) false m (TRead k fs) (Got r err) m' ∧ rep (committed c') m'.
Proof.
  intros Hf Hr E. apply (law_View (committed := committed) (seen := seen)) in E as [Hc Hv]. cbn [snd] in Hv.
  exists m. rewrite Hc. split; [|done]. destruct err as [e|]; [constructor|].
  destruct (Hv eq_refl) as (t & t' & Ht & E). destruct (Hf _ _ _ _ Ht E) as (v & Hm & ->). by constructor.
Qed.
End runner.

(** *** badger *)

Section badger.
Context {C T : Type} `{TxRunner C T} `{BadgerTx T} (committed : C → store) (seen : T → store).
Context `{!TxRunnerLaws C T store committed seen} `{!BadgerTxLaws T seen}.

Definition badger_holds (table : string) (s : C * Pool) (m : gmap string row) : Prop :=
  stored (getRowKey table) (committed (fst s)) m.

Lemma badger_implements table : implements call_fits (table_apply false) false (badger_table order codec table) (badger_holds table).
Proof.
  unfold badger_holds. intros [k fs|[k v|k v|k]] [c x] m a [c' x'] Hfit Hs E; cbn [table_do badger_table t_Read t_Insert t_Update t_Delete] in E;
    [apply bind_Ok in E as ([r err] & s1 & E1 & E)|apply bind_Ok in E as (r & s1 & E1 & E)..]; run_inv.
  - eapply (run_View_step committed seen (stored (getRowKey table))); [|exact Hs|exact E1].
    intros t t' r1 x1 Ht E. apply bind_Ok in E as (item & [t2 x2] & E2 & E). apply in_tx_Ok in E2 as [E2 ->].
    apply (law_bt_Get (seen := seen)) in E2 as [_ Hb]. destruct item as [|[|b]]; [run_inv..|].
    specialize (Hb b eq_refl). rewrite Ht in Hb. destruct (stored_find _ _ _ _ _ Hs Hb) as (v & Hm & He).
    unfold lift in E. destruct (decode_row codec b fs) as [[r2 err2]|?|?|] eqn:Ed; run_inv.
    destruct (decode_row_Ok b v fs _ _ He Hfit Ed) as [-> _]. by exists v.
  - eapply (run_tx_step committed seen (stored (getRowKey table))); [|exact Hs|exact E1].
    intros t t' x1 Ht E. apply encode_and_Ok in E as (enc & He & E); [|done].
    apply (law_bt_Set (seen := seen)) in E. eexists. split; [done|]. rewrite E, Ht.
    by apply stored_insert; [apply _|..].
  - eapply (run_tx_step committed seen (stored (getRowKey table))); [|exact Hs|exact E1].
    intros t t' x1 Ht E. apply bind_Ok in E as (item & [t2 x2] & E2 & E). apply in_tx_Ok in E2 as [E2 ->].
    apply (law_bt_Get (seen := seen)) in E2 as [Ht2 Hb]. destruct item as [|[|b]]; [run_inv..|].
    specialize (Hb b eq_refl). rewrite Ht in Hb. destruct (stored_find _ _ _ _ _ Hs Hb) as (d & Hm & He).
    destruct (merge_and_Ok true b d v _ _ _ _ _ He Hfit E) as (enc & He' & E').
    apply (law_bt_Set (seen := seen)) in E'. cbn [table_apply]. rewrite Hm. eexists. split; [done|].
    rewrite E', Ht2, Ht. by apply stored_insert; [apply _|..].
  - eapply (run_tx_step committed seen (stored (getRowKey table))); [|exact Hs|exact E1].
    intros t t' x1 Ht E. apply in_tx_Ok in E as [E ->]. apply (law_bt_Delete (seen := seen)) in E.
    eexists. split; [done|]. rewrite E, Ht. by apply stored_delete; [apply _|].
Qed.
End badger.

(** *** bolt *)

Section bolt.
Context {C T : Type} `{TxRunner C T} `{BoltTx T} (committed : C → gmap bytes store) (seen : T → gmap bytes store).
Context `{!TxRunnerLaws C T (gmap bytes store) committed seen} `{!BoltTxLaws T seen}.

(** A table without a bucket is empty. *)
Definition bucket_holds (table : string) (V : gmap bytes store) (m : gmap string row) : Prop :=
  stored bytes_of_string (default ∅ (V !! bytes_of_string table)) m.

Definition bolt_holds (table : string) (s : C * Pool) (m : gmap string row) : Prop :=
  bucket_holds table (committed (fst s)) m.

Lemma bolt_find_Ok {A} (none : A) table key f m (t : T) (x : Pool) a t' x' :
  bucket_holds table (seen t) m → bolt_find none table key f (t, x) = Ok ((a, None), (t', x')) →
  ∃ b enc v t1, seen t1 = seen t ∧ seen t !! bytes_of_string table = Some b ∧ stored bytes_of_string b m ∧
    m !! key = Some v ∧ encodes p enc v ∧ f enc (t1, x) = Ok ((a, None), (t', x')).
Proof.
  intros Hs E. unfold bolt_find in E. apply bind_Ok in E as (bk & [t1 x1] & E1 & E). apply in_tx_Ok in E1 as [E1 ->].
  apply (law_bx_Bucket (seen := seen)) in E1 as [Ht1 ->]. case_bool_decide as Hb; [|run_inv].
  destruct Hb as [b Hb]. apply bind_Ok in E as (v & [t2 x2] & E2 & E). apply in_tx_Ok in E2 as [E2 ->].
  apply (law_bx_Get (seen := seen) _ _ _ b) in E2 as [Ht2 ->]; [|congruence].
  unfold bucket_holds in Hs. rewrite Hb in Hs. cbn [default id] in Hs.
  destruct (b !! bytes_of_string key) as [enc|] eqn:Ek; [|run_inv].
  destruct (stored_find _ _ _ _ _ Hs Ek) as (v & Hm & He).
  exists b, enc, v, t2. split; [congruence|done].
Qed.

Lemma bucket_insert table V b m k v enc :
  stored bytes_of_string b m → encodes p enc v →
  bucket_holds table (<[bytes_of_string table := <[bytes_of_string k := enc]> b]> V) (<[k := v]> m).
Proof.
  intros Hs He. unfold bucket_holds. rewrite lookup_insert_eq. by apply stored_insert; [apply _|..].
Qed.

Lemma bolt_delete_step table k m (t : T) (x : Pool) t' x' :
  bucket_holds table (seen t) m →
  in_tx (
    bucket ← bx_Bucket (bytes_of_string table);
    if (bucket : bool) then
      err ← bx_Delete (bytes_of_string table) (bytes_of_string k);
      match err with
      | Some e => mret (Some e)
      | None =>
          n ← bx_KeyN (bytes_of_string table);
          _ ← (if n =? 0 then bx_DeleteBucket (bytes_of_string table) else mret None);
          mret None
      end
    else mret None) (t, x) = Ok (None, (t', x')) →
  bucket_holds table (seen t') (delete k m).
Proof.
  intros Hs E. apply in_tx_Ok in E as [E ->]. apply bind_Ok in E as (bk & t1 & E1 & E).
  apply (law_bx_Bucket (seen := seen)) in E1 as [Ht1 ->]. unfold bucket_holds in *. case_bool_decide as Hb.
  - destruct Hb as [b Hb]. rewrite Hb in Hs. cbn [default id] in Hs.
    apply bind_Ok in E as (err & t2 & E2 & E). destruct err as [e|]; [run_inv|].
    apply (law_bx_Delete (seen := seen) _ _ _ b) in E2; [|congruence].
    apply bind_Ok in E as (n & t3 & E3 & E).
    apply (law_bx_KeyN (seen := seen) _ _ (delete (bytes_of_string k) b)) in E3 as [Ht3 Hn];
      [|by rewrite E2, lookup_insert_eq].
    apply (stored_delete _ _ _ k) in Hs; [|apply _].
    assert (Hst : stored bytes_of_string (default ∅ (seen t3 !! bytes_of_string table)) (delete k m)).
    { by rewrite Ht3, E2, lookup_insert_eq. }
    apply bind_Ok in E as (u & t4 & E4 & E). run_inv. destruct (n =? 0) eqn:En; [|run_inv; done].
    apply (law_bx_DeleteBucket (seen := seen)) in E4 as [->| ->]; [done|].
    rewrite lookup_delete_eq. cbn [default]. apply Z.eqb_eq in En. by rewrite (Hn En) in Hs.
  - run_inv. destruct (seen t !! bytes_of_string table) eqn:E1; [by destruct Hb|]. cbn [default] in *.
    rewrite Ht1, E1. cbn [default]. rewrite (stored_empty _ _ Hs). by rewrite delete_empty, <- (stored_empty _ _ Hs).
Qed.

Lemma bolt_implements table : implements call_fits (table_apply false) false (bolt_table order codec table) (bolt_holds table).
Proof.
  unfold bolt_holds. intros [k fs|[k v|k v|k]] [c x] m a [c' x'] Hfit Hs E; cbn [table_do bolt_table t_Read t_Insert t_Update t_Delete] in E;
    [apply bind_Ok in E as ([r err] & s1 & E1 & E)|apply bind_Ok in E as (r & s1 & E1 & E)..]; run_inv.
  - eapply (run_View_step committed seen (bucket_holds table)); [|exact Hs|exact E1].
    intros t t' r1 x1 Ht E. cbn [fst] in Hs. rewrite <- Ht in Hs.
    destruct (bolt_find_Ok _ _ _ _ _ _ _ _ _ _ Hs E) as (b & enc & v & t1 & _ & _ & _ & Hm & He & E2).
    unfold lift in E2. destruct (decode_row codec enc fs) as [[r2 err2]|?|?|] eqn:Ed; run_inv.
    destruct (decode_row_Ok enc v fs _ _ He Hfit Ed) as [-> _]. by exists v.
  - eapply (run_tx_step committed seen (bucket_holds table)); [|exact Hs|exact E1].
    intros t t' x1 Ht E. cbn [fst] in Hs. rewrite <- Ht in Hs. apply bind_Ok in E as (err & [t1 x2] & E2 & E).
    apply in_tx_Ok in E2 as [E2 ->]. destruct err as [e|]; [run_inv|].
    apply (law_bx_Create (seen := seen)) in E2. apply encode_and_Ok in E as (enc & He & E); [|done].
    apply (law_bx_Put (seen := seen) _ _ _ _ (default ∅ (seen t !! bytes_of_string table))) in E;
      [|by rewrite E2, lookup_insert_eq].
    eexists. split; [done|]. rewrite E. by apply bucket_insert.
  - eapply (run_Update_step committed seen (bucket_holds table)); [|exact Hs|exact E1].
    intros t t' u x1 Ht E. cbn [fst] in Hs. rewrite <- Ht in Hs.
    destruct (bolt_find_Ok _ _ _ _ _ _ _ _ _ _ Hs E) as (b & enc & d & t1 & Ht1 & Hb & Hsb & Hm & He & E2).
    apply bind_Ok in E2 as (err & [t2 x2] & E2 & E3). run_inv.
    destruct (merge_and_Ok true enc d v _ _ _ _ _ He Hfit E2) as (enc' & He' & E').
    apply (law_bx_Put (seen := seen) _ _ _ _ b) in E'; [|congruence]. cbn [table_apply]. rewrite Hm.
    eexists. split; [done|]. rewrite E'. by apply bucket_insert.
  - eapply (run_tx_step committed seen (bucket_holds table)); [|exact Hs|exact E1].
    intros t t' x1 Ht E. cbn [fst] in Hs. rewrite <- Ht in Hs. eexists. split; [done|]. by eapply bolt_delete_step.
Qed.
End bolt.

(** *** rocksdb *)

Section rocksdb.
Context {C : Type} `{RocksDB C} (view : C → store) `{!RocksDBLaws C view}.

Definition rocks_holds (table : string) (s : C * Pool) (m : gmap string row) : Prop :=
  stored (getRowKey table) (view (fst s)) m.

Lemma rocks_put_Ok table k v m c x err c' x' :
  row_ok p v → stored (getRowKey table) (view c) m →
  rocks_put order codec table k v (c, x) = Ok (err, (c', x')) →
  stored (getRowKey table) (view c') (<[k := v]> m) ∨ err ≠ None ∧ view c' = view c.
Proof.
  intros Hv Hs E. unfold rocks_put, loc_with_buf in E.
  apply with_buf_Ok in E as (buf & q & b & [t2 q2] & q3 & E & [= -> ->]). cbn [fst snd] in *.
  destruct (Encode codec buf (order v)) as [e|enc] eqn:Ee; [run_inv; by right|].
  apply bind_Ok in E as (err' & [t3 q4] & E & E'). apply in_tx_Ok in E as [E ->]. run_inv.
  apply (law_rk_Put (view := view)) in E as [->|[Hne ->]]; [left|by right].
  apply stored_insert; [apply _| |done]. eapply encode_encodes; [apply Horder|done|exact Ee].
Qed.

(** Reading: an absent record is an empty row. *)
Lemma rocks_Read_Ok table k fs m c x r err c' x' :
  (∀ f, f ∈ fs → f ∈ fields codec) → stored (getRowKey table) (view c) m →
  rocks_Read codec table k fs (c, x) = Ok ((r, err), (c', x')) →
  view c' = view c ∧ (err = None → r = match m !! k with Some v => restrict fs v | None => ∅ end).
Proof.
  intros Hfs Hs E. unfold rocks_Read in E. apply bind_Ok in E as (v & [c1 x1] & E1 & E). apply in_tx_Ok in E1 as [E1 ->].
  apply (law_rk_Get (view := view)) in E1 as [Hc Hb]. destruct v as [e|b]; [run_inv; by split|].
  specialize (Hb b eq_refl). unfold lift in E. destruct (decode_row codec b fs) as [[r2 err2]|?|?|] eqn:Ed; run_inv.
  split; [done|]. intros ->. specialize (Hs k). destruct (m !! k) as [v|].
  - destruct Hs as (enc & E1 & He). rewrite E1 in Ed. cbn [default] in Ed.
    by destruct (decode_row_Ok enc v fs _ _ He Hfs Ed) as [-> _].
  - rewrite Hs in Ed. cbn [default] in Ed. unfold decode_row in Ed. rewrite Decode_nil in Ed. by injection Ed as <-.
Qed.

Lemma rocks_implements table : implements call_fits (table_apply true) true (rocks_table order codec table) (rocks_holds table).
Proof.
  unfold rocks_holds. intros [k fs|[k v|k v|k]] [c x] m a [c' x'] Hfit Hs E; cbn [table_do rocks_table t_Read t_Insert t_Update t_Delete fst] in *;
    [apply bind_Ok in E as ([r err] & s1 & E1 & E)|apply bind_Ok in E as (r & s1 & E1 & E)..]; run_inv.
  - destruct (rocks_Read_Ok _ _ _ _ _ _ _ _ _ _ Hfit Hs E1) as [-> Hr]. exists m. split; [|done].
    destruct err as [e|]; [constructor|]. rewrite (Hr eq_refl). destruct (m !! k) eqn:Ek; by constructor.
  - destruct (rocks_put_Ok _ _ _ _ _ _ _ _ _ Hfit Hs E1) as [Hp|[Hne ->]].
    + exists (<[k := v]> m). split; [destruct r; by constructor|done].
    + exists m. destruct r; [split; [constructor|done]|done].
  - unfold rocks_Update in E1. apply bind_Ok in E1 as ([d err] & [c1 x1] & E2 & E1).
    apply (rocks_Read_Ok _ _ _ m) in E2 as [Hc Hd]; [|by intros ? ?%elem_of_nil|done].
    destruct err as [e|]; [run_inv; exists m; rewrite Hc; split; [constructor|done]|]. specialize (Hd eq_refl).
    assert (Ha : table_apply true m (TUpdate k v) = Some (<[k := merge_row v d]> m) ∧ row_ok p (merge_row v d)).
    { cbn [table_apply]. subst d. pose proof (Hs k) as Hk. destruct (m !! k) as [d|].
      - destruct Hk as (enc & _ & Hd & _). unfold restrict; rewrite decide_True by done. split; [done|]. by apply row_ok_union.
      - unfold merge_row. rewrite (right_id_L ∅ (∪)). done. }
    destruct Ha as [Ha Hok]. rewrite <- Hc in Hs.
    destruct (rocks_put_Ok _ _ _ _ _ _ _ _ _ Hok Hs E1) as [Hp|[Hne Hp]].
    + eexists. split; [|exact Hp]. destruct r; by constructor.
    + exists m. rewrite Hp. destruct r; [split; [constructor|done]|done].
  - apply in_tx_Ok in E1 as [E1 ->]. apply (law_rk_Delete (view := view)) in E1 as [->|[Hne ->]].
    + exists (delete k m). split; [destruct r; by constructor|]. by apply stored_delete; [apply _|].
    + exists m. destruct r; [split; [constructor|done]|done].
Qed.
End rocksdb.

(** ** Scans *)

(** [k] rows: the given ones, then nil. *)
Definition padded (k : nat) (rows : list row) : list row := take k rows ++ replicate (k - length rows) ∅.

Lemma fill_rows_Ok items entries vs fs k count done out :
  (∀ f, f ∈ fs → f ∈ fields codec) →
  Forall2 (λ item (kv : bytes * bytes), ∀ b, item = inr b → b = snd kv) items entries →
  Forall2 (λ kv v, encodes p (snd kv) v) entries vs →
  0 <= count → (length done + k)%nat = Z.to_nat count →
  fill_rows codec fs items (length done) count (done ++ replicate k ∅) = Ok (out, None) →
  out = done ++ padded k (restrict fs <$> vs).
Proof.
  intros Hfs Hi. revert vs k done. induction Hi as [|item kv items entries Hit _ IH]; intros vs k done Hv Hn Hk E; cbn [fill_rows] in E.
  - inversion Hv. subst. injection E as <-. unfold padded. by rewrite fmap_nil, take_nil, Nat.sub_0_r.
  - inversion Hv as [|? v ? vs' He Hv']. subst. destruct k as [|k].
    + rewrite (proj2 (Z.ltb_ge _ _)) in E by lia. by injection E as <-.
    + rewrite (proj2 (Z.ltb_lt _ _)) in E by lia. destruct item as [e|b]; [done|].
      rewrite (Hit b eq_refl), (encodes_decode p _ v fs He Hfs) in E. cbn [mbind res_bind] in E.
      rewrite insert_app_r_alt, Nat.sub_diag in E by lia. cbn [replicate insert list_insert] in E.
      change (done ++ restrict fs v :: replicate k ∅) with (done ++ [restrict fs v] ++ replicate k ∅) in E.
      rewrite app_assoc in E.
      replace (S (length done)) with (length (done ++ [restrict fs v])) in E by (rewrite length_app; simpl; lia).
      apply (IH vs') in E; [|done|done|rewrite length_app; simpl; lia].
      rewrite E, <- app_assoc. done.
Qed.

(** A scan without an error gives back exactly [n] rows: those of [entries] from the
    start key on, in key order, then nil rows; the length asked for is not negative, and
    the data are as they were. *)
Definition scan_exact {C V : Type} (view : C → V) (entries : V → string → list (bytes * bytes))
    (scan : string → Z → list string → M (C * Pool) (list row * option error)) : Prop :=
  ∀ key n fs c x rows s' vs,
  (∀ f, f ∈ fs → f ∈ fields codec) →
  Forall2 (λ kv v, encodes p (snd kv) v) (entries (view c) key) vs →
  scan key n fs (c, x) = Ok ((rows, None), s') →
  0 <= n ∧ rows = padded (Z.to_nat n) (restrict fs <$> vs) ∧ view (fst s') = view c.

Lemma lift_state {S A} (r : res A) (s : S) a s' : lift r s = Ok (a, s') → s' = s.
Proof. unfold lift. destruct r; by intros [= _ <-]. Qed.

Lemma make_rows_Ok {S} n (s : S) rows s' :
  lift (make_rows n) s = Ok (rows, s') → 0 <= n ∧ rows = replicate (Z.to_nat n) ∅ ∧ s' = s.
Proof. unfold lift, make_rows. destruct (n <? 0) eqn:E; intros [= <- <-]. apply Z.ltb_ge in E. done. Qed.

Lemma lift_fill_rows {S} items entries vs fs n (s : S) out s' :
  (∀ f, f ∈ fs → f ∈ fields codec) →
  Forall2 (λ item (kv : bytes * bytes), ∀ b, item = inr b → b = snd kv) items entries →
  Forall2 (λ kv v, encodes p (snd kv) v) entries vs → 0 <= n →
  lift (fill_rows codec fs items 0 n (replicate (Z.to_nat n) ∅)) s = Ok ((out, None), s') →
  out = padded (Z.to_nat n) (restrict fs <$> vs).
Proof.
  intros Hfs Hi Hv Hn E. unfold lift in E.
  destruct (fill_rows codec fs items 0 n (replicate (Z.to_nat n) ∅)) as [[rows err]|?|?|] eqn:Ef; run_inv.
  by apply (fill_rows_Ok items entries vs fs (Z.to_nat n) n []) in Ef.
Qed.

Lemma padded_take k n rows : (k <= n)%nat → padded k (take n rows) = padded k rows.
Proof. intros Hk. unfold padded. rewrite take_take, length_take, Nat.min_l by done. f_equal. f_equal. lia. Qed.

(** The values of the entries, as the items of a cursor. *)
Lemma items_of_entries (entries : list (bytes * bytes)) :
  Forall2 (λ item (kv : bytes * bytes), ∀ b, item = inr b → b = snd kv) (inr (A := error) <$> entries.*2) entries.
Proof. induction entries as [|kv entries IH]; constructor; [by intros b [= ->]|done]. Qed.
End spec.

Section claims.
Context {P : Type} `{PropertiesLaws P} (p : P).
Context (order : row → list (string * bytes)) (Horder : ∀ m, order m ≡ₚ map_to_list m).
Context {CB TB : Type} `{TxRunner CB TB} `{BadgerTx TB} (view_badger : CB → store) (seen_badger : TB → store).
Context `{!TxRunnerLaws CB TB store view_badger seen_badger} `{!BadgerTxLaws TB seen_badger}.
Context {CO TO : Type} `{TxRunner CO TO} `{BoltTx TO} (view_bolt : CO → gmap bytes store) (seen_bolt : TO → gmap bytes store).
Context `{!TxRunnerLaws CO TO (gmap bytes store) view_bolt seen_bolt} `{!BoltTxLaws TO seen_bolt}.
Context {CR : Type} `{RocksDB CR} (view_rocks : CR → store) `{!RocksDBLaws CR view_rocks}.

(** C29: The embedded drivers implement one abstract table of rows.  Every history of
    reads, inserts, updates and deletes on badger, bolt and rocksdb is a run of the
    abstract table from the rows that were stored, and ends with its rows stored: reads
    give the row restricted to the fields asked for, updates merge, and a call with an
    error has done nothing or all.  An absent record makes reads and updates of badger
    and bolt fail; for rocksdb it is an empty record. *)
Theorem local_tables_refine table :
  refines (call_fits p) (table_apply false) false (badger_table (C := CB) (T := TB) order (NewRowCodec p) table) (badger_holds p view_badger table) ∧
  refines (call_fits p) (table_apply false) false (bolt_table (C := CO) (T := TO) order (NewRowCodec p) table) (bolt_holds p view_bolt table) ∧
  refines (call_fits p) (table_apply true) true (rocks_table (C := CR) order (NewRowCodec p) table) (rocks_holds p view_rocks table).
Proof.
  split; [|split]; apply implements_refines.
  - by apply (badger_implements p order Horder view_badger seen_badger).
  - by apply (bolt_implements p order Horder view_bolt seen_bolt).
  - by apply (rocks_implements p order Horder view_rocks).
Qed.

(** The entries a scan of the key-value stores runs over: all from the row key on, also
    those of other tables; bolt's end with the bucket. *)
Definition kv_entries (table : string) (V : store) (key : string) : list (bytes * bytes) :=
  range_entries V (getRowKey table key) None.

Definition bucket_entries (table : string) (V : gmap bytes store) (key : string) : list (bytes * bytes) :=
  range_entries (default ∅ (V !! bytes_of_string table)) (bytes_of_string key) None.

Lemma badger_scan_exact table : scan_exact p view_badger (kv_entries table) (badger_Scan (NewRowCodec p) table).
Proof.
  intros key n fs c x rows [c' x'] vs Hfs Hv E. unfold badger_Scan in E.
  apply bind_Ok in E as (r & s1 & E1 & E). apply make_rows_Ok in E1 as (Hn & -> & ->).
  apply (law_View (committed := view_badger) (seen := seen_badger)) in E as [Hc Hf].
  destruct (Hf eq_refl) as (t & t' & Ht & E).
  apply bind_Ok in E as (items & [t1 x1] & E1 & E). apply in_tx_Ok in E1 as [E1 ->].
  apply (law_bt_From (seen := seen_badger)) in E1. rewrite Ht in E1.
  split; [done|split; [|done]]. eapply lift_fill_rows; [done|exact E1|exact Hv|done|exact E].
Qed.

Lemma bolt_scan_exact table : scan_exact p view_bolt (bucket_entries table) (bolt_Scan (NewRowCodec p) table).
Proof.
  intros key n fs c x rows [c' x'] vs Hfs Hv E. unfold bolt_Scan in E.
  apply bind_Ok in E as (r & s1 & E1 & E). apply make_rows_Ok in E1 as (Hn & -> & ->).
  apply (law_View (committed := view_bolt) (seen := seen_bolt)) in E as [Hc Hf].
  destruct (Hf eq_refl) as (t & t' & Ht & E).
  apply bind_Ok in E as (bk & [t1 x1] & E1 & E). apply in_tx_Ok in E1 as [E1 ->].
  apply (law_bx_Bucket (seen := seen_bolt)) in E1 as [Ht1 ->]. unfold bucket_entries in Hv. rewrite <- Ht in Hv.
  case_bool_decide as Hb; [|run_inv]. destruct Hb as [b Hb]. rewrite Hb in Hv.
  apply bind_Ok in E as (l & [t2 x2] & E2 & E). apply in_tx_Ok in E2 as [E2 ->].
  apply (law_bx_Seek (seen := seen_bolt) _ _ _ b) in E2 as ->; [|congruence].
  split; [done|split; [|done]]. eapply lift_fill_rows; [done|apply items_of_entries|exact Hv|done|exact E].
Qed.

Lemma rocks_scan_exact table : scan_exact p view_rocks (kv_entries table) (rocks_Scan (NewRowCodec p) table).
Proof.
  intros key n fs c x rows [c' x'] vs Hfs Hv E. unfold rocks_Scan in E.
  apply bind_Ok in E as (r & s1 & E1 & E). apply make_rows_Ok in E1 as (Hn & -> & ->).
  apply bind_Ok in E as ([values status] & [c1 x1] & E1 & E). apply in_tx_Ok in E1 as [E1 ->].
  apply bind_Ok in E as ([out err] & s2 & E2 & E). run_inv.
  pose proof (lift_state _ _ _ _ E2) as Hs. injection Hs as -> ->.
  apply (law_rk_Seek (view := view_rocks)) in E1 as (Hc & [rest Hpre] & Hst).
  destruct err as [e|]; [done|]. unfold kv_entries in Hv.
  set (entries := range_entries (view_rocks c) (getRowKey table key) None) in *.
  assert (Hout : out = padded (Z.to_nat n) (restrict fs <$> take (length values) vs)).
  { eapply (lift_fill_rows p); [exact Hfs| |apply list.Forall2_take, Hv|done|exact E2].
    assert (Hv2 : (take (length values) entries).*2 = values) by (rewrite fmap_take, Hpre; apply take_app_length).
    pose proof (items_of_entries (take (length values) entries)) as Hi. by rewrite Hv2 in Hi. }
  destruct (Z.of_nat (length values) <=? n) eqn:El.
  - destruct status as [e|]; [done|]. run_inv. split; [done|split; [|exact Hc]].
    rewrite Hst, length_fmap by done. rewrite (list.Forall2_length _ _ _ Hv). by rewrite firstn_all.
  - apply Z.leb_gt in El. run_inv. split; [done|split; [|exact Hc]]. rewrite fmap_take. apply padded_take. lia.
Qed.

(** Scans of the embedded drivers.  A scan without an error returns exactly as many
    rows as asked for: the rows stored from the start key on, in key order and restricted
    to the fields asked for, then nil rows when there are fewer.  badger and rocksdb do
    not stop at the end of the table: the rows of the tables behind it come next.  A
    negative count makes every one of them panic. *)
Lemma local_scans table :
  scan_exact p view_badger (kv_entries table) (badger_Scan (NewRowCodec p) table) ∧
  scan_exact p view_bolt (bucket_entries table) (bolt_Scan (NewRowCodec p) table) ∧
  scan_exact p view_rocks (kv_entries table) (rocks_Scan (NewRowCodec p) table) ∧
  ∀ key n fs, n < 0 →
    (∀ s, badger_Scan (C := CB) (NewRowCodec p) table key n fs s = Panic "makeslice: len out of range") ∧
    (∀ s, bolt_Scan (C := CO) (NewRowCodec p) table key n fs s = Panic "makeslice: len out of range") ∧
    (∀ s, rocks_Scan (C := CR) (NewRowCodec p) table key n fs s = Panic "makeslice: len out of range").
Proof.
  split; [apply badger_scan_exact|split; [apply bolt_scan_exact|split; [apply rocks_scan_exact|]]].
  intros key n fs Hn. by repeat split; intros s; cbv [badger_Scan bolt_Scan rocks_Scan make_rows lift];
    rewrite (proj2 (Z.ltb_lt _ _) Hn).
Qed.
End claims.

(** ** Stores that never fail, and the witnesses *)

(** The database and a transaction are the data themselves; an [Update] whose function
    fails keeps the old data. *)
#[global] Instance mem_TxRunner V : TxRunner V V := {
  run_View X A d f := λ s, '(r, s') ← f s; Ok (r, (fst s, snd s'));
  run_Update X A d f := λ s, '(r, s') ← f s; Ok (r, (match snd r with None => fst s' | Some _ => fst s end, snd s'))
}.

#[global] Instance mem_TxRunnerLaws V : TxRunnerLaws V V V id id.
Proof.
  split; intros X A d f c x r c' x' E; unfold run_View, run_Update, mem_TxRunner in E; apply res_bind_Ok in E as ([r1 [t1 x1]] & E1 & E);
    injection E as <- <- <-.
  - split; [done|]. intros _. by exists c, t1.
  - destruct r1 as [a [e|]]; [by left|right]. by exists c, t1.
Qed.

#[global] Instance mem_BadgerTx : BadgerTx store := {
  bt_Get k := λ m, Ok (match m !! k with Some v => inr (inr v) | None => inl "Key not found" end, m);
  bt_Set k v := λ m, Ok (None, <[k := v]> m);
  bt_Delete k := λ m, Ok (None, delete k m);
  bt_From k := λ m, Ok (inr <$> (range_entries m k None).*2, m)
}.

#[global] Instance mem_BadgerTxLaws : BadgerTxLaws store id.
Proof.
  split.
  - intros k t r t' [= <- <-]. split; [done|]. intros b Hb. unfold id. by destruct (t !! k); simplify_eq.
  - by intros k v t t' [= <-].
  - by intros k t t' [= <-].
  - intros k t items t' [= <- <-]. apply items_of_entries.
Qed.

#[global] Instance mem_BoltTx : BoltTx (gmap bytes store) := {
  bx_Bucket n := λ m, Ok (bool_decide (is_Some (m !! n)), m);
  bx_CreateBucketIfNotExists n := λ m, Ok (None, <[n := default ∅ (m !! n)]> m);
  bx_DeleteBucket n := λ m, Ok (None, delete n m);
  bx_Get n k := λ m, Ok (b ← m !! n; b !! k, m);
  bx_Put n k v := λ m, Ok (None, alter <[k := v]> n m);
  bx_Delete n k := λ m, Ok (None, alter (delete k) n m);
  bx_KeyN n := λ m, Ok (Z.of_nat (size (default ∅ (m !! n))), m);
  bx_Seek n k := λ m, Ok (range_entries (default ∅ (m !! n)) k None, m)
}.

#[global] Instance mem_BoltTxLaws : BoltTxLaws (gmap bytes store) id.
Proof.
  split; unfold id; cbn [bx_Bucket bx_CreateBucketIfNotExists bx_DeleteBucket bx_Get bx_Put bx_Delete bx_KeyN bx_Seek mem_BoltTx].
  - by intros n t r t' [= <- <-].
  - by intros n t t' [= <-].
  - intros n t err t' [= <- <-]. by right.
  - intros n k t b r t' Hb [= <- <-]. by rewrite Hb.
  - intros n k v t b t' Hb [= <-]. by apply alter_alt_Some.
  - intros n k t b t' Hb [= <-]. by apply alter_alt_Some.
  - intros n t b r t' Hb [= <- <-]. split; [done|]. rewrite Hb. cbn [default]. intros Hz.
    apply map_size_empty_inv. unfold id in Hz. lia.
  - intros n k t b l t' Hb [= <- <-]. by rewrite Hb.
Qed.

#[global] Instance mem_RocksDB : RocksDB store := {
  rk_Get k := λ m, Ok (inr (default [] (m !! k)), m);
  rk_Put k v := λ m, Ok (None, <[k := v]> m);
  rk_Delete k := λ m, Ok (None, delete k m);
  rk_Seek k := λ m, Ok (((range_entries m k None).*2, None), m);
  rk_Close := mret tt
}.

#[global] Instance mem_RocksDBLaws : RocksDBLaws store id.
Proof.
  split; unfold id; cbn [rk_Get rk_Put rk_Delete rk_Seek mem_RocksDB].
  - intros k c r c' [= <- <-]. split; [done|]. intros b Hb. by simplify_eq.
  - intros k v c err c' [= <- <-]. by left.
  - intros k c err c' [= <- <-]. by left.
  - intros k c vs status c' [= <- <- <-]. done.
Qed.

Definition ex_calls : list table_call :=
  [TWrite (TInsert "k" {["field0" := [x61]]}); TWrite (TUpdate "k" {["field1" := [x62]]}); TRead "k" [];
   TWrite (TDelete "k"); TWrite (TUpdate "k" {["field1" := [x62]]})].

Lemma ex_calls_fit : Forall (call_fits demo_props) ex_calls.
Proof.
  repeat (apply list.Forall_cons; split); try done;
    first [by apply ex_row_ok; [set_solver|] | by intros f ?%elem_of_nil].
Qed.

Lemma ex_empty_holds (key : string → bytes) : stored demo_props key ∅ ∅.
Proof. intros k. by rewrite !lookup_empty. Qed.

(** What the calls answer: the last update, of a deleted record, fails on badger and bolt. *)
Definition errors_of (l : list (table_call * answer)) : list bool :=
  (λ oa, match snd oa with Done (Some _) | Got _ (Some _) => true | _ => false end) <$> l.

Definition history_errors {S} (d : Table S) (s : S) : option (list bool) :=
  match table_history d ex_calls s with Ok (l, _) => Some (errors_of l) | _ => None end.

Lemma local_tables_refine_witness :
  history_errors (badger_table (T := store) mem_order (NewRowCodec demo_props) "t") (∅ : store, NewBufPool [])
    = Some [false; false; false; false; true] ∧
  history_errors (bolt_table (T := gmap bytes store) mem_order (NewRowCodec demo_props) "t") (∅ : gmap bytes store, NewBufPool [])
    = Some [false; false; false; false; true] ∧
  history_errors (rocks_table mem_order (NewRowCodec demo_props) "t") (∅ : store, NewBufPool [])
    = Some [false; false; false; false; false] ∧
  ∀ l s', table_history (rocks_table mem_order (NewRowCodec demo_props) "t") ex_calls (∅ : store, NewBufPool []) = Ok (l, s') →
    l.*1 = ex_calls ∧ ∃ m', table_run (table_apply true) true ∅ l m' ∧ rocks_holds demo_props id "t" s' m'.
Proof.
  split; [vm_compute; reflexivity|]. split; [vm_compute; reflexivity|]. split; [vm_compute; reflexivity|].
  intros l s' E.
  destruct (local_tables_refine demo_props mem_order (λ m, reflexivity _) (CB := store) (TB := store) id id
              (CO := gmap bytes store) (TO := gmap bytes store) id id (CR := store) id "t") as (_ & _ & Hr).
  apply (Hr ex_calls (∅, NewBufPool []) ∅ l s'); [apply ex_calls_fit|apply ex_empty_holds|exact E].
Defined.

(** A table of one row, and the row of another table behind it. *)
Definition ex_two_tables : store :=
  match Encode (NewRowCodec demo_props) [] [("field0", [x61])] with
  | inr enc => {[getRowKey "t" "k" := enc; getRowKey "u" "k" := enc]}
  | inl _ => ∅
  end.

Definition ex_row : row := {["field0" := [x61]]}.

Lemma ex_two_tables_entries :
  Forall2 (λ kv v, encodes demo_props (snd kv) v) (kv_entries "t" ex_two_tables "a") [ex_row; ex_row].
Proof.
  assert (Hok : row_ok demo_props ex_row) by (by apply ex_row_ok; [set_solver|]).
  assert (Hkvs : [("field0", [x61])] ≡ₚ map_to_list ex_row) by (unfold ex_row; by rewrite map_to_list_singleton).
  destruct (Encode (NewRowCodec demo_props) [] [("field0", [x61])]) as [e|enc] eqn:E; [by vm_compute in E|].
  assert (He : encodes demo_props enc ex_row) by by eapply encode_encodes.
  vm_compute in E. injection E as <-.
  assert (kv_entries "t" ex_two_tables "a" = [(getRowKey "t" "k", [x08; x00; x02; x02; x61]); (getRowKey "u" "k", [x08; x00; x02; x02; x61])])
    as -> by (vm_compute; reflexivity).
  by apply list.Forall2_cons; split; [|apply list.Forall2_cons; split].
Qed.

Lemma ex_no_fields : ∀ f : string, f ∈ ([] : list string) → f ∈ fields (NewRowCodec demo_props).
Proof. by intros f ?%elem_of_nil. Qed.

Definition scan_succeeds {S} (r : res (list row * option error * S)) : bool :=
  match r with Ok ((_, None), _) => true | _ => false end.

