(* ===== verification/Basic.v ===== *)
(** * db/basic

    The driver that prints the requested operations instead of performing them.  The
    state of a thread is its source of random numbers; the lines printed and the delays
    waited (which a cancelled context cuts short) are recorded. *)

From S2P Require Import Prelude GoFloat GoRand GoStr Props Util Ycsb.

Record basicDB := { basic_verbose : bool; randomizeDelay : bool; toDelay : Z }.

Record basic_state := { basic_rand : rand; basic_out : list string; basic_delays : list Z }.

Section basic.
Context (order : row → list (string * bytes)) (db : basicDB).

Definition basic_wait (delayTime : Z) : M basic_state unit :=
  modify (λ s, {| basic_rand := basic_rand s; basic_out := basic_out s; basic_delays := basic_delays s ++ [delayTime] |}).

(** [delayTime == 0] returns without a wait; times are 64-bit nanoseconds. *)
Definition delay : M basic_state unit :=
  if toDelay db =? 0 then mret tt
  else if randomizeDelay db then
    n ← zoom basic_rand (λ r s, {| basic_rand := r; basic_out := basic_out s; basic_delays := basic_delays s |})
          (Int63n (toDelay db));
    let delayTime := n *! 1000000 in
    if delayTime =? 0 then mret tt else basic_wait delayTime
  else basic_wait (toDelay db *! 1000000).

(** The text is written to the thread's buffer, printed, and the buffer reset. *)
Definition basic_print (s : string) : M basic_state unit :=
  if basic_verbose db then
    modify (λ st, {| basic_rand := basic_rand st; basic_out := basic_out st ++ [s]; basic_delays := basic_delays st |})
  else mret tt.

Definition words (fields : list string) : string := String.concat "" ((λ f, f +:+ " ") <$> fields).

Definition field_words (fields : list string) : string :=
  if decide (fields = []) then "<all fields> " else words fields.

Definition value_words (values : row) : string :=
  String.concat "" ((λ kv, fst kv +:+ "=" +:+ string_of_bytes (snd kv) +:+ " ") <$> order values).

Definition basic_Read (table key : string) (fields : list string) : M basic_state (row * option error) :=
  _ ← delay;
  _ ← basic_print ("READ " +:+ table +:+ " " +:+ key +:+ " [ " +:+ field_words fields +:+ "]");
  mret (∅, None).

Definition basic_Scan (table startKey : string) (count : Z) (fields : list string)
    : M basic_state (list row * option error) :=
  _ ← delay;
  _ ← basic_print ("SCAN " +:+ table +:+ " " +:+ startKey +:+ " " +:+ FormatInt count +:+ " [ " +:+ field_words fields +:+ "]");
  mret ([], None).

Definition basic_Update (table key : string) (values : row) : M basic_state (option error) :=
  _ ← delay;
  _ ← basic_print ("UPDATE " +:+ table +:+ " " +:+ key +:+ " [ " +:+ value_words values +:+ "]");
  mret None.

Definition insertRecord (table key : string) (values : row) : M basic_state unit :=
  basic_print ("INSERT " +:+ table +:+ " " +:+ key +:+ " [ " +:+ value_words values +:+ "]").

Definition basic_Insert (table key : string) (values : row) : M basic_state (option error) :=
  _ ← delay; _ ← insertRecord table key values; mret None.

Fixpoint insert_records (table : string) (keys : list string) (values : list row) : M basic_state unit :=
  match keys, values with
  | [], _ => mret tt
  | _ :: _, [] => panic "index out of range"
  | k :: keys, v :: values => _ ← insertRecord table k v; insert_records table keys values
  end.

(** One delay for the whole batch; without verbose mode the rows are not looked at. *)
Definition basic_BatchInsert (table : string) (keys : list string) (values : list row) : M basic_state (option error) :=
  _ ← delay;
  _ ← (if basic_verbose db then insert_records table keys values else mret tt);
  mret None.

Definition basic_Delete (table key : string) : M basic_state (option error) :=
  _ ← delay;
  _ ← basic_print ("DELETE " +:+ table +:+ " " +:+ key);
  mret None.

Definition not_implemented {A} : M basic_state A := panic "The basicDB has not implemented the batch operation".

(** [InitThread] makes a new source, seeded by the clock: [source]. *)
Definition basic_InitThread (source : rand) : M basic_state unit :=
  modify (λ s, {| basic_rand := source; basic_out := basic_out s; basic_delays := basic_delays s |}).

Definition basic_DB (source : rand) : DB basic_state := {|
  Close := mret None;
  InitThread _ _ := in_db (basic_InitThread source);
  CleanupThread := mret tt;
  Read table key fs := in_db (basic_Read table key fs);
  Scan table key n fs := in_db (basic_Scan table key n fs);
  Update table key v := in_db (basic_Update table key v);
  Insert table key v := in_db (basic_Insert table key v);
  Delete table key := in_db (basic_Delete table key);
  as_BatchDB := Some {|
    BatchInsert table ks vs := in_db (basic_BatchInsert table ks vs);
    BatchRead _ _ _ := in_db not_implemented;
    BatchUpdate _ _ _ := in_db not_implemented;
    BatchDelete _ _ := in_db not_implemented |};
  as_AnalyzeDB := None;
  as_CountDB := None;
  as_CleanDB := None
|}.
End basic.

Definition basic_Create {P} `{Properties P} (p : P) : basicDB := {|
  basic_verbose := GetBool p prop.Verbose prop.VerboseDefault;
  randomizeDelay := GetBool p "basicdb.randomizedelay" true;
  toDelay := GetInt64 p "basicdb.simulatedelay" 0
|}.
