(* ===== verification/Cmd.v ===== *)
(** * cmd/go-ycsb: main.go (initialGlobal), client.go, count.go, clean.go

    The commands, from the parsed flags to the call of the client, the count or the
    clean.  What is outside is a parameter: loading a property file
    ([properties.MustLoadFiles]), the registered creators of workloads and databases
    ([W] is the type of workloads), the new Prometheus writer, the text typed at the
    prompt.  A database creator gives the driver; it runs in the state of the databases,
    [d0] before the command, because opening one may create or drop its tables.

    The pprof server, the signal handler of [main] and the printing of the properties
    have no effect on the rest and are left out; so is the progress ticker of [count]. *)

From S2P Require Import Prelude GoFloat GoStr Props Util Ycsb Measurement.

(** The variables cobra binds to flags, and [cmd.Flags().Changed]. *)
Record flags := {
  propertyFiles : list string; propertyValues : list string; tableFlag : string;
  threadsArg : Z; targetArg : Z; reportInterval : Z;
  promeServer : string; benchNo : string; statistic : bool;
  countThreads : Z; countBatch : Z; cleanConfirm : bool;
  Changed : string → bool
}.

Definition FormatBool (b : bool) : string := if b then "true" else "false".

Section cmd.
Context {P : Type} `{Properties P} {W D HD PW : Type} `{HDR HD}.
Context (new_props : P) (load_files : list string → res P)
        (workloadCreators : gmap string (P → error + W))
        (dbCreators : gmap string (P → M D (error + DB D)))
        (new_writer : string → string → PW).

(** The globals of package main (and [globalMeasure]). *)
Record globals := {
  globalProps : P; globalMeasure : measurement P HD PW; tableName : string;
  globalWorkload : W; globalDB : DB D; globalState : D
}.

(** ** main.go *)

(** [for _, prop := range propertyValues] *)
Fixpoint set_properties (p : P) (values : list string) : res P :=
  match values with
  | [] => Ok p
  | v :: vs =>
      match SplitN2 v "=" with
      | [name; value] => set_properties (Set_ p name value) vs
      | _ => Exit ("bad property: `" +:+ v +:+ "`, expected format `name=value`")
      end
  end.

(** [globalMeasure.p] is the same object as [globalProps]. *)
Definition share_props (p : P) (m : measurement P HD PW) : measurement P HD PW :=
  {| gm_p := p; gm_measurer := gm_measurer m; promeWriter := promeWriter m; warmUp := warmUp m |}.

(** The properties [initialGlobal] builds before it creates anything. *)
Definition command_props (fl : flags) (onProperties : P → P) : res P :=
  p ← (if decide (propertyFiles fl = []) then Ok new_props else load_files (propertyFiles fl));
  p ← set_properties p (propertyValues fl);
  let isWorkloadF := existsb (λ pf, Contains pf "workloadf") (propertyFiles fl) in
  Ok (onProperties (Set_ p "_workloadf" (FormatBool isWorkloadF))).

Definition initialGlobal (fl : flags) (dbName : string) (onProperties : P → P) (d0 : D) : res globals :=
  p ← command_props fl onProperties;
  m ← InitMeasure p;
  let table := if String.eqb (tableFlag fl) "" then GetString p prop.TableName prop.TableNameDefault
               else tableFlag fl in
  _ ← (match Set_error p prop.TableName table with Some err => Panic err | None => Ok tt end);
  let p := Set_ p prop.TableName table in
  let workloadName := GetString p prop.Workload "core" in
  match GetWorkloadCreator workloadCreators workloadName with
  | None => Panic "invalid memory address or nil pointer dereference"
  | Some workloadCreator =>
      match workloadCreator p with
      | inl err => Exit ("create workload " +:+ workloadName +:+ " failed " +:+ err)
      | inr wl =>
          match GetDBCreator dbCreators dbName with
          | None => Exit (dbName +:+ " is not registered")
          | Some dbCreator =>
              '(r, d) ← dbCreator p d0;
              match r with
              | inl err => Exit ("create db " +:+ dbName +:+ " failed " +:+ err)
              | inr db =>
                  Ok {| globalProps := p; globalMeasure := share_props p m; tableName := table;
                        globalWorkload := wl; globalDB := DbWrapper db; globalState := d |}
              end
          end
      end
  end.

(** ** client.go *)

(** What [runClientCommandFunc] comes to: a refusal, the statistic mode
    ([measurement.QueryOnly]), or the run of the client with these globals, followed by
    [measurement.Output]. *)
Inductive client_outcome :=
| Refuse (msg : string)
| Statistics (url bench : string)
| Benchmark (g : globals).

(** The function passed to [initialGlobal]. *)
Definition onProperties (fl : flags) (doTransactions : bool) (command : string) (p : P) : P :=
  let p := Set_ p prop.DoTransactions (FormatBool doTransactions) in
  let p := Set_ p prop.Command command in
  let p := if Changed fl "threads" then Set_ p prop.ThreadCount (FormatInt (threadsArg fl)) else p in
  let p := if Changed fl "target" then Set_ p prop.Target (FormatInt (targetArg fl)) else p in
  if Changed fl "interval" then Set_ p prop.LogInterval (FormatInt (reportInterval fl)) else p.

Definition tikv_type (p : P) : string := GetString p "tikv.type" "raw".

(** [tikv] in raw mode without [tikv.apiversion]. *)
Definition api_version_missing (p : P) (dbName : string) : bool :=
  String.eqb dbName "tikv" && String.eqb (tikv_type p) "raw"
  && match Get p "tikv.apiversion" with None => true | Some _ => false end.

Definition set_global (k v : string) (g : globals) : globals :=
  let p := Set_ (globalProps g) k v in
  {| globalProps := p; globalMeasure := share_props p (globalMeasure g); tableName := tableName g;
     globalWorkload := globalWorkload g; globalDB := globalDB g; globalState := globalState g |}.

Definition set_measure (m : measurement P HD PW) (g : globals) : globals :=
  {| globalProps := globalProps g; globalMeasure := m; tableName := tableName g;
     globalWorkload := globalWorkload g; globalDB := globalDB g; globalState := globalState g |}.

(** The checks on the Prometheus flags made before anything else. *)
Definition flags_refused (fl : flags) : option string :=
  if Changed fl "prome-server" && negb (Changed fl "bench-no")
  then Some "ERROR: --bench-no is required when using --prome-server"
  else if statistic fl && negb (Changed fl "prome-server")
  then Some "ERROR: --prome-server is required when using --statistic"
  else if statistic fl && negb (Changed fl "bench-no")
  then Some "ERROR: --bench-no is required when using --statistic"
  else None.

Definition runClientCommandFunc (fl : flags) (args : list string) (doTransactions : bool)
    (command : string) (d0 : D) : res client_outcome :=
  let dbName := match args with db :: _ => db | [] => "" end in
  match flags_refused fl with
  | Some msg => Ok (Refuse msg)
  | None =>
      if statistic fl then Ok (Statistics (promeServer fl) (benchNo fl))
      else if String.eqb dbName "" then Ok (Refuse "ERROR: db name is required")
      else
        g ← initialGlobal fl dbName (onProperties fl doTransactions command) d0;
        let tikvType := tikv_type (globalProps g) in
        let g := if api_version_missing (globalProps g) dbName then set_global "tikv.apiversion" "V1" g else g in
        let isPrometheusSupported :=
          String.eqb dbName "tikv" && String.eqb tikvType "raw" && doTransactions in
        if Changed fl "prome-server" && negb isPrometheusSupported
        then Ok (Refuse "ERROR: --prome-server is only supported for 'run tikv' with tikv.type=raw")
        else
          let g := if isPrometheusSupported && Changed fl "prome-server"
                   then set_measure (SetPrometheusConfig new_writer (promeServer fl) (benchNo fl) (globalMeasure g)) g
                   else g in
          Ok (Benchmark g)
  end.

Definition runLoadCommandFunc (fl : flags) (args : list string) (d0 : D) : res client_outcome :=
  runClientCommandFunc fl args false "load" d0.

Definition runTransCommandFunc (fl : flags) (args : list string) (d0 : D) : res client_outcome :=
  runClientCommandFunc fl args true "run" d0.

(** [Args] of the two commands. *)
Definition client_args_ok (fl : flags) (args : list string) : bool :=
  Changed fl "statistic" || negb (bool_decide (args = [])).

(** ** count.go *)

(** The count and the time it took. *)
Definition runNativeCount (count : string → M (Env D) (Z * option error)) (table : string)
    : M (Env D) (Z * Z) :=
  start ← now;
  '(n, err) ← count table;
  match err with
  | Some e => exit ("Count failed: " +:+ e)
  | None => t ← now; mret (n, t -! start)
  end.

(** [for idx := startIdx; idx < endIdx; idx += int64(countBatch)]; [fuel] bounds the
    rounds. *)
Fixpoint scan_batches (fuel : nat) (db : DB D) (table keyPrefix : string) (batch idx endIdx localCount : Z)
    : M (Env D) Z :=
  if endIdx <=? idx then mret localCount else
  match fuel with
  | O => stuck
  | S f =>
      let batchSize := if endIdx <? idx +! batch then endIdx -! idx else batch in
      '(rows, err) ← Scan db table (keyPrefix +:+ FormatInt idx) batchSize [];
      let localCount := match err with Some _ => localCount | None => localCount +! Z.of_nat (length rows) end in
      scan_batches f db table keyPrefix batch (idx +! batch) endIdx localCount
  end.

(** The range of one thread. *)
Definition thread_range (recordCount keysPerThread threads threadID : Z) : Z * Z :=
  let startIdx := threadID *! keysPerThread in
  (startIdx, if threadID =? threads -! 1 then recordCount else startIdx +! keysPerThread).

Fixpoint count_threads (fuel : nat) (db : DB D) (table keyPrefix : string)
    (recordCount keysPerThread threads batch : Z) (ids : list Z) (totalCount : Z) : M (Env D) Z :=
  match ids with
  | [] => mret totalCount
  | i :: ids =>
      _ ← InitThread db i threads;
      let '(startIdx, endIdx) := thread_range recordCount keysPerThread threads i in
      localCount ← scan_batches fuel db table keyPrefix batch startIdx endIdx 0;
      _ ← CleanupThread db;
      count_threads fuel db table keyPrefix recordCount keysPerThread threads batch ids (totalCount +! localCount)
  end.

(** The goroutines only read, and add their counts; they are run one after the other. *)
Definition runScanBasedCount (fuel : nat) (fl : flags) (g : globals) : M (Env D) (Z * Z) :=
  start ← now;
  let recordCount := GetInt64 (globalProps g) prop.RecordCount prop.RecordCountDefault in
  let keyPrefix := GetString (globalProps g) prop.KeyPrefix prop.KeyPrefixDefault in
  if countThreads fl =? 0 then panic "integer divide by zero" else
  let keysPerThread := Z.quot recordCount (countThreads fl) in
  let keysPerThread := if keysPerThread =? 0 then 1 else keysPerThread in
  n ← count_threads fuel (globalDB g) (tableName g) keyPrefix recordCount keysPerThread (countThreads fl)
        (countBatch fl) (seqZ 0 (countThreads fl)) 0;
  t ← now;
  mret (n, t -! start).

(** A command that uses the database runs in the environment of the process. *)
Definition start_env (d : D) (clock : list Z) : Env D :=
  {| env_db := d; env_clock := clock; env_log := []; env_polls := [] |}.

Inductive count_outcome := CountRefused | Counted (n elapsed : Z) (e : Env D).

Definition runCountCommandFunc (fuel : nat) (fl : flags) (dbName : string) (d0 : D) (clock : list Z) : res count_outcome :=
  g ← initialGlobal fl dbName id d0;
  if api_version_missing (globalProps g) dbName then Ok CountRefused
  else
    '((n, elapsed), e) ← (match as_CountDB (globalDB g) with
                          | Some count => runNativeCount count (tableName g)
                          | None => runScanBasedCount fuel fl g
                          end) (start_env (globalState g) clock);
    Ok (Counted n elapsed e).

(** ** clean.go *)

Inductive clean_outcome := CleanRefused | CleanUnsupported | CleanCancelled | Cleaned (elapsed : Z).

Definition run_clean (fl : flags) (dbName userInput : string) (g : globals) : M (Env D) clean_outcome :=
  if api_version_missing (globalProps g) dbName then mret CleanRefused
  else if negb (cleanConfirm fl) then mret CleanRefused
  else match as_CleanDB (globalDB g) with
  | None => mret CleanUnsupported
  | Some clean =>
      if negb (String.eqb userInput "yes") then mret CleanCancelled
      else
        start ← now;
        err ← clean (tableName g);
        match err with
        | Some e => exit ("Clean failed: " +:+ e)
        | None => t ← now; mret (Cleaned (t -! start))
        end
  end.

Definition runCleanCommandFunc (fl : flags) (dbName userInput : string) (d0 : D) (clock : list Z)
    : res (clean_outcome * Env D) :=
  g ← initialGlobal fl dbName id d0;
  run_clean fl dbName userInput g (start_env (globalState g) clock).
End cmd.
