(* ===== verification/CmdSpec.v ===== *)
(** * What the commands guarantee

    The flags decide the properties of a run, metrics are only pushed from the runs that
    support it, a table is only cleaned with consent, and the count command never uses
    its scan-based fallback. *)

From S2P Require Import Prelude GoFloat GoStr GoConv GoText Props Util Ycsb KV TikvRows TikvRaw TikvRawSpec.
From S2P Require Import Measurement MeasurementSpec Cmd.

(** ** Steps of the environment *)

Lemma now_db {D} (e ea : Env D) t : now e = Ok (t, ea) → env_db ea = env_db e.
Proof. unfold now. destruct (env_clock e); [done|]. by intros [= <- <-]. Qed.

(** A [Clean] of the wrapper that reports no error is one of the driver. *)
Lemma Wrap_Clean_inv {D} (db : DB D) table e e' :
  Wrap_Clean db table e = Ok (None, e') →
  ∃ clean e1 e2, as_CleanDB db = Some clean ∧ env_db e1 = env_db e ∧ clean table e1 = Ok (None, e2) ∧ env_db e' = env_db e2.
Proof.
  unfold Wrap_Clean. destruct (as_CleanDB db) as [clean|]; [|done]. unfold timed. intros E.
  apply bind_Ok in E as (t3 & e4 & E4 & E). apply bind_Ok in E as (r & e5 & E5 & E). apply bind_Ok in E as (u & e6 & E6 & [= -> ->]).
  exists clean, e4, e5. apply now_db in E4. do 3 (split; [done|]).
  unfold measure, id, Measure in E6. apply bind_Ok in E6 as (t5 & e7 & E7 & E6). apply now_db in E7 as <-.
  unfold mbind, M_bind in E6. by injection E6 as <- <-.
Qed.

Section spec.
Context {P : Type} `{PropertiesLaws P} {W D HD PW : Type} `{HDR HD}.
Context (new_props : P) (load_files : list string → res P)
        (workloadCreators : gmap string (P → error + W))
        (dbCreators : gmap string (P → M D (error + DB D)))
        (new_writer : string → string → PW).

Abbreviation initialGlobal := (initialGlobal (W := W) (D := D) (HD := HD) (PW := PW)
  new_props load_files workloadCreators dbCreators).
Abbreviation runClientCommandFunc := (runClientCommandFunc (W := W) (D := D) (HD := HD)
  new_props load_files workloadCreators dbCreators new_writer).

(** What a command starts from. *)
Lemma initialGlobal_inv fl dbName f d0 (g : globals) :
  initialGlobal fl dbName f d0 = Ok g →
  ∃ p db creator, command_props new_props load_files fl f = Ok p ∧
    globalProps g = Set_ p prop.TableName (tableName g) ∧
    tableName g = (if String.eqb (tableFlag fl) "" then GetString p prop.TableName prop.TableNameDefault
                   else tableFlag fl) ∧
    dbCreators !! dbName = Some creator ∧ creator (globalProps g) d0 = Ok (inr db, globalState g) ∧
    globalDB g = DbWrapper db ∧ promeWriter (globalMeasure g) = None.
Proof.
  unfold Cmd.initialGlobal. intros (p & Ep & E)%res_bind_Ok. apply res_bind_Ok in E as (m & Em & E).
  assert (promeWriter m = None) as Hm.
  { unfold InitMeasure in Em. apply res_bind_Ok in Em as (x & _ & [= <-]). done. }
  destruct (Set_error _ _ _); [done|]. cbn in E.
  destruct (GetWorkloadCreator _ _) as [wc|]; [|done]. destruct (wc _) as [?|wl]; [done|].
  destruct (GetDBCreator _ _) as [dc|] eqn:Ed; [|done]. apply res_bind_Ok in E as ([[?|db] d] & Edb & E); [done|].
  injection E as <-. simpl. exists p, db, dc. repeat split; done.
Qed.

Lemma runClient_inv fl args t cmd d0 (g : globals) :
  runClientCommandFunc fl args t cmd d0 = Ok (Benchmark g) →
  ∃ dbName rest g0, args = dbName :: rest ∧ dbName ≠ "" ∧ flags_refused fl = None ∧ statistic fl = false ∧
    initialGlobal fl dbName (onProperties fl t cmd) d0 = Ok g0 ∧
    (Changed fl "prome-server" = true →
       String.eqb dbName "tikv" && String.eqb (tikv_type (globalProps g0)) "raw" && t = true) ∧
    globalProps g = (if api_version_missing (globalProps g0) dbName
                     then Set_ (globalProps g0) "tikv.apiversion" "V1" else globalProps g0) ∧
    tableName g = tableName g0 ∧
    promeWriter (globalMeasure g) =
      if Changed fl "prome-server" then Some (new_writer (promeServer fl) (benchNo fl)) else None.
Proof.
  unfold Cmd.runClientCommandFunc. destruct (flags_refused fl) eqn:Ef; [done|].
  destruct (statistic fl); [done|]. destruct args as [|dbName rest]; [done|].
  destruct (String.eqb_spec dbName "") as [|Hne]; [done|]. intros (g0 & E0 & E)%res_bind_Ok.
  destruct (initialGlobal_inv _ _ _ _ _ E0) as (_ & _ & _ & _ & _ & _ & _ & _ & _ & Hpw).
  exists dbName, rest, g0. do 4 (split; [done|]). split; [exact E0|].
  set (sup := String.eqb dbName "tikv" && _ && t) in *.
  destruct (Changed fl "prome-server"), sup, (api_version_missing _ _); simpl in E; try done;
    injection E as <-; done.
Qed.

Lemma Get_Set p k k' v : Get (Set_ p k v) k' = if decide (k = k') then Some v else Get p k'.
Proof. case_decide; [subst; apply Get_Set_eq|by apply Get_Set_ne]. Qed.

Lemma assoc_app {A} (l1 l2 : list (string * A)) k :
  assoc (l1 ++ l2) k = match assoc l1 k with Some v => Some v | None => assoc l2 k end.
Proof. induction l1 as [|[k' v] l1 IH]; [done|]. simpl. by destruct (String.eqb k k'). Qed.

(** What the user set a property to: the last assignment of it on the command line, else
    what the property files say. *)
Definition user_setting (base : P) (kvs : list (string * string)) (k : string) : option string :=
  match assoc (reverse kvs) k with Some v => Some v | None => Get base k end.

Lemma set_properties_settings values p q :
  set_properties p values = Ok q →
  ∃ kvs, values = assignment <$> kvs ∧ Forall assignment_ok kvs ∧ ∀ k, Get q k = user_setting p kvs k.
Proof.
  revert p. induction values as [|v values IH]; intros p E; cbn [set_properties] in E; [injection E as <-; by exists []|].
  destruct (assignment_cases v) as [(kv & -> & Hkv)|Hv]; [|by rewrite (SplitN2_without v Hv) in E].
  rewrite (SplitN2_assignment kv Hkv) in E. apply IH in E as (kvs & -> & Hok & Hg). exists (kv :: kvs).
  split; [done|]. split; [by constructor|]. intros k. rewrite Hg. unfold user_setting. rewrite reverse_cons, assoc_app.
  destruct (assoc (reverse kvs) k); [done|]. destruct kv as [k' v']. cbn [fst snd assoc]. rewrite Get_Set.
  destruct (String.eqb_spec k k') as [->|]; [by rewrite decide_True|by rewrite decide_False].
Qed.

(** The properties of a command before its own settings. *)
Lemma command_props_settings fl f p :
  command_props new_props load_files fl f = Ok p →
  ∃ base kvs q, (if decide (propertyFiles fl = []) then base = new_props else load_files (propertyFiles fl) = Ok base) ∧
    propertyValues fl = assignment <$> kvs ∧ Forall assignment_ok kvs ∧ (∀ k, Get q k = user_setting base kvs k) ∧
    p = f (Set_ q "_workloadf" (FormatBool (existsb (λ pf, Contains pf "workloadf") (propertyFiles fl)))).
Proof.
  unfold command_props. intros (base & Eb & E)%res_bind_Ok. apply res_bind_Ok in E as (q & Eq & [= <-]).
  apply set_properties_settings in Eq as (kvs & Hv & Hok & Hg). exists base, kvs, q. split; [|done].
  case_decide; [by injection Eb as <-|done].
Qed.

(** C22: The command line decides.  A benchmark of the database [dbName] starts with these
    properties: the mode and the name of its command; threads, target and log interval from
    their flags where those were given, else from the user; the table of the flag, else of
    the user, else the default; [_workloadf], whether a property file is named so; the API
    version of the user, else "V1" for TiKV in raw mode; and for every other name what the
    user set.  What the user set is the last [-p name=value] of that name, else what the
    property files say; every [-p] text has an [=]. *)
Theorem client_command_properties fl dbName rest t cmd d0 (g : globals) :
  runClientCommandFunc fl (dbName :: rest) t cmd d0 = Ok (Benchmark g) →
  ∃ base kvs, (if decide (propertyFiles fl = []) then base = new_props else load_files (propertyFiles fl) = Ok base) ∧
  propertyValues fl = assignment <$> kvs ∧ Forall assignment_ok kvs ∧
  let user := user_setting base kvs in
  Get (globalProps g) prop.DoTransactions = Some (if t then "true" else "false") ∧
  Get (globalProps g) prop.Command = Some cmd ∧
  Get (globalProps g) prop.ThreadCount =
    (if Changed fl "threads" then Some (FormatInt (threadsArg fl)) else user prop.ThreadCount) ∧
  Get (globalProps g) prop.Target =
    (if Changed fl "target" then Some (FormatInt (targetArg fl)) else user prop.Target) ∧
  Get (globalProps g) prop.LogInterval =
    (if Changed fl "interval" then Some (FormatInt (reportInterval fl)) else user prop.LogInterval) ∧
  Get (globalProps g) prop.TableName = Some (tableName g) ∧
  tableName g = (if String.eqb (tableFlag fl) "" then default prop.TableNameDefault (user prop.TableName)
                 else tableFlag fl) ∧
  Get (globalProps g) "_workloadf" =
    Some (if existsb (λ pf, Contains pf "workloadf") (propertyFiles fl) then "true" else "false") ∧
  Get (globalProps g) "tikv.apiversion" =
    match user "tikv.apiversion" with
    | Some v => Some v
    | None => if bool_decide (dbName = "tikv" ∧ default "raw" (user "tikv.type") = "raw") then Some "V1" else None
    end ∧
  ∀ k, k ∉ [prop.DoTransactions; prop.Command; prop.ThreadCount; prop.Target; prop.LogInterval;
            prop.TableName; "_workloadf"; "tikv.apiversion"] → Get (globalProps g) k = user k.
Proof.
  intros (db & rest' & g0 & [= <- <-] & _ & _ & _ & E0 & _ & Hp & Ht & _)%runClient_inv.
  destruct (initialGlobal_inv _ _ _ _ _ E0) as (p & db' & creator & Ep & Hp0 & Ht0 & _).
  apply command_props_settings in Ep as (base & kvs & q & Hb & Hv & Hok & Hq & Ep). exists base, kvs.
  do 3 (split; [done|]). cbv zeta. rewrite <- !Hq. rewrite Ht.
  assert (Hg : ∀ k, k ≠ "tikv.apiversion" → Get (globalProps g) k = Get (globalProps g0) k).
  { intros k Hk. rewrite Hp. destruct (api_version_missing _ _); [|done]. by rewrite Get_Set_ne. }
  unfold onProperties in Ep.
  assert (Hu : ∀ k, k ∉ [prop.DoTransactions; prop.Command; prop.ThreadCount; prop.Target; prop.LogInterval;
      prop.TableName; "_workloadf"] → Get (globalProps g0) k = Get q k).
  { intros k Hk. rewrite !not_elem_of_cons in Hk. destruct Hk as (? & ? & ? & ? & ? & ? & ? & _). rewrite Hp0, Ep.
    rewrite Get_Set_ne by done.
    destruct (Changed fl "threads"), (Changed fl "target"), (Changed fl "interval"); by repeat (rewrite Get_Set_ne by done). }
  split_and!; rewrite ?Hg, ?Hp0 by done.
  1-5, 8: rewrite Ep; destruct (Changed fl "threads"), (Changed fl "target"), (Changed fl "interval"); by rewrite !Get_Set.
  - by rewrite Get_Set_eq.
  - rewrite Ht0, GetString_Get, Ep. destruct (String.eqb _ _); [|done]. f_equal.
    destruct (Changed fl "threads"), (Changed fl "target"), (Changed fl "interval"); by rewrite !Get_Set.
  - rewrite Hp. unfold api_version_missing, tikv_type. rewrite GetString_Get, (Hu "tikv.type"), (Hu "tikv.apiversion") by set_solver.
    destruct (Get q "tikv.apiversion") as [v|] eqn:Ev; [by rewrite andb_false_r, Hu by set_solver|]. rewrite andb_true_r.
    destruct (String.eqb_spec dbName "tikv"), (String.eqb_spec (default "raw" (Get q "tikv.type")) "raw"); cbn [andb];
      [rewrite bool_decide_true by done; by rewrite Get_Set_eq|rewrite bool_decide_false by naive_solver; by rewrite Hu by set_solver..].
  - intros k Hk. rewrite <- Hq, Hg, Hu; [done|set_solver|set_solver].
Qed.

(** Metrics are pushed to Prometheus only by a [run] of TiKV in raw mode with both
    flags given, and to the server and under the benchmark number of the flags; the
    statistic mode touches no database. *)
Lemma prometheus_only_raw_run fl args t cmd d0 :
  (∀ g : globals, runClientCommandFunc fl args t cmd d0 = Ok (Benchmark g) →
     match promeWriter (globalMeasure g) with
     | Some w => w = new_writer (promeServer fl) (benchNo fl) ∧ Changed fl "prome-server" = true ∧
                 Changed fl "bench-no" = true ∧ t = true ∧ head args = Some "tikv" ∧
                 tikv_type (globalProps g) = "raw"
     | None => Changed fl "prome-server" = false
     end) ∧
  (statistic fl = true → Changed fl "prome-server" = true → Changed fl "bench-no" = true →
     runClientCommandFunc fl args t cmd d0 = Ok (Statistics (promeServer fl) (benchNo fl))).
Proof.
  split.
  - intros g (dbName & rest & g0 & -> & _ & Hr & _ & _ & Hs & Hp & _ & ->)%runClient_inv.
    destruct (Changed fl "prome-server") eqn:Ec; [|done]. specialize (Hs eq_refl).
    apply andb_true_iff in Hs as [Hs ->]. apply andb_true_iff in Hs as [->%String.eqb_eq Hs%String.eqb_eq].
    unfold flags_refused in Hr. rewrite Ec in Hr. destruct (Changed fl "bench-no"); [|done].
    do 5 (split; [done|]). rewrite Hp. destruct (api_version_missing _ _); [|done].
    unfold tikv_type in *. rewrite GetString_Get, Get_Set_ne, <- GetString_Get by done. done.
  - intros Es Ep Eb. unfold Cmd.runClientCommandFunc, flags_refused. by rewrite Es, Ep, Eb.
Qed.

(** The scan-based count is dead.  The database the command sees is the measuring
    wrapper, which always offers [Count]; so for a driver that cannot count, the command
    ends the process with "Count failed" instead of scanning, and the number of scans it
    would be allowed plays no role for any driver. *)
Lemma count_never_scans fl dbName d0 clock (g : globals) creator db d :
  initialGlobal fl dbName id d0 = Ok g → dbCreators !! dbName = Some creator →
  creator (globalProps g) d0 = Ok (inr db, d) → api_version_missing (globalProps g) dbName = false → clock ≠ [] →
  (as_CountDB db = None → ∀ fuel,
     runCountCommandFunc (HD := HD) (PW := PW) new_props load_files workloadCreators dbCreators fuel fl dbName d0 clock =
     Exit "Count failed: database does not implement CountDB interface") ∧
  (∀ fuel, runCountCommandFunc (HD := HD) (PW := PW) new_props load_files workloadCreators dbCreators fuel fl dbName d0 clock =
     runCountCommandFunc (HD := HD) (PW := PW) new_props load_files workloadCreators dbCreators 0 fl dbName d0 clock).
Proof.
  intros Eg Ec Edb Ha Hclk. destruct (initialGlobal_inv _ _ _ _ _ Eg) as (_ & db' & creator' & _ & _ & _ & Ec' & Edb' & Hg & _).
  rewrite Ec in Ec'. injection Ec' as <-. rewrite Edb in Edb'. injection Edb' as <- Hd.
  unfold runCountCommandFunc. rewrite Eg. cbn. rewrite Ha, Hg. cbn. split; [|done].
  intros Hn fuel. unfold runNativeCount, Wrap_Count. rewrite Hn. destruct clock as [|t ts]; [done|]. done.
Qed.

Abbreviation runCleanCommandFunc := (runCleanCommandFunc (W := W) (D := D) (HD := HD) (PW := PW)
  new_props load_files workloadCreators dbCreators).

(** C24: A table is cleaned only with consent.  [clean] first opens the database, which may
    create tables or, with [dropdata], drop them, before anything is asked; let [g] be what
    that leaves.  Without the confirmation flag, or when the user types anything but "yes",
    the command returns without having cleaned and the database is as opening it left it.
    If it reports success, both were given and the driver's own [Clean] ran once, without an
    error, on the table of the command and from the state opening left. *)
Theorem clean_needs_consent fl dbName input d0 clock (g : globals) :
  initialGlobal fl dbName id d0 = Ok g →
  ∃ creator db, dbCreators !! dbName = Some creator ∧ creator (globalProps g) d0 = Ok (inr db, globalState g) ∧
  (cleanConfirm fl = false ∨ input ≠ "yes" → ∃ out,
     runCleanCommandFunc fl dbName input d0 clock = Ok (out, start_env (globalState g) clock) ∧ ∀ t, out ≠ Cleaned t) ∧
  (∀ t e', runCleanCommandFunc fl dbName input d0 clock = Ok (Cleaned t, e') →
     cleanConfirm fl = true ∧ input = "yes" ∧ api_version_missing (globalProps g) dbName = false ∧
     ∃ clean e1 e2, as_CleanDB db = Some clean ∧ env_db e1 = globalState g ∧
       clean (tableName g) e1 = Ok (None, e2) ∧ env_db e' = env_db e2).
Proof.
  intros Eg. destruct (initialGlobal_inv _ _ _ _ _ Eg) as (_ & db & creator & _ & _ & _ & Ec & Edb & Hg & _).
  exists creator, db. do 2 (split; [done|]). unfold Cmd.runCleanCommandFunc. rewrite Eg. cbn [mbind res_bind]. unfold run_clean.
  rewrite Hg. cbn [as_CleanDB DbWrapper]. destruct (api_version_missing _ _); [split; [intros _; by eexists|by intros ? ? [=]]|].
  destruct (cleanConfirm fl); cbn [negb]; [|split; [intros _; by eexists|by intros ? ? [=]]].
  destruct (String.eqb_spec input "yes") as [->|]; cbn [negb]; [|split; [intros _; by eexists|by intros ? ? [=]]].
  split; [by intros [|]|]. intros t e' E. apply bind_Ok in E as (t1 & e1 & E1 & E). apply bind_Ok in E as (err & e2 & E2 & E).
  destruct err as [?|]; [done|]. apply bind_Ok in E as (t2 & e3 & E3 & [= <- <-]). do 3 (split; [done|]).
  apply now_db in E1, E3. apply Wrap_Clean_inv in E2 as (clean & e4 & e5 & Hc & H4 & Hr & H5).
  exists clean, e4, e5. split; [done|]. split; [by rewrite H4, E1|]. split; [done|congruence].
Qed.
End spec.

(** ** Witnesses: a core workload, the raw driver, and a driver that cannot count *)

Definition ex_flags (changed : list string) : flags := {|
  propertyFiles := ["workloads/workloadf"]; propertyValues := ["recordcount=20"; "tikv.type=raw"]; tableFlag := "a";
  threadsArg := 8; targetArg := 0; reportInterval := 10; promeServer := "http://prom:9090"; benchNo := "7";
  statistic := false; countThreads := 10; countBatch := 1000; cleanConfirm := true;
  Changed := λ f, bool_decide (f ∈ changed) |}.

(** With the API version a clean of raw TiKV asks for. *)
Definition ex_clean_flags : flags := {|
  propertyFiles := ["workloads/workloadf"]; propertyValues := ["tikv.apiversion=V1"]; tableFlag := "a";
  threadsArg := 8; targetArg := 0; reportInterval := 10; promeServer := ""; benchNo := "";
  statistic := false; countThreads := 10; countBatch := 1000; cleanConfirm := true; Changed := λ f, false |}.

Definition ex_load (_ : list string) : res ref_props := Ok [(prop.RecordCount, "10"); (prop.ThreadCount, "4")].

Definition ex_workloads : gmap string (ref_props → error + unit) := {["core" := λ _, inr tt]}.

Definition without_count {D} (db : DB D) : DB D := {|
  Close := Close db; InitThread := InitThread db; CleanupThread := CleanupThread db; Read := Read db;
  Scan := Scan db; Update := Update db; Insert := Insert db; Delete := Delete db;
  as_BatchDB := as_BatchDB db; as_AnalyzeDB := None; as_CountDB := None; as_CleanDB := None |}.

Definition ex_driver : DB (raw_state store) := raw_DB mem_order (ex_raw false) 10.

(** Opening [tikv] finds the store as it was; [plain] cannot count or clean. *)
Definition ex_dbs : gmap string (ref_props → M (raw_state store) (error + DB (raw_state store))) :=
  {["tikv" := λ _, mret (inr ex_driver); "plain" := λ _, mret (inr (without_count ex_driver))]}.

Abbreviation ex_globals := (globals (P := ref_props) (W := unit) (D := raw_state store) (HD := list_hdr)
  (PW := string * string)).
Abbreviation ex_client := (runClientCommandFunc (HD := list_hdr) [] ex_load ex_workloads ex_dbs pair).
Abbreviation ex_initial := (initialGlobal (HD := list_hdr) (PW := string * string) [] ex_load ex_workloads ex_dbs).

Lemma client_command_properties_witness :
  ∃ g : ex_globals, ex_client (ex_flags ["threads"]) ["tikv"] true "run" (ex_raw_state ex_store) = Ok (Benchmark g) ∧
  Get (globalProps g) prop.DoTransactions = Some "true" ∧ Get (globalProps g) prop.ThreadCount = Some "8" ∧
  tableName g = "a" ∧ Get (globalProps g) "tikv.type" = Some "raw".
Proof.
  destruct (ex_client (ex_flags ["threads"]) ["tikv"] true "run" (ex_raw_state ex_store)) as [[msg|u b|g]|?|?|] eqn:E; try discriminate E.
  exists g. split; [reflexivity|].
  destruct (client_command_properties [] ex_load ex_workloads ex_dbs pair (ex_flags ["threads"]) "tikv" [] true "run"
    (ex_raw_state ex_store) g E) as (base & kvs & _ & Hv & _ & Ht & _ & Hth & _ & _ & _ & Hn & _ & _ & Hu).
  split; [exact Ht|]. split; [exact Hth|]. split; [exact Hn|].
  injection E as <-. reflexivity.
Defined.

(** A refused and an accepted clean. *)
Lemma clean_needs_consent_witness :
  (∃ (g : ex_globals) out, ex_initial (ex_flags []) "plain" id (ex_raw_state ex_store) = Ok g ∧
     runCleanCommandFunc (HD := list_hdr) (PW := string * string) [] ex_load ex_workloads ex_dbs
       (ex_flags []) "plain" "no" (ex_raw_state ex_store) [1; 2; 3; 4] = Ok (out, start_env (globalState g) [1; 2; 3; 4])) ∧
  (∃ (g : ex_globals) db clean e1 e2 e3, ex_initial ex_clean_flags "tikv" id (ex_raw_state ex_store) = Ok g ∧
     as_CleanDB db = Some clean ∧ clean (tableName g) e1 = Ok (None, e2) ∧ env_db e3 = env_db e2 ∧
     store_of id (env_db e3) = {[getRowKey "c" "3" := [x02]]}).
Proof.
  split.
  - destruct (ex_initial (ex_flags []) "plain" id (ex_raw_state ex_store)) as [g|?|?|] eqn:E; try discriminate E.
    destruct (clean_needs_consent [] ex_load ex_workloads ex_dbs (ex_flags []) "plain" "no" (ex_raw_state ex_store) [1; 2; 3; 4] g E)
      as (creator & db & _ & _ & Hno & _).
    assert ("no" ≠ "yes") as Hne by discriminate.
    destruct (Hno (or_intror Hne)) as (out & Er & _). exists g, out. split; [reflexivity|exact Er].
  - assert (match runCleanCommandFunc (HD := list_hdr) (PW := string * string) [] ex_load ex_workloads ex_dbs
        ex_clean_flags "tikv" "yes" (ex_raw_state ex_store) [1; 2; 3; 4] with
      | Ok (Cleaned _, e) => bool_decide (store_of id (env_db e) = {[getRowKey "c" "3" := [x02]]}) | _ => false end = true) as Hb
      by (vm_compute; reflexivity).
    destruct (runCleanCommandFunc (HD := list_hdr) (PW := string * string) [] ex_load ex_workloads ex_dbs
        ex_clean_flags "tikv" "yes" (ex_raw_state ex_store) [1; 2; 3; 4]) as [[[| | |t] e3]|?|?|] eqn:Er; try discriminate Hb.
    destruct (ex_initial ex_clean_flags "tikv" id (ex_raw_state ex_store)) as [g|?|?|] eqn:E; try discriminate E.
    destruct (clean_needs_consent [] ex_load ex_workloads ex_dbs ex_clean_flags "tikv" "yes" (ex_raw_state ex_store) [1; 2; 3; 4] g E)
      as (creator & db & _ & _ & _ & Hyes).
    destruct (Hyes t e3 Er) as (_ & _ & _ & clean & e1 & e2 & Hc & _ & Hr & He). exists g, db, clean, e1, e2, e3.
    split; [reflexivity|]. split; [exact Hc|]. split; [exact Hr|]. split; [exact He|]. apply bool_decide_eq_true_1 in Hb. exact Hb.
Defined.
