(* ===== verification/Main.v ===== *)
(** * cmd/go-ycsb/main.go: the end of the process

    [main] runs the command that cobra chooses, then closes the database and the workload;
    a second goroutine waits for signals, cancels the context on the first and ends the
    process on a second one or after ten seconds.  Both, and the operating system, take
    steps on a shared state. *)

From S2P Require Import Prelude.

(** [main]: in [rootCmd.Execute], before [globalCancel], before closing the database, the
    workload, before telling the other goroutine, returned. *)
Inductive main_pc := Executing | Cancelling | ClosingDB | ClosingWorkload | Telling | Returned.

(** The goroutine: at [<-sc], in the [select], returned. *)
Inductive signal_pc := Waiting | Selecting | Gone.

(** How the process has ended: [main] returned, the command or a [Close] called [os.Exit], a second
    signal, the timer. *)
Inductive ending := Finished | Fatal | Again | TimedOut.

Record process := {
  p_main : main_pc; p_signal : signal_pc;
  sc : nat; (* of the one place of the channel of signals *)
  closeDone : nat; (* of the one place of this channel *)
  cancelled : bool;
  hasDB : bool; hasWorkload : bool; (* globalDB and globalWorkload are not nil *)
  dbCloses : nat; workloadCloses : nat;
  signals : nat; (* sent so far, not in the program *)
  ended : option ending
}.

Definition main_start : process := {|
  p_main := Executing; p_signal := Waiting; sc := 0; closeDone := 0; cancelled := false; hasDB := false; hasWorkload := false;
  dbCloses := 0; workloadCloses := 0; signals := 0; ended := None
|}.

Definition set_main (pc : main_pc) (p : process) : process := {|
  p_main := pc; p_signal := p_signal p; sc := sc p; closeDone := closeDone p; cancelled := cancelled p; hasDB := hasDB p;
  hasWorkload := hasWorkload p; dbCloses := dbCloses p; workloadCloses := workloadCloses p; signals := signals p; ended := ended p
|}.
Definition set_signal (pc : signal_pc) (c d : nat) (p : process) : process := {|
  p_main := p_main p; p_signal := pc; sc := c; closeDone := d; cancelled := cancelled p; hasDB := hasDB p;
  hasWorkload := hasWorkload p; dbCloses := dbCloses p; workloadCloses := workloadCloses p; signals := signals p; ended := ended p
|}.
Definition globalCancel (p : process) : process := {|
  p_main := p_main p; p_signal := p_signal p; sc := sc p; closeDone := closeDone p; cancelled := true; hasDB := hasDB p;
  hasWorkload := hasWorkload p; dbCloses := dbCloses p; workloadCloses := workloadCloses p; signals := signals p; ended := ended p
|}.
Definition command_made (db w : bool) (p : process) : process := {|
  p_main := p_main p; p_signal := p_signal p; sc := sc p; closeDone := closeDone p; cancelled := cancelled p; hasDB := db;
  hasWorkload := w; dbCloses := dbCloses p; workloadCloses := workloadCloses p; signals := signals p; ended := ended p
|}.
Definition close_both (d w : nat) (p : process) : process := {|
  p_main := p_main p; p_signal := p_signal p; sc := sc p; closeDone := closeDone p; cancelled := cancelled p; hasDB := hasDB p;
  hasWorkload := hasWorkload p; dbCloses := dbCloses p + d; workloadCloses := workloadCloses p + w; signals := signals p; ended := ended p
|}.
Definition end_process (e : ending) (p : process) : process := {|
  p_main := p_main p; p_signal := p_signal p; sc := sc p; closeDone := closeDone p; cancelled := cancelled p; hasDB := hasDB p;
  hasWorkload := hasWorkload p; dbCloses := dbCloses p; workloadCloses := workloadCloses p; signals := signals p; ended := Some e
|}.
(** [signal.Notify] does not block: a signal is dropped when the place is taken. *)
Definition notify (p : process) : process := {|
  p_main := p_main p; p_signal := p_signal p; sc := 1; closeDone := closeDone p; cancelled := cancelled p; hasDB := hasDB p;
  hasWorkload := hasWorkload p; dbCloses := dbCloses p; workloadCloses := workloadCloses p; signals := S (signals p); ended := ended p
|}.

(** The steps of [main].  The command may leave the globals nil ([initialGlobal] did not
    run or the command refused), and may end the process; so may closing the database
    (dynamodb's ends it when the table cannot be deleted). *)
Inductive main_step (p : process) : process → Prop :=
| m_execute db w : ended p = None → p_main p = Executing → main_step p (set_main Cancelling (command_made db w p))
| m_fatal : ended p = None → p_main p = Executing → main_step p (end_process Fatal p)
| m_cancel : ended p = None → p_main p = Cancelling → main_step p (set_main ClosingDB (globalCancel p))
| m_close_db : ended p = None → p_main p = ClosingDB → main_step p (set_main ClosingWorkload (close_both (if hasDB p then 1 else 0) 0 p))
| m_close_fatal : ended p = None → p_main p = ClosingDB → hasDB p = true → main_step p (end_process Fatal p)
| m_close_workload : ended p = None → p_main p = ClosingWorkload → main_step p (set_main Telling (close_both 0 (if hasWorkload p then 1 else 0) p))
| m_tell : ended p = None → p_main p = Telling → (closeDone p < 1)%nat → main_step p (set_main Returned (set_signal (p_signal p) (sc p) 1 p))
| m_return : ended p = None → p_main p = Returned → main_step p (end_process Finished p).

(** The steps of the goroutine; the [select] takes any branch that is ready. *)
Inductive signal_step (p : process) : process → Prop :=
| s_first : ended p = None → p_signal p = Waiting → sc p = 1%nat → signal_step p (set_signal Selecting 0 (closeDone p) (globalCancel p))
| s_again : ended p = None → p_signal p = Selecting → sc p = 1%nat → signal_step p (end_process Again p)
| s_timeout : ended p = None → p_signal p = Selecting → signal_step p (end_process TimedOut p)
| s_done : ended p = None → p_signal p = Selecting → closeDone p = 1%nat → signal_step p (set_signal Gone (sc p) 0 p).

Inductive os_step (p : process) : process → Prop :=
| o_signal : ended p = None → os_step p (notify p).

Definition process_step (p p' : process) : Prop := main_step p p' ∨ signal_step p p' ∨ os_step p p'.

(** ** The end of the process *)

(** How often [main] has closed what the command made. *)
Definition db_due (p : process) : nat := match p_main p with Executing | Cancelling | ClosingDB => 0 | _ => if hasDB p then 1 else 0 end.
Definition workload_due (p : process) : nat := match p_main p with Telling | Returned => if hasWorkload p then 1 else 0 | _ => 0 end.

Record process_ok (q : process) : Prop := {
  ok_db : dbCloses q = db_due q;
  ok_workload : workloadCloses q = workload_due q;
  ok_cancel : p_signal q ≠ Waiting ∨ p_main q ≠ Executing ∧ p_main q ≠ Cancelling → cancelled q = true;
  ok_tell : p_main q ≠ Returned → closeDone q = 0%nat ∧ p_signal q ≠ Gone;
  ok_room : (sc q <= 1)%nat;
  ok_signals : (sc q + match p_signal q with Waiting => 0 | _ => 1 end <= signals q)%nat;
  ok_main_end : ended q = Some Finished → p_main q = Returned;
  ok_again : ended q = Some Again → (2 <= signals q)%nat;
  ok_timeout : ended q = Some TimedOut → (1 <= signals q)%nat
}.

Lemma process_ok_step p p' : process_ok p → process_step p p' → process_ok p'.
Proof.
  intros [H1 H2 H3 H4 H5 H6 H7 H8 H9] Hstep. unfold db_due, workload_due in *.
  destruct Hstep as [[]|[[]|[]]]; split; unfold db_due, workload_due; cbn in *;
    repeat match goal with H : p_main _ = _ |- _ => rewrite H in * | H : p_signal _ = _ |- _ => rewrite H in * end;
    try solve [naive_solver lia].
Qed.

Lemma process_ok_reachable p : rtc process_step main_start p → process_ok p.
Proof.
  revert p. apply rtc_ind_r; [split; cbn; naive_solver lia|]. intros q q' _ Hs Hq. by eapply process_ok_step.
Qed.

(** C25: The end of the process.  However [main], the signal goroutine and signals
    interleave: the database and the workload are closed at most once, and when [main] has
    returned, exactly if the command made them, with the context cancelled; once the
    command has ended, [main] waits for nothing but the two calls of [Close], not for the
    channel to the other goroutine either; the goroutine ends the process only after a signal, and at once only after a
    second one. *)
Theorem main_shutdown p :
  rtc process_step main_start p →
  (dbCloses p <= 1)%nat ∧ (workloadCloses p <= 1)%nat ∧
  (ended p = Some Finished → cancelled p = true ∧ dbCloses p = (if hasDB p then 1 else 0)%nat ∧
     workloadCloses p = (if hasWorkload p then 1 else 0)%nat) ∧
  (ended p = None → p_main p ≠ Executing → ∃ p', main_step p p') ∧
  (ended p = Some TimedOut → (1 <= signals p)%nat) ∧ (ended p = Some Again → (2 <= signals p)%nat).
Proof.
  intros Hr. apply process_ok_reachable in Hr as [H1 H2 H3 H4 H5 H6 H7 H8 H9]. unfold db_due, workload_due in *.
  split; [rewrite H1; repeat case_match; lia|]. split; [rewrite H2; repeat case_match; lia|]. split; [|split; [|done]].
  - intros He. rewrite (H7 He) in *. split; [apply H3; by right|done].
  - intros He Hx. destruct (p_main p) eqn:Hp; [done| | | | |]; eexists;
      [by apply m_cancel|by apply m_close_db|by apply m_close_workload|apply m_tell; [done..|]|by apply m_return].
    destruct H4 as [-> _]; [done|lia].
Qed.

(** A signal during the command, which then ends. *)
Definition ex_process : process := {|
  p_main := Returned; p_signal := Gone; sc := 0; closeDone := 0; cancelled := true; hasDB := true; hasWorkload := true;
  dbCloses := 1; workloadCloses := 1; signals := 1; ended := Some Finished
|}.

Lemma ex_shutdown : rtc process_step main_start ex_process.
Proof.
  eapply rtc_l; [right; right; by apply o_signal|]. eapply rtc_l; [right; left; by apply s_first|].
  eapply rtc_l; [left; by apply (m_execute _ true true)|]. eapply rtc_l; [left; by apply m_cancel|].
  eapply rtc_l; [left; by apply m_close_db|]. eapply rtc_l; [left; by apply m_close_workload|].
  eapply rtc_l; [left; apply m_tell; [done..|cbn; lia]|]. eapply rtc_l; [right; left; by apply s_done|].
  eapply rtc_l; [left; by apply m_return|]. apply rtc_refl.
Qed.

Lemma main_shutdown_witness : dbCloses ex_process = 1%nat ∧ workloadCloses ex_process = 1%nat ∧ cancelled ex_process = true.
Proof.
  destruct (main_shutdown ex_process ex_shutdown) as (_ & _ & Hf & _). destruct (Hf eq_refl) as (Hc & Hd & Hw).
  exact (conj Hd (conj Hw Hc)).
Defined.
