(* ===== verification/S3.v ===== *)
(** * db/s3

    The S3 driver: a record is an object, its values the msgpack encoding of the row.  The
    client is the class [S3Client]; the encoding is the parameter [Msgpack].  Here the nil
    map is told from the empty one: it is [None].  The scan pages through a listing. *)

From stdpp Require Import sorting.
From S2P Require Import Prelude GoFloat GoStr Props Util Ycsb KV TikvRows LocalKV.

(** What a listing is asked, and its answer. *)
Record list_input := { Prefix : string; StartAfter : string; ContinuationToken : option string; MaxKeys : Z }.
Record list_output := { Contents : list string; IsTruncated : bool; NextContinuationToken : option string }.

Inductive create_bucket_error := BucketAlreadyOwnedByYou | BucketAlreadyExists | CreateFailed (e : error).

(** [s3_GetObject] also reads the body. *)
Class S3Client (C : Type) := {
  s3_GetObject : string → string → M C (error + bytes);
  s3_PutObject : string → string → bytes → M C (option error);
  s3_DeleteObject : string → string → M C (option error);
  s3_ListObjectsV2 : string → list_input → M C (error + list_output);
  s3_HeadBucket : string → M C (option error);
  s3_CreateBucket : string → M C (option create_bucket_error)
}.

(** [encodeValues] and [decodeValues] of encoding.go: the codec's encoder and decoder come
    from pools and are reset before they are used. *)
Class Msgpack := {
  encodeValues : row → error + bytes;
  decodeValues : bytes → error + option row
}.

(** [int32(z)]. *)
Definition int32_of (z : Z) : Z := (z + 2147483648) mod 4294967296 - 2147483648.

Record s3DB := { bucket : string; updateOverwrite : bool; scanKeysOnly : bool }.

Definition composeObjectKey (table key : string) : string :=
  if String.eqb table "" then key else table +:+ "/" +:+ key.

Section s3.
Context {C : Type} `{S3Client C} `{Msgpack} (db : s3DB).

Definition filter_fields (fields : list string) (allValues : option row) : option row :=
  if decide (fields = []) then allValues
  else Some (foldl (λ m f, match default ∅ allValues !! f with Some v => <[f := v]> m | None => m end) ∅ fields).

(** The body of an object that cannot be read to its end is an error of [s3_GetObject]. *)
Definition s3_Read (table key : string) (fields : list string) : M C (option row * option error) :=
  out ← s3_GetObject (bucket db) (composeObjectKey table key);
  mret match out with
       | inl e => (None, Some e)
       | inr payload =>
           match decodeValues payload with
           | inl e => (None, Some e)
           | inr allValues => (filter_fields fields allValues, None)
           end
       end.

(** The key without the prefix of the table. *)
Definition record_key (prefix key : string) : string :=
  if negb (String.eqb prefix "") && (String.length prefix <? String.length key)%nat && HasPrefix key prefix
  then drop_str (String.length prefix) key else key.

(** The loop over the objects of a page; a record that cannot be read is skipped. *)
Fixpoint scan_page (table prefix startAfter : string) (fields keys : list string) (remaining : Z) (results : list (option row))
    : M C (Z * list (option row)) :=
  match keys with
  | [] => mret (remaining, results)
  | key :: keys =>
      if remaining =? 0 then mret (remaining, results)
      else if String.eqb key startAfter then scan_page table prefix startAfter fields keys remaining results
      else
        let recordKey := record_key prefix key in
        '(rec, err) ← (if scanKeysOnly db then mret (Some {[recordKey := []]}, None) else s3_Read table recordKey fields);
        match err with
        | Some _ => scan_page table prefix startAfter fields keys remaining results
        | None => scan_page table prefix startAfter fields keys (remaining - 1) (results ++ [rec])
        end
  end.

(** The loop over the pages; [fuel] bounds their number. *)
Fixpoint scan_pages (fuel : nat) (table prefix startAfter : string) (fields : list string) (contToken : option string)
    (remaining : Z) (results : list (option row)) : M C (list (option row) * option error) :=
  if remaining <=? 0 then mret (results, None) else
  match fuel with
  | O => stuck
  | S fuel =>
      out ← s3_ListObjectsV2 (bucket db)
              {| Prefix := prefix; StartAfter := startAfter; ContinuationToken := contToken;
                 MaxKeys := Z.min (int32_of remaining) 1000 |};
      match out with
      | inl e => mret ([], Some e)
      | inr out =>
          if decide (Contents out = []) then mret (results, None)
          else
            '(remaining, results) ← scan_page table prefix startAfter fields (Contents out) remaining results;
            if negb (IsTruncated out) || (remaining =? 0) then mret (results, None)
            else scan_pages fuel table prefix startAfter fields (NextContinuationToken out) remaining results
      end
  end.

Definition s3_Scan (fuel : nat) (table startKey : string) (count : Z) (fields : list string)
    : M C (list (option row) * option error) :=
  if count <=? 0 then mret ([], None)
  else
    results ← (if String.eqb startKey "" then mret []
               else if scanKeysOnly db then mret [Some {[startKey := []]}]
               else '(rec, err) ← s3_Read table startKey fields;
                    mret match err, rec with None, Some _ => [rec] | _, _ => [] end);
    if negb (String.eqb startKey "") && (count <=? Z.of_nat (length results)) then mret (results, None)
    else
      let prefix := if String.eqb table "" then "" else table +:+ "/" in
      scan_pages fuel table prefix (composeObjectKey table startKey) fields None
        (count - Z.of_nat (length results)) results.

Definition s3_Insert (table key : string) (values : row) : M C (option error) :=
  match encodeValues values with
  | inl e => mret (Some e)
  | inr payload => s3_PutObject (bucket db) (composeObjectKey table key) payload
  end.

(** Read, merge and write, unless the options say that an update replaces the object; an
    error of the read is dropped. *)
Definition s3_Update (table key : string) (values : row) : M C (option error) :=
  if negb (updateOverwrite db) then
    '(existing, _) ← s3_Read table key [];
    s3_Insert table key (merge_row values (default ∅ existing))
  else s3_Insert table key values.

Definition s3_Delete (table key : string) : M C (option error) :=
  s3_DeleteObject (bucket db) (composeObjectKey table key).

(** *** Batches *)

(** [for i, k := range keys { ... values[i] }] *)
Fixpoint s3_write_each (op : string → row → M C (option error)) (keys : list string) (values : list row) (i : nat)
    : M C (option error) :=
  match keys with
  | [] => mret None
  | k :: keys =>
      v ← lift (index values i);
      err ← op k v;
      match err with Some e => mret (Some e) | None => s3_write_each op keys values (S i) end
  end.

Definition s3_BatchInsert (table : string) (keys : list string) (values : list row) : M C (option error) :=
  s3_write_each (s3_Insert table) keys values 0.

Definition s3_BatchUpdate (table : string) (keys : list string) (values : list row) : M C (option error) :=
  s3_write_each (s3_Update table) keys values 0.

Fixpoint s3_BatchRead (table : string) (keys : list string) (fields : list string)
    : M C (list (option row) * option error) :=
  match keys with
  | [] => mret ([], None)
  | k :: keys =>
      '(rec, err) ← s3_Read table k fields;
      match err with
      | Some e => mret ([], Some e)
      | None =>
          '(out, err) ← s3_BatchRead table keys fields;
          mret match err with Some e => ([], Some e) | None => (rec :: out, None) end
      end
  end.

Fixpoint s3_BatchDelete (table : string) (keys : list string) : M C (option error) :=
  match keys with
  | [] => mret None
  | k :: keys =>
      err ← s3_Delete table k;
      match err with Some e => mret (Some e) | None => s3_BatchDelete table keys end
  end.

(** Nil maps become empty ones, which is all that the workload sees. *)
Definition s3_DB (fuel : nat) : DB C := {|
  Close := mret None;
  InitThread _ _ := mret tt;
  CleanupThread := mret tt;
  Read table key fs := in_db ('(r, err) ← s3_Read table key fs; mret (default ∅ r, err));
  Scan table key n fs := in_db ('(rs, err) ← s3_Scan fuel table key n fs; mret (default ∅ <$> rs, err));
  Update table key v := in_db (s3_Update table key v);
  Insert table key v := in_db (s3_Insert table key v);
  Delete table key := in_db (s3_Delete table key);
  as_BatchDB := Some {|
    BatchInsert table ks vs := in_db (s3_BatchInsert table ks vs);
    BatchRead table ks fs := in_db ('(rs, err) ← s3_BatchRead table ks fs; mret (default ∅ <$> rs, err));
    BatchUpdate table ks vs := in_db (s3_BatchUpdate table ks vs);
    BatchDelete table ks := in_db (s3_BatchDelete table ks)
  |};
  as_AnalyzeDB := None;
  as_CountDB := None;
  as_CleanDB := None
|}.
End s3.

(** ** Opening *)

Record s3_load := { Region : string; Credentials : option (string * string); s3_Endpoint : option string }.

(** [connect] loads the configuration and makes the client.  The bucket is created when
    its head cannot be read, best effort. *)
Definition s3_Create {C P} `{S3Client C} `{Properties P} `{MoreProperties P} (p : P) (connect : s3_load → bool → error + C)
    : res (error + s3DB * C) :=
  let bucket := GetString p "s3.bucket" "ycsb" in
  let region := GetString p "s3.region" "us-east-1" in
  let endpoint := GetString p "s3.endpoint" "" in
  let accessKey := GetString p "s3.access_key" "" in
  let secretKey := GetString p "s3.secret_key" "" in
  let usePathStyle := GetBool p "s3.use_path_style" false in
  let updateOverwrite := GetBool p "s3.update_overwrite" true in
  let scanKeysOnly := GetBool p "s3.scan_keys_only" false in
  let opts :=
    {| Region := region;
       Credentials := if negb (String.eqb accessKey "") && negb (String.eqb secretKey "")
                      then Some (accessKey, secretKey) else None;
       s3_Endpoint := if negb (String.eqb endpoint "") then Some endpoint else None |} in
  match connect opts usePathStyle with
  | inl e => Ok (inl e)
  | inr client =>
      '(cErr, client) ←
        (err ← s3_HeadBucket bucket; match err with Some _ => s3_CreateBucket bucket | None => mret None end) client;
      Ok match cErr with
         | Some (CreateFailed e) => inl e
         | _ => inr ({| bucket := bucket; updateOverwrite := updateOverwrite; scanKeysOnly := scanKeysOnly |}, client)
         end
  end.

(** ** What it does to the objects *)

(** The keys with a prefix after a position, in order. *)
Definition pending (prefix pos : string) (m : gmap string bytes) : list string :=
  filter (λ k, HasPrefix k prefix && str_lt pos k = true) (sorted_keys m).

(** [resume] is the key after which a continuation token resumes. *)
Definition position (resume : string → string) (i : list_input) : string :=
  match ContinuationToken i with Some t => resume t | None => StartAfter i end.

(** The documented behaviour of S3.  [refused] is the history of the keys whose object was
    asked for and not delivered: because there is none, or because the request failed for
    any other reason (throttling, the network, access).  A page holds at most [MaxKeys] of the pending keys,
    and not none of them; the answer says whether there are more, and then its token
    resumes after the page. *)
Class S3Laws (C : Type) `{S3Client C} (bk : string) (view : C → gmap string bytes) (refused : C → list string)
    (resume : string → string) : Prop := {
  law_s3_Get : ∀ k c, ∃ r c', s3_GetObject bk k c = Ok (r, c') ∧ view c' = view c ∧
    match r with
    | inr v => view c !! k = Some v ∧ refused c' = refused c
    | inl _ => refused c' = refused c ++ [k]
    end;
  law_s3_Put : ∀ k v c, ∃ r c', s3_PutObject bk k v c = Ok (r, c') ∧ refused c' = refused c ∧
    (r = None → view c' = <[k := v]> (view c));
  law_s3_Delete : ∀ k c, ∃ r c', s3_DeleteObject bk k c = Ok (r, c') ∧ (r = None → view c' = delete k (view c));
  law_s3_List : ∀ i c, 0 < MaxKeys i → ∃ r c', s3_ListObjectsV2 bk i c = Ok (r, c') ∧ view c' = view c ∧ refused c' = refused c ∧
    let ks := pending (Prefix i) (position resume i) (view c) in
    ∀ out, r = inr out → ∃ n, Z.of_nat n <= MaxKeys i ∧ Contents out = take n ks ∧ (ks ≠ [] → Contents out ≠ []) ∧
      (IsTruncated out = false ↔ drop n ks = []) ∧
      (IsTruncated out = true → ∃ t, NextContinuationToken out = Some t ∧ list.last (Contents out) = Some (resume t))
}.

Class MsgpackLaws `{Msgpack} : Prop := {
  law_msgpack : ∀ values payload, encodeValues values = inr payload → decodeValues payload = inr (Some values)
}.

Lemma filter_all {A} (Q : A → Prop) `{!∀ x, Decision (Q x)} l : Forall Q l → filter Q l = l.
Proof. induction 1 as [|x l Hx _ IH]; [done|]. by rewrite filter_cons_True, IH. Qed.

Lemma filter_after l n k :
  StronglySorted (λ a b, str_lt a b = true) l → list.last (take n l) = Some k →
  filter (λ x, str_lt k x = true) l = drop n l.
Proof.
  intros Hs. revert n. induction Hs as [|x l Hs IH Hx]; intros [|n] Hk; try done.
  cbn [take drop] in *. rewrite last_cons in Hk. destruct (list.last (take n l)) as [k'|] eqn:E; injection Hk as ->.
  - rewrite filter_cons_False; [by apply IH|]. intros Hkx.
    apply last_Some_elem_of, elem_of_take in E as (j & E & _). apply list_elem_of_lookup_2 in E.
    rewrite list.Forall_forall in Hx. pose proof (str_lt_trans _ _ _ (Hx _ E) Hkx) as H. by rewrite str_lt_irrefl in H.
  - rewrite filter_cons_False by (by rewrite str_lt_irrefl). rewrite filter_all by done.
    apply last_None in E. rewrite <- (take_drop n l) at 1. by rewrite E.
Qed.

Lemma StronglySorted_filter {A} (R : relation A) (Q : A → Prop) `{!∀ x, Decision (Q x)} l :
  StronglySorted R l → StronglySorted R (filter Q l).
Proof.
  induction 1 as [|x l _ IH Hx]; [constructor|]. rewrite filter_cons. case_decide; [|done].
  constructor; [done|]. apply list.Forall_forall. intros y [_ Hy]%list_elem_of_filter.
  rewrite list.Forall_forall in Hx. by apply Hx.
Qed.

Lemma pending_sorted prefix pos m : StronglySorted (λ a b, str_lt a b = true) (pending prefix pos m).
Proof. apply StronglySorted_filter, sorted_keys_sorted. Qed.

Lemma pending_after prefix pos m n k :
  list.last (take n (pending prefix pos m)) = Some k → pending prefix k m = drop n (pending prefix pos m).
Proof.
  intros Hk. rewrite <- (filter_after _ _ k (pending_sorted prefix pos m) Hk). unfold pending at 2.
  rewrite list_filter_filter. apply list_filter_iff. intros x.
  apply last_Some_elem_of, elem_of_take in Hk as (j & Hk & _).
  apply list_elem_of_lookup_2, list_elem_of_filter in Hk as [Hp%andb_prop _].
  rewrite !andb_true_iff. split; [|tauto]. intros [? Hlt]. split; [done|]. split; [done|].
  by eapply str_lt_trans; [apply Hp|].
Qed.

Definition table_prefix (table : string) : string := if String.eqb table "" then "" else table +:+ "/".

Lemma composeObjectKey_prefix table key : composeObjectKey table key = table_prefix table +:+ key.
Proof. unfold composeObjectKey, table_prefix. destruct (String.eqb table ""); [done|]. by rewrite <- string_app_assoc. Qed.

Lemma pending_keys table startKey m :
  Forall (λ k, k ≠ composeObjectKey table startKey ∧ composeObjectKey table (record_key (table_prefix table) k) = k)
    (pending (table_prefix table) (composeObjectKey table startKey) m).
Proof.
  apply list.Forall_forall. intros k [[Hp Hlt]%andb_prop _]%list_elem_of_filter. split.
  { intros ->. by rewrite str_lt_irrefl in Hlt. }
  apply HasPrefix_app in Hp as [s ->]. rewrite !composeObjectKey_prefix in *. unfold record_key, HasPrefix.
  assert (Hs : s ≠ "").
  { intros ->. unfold str_lt in Hlt. rewrite string_compare_app in Hlt. by destruct startKey. }
  f_equal. unfold table_prefix. destruct (String.eqb_spec table "") as [->|]; [done|].
  set (p := table +:+ "/"). rewrite str_length_app, drop_str_app, prefix_app.
  assert (String.eqb p "" = false) as -> by (by destruct table).
  destruct (Nat.ltb_spec (String.length p) (String.length p + String.length s)) as [|Hl]; [done|].
  destruct s; [done|cbn in Hl; lia].
Qed.

Section s3_spec.
Context {C : Type} `{S3Client C} `{Msgpack} (db : s3DB) (view : C → gmap string bytes) (refused : C → list string)
  (resume : string → string).
Context `{!S3Laws C (bucket db) view refused resume}.

(** What a read finds in an object, and what a scan finds at a key when the objects in
    [lost] are not delivered. *)
Definition object_row (fields : list string) (payload : bytes) : option (option row) :=
  match decodeValues payload with inl _ => None | inr v => Some (filter_fields fields v) end.

Definition read_at (lost : list string) (fields : list string) (m : gmap string bytes) (key : string) : option (option row) :=
  if decide (key ∈ lost) then None else m !! key ≫= object_row fields.

Definition record_at (lost : list string) (prefix : string) (fields : list string) (m : gmap string bytes) (key : string)
    : option (option row) :=
  if scanKeysOnly db then Some (Some {[record_key prefix key := []]}) else read_at lost fields m key.

(** [lost] and [lost'] have the same keys among [keys]. *)
Definition agree (keys lost lost' : list string) : Prop := ∀ k, k ∈ keys → k ∈ lost ↔ k ∈ lost'.

Lemma record_at_agree lost lost' prefix fields m keys :
  agree keys lost lost' → omap (record_at lost prefix fields m) keys = omap (record_at lost' prefix fields m) keys.
Proof.
  intros Ha. assert (Hk : ∀ k, k ∈ keys → record_at lost prefix fields m k = record_at lost' prefix fields m k).
  { intros k Hk. unfold record_at, read_at. specialize (Ha k Hk). destruct (scanKeysOnly db); [done|]. repeat case_decide; tauto. }
  clear Ha. induction keys as [|k keys IH]; [done|]. cbn. rewrite (Hk k) by set_solver. rewrite IH; [done|]. intros. apply Hk. set_solver.
Qed.

Lemma s3_Read_run table key fields c : ∃ r lost c', s3_Read db table key fields c = Ok (r, c') ∧ view c' = view c ∧
  refused c' = refused c ++ lost ∧ lost ⊆ [composeObjectKey table key] ∧
  match read_at lost fields (view c) (composeObjectKey table key) with
  | Some rec => r = (rec, None)
  | None => ∃ e, r = (None, Some e)
  end.
Proof.
  destruct (law_s3_Get (composeObjectKey table key) c) as (r & c' & E & Hv & Hr). unfold s3_Read.
  rewrite (bind_Ok_1 _ _ _ _ _ E). unfold mret, M_ret, read_at. destruct r as [e|payload].
  - eexists _, [_], _. split; [done|]. split; [done|]. split; [exact Hr|]. split; [done|]. rewrite decide_True by set_solver. by eexists.
  - destruct Hr as [Hr Hf]. eexists _, [], _. split; [done|]. split; [done|]. split; [by rewrite app_nil_r|]. split; [set_solver|].
    rewrite decide_False by set_solver. rewrite Hr. cbn. unfold object_row. by destruct (decodeValues payload); [eexists|].
Qed.

Lemma scan_record_run table prefix fields k c :
  composeObjectKey table (record_key prefix k) = k →
  ∃ r lost c', (if scanKeysOnly db then mret (Some {[record_key prefix k := []]}, None)
                else s3_Read db table (record_key prefix k) fields) c = Ok (r, c') ∧ view c' = view c ∧
    refused c' = refused c ++ lost ∧ lost ⊆ [k] ∧
    match record_at lost prefix fields (view c) k with Some rec => r = (rec, None) | None => ∃ e, r = (None, Some e) end.
Proof.
  intros Hck. unfold record_at. destruct (scanKeysOnly db).
  - eexists _, [], c. split; [done|]. split; [done|]. split; [by rewrite app_nil_r|]. split; [set_solver|done].
  - destruct (s3_Read_run table (record_key prefix k) fields c) as (r & lost & c1 & E & Hv & Hf & Hs & Hrec). rewrite Hck in *. eauto 8.
Qed.

(** The part of the listing that is read, after the first key. *)
Lemma agree_tail k keys lost0 lost1 lost :
  NoDup (k :: keys) → lost0 ⊆ [k] → lost1 ⊆ keys → agree (k :: keys) lost (lost0 ++ lost1) →
  agree [k] lost lost0 ∧ agree keys lost lost1.
Proof. intros [Hk _]%list.NoDup_cons Hl0 Hl1 Ha. split; intros x Hx; specialize (Ha x); set_solver. Qed.

Lemma scan_page_run table prefix startAfter fields keys remaining results c :
  0 <= remaining → NoDup keys → Forall (λ k, k ≠ startAfter ∧ composeObjectKey table (record_key prefix k) = k) keys →
  ∃ new lost c', scan_page db table prefix startAfter fields keys remaining results c =
      Ok ((remaining - Z.of_nat (length new), results ++ new), c') ∧ view c' = view c ∧
    refused c' = refused c ++ lost ∧ lost ⊆ keys ∧
    ∀ lost', agree keys lost' lost → new = take (Z.to_nat remaining) (omap (record_at lost' prefix fields (view c)) keys).
Proof.
  intros Hr Hnd Hk. revert remaining results c Hr. induction Hk as [|k keys [Hne Hck] _ IH]; intros remaining results c Hr.
  { exists [], [], c. cbn. rewrite Z.sub_0_r, !app_nil_r. do 4 (split; [done|]). intros. by rewrite take_nil. }
  cbn [scan_page]. destruct (Z.eqb_spec remaining 0) as [->|Hnz].
  { exists [], [], c. cbn. rewrite !app_nil_r. do 3 (split; [done|]). split; [set_solver|done]. }
  rewrite (proj2 (String.eqb_neq _ _) Hne).
  destruct (scan_record_run table prefix fields k c Hck) as (r & lost0 & c1 & E & Hv & Hf0 & Hs0 & Hrec).
  rewrite (bind_Ok_1 _ _ _ _ _ E). specialize (IH (proj2 (proj1 (list.NoDup_cons _ _) Hnd))).
  assert (Hone : ∀ lost, agree [k] lost lost0 → record_at lost prefix fields (view c) k = record_at lost0 prefix fields (view c) k).
  { intros lost Ha. apply (record_at_agree _ _ prefix fields (view c)) in Ha. cbn in Ha. repeat case_match; by simplify_eq. }
  destruct (record_at lost0 prefix fields (view c) k) as [rec|]; [subst r|destruct Hrec as [e ->]].
  - destruct (IH (remaining - 1) (results ++ [rec]) c1) as (new & lost1 & c' & E' & Hv' & Hf1 & Hs1 & Hn); [lia|].
    exists (rec :: new), (lost0 ++ lost1), c'. rewrite E'. split; [cbn [length]; rewrite <- app_assoc; do 3 f_equal; lia|].
    split; [congruence|]. split; [by rewrite Hf1, Hf0, app_assoc|]. split; [set_solver|]. intros lost Ha.
    destruct (agree_tail _ _ _ _ _ Hnd Hs0 Hs1 Ha) as [Ha0 Ha1]. cbn [omap list_omap]. rewrite (Hone _ Ha0).
    replace (Z.to_nat remaining) with (S (Z.to_nat (remaining - 1))) by lia. cbn [take]. f_equal. rewrite (Hn _ Ha1), Hv. done.
  - destruct (IH remaining results c1 Hr) as (new & lost1 & c' & E' & Hv' & Hf1 & Hs1 & Hn).
    exists new, (lost0 ++ lost1), c'. rewrite E'. split; [done|]. split; [congruence|]. split; [by rewrite Hf1, Hf0, app_assoc|].
    split; [set_solver|]. intros lost Ha. destruct (agree_tail _ _ _ _ _ Hnd Hs0 Hs1 Ha) as [Ha0 Ha1]. cbn [omap list_omap].
    rewrite (Hone _ Ha0), (Hn _ Ha1), Hv. done.
Qed.

Lemma omap_length_le {A B} (f : A → option B) (l : list A) : (length (omap f l) <= length l)%nat.
Proof. induction l as [|x l IH]; [done|]. cbn. destruct (f x); cbn; lia. Qed.

Lemma take_omap {A B} (f : A → option B) (l : list A) n k : (n <= k)%nat →
  take k (omap f (take n l)) = omap f (take n l).
Proof.
  intros Hn. apply take_ge. etrans; [|exact Hn]. etrans; [apply omap_length_le|]. rewrite length_take. lia.
Qed.

Lemma pending_NoDup prefix pos m : NoDup (pending prefix pos m).
Proof.
  induction (pending_sorted prefix pos m) as [|x l _ IH Hx]; constructor; [|done]. intros Hin.
  rewrite list.Forall_forall in Hx. specialize (Hx x Hin). by rewrite str_lt_irrefl in Hx.
Qed.

(** Two parts of a listing. *)
Lemma agree_parts l1 l2 lost1 lost2 lost :
  NoDup (l1 ++ l2) → lost1 ⊆ l1 → lost2 ⊆ l2 → agree (l1 ++ l2) lost (lost1 ++ lost2) →
  agree l1 lost lost1 ∧ agree l2 lost lost2.
Proof. intros (_ & Hd & _)%list.NoDup_app Hl1 Hl2 Ha. split; intros x Hx; specialize (Ha x); set_solver. Qed.

Lemma scan_pages_run fuel table prefix startAfter fields token remaining results c :
  let ks := pending prefix (match token with Some t => resume t | None => startAfter end) (view c) in
  (length ks < fuel)%nat → 0 <= remaining < 2147483648 →
  Forall (λ k, k ≠ startAfter ∧ composeObjectKey table (record_key prefix k) = k) ks →
  ∃ rows err lost c', scan_pages db fuel table prefix startAfter fields token remaining results c = Ok ((rows, err), c') ∧
    view c' = view c ∧ refused c' = refused c ++ lost ∧ lost ⊆ ks ∧
    (err = None → ∀ lost', agree ks lost' lost →
       rows = results ++ take (Z.to_nat remaining) (omap (record_at lost' prefix fields (view c)) ks)).
Proof.
  revert token remaining results c. induction fuel as [|fuel IH]; intros token remaining results c ks Hf Hr Hks; [lia|].
  cbn [scan_pages]. destruct (Z.leb_spec remaining 0) as [Hle|Hpos].
  { eexists _, _, [], c. split; [done|split; [done|]]. split; [by rewrite app_nil_r|]. split; [set_solver|].
    intros _ lost' _. replace remaining with 0 by lia. cbn. by rewrite app_nil_r. }
  replace (int32_of remaining) with remaining by (unfold int32_of; rewrite Z.mod_small; lia).
  set (i := {| Prefix := prefix |}). destruct (law_s3_List i c) as (r & c1 & E & Hv1 & Hf1 & Hl); [cbn; lia|].
  rewrite (bind_Ok_1 _ _ _ _ _ E).
  destruct r as [e|out]; [eexists _, _, [], c1; rewrite app_nil_r; do 3 (split; [done|]); split; [set_solver|done]|].
  destruct (Hl out eq_refl) as (n & Hn & Hc & Hne & Htr & Htok).
  change (pending (Prefix i) (position resume i) (view c)) with ks in Hc, Hne, Htr. cbn [MaxKeys i] in Hn.
  destruct (decide (Contents out = [])) as [Hnil|Hnnil].
  { eexists _, _, [], c1. rewrite app_nil_r. do 3 (split; [done|]). split; [set_solver|]. intros _ lost' _.
    destruct ks as [|k ks']; [cbn; by rewrite take_nil, app_nil_r|]. by destruct (Hne ltac:(done)). }
  assert (Hnd : NoDup (take n ks ++ drop n ks)) by (rewrite take_drop; apply pending_NoDup).
  destruct (scan_page_run table prefix startAfter fields (Contents out) remaining results c1)
    as (new & lost1 & c2 & E2 & Hv2 & Hf2 & Hs1 & Hnew);
    [lia|rewrite Hc; by apply list.NoDup_app in Hnd as (? & _)|rewrite Hc; by apply list.Forall_take|].
  rewrite Hv1, Hc in Hnew. rewrite Hc in Hs1.
  assert (Hlen : (length new <= Z.to_nat remaining)%nat) by (rewrite (Hnew lost1) by done; rewrite length_take; lia).
  assert (Hnew' : ∀ lost, agree (take n ks) lost lost1 → omap (record_at lost prefix fields (view c)) (take n ks) = new)
    by (intros lost Ha; rewrite (Hnew lost Ha), take_omap by lia; done).
  rewrite (bind_Ok_1 _ _ _ _ _ E2).
  assert (Hsplit : ∀ lost, omap (record_at lost prefix fields (view c)) ks =
    omap (record_at lost prefix fields (view c)) (take n ks) ++ omap (record_at lost prefix fields (view c)) (drop n ks))
    by (intros lost; rewrite <- (take_drop n ks) at 1; apply omap_app).
  destruct (negb (IsTruncated out) || (remaining - Z.of_nat (length new) =? 0)) eqn:Hend.
  - eexists _, _, lost1, c2. split; [done|]. split; [congruence|]. split; [by rewrite Hf2, Hf1|].
    split; [rewrite <- (take_drop n ks); set_solver|].
    intros _ lost' Ha. f_equal. rewrite Hsplit.
    rewrite (Hnew' lost') by (intros x Hx; apply Ha; rewrite <- (take_drop n ks); set_solver).
    apply orb_prop in Hend as [Hend%negb_true_iff%Htr|Hend%Z.eqb_eq].
    + rewrite Hend, app_nil_r. symmetry. by apply take_ge.
    + rewrite take_app_le by lia. symmetry. apply take_ge. lia.
  - apply orb_false_elim in Hend as [Hend%negb_false_iff Hrem%Z.eqb_neq].
    destruct (Htok Hend) as (t & -> & Hlast). rewrite Hc in Hlast. pose proof (pending_after _ _ _ _ _ Hlast) as Hp. fold ks in Hp.
    destruct (IH (Some t) (remaining - Z.of_nat (length new)) (results ++ new) c2)
      as (rows & err & lost2 & c3 & E3 & Hv3 & Hf3 & Hs2 & Hrows).
    + rewrite Hv2, Hv1, Hp, length_drop. assert (n ≠ 0%nat) by (intros ->; by destruct Hnnil).
      assert (length ks ≠ 0%nat); [|lia]. intros Hz%nil_length_inv. rewrite Hz, take_nil in Hc. done.
    + lia.
    + rewrite Hv2, Hv1, Hp. by apply list.Forall_drop.
    + rewrite Hv2, Hv1, Hp in Hs2, Hrows. exists rows, err, (lost1 ++ lost2), c3. rewrite E3. split; [done|]. split; [congruence|].
      split; [by rewrite Hf3, Hf2, Hf1, app_assoc|]. split; [rewrite <- (take_drop n ks); set_solver|].
      intros He lost' Ha. rewrite <- (take_drop n ks) in Ha. destruct (agree_parts _ _ _ _ _ Hnd Hs1 Hs2 Ha) as [Ha1 Ha2].
      rewrite (Hrows He lost' Ha2), Hsplit, (Hnew' lost' Ha1), <- app_assoc. f_equal.
      rewrite take_app, (take_ge new) by lia. f_equal. f_equal. lia.
Qed.

(** What a scan finds when the objects in [lost] are not delivered: the row at the start
    key, then the rows after it. *)
Definition start_rows (lost : list string) (table startKey : string) (fields : list string) (m : gmap string bytes)
    : list (option row) :=
  if String.eqb startKey "" then []
  else if scanKeysOnly db then [Some {[startKey := []]}]
  else match read_at lost fields m (composeObjectKey table startKey) with Some (Some rec) => [Some rec] | _ => [] end.

Definition scan_rows (lost : list string) (table startKey : string) (fields : list string) (m : gmap string bytes)
    : list (option row) :=
  start_rows lost table startKey fields m ++
  omap (record_at lost (table_prefix table) fields m) (pending (table_prefix table) (composeObjectKey table startKey) m).

Lemma start_rows_run table startKey fields c :
  ∃ first lost c', (if String.eqb startKey "" then mret []
               else if scanKeysOnly db then mret [Some {[startKey := []]}]
               else '(rec, err) ← s3_Read db table startKey fields;
                    mret match err, rec with None, Some _ => [rec] | _, _ => [] end) c = Ok (first, c') ∧ view c' = view c ∧
    refused c' = refused c ++ lost ∧ lost ⊆ [composeObjectKey table startKey] ∧ (length first <= 1)%nat ∧
    ∀ lost', agree [composeObjectKey table startKey] lost' lost → start_rows lost' table startKey fields (view c) = first.
Proof.
  unfold start_rows. destruct (String.eqb startKey ""); [|destruct (scanKeysOnly db)].
  - eexists _, [], c. rewrite app_nil_r. do 3 (split; [done|]). split; [set_solver|]. split; [cbn; lia|done].
  - eexists _, [], c. rewrite app_nil_r. do 3 (split; [done|]). split; [set_solver|]. split; [cbn; lia|done].
  - destruct (s3_Read_run table startKey fields c) as ([rec err] & lost & c1 & E & Hv & Hf & Hs & Hr).
    rewrite (bind_Ok_1 _ _ _ _ _ E). eexists _, lost, c1. split; [done|]. do 3 (split; [done|]). split; [repeat case_match; cbn; lia|].
    intros lost' Ha. specialize (Ha (composeObjectKey table startKey) ltac:(set_solver)).
    assert (read_at lost' fields (view c) (composeObjectKey table startKey) = read_at lost fields (view c) (composeObjectKey table startKey)) as ->
      by (unfold read_at; repeat case_decide; tauto).
    destruct (read_at lost _ _ _) as [[rec'|]|]; [by simplify_eq..|]. by destruct Hr as [e [= -> ->]].
Qed.


Definition stored_row (table key : string) (m : gmap string bytes) : row :=
  match m !! composeObjectKey table key ≫= object_row [] with Some (Some r) => r | _ => ∅ end.

(** Updates in S3.  After an update without an error a read that succeeds returns the row
    given alone when updates overwrite, which is the default.  Otherwise it is merged into
    the stored row; but when that row was not delivered the error is dropped, and the fields
    the update does not give are lost.  No other object changes. *)
Lemma s3_update_modes `{!MsgpackLaws} table key values c c1 r c2 :
  s3_Update db table key values c = Ok (None, c1) → s3_Read db table key [] c1 = Ok ((r, None), c2) →
  (if updateOverwrite db then r = Some values
   else r = Some (merge_row values (stored_row table key (view c))) ∨
        r = Some (merge_row values ∅) ∧ composeObjectKey table key ∈ refused c1) ∧
  ∀ k, k ≠ composeObjectKey table key → view c1 !! k = view c !! k.
Proof.
  assert (Hins : ∀ v c0, s3_Insert db table key v c0 = Ok (None, c1) → refused c1 = refused c0 ∧
    view c1 !! composeObjectKey table key ≫= object_row [] = Some (Some v) ∧
    ∀ k, k ≠ composeObjectKey table key → view c1 !! k = view c0 !! k).
  { intros v c0 E. unfold s3_Insert in E. destruct (encodeValues v) as [e|payload] eqn:Ee; [done|].
    destruct (law_s3_Put (composeObjectKey table key) payload c0) as (r' & c' & E' & Hf & Hv). rewrite E' in E.
    injection E as -> <-. rewrite Hv by done. split; [done|]. split; [|intros k Hk; by rewrite lookup_insert_ne].
    rewrite lookup_insert_eq. cbn. unfold object_row. by rewrite (law_msgpack _ _ Ee). }
  assert (Hread : ∀ v, view c1 !! composeObjectKey table key ≫= object_row [] = Some (Some v) →
    s3_Read db table key [] c1 = Ok ((r, None), c2) → r = Some v).
  { intros v Hv E. destruct (s3_Read_run table key [] c1) as (r' & lost & c' & E' & _ & _ & _ & Hr). rewrite E in E'. injection E' as <- <-.
    unfold read_at in Hr. rewrite Hv in Hr. case_decide; [by destruct Hr as [e Hr]|by injection Hr as ->]. }
  unfold s3_Update. intros E Er. destruct (updateOverwrite db); cbn [negb] in E.
  - destruct (Hins _ _ E) as (_ & Hv & Hne). split; [by apply Hread|done].
  - destruct (s3_Read_run table key [] c) as (r0 & lost & c0 & E0 & Hv0 & Hf0 & Hs0 & Hr0). rewrite (bind_Ok_1 _ _ _ _ _ E0) in E.
    destruct r0 as [existing err]. destruct (Hins _ _ E) as (Hf & Hv & Hne). rewrite Hv0 in Hne. split; [|done].
    rewrite (Hread _ Hv Er). unfold stored_row, read_at in *. case_decide as Hl.
    + right. destruct Hr0 as [e [= -> _]]. split; [done|]. rewrite Hf, Hf0. set_solver.
    + left. destruct (view c !! _ ≫= object_row []) as [[x|]|]; [..|destruct Hr0 as [e Hr0]]; by simplify_eq/=.
Qed.
End s3_spec.

(** ** A store, and the witnesses *)

(** Objects, those among them that cannot be read, and what was refused. *)
Record mem_s3 := { objects : gmap string bytes; broken : list string; m_refused : list string }.

Definition mem_get (k : string) : M mem_s3 (error + bytes) := λ m,
  match (if decide (k ∈ broken m) then None else objects m !! k) with
  | Some v => Ok (inr v, m)
  | None => Ok (inl "no object", {| objects := objects m; broken := broken m; m_refused := m_refused m ++ [k] |})
  end.

Definition set_objects (o : gmap string bytes) (m : mem_s3) : mem_s3 :=
  {| objects := o; broken := broken m; m_refused := m_refused m |}.

(** Pages of at most two keys. *)
#[global] Instance mem_S3Client : S3Client mem_s3 := {
  s3_GetObject _ k := mem_get k;
  s3_PutObject _ k v := λ m, Ok (None, set_objects (<[k := v]> (objects m)) m);
  s3_DeleteObject _ k := λ m, Ok (None, set_objects (delete k (objects m)) m);
  s3_ListObjectsV2 _ i := λ m,
    let ks := pending (Prefix i) (position id i) (objects m) in
    let n := Z.to_nat (Z.min (MaxKeys i) 2) in
    Ok (inr {| Contents := take n ks; IsTruncated := bool_decide (drop n ks ≠ []);
               NextContinuationToken := list.last (take n ks) |}, m);
  s3_HeadBucket _ := mret None;
  s3_CreateBucket _ := mret None
}.

#[global] Instance mem_S3Laws bk : S3Laws mem_s3 bk objects m_refused id.
Proof.
  split; cbn [s3_GetObject s3_PutObject s3_DeleteObject s3_ListObjectsV2 mem_S3Client].
  - intros k m. unfold mem_get. case_decide; [by eexists _, _|]. destruct (objects m !! k) eqn:E; by eexists _, _.
  - intros k v m. eexists _, _. by split.
  - intros k m. eexists _, _. by split.
  - intros i m Hmax. eexists _, _. do 3 (split; [done|]). intros out [= <-].
    set (ks := pending (Prefix i) (position id i) (objects m)).
    set (n := Z.to_nat (Z.min (MaxKeys i) 2)). exists n. cbn [Contents IsTruncated NextContinuationToken].
    assert (Hcut : take n ks = [] → ks ≠ [] → False).
    { intros Hnil Hks. apply Hks, nil_length_inv. apply (f_equal length) in Hnil. rewrite length_take in Hnil. cbn in Hnil. lia. }
    split; [lia|]. split; [done|]. split; [|split].
    + intros Hks Hnil. apply (Hcut Hnil Hks).
    + rewrite bool_decide_eq_false. split; [apply dec_stable|intros Hd Hn; exact (Hn Hd)].
    + intros Ht%bool_decide_eq_true. destruct (list.last (take n ks)) as [t|] eqn:E; [by exists t|].
      apply last_None in E. destruct (Hcut E). intros Hks. by rewrite Hks, drop_nil in Ht.
Qed.

(** A reversible encoding: the bits of the row's number. *)
Fixpoint bits_of (p : positive) : bytes :=
  match p with xI p => x01 :: bits_of p | xO p => x00 :: bits_of p | xH => [] end.

Fixpoint of_bits (b : bytes) : positive :=
  match b with [] => xH | x01 :: b => xI (of_bits b) | _ :: b => xO (of_bits b) end.

Lemma of_bits_of p : of_bits (bits_of p) = p.
Proof. by induction p as [p IH|p IH|]; cbn; rewrite ?IH. Qed.

#[global] Instance ex_Msgpack : Msgpack := {
  encodeValues values := inr (bits_of (encode values));
  decodeValues payload := match decode (of_bits payload) with Some values => inr (Some values) | None => inl "msgpack" end
}.

#[global] Instance ex_MsgpackLaws : MsgpackLaws.
Proof. split. intros values payload [= <-]. cbn. by rewrite of_bits_of, decode_encode. Qed.

Definition ex_s3 (overwrite : bool) : s3DB := {| bucket := "b"; updateOverwrite := overwrite; scanKeysOnly := false |}.

Definition ex_row (f : string) : bytes := bits_of (encode ({[f := []]} : row)).

(** The object of another table, one that cannot be decoded and one that cannot be read. *)
Definition ex_objects : mem_s3 := {|
  objects := list_to_map [("t/a", ex_row "a"); ("t/b", [x00]); ("t/c", ex_row "c"); ("t/d", ex_row "d"); ("t/e", ex_row "e"); ("u/a", ex_row "u")];
  broken := ["t/c"]; m_refused := [] |}.

Lemma ex_fuel : (length (sorted_keys (objects ex_objects)) <? 7)%nat = true.
Proof. by vm_compute. Qed.

