(* ===== verification/FoundationDB.v ===== *)
(** * db/foundationdb

    The FoundationDB driver.  [Transact] runs a function in a transaction and may run it
    again, on the database as it is by then: when a commit conflicts, and also when the
    client cannot know whether the commit took place.  The class [FdbDatabase] has it for
    any Go state [X] and result [A]; [FdbTx] is what a transaction offers. *)

From S2P Require Import Prelude GoFloat GoStr Props Row Util Ycsb KV TikvRows LocalKV LocalSpec.

Class FdbDatabase (C T : Type) := {
  fdb_Transact : ∀ {X A : Type}, M (T * X) (error + A) → M (C * X) (error + A)
}.

(** [ft_GetRange] are the items an iterator goes through; a limit of 0 is no limit. *)
Class FdbTx (T : Type) := {
  ft_Get : bytes → M T (error + option bytes);
  ft_Set : bytes → bytes → M T unit;
  ft_Clear : bytes → M T unit;
  ft_GetRange : bytes → bytes → Z → M T (list (error + bytes))
}.

Definition getEndRowKey (table : string) : bytes := bytes_of_string (table +:+ ";").

Section fdb.
Context {C T : Type} `{FdbDatabase C T} `{FdbTx T} (order : row → list (string * bytes)) (r : RowCodec).

(** A record that is absent is a nil row, and no error. *)
Definition fdb_Read (table key : string) (fs : list string) : M (C * Pool) (row * option error) :=
  row ← fdb_Transact (in_tx (ft_Get (getRowKey table key)));
  match row with
  | inl e => mret (∅, Some e)
  | inr None => mret (∅, None)
  | inr (Some value) => lift (decode_row r value fs)
  end.

Fixpoint range_rows (fs : list string) (items : list (error + bytes)) (rows : list row) : res (error + list row) :=
  match items with
  | [] => Ok (inr rows)
  | inl e :: _ => Ok (inl e)
  | inr value :: items =>
      d ← Decode r value fs;
      match d with inl e => Ok (inl e) | inr v => range_rows fs items (rows ++ [v]) end
  end.

Definition fdb_Scan (table startKey : string) (count : Z) (fs : list string) : M (C * Pool) (list row * option error) :=
  rows ← fdb_Transact (
    items ← in_tx (ft_GetRange (getRowKey table startKey) (getEndRowKey table) count);
    _ ← lift (check_cap count);
    lift (range_rows fs items []));
  mret match rows with inl e => ([], Some e) | inr rows => (rows, None) end.

Definition err_of {A} (r : error + A) : option error := match r with inl e => Some e | inr _ => None end.
Definition of_err (err : option error) : error + unit := match err with Some e => inl e | None => inr tt end.

Definition set_row (key enc : bytes) : M T (option error) := _ ← ft_Set key enc; mret None.

Definition fdb_Update (table key : string) (values : row) : M (C * Pool) (option error) :=
  res ← fdb_Transact (
    row ← in_tx (ft_Get (getRowKey table key));
    match row with
    | inl e => mret (inl e)
    | inr None => mret (inr tt)
    | inr (Some value) => err ← merge_and false r order value values (set_row (getRowKey table key)); mret (of_err err)
    end);
  mret (err_of res).

(** The row is encoded once, outside the transaction; the buffer taken out is put back. *)
Definition fdb_Insert (table key : string) (values : row) : M (C * Pool) (option error) :=
  loc_with_buf (λ buf,
    match Encode r buf (order values) with
    | inl e => mret (Some e, buf)
    | inr enc =>
        res ← fdb_Transact (_ ← in_tx (ft_Set (getRowKey table key) enc); mret (inr tt));
        mret (err_of res, buf)
    end).

Definition fdb_Delete (table key : string) : M (C * Pool) (option error) :=
  res ← fdb_Transact (_ ← in_tx (ft_Clear (getRowKey table key)); mret (inr tt));
  mret (err_of res).

Definition fdb_DB : DB (C * Pool) := {|
  Close := mret None;
  InitThread _ _ := mret tt;
  CleanupThread := mret tt;
  Read table key fs := in_db (fdb_Read table key fs);
  Scan table key n fs := in_db (fdb_Scan table key n fs);
  Update table key v := in_db (fdb_Update table key v);
  Insert table key v := in_db (fdb_Insert table key v);
  Delete table key := in_db (fdb_Delete table key);
  as_BatchDB := None;
  as_AnalyzeDB := None;
  as_CountDB := None;
  as_CleanDB := None
|}.
End fdb.

(** [api] is [fdb.MustAPIVersion], which panics at a version it does not have. *)
Definition fdb_createDB {C P} `{Properties P} (p : P) (api : Z → res unit) (open : string → bytes → error + C)
    (picks : list nat) : res (error + (C * Pool) * RowCodec) :=
  let clusterFile := GetString p "fdb.cluster" "" in
  let database := GetString p "fdb.dbname" "DB" in
  let apiVersion := GetInt p "fdb.apiversion" 510 in
  _ ← api apiVersion;
  Ok match open clusterFile (bytes_of_string database) with
     | inl e => inl e
     | inr db => inr ((db, NewBufPool picks), NewRowCodec p)
     end.

(** ** What it does to a table *)

(** Runs of [f] whose commits took place although the client could not know it. *)
Inductive unknown_commits {T X A : Type} (seen : T → store) (f : M (T * X) (error + A)) : store → store → Prop :=
  | no_unknown V : unknown_commits seen f V V
  | unknown_commit t x a t' x' V : f (t, x) = Ok (inr a, (t', x')) → unknown_commits seen f (seen t') V →
      unknown_commits seen f (seen t) V.

(** Without an error the last run is the one that counts, on what the unknown commits
    left; with an error only unknown commits have done anything. *)
Class FdbDatabaseLaws (C T : Type) `{FdbDatabase C T} (committed : C → store) (seen : T → store) : Prop := {
  law_Transact : ∀ X A (f : M (T * X) (error + A)) c x r c' x', fdb_Transact f (c, x) = Ok (r, (c', x')) →
    ∃ V, unknown_commits seen f (committed c) V ∧
      match r with
      | inl _ => committed c' = V
      | inr a => ∃ t t' y y', seen t = V ∧ f (t, y) = Ok (inr a, (t', y')) ∧ committed c' = seen t'
      end
}.

Class FdbTxLaws (T : Type) `{FdbTx T} (seen : T → store) : Prop := {
  law_ft_Get : ∀ k t r t', ft_Get k t = Ok (r, t') → seen t' = seen t ∧ ∀ v, r = inr v → v = seen t !! k;
  law_ft_Set : ∀ k v t u t', ft_Set k v t = Ok (u, t') → seen t' = <[k := v]> (seen t);
  law_ft_Clear : ∀ k t u t', ft_Clear k t = Ok (u, t') → seen t' = delete k (seen t);
  law_ft_GetRange : ∀ lo hi n t items t', ft_GetRange lo hi n t = Ok (items, t') → seen t' = seen t ∧
    (0 <= n → Forall2 (λ item (kv : bytes * bytes), ∀ b, item = inr b → b = snd kv) items
                ((if n =? 0 then id else take (Z.to_nat n)) (range_entries (seen t) lo (Some hi))))
}.

(** Updating an absent record does nothing, and says so to nobody. *)
Definition fdb_apply (m : gmap string row) (w : table_write) : gmap string row :=
  match w with
  | TInsert k v => <[k := v]> m
  | TUpdate k v => match m !! k with Some d => <[k := merge_row v d]> m | None => m end
  | TDelete k => delete k m
  end.

Abbreviation fdb_step := (table_step (λ m w, Some (fdb_apply m w)) true).

Definition fdb_table {C T} `{FdbDatabase C T} `{FdbTx T} order r (table : string) : Table (C * Pool) := {|
  t_Read := fdb_Read r table;
  t_Insert := fdb_Insert order r table;
  t_Update := fdb_Update order r table;
  t_Delete := fdb_Delete table
|}.

(** What makes running a transaction twice harmless. *)
Lemma fdb_apply_idemp m w : fdb_apply (fdb_apply m w) w = fdb_apply m w.
Proof.
  destruct w as [k v|k v|k]; cbn.
  - by rewrite insert_insert_eq.
  - destruct (m !! k) as [d|] eqn:Hk; cbn; [|by rewrite Hk].
    rewrite lookup_insert_eq, insert_insert_eq. f_equal. unfold merge_row. by rewrite (assoc_L (∪)), (idemp_L (∪)).
  - by rewrite delete_delete_eq.
Qed.

Section fdb_spec.
Context {P : Type} `{PropertiesLaws P} (p : P).
Context (order : row → list (string * bytes)) (Horder : ∀ m, order m ≡ₚ map_to_list m).
Context {C T : Type} `{FdbDatabase C T} `{FdbTx T} (committed : C → store) (seen : T → store).
Context `{!FdbDatabaseLaws C T committed seen} `{!FdbTxLaws T seen} (table : string).

Abbreviation codec := (NewRowCodec p).
Abbreviation rep := (stored p (getRowKey table)).

Definition fdb_holds (s : C * Pool) (m : gmap string row) : Prop := rep (committed (fst s)) m.

(** A transaction that is one of the abstract writes, however often it runs. *)
Lemma transact_write {X} (f : M (T * X) (error + unit)) w m c x r c' x' :
  (∀ t y a t' y' m0, rep (seen t) m0 → f (t, y) = Ok (inr a, (t', y')) → rep (seen t') (fdb_apply m0 w)) →
  rep (committed c) m → fdb_Transact f (c, x) = Ok (r, (c', x')) →
  match r with inr _ => rep (committed c') (fdb_apply m w)
             | inl _ => rep (committed c') m ∨ rep (committed c') (fdb_apply m w) end.
Proof.
  intros Hf Hm E. apply (law_Transact (committed := committed) (seen := seen)) in E as (V & Hu & Hr).
  assert (HV : rep V m ∨ rep V (fdb_apply m w)).
  { clear Hr. assert (Hor : rep (committed c) m ∨ rep (committed c) (fdb_apply m w)) by by left.
    clear Hm. induction Hu as [V|t y a t' y' V E _ IH]; [done|]. apply IH. right.
    destruct Hor as [Hm|Hm]; specialize (Hf _ _ _ _ _ _ Hm E); [done|]. by rewrite fdb_apply_idemp in Hf. }
  destruct r as [e|a]; [by rewrite Hr|]. destruct Hr as (t & t' & y & y' & <- & E & ->).
  destruct HV as [HV|HV]; specialize (Hf _ _ _ _ _ _ HV E); [done|]. by rewrite fdb_apply_idemp in Hf.
Qed.

Lemma transact_read {X A} (f : M (T * X) (error + A)) c x r c' x' :
  (∀ t y a t' y', f (t, y) = Ok (a, (t', y')) → seen t' = seen t) →
  fdb_Transact f (c, x) = Ok (r, (c', x')) → committed c' = committed c ∧
  ∀ a, r = inr a → ∃ t t' y y', seen t = committed c ∧ f (t, y) = Ok (inr a, (t', y')).
Proof.
  intros Hf E. apply (law_Transact (committed := committed) (seen := seen)) in E as (V & Hu & Hr).
  assert (HV : V = committed c) by (clear Hr; induction Hu as [|t y a t' y' V E _ IH]; [done|]; rewrite IH; by eapply Hf).
  destruct r as [e|a]; [split; [congruence|done]|]. destruct Hr as (t & t' & y & y' & <- & E & Hc).
  pose proof (Hf _ _ _ _ _ E). split; [congruence|]. intros a' [= <-]. by exists t, t', y, y'.
Qed.

Lemma write_step w m c c' (res : error + unit) :
  match res with inr _ => rep (committed c') (fdb_apply m w)
               | inl _ => rep (committed c') m ∨ rep (committed c') (fdb_apply m w) end →
  ∃ m', fdb_step m (TWrite w) (Done (err_of res)) m' ∧ fdb_holds (c', c) m'.
Proof. destruct res as [e|[]]; [intros [Hm|Hm]|intros Hm]; eexists; (split; [|exact Hm]); by constructor. Qed.

Lemma set_row_Ok k enc t err t' : set_row (T := T) k enc t = Ok (err, t') → err = None ∧ seen t' = <[k := enc]> (seen t).
Proof.
  intros E. unfold set_row in E. apply bind_Ok in E as (u & t1 & E & E'). run_inv. split; [done|].
  by apply (law_ft_Set (seen := seen)) in E.
Qed.

Lemma fdb_get_Ok {X} k t (y : X) r t' y' : in_tx (ft_Get k) (t, y) = Ok (r, (t', y')) →
  seen t' = seen t ∧ y' = y ∧ ∀ v, r = inr v → v = seen t !! k.
Proof. intros E. apply in_tx_Ok in E as [E ->]. by apply (law_ft_Get (seen := seen)) in E as [? ?]. Qed.

Lemma fdb_read_step k fs m s r err s' :
  (∀ f, f ∈ fs → f ∈ fields codec) → fdb_holds s m → fdb_Read codec table k fs s = Ok ((r, err), s') →
  ∃ m', fdb_step m (TRead k fs) (Got r err) m' ∧ fdb_holds s' m'.
Proof.
  destruct s as [c x], s' as [c' x']. intros Hfs Hm E. unfold fdb_holds in *. cbn [fst] in *.
  unfold fdb_Read in E. apply bind_Ok in E as (row & [c2 x2] & E1 & E).
  apply transact_read in E1 as [Hc Hr]; [|intros t y b t' y' E'; by apply fdb_get_Ok in E' as [? _]].
  assert (Hc2 : c' = c2) by (destruct row as [e|[b|]]; [run_inv; done| |run_inv; done]; apply lift_state in E; by injection E).
  subst c2. exists m. split; [|by rewrite Hc].
  destruct row as [e|v]; [run_inv; constructor|]. destruct (Hr v eq_refl) as (t & t' & y & y' & Ht & E').
  apply fdb_get_Ok in E' as (_ & _ & Hv). specialize (Hv v eq_refl). rewrite Ht in Hv. specialize (Hm k).
  destruct v as [b|], (m !! k) as [d|] eqn:Hk; [|congruence|destruct Hm as (enc & E2 & _); congruence|].
  - destruct Hm as (enc & E2 & He). assert (b = enc) as -> by congruence. unfold lift in E.
    destruct (decode_row codec enc fs) as [[r2 err2]|?|?|] eqn:Ed; run_inv. destruct (decode_row_Ok p enc d fs _ _ He Hfs Ed) as [-> ->].
    by constructor.
  - run_inv. by constructor.
Qed.

(** The function [Update] runs in its transaction. *)
Lemma update_write k v t (y : Pool) u t' y' m0 :
  row_ok p v → rep (seen t) m0 →
  (row ← in_tx (ft_Get (getRowKey table k));
   match row with
   | inl e => mret (inl e)
   | inr None => mret (inr tt)
   | inr (Some value) => err ← merge_and false codec order value v (set_row (getRowKey table k)); mret (of_err err)
   end) (t, y) = Ok (inr u, (t', y')) →
  rep (seen t') (fdb_apply m0 (TUpdate k v)).
Proof.
  intros Hv Hm0 E. apply bind_Ok in E as (row & [t1 y1] & E1 & E). apply fdb_get_Ok in E1 as (Ht1 & -> & Hrow).
  destruct row as [e|row]; [run_inv|]. specialize (Hrow row eq_refl). pose proof (Hm0 k) as Hk. cbn [fdb_apply].
  destruct row as [b|], (m0 !! k) as [d|] eqn:Ek; [|congruence|destruct Hk as (enc & E2 & _); congruence|run_inv; by rewrite Ht1].
  destruct Hk as (enc & E2 & He). assert (b = enc) as -> by congruence.
  apply bind_Ok in E as (err & [t2 y2] & E & E'). destruct err as [e|]; run_inv.
  destruct (merge_and_Ok p order Horder false enc d v _ _ _ _ _ He Hv E) as (enc' & He' & E').
  apply set_row_Ok in E' as [_ ->]. rewrite Ht1. by apply stored_insert; [apply _|..].
Qed.

Lemma fdb_implements o s m a s' :
  call_fits p o → fdb_holds s m → table_do (fdb_table order codec table) o s = Ok (a, s') →
  ∃ m', fdb_step m o a m' ∧ fdb_holds s' m'.
Proof.
  destruct s as [c x], s' as [c' x']. intros Hfit Hm E.
  destruct o as [k fs|[k v|k v|k]]; cbn [table_do fdb_table t_Read t_Insert t_Update t_Delete] in E;
    [apply bind_Ok in E as ([r err] & [c1 x1] & E1 & E)|apply bind_Ok in E as (r & [c1 x1] & E1 & E)..]; run_inv.
  - by eapply fdb_read_step.
  - unfold fdb_Insert, loc_with_buf in E1. apply with_buf_Ok in E1 as (buf & q & b & [c2 q2] & q3 & E & [= -> ->]). cbn [fst snd] in *.
    destruct (Encode codec buf (order v)) as [e|enc] eqn:Ee; [run_inv; exists m; split; [constructor|done]|].
    apply bind_Ok in E as (res & [c3 q4] & E & E'). run_inv. eapply (transact_write _ (TInsert k v)) in E; [|clear E|exact Hm].
    + exact (write_step _ _ _ _ _ E).
    + intros t y u t' y' m0 Hm0 E. apply bind_Ok in E as (u' & [t1 y1] & E & E'). apply in_tx_Ok in E as [E ->]. run_inv.
      apply (law_ft_Set (seen := seen)) in E as ->. apply stored_insert; [apply _| |done].
      eapply encode_encodes; [apply Horder|done|exact Ee].
  - unfold fdb_Update in E1. apply bind_Ok in E1 as (res & [c2 x2] & E & E'). run_inv.
    eapply (transact_write _ (TUpdate k v)) in E; [exact (write_step _ _ _ _ _ E)|clear E|exact Hm].
    intros t y u t' y' m0 Hm0. by apply update_write.
  - unfold fdb_Delete in E1. apply bind_Ok in E1 as (res & [c2 x2] & E & E'). run_inv.
    eapply (transact_write _ (TDelete k)) in E; [exact (write_step _ _ _ _ _ E)|clear E|exact Hm].
    intros t y u t' y' m0 Hm0 E. apply bind_Ok in E as (u' & [t1 y1] & E & E'). apply in_tx_Ok in E as [E ->]. run_inv.
    apply (law_ft_Clear (seen := seen)) in E as ->. by apply stored_delete; [apply _|].
Qed.

(** C30: Transactions of FoundationDB.  Every history of reads, inserts, updates and
    deletes is a run of the abstract table, although transactions run again on conflicts
    and also after commits that took place: without an error a write has been done as if
    once, with an error once or not at all.  Updating an absent record does nothing and
    reports success; reading it gives an empty row. *)
Theorem fdb_table_refines :
  refines (call_fits p) (λ m w, Some (fdb_apply m w)) true (fdb_table order codec table) fdb_holds.
Proof. apply implements_refines. intros o s m a s'. apply fdb_implements. Qed.

(** *** Scans *)

Definition fdb_entries (V : store) (key : string) : list (bytes * bytes) :=
  range_entries V (getRowKey table key) (Some (getEndRowKey table)).

Lemma bytes_lt_app q a b : bytes_lt (q ++ a) (q ++ b) = bytes_lt a b.
Proof. induction q as [|c q IH]; [done|]. simpl. by rewrite Z.ltb_irrefl, Z.eqb_refl, IH. Qed.

(** [;] is the byte after [:]. *)
Lemma colon_range y key :
  bytes_le (x3a :: key) y && bytes_lt y [x3b] = true ↔ ∃ x, y = x3a :: x ∧ bytes_le key x = true.
Proof.
  unfold bytes_le. destruct y as [|c y]; [split; [done|by intros (? & ? & _)]|]. cbn.
  change (byte_to_Z x3a) with 58. change (byte_to_Z x3b) with 59.
  assert (bytes_lt y [] = false) as -> by by destruct y. rewrite andb_false_r, orb_false_r.
  rewrite andb_true_iff, negb_true_iff, orb_false_iff, andb_false_iff, Z.ltb_ge, Z.eqb_neq, Z.ltb_lt. split.
  - intros [[Hge Hk] Hlt]. assert (c = x3a) as -> by (apply (inj byte_to_Z); change (byte_to_Z x3a) with 58; lia).
    exists y. split; [done|]. destruct Hk as [Hk|Hk]; [done|by rewrite Hk].
  - intros (x & [= -> ->] & Hx). change (byte_to_Z x3a) with 58. rewrite negb_true_iff in Hx. by split; [split; [|right]|].
Qed.

Lemma fdb_entries_elem V key k v :
  (k, v) ∈ fdb_entries V key ↔
  V !! k = Some v ∧ ∃ x, k = getRowKey table "" ++ x ∧ bytes_le (bytes_of_string key) x = true.
Proof.
  unfold fdb_entries. rewrite range_entries_elem. apply and_iff_compat_l.
  assert (Hk : ∀ s, getRowKey table s = bytes_of_string table ++ x3a :: bytes_of_string s).
  { intros s. unfold getRowKey. by rewrite !bytes_of_string_app. }
  unfold getEndRowKey, in_range. rewrite (bytes_of_string_app table ";"), !Hk. change (bytes_of_string ";") with [x3b].
  set (q := bytes_of_string table). change (bytes_of_string "") with (@nil byte). split.
  - intros [Hlo Hhi]%andb_prop. destruct (range_has_prefix q [x3b] k) as [y ->].
    { unfold in_range. rewrite Hhi, andb_true_r. eapply bytes_le_trans; [|exact Hlo]. unfold bytes_le.
      rewrite <- (app_nil_r q) at 2. rewrite bytes_lt_app. done. }
    unfold bytes_le in Hlo. rewrite bytes_lt_app in Hlo, Hhi.
    destruct (proj1 (colon_range y (bytes_of_string key))) as (x & -> & Hx); [by rewrite Hhi; unfold bytes_le; rewrite Hlo|].
    exists x. by rewrite <- app_assoc.
  - intros (x & -> & Hx). rewrite <- app_assoc. cbn [app]. unfold bytes_le. rewrite !bytes_lt_app.
    apply (colon_range (x3a :: x)). by exists x.
Qed.

Lemma range_rows_Ok fs items entries vs rows out :
  (∀ f, f ∈ fs → f ∈ fields codec) →
  Forall2 (λ item (kv : bytes * bytes), ∀ b, item = inr b → b = snd kv) items entries →
  Forall2 (λ kv v, encodes p (snd kv) v) entries vs →
  range_rows codec fs items rows = Ok (inr out) → out = rows ++ (restrict fs <$> vs).
Proof.
  intros Hfs Hi. revert vs rows. induction Hi as [|item kv items entries Hit _ IH]; intros vs rows Hv E; cbn [range_rows] in E.
  - inversion Hv. subst. injection E as <-. by rewrite app_nil_r.
  - inversion Hv as [|? v ? vs' He Hv']. subst. destruct item as [e|b]; [done|].
    rewrite (Hit b eq_refl), (encodes_decode p _ v fs He Hfs) in E. cbn [mbind res_bind] in E.
    apply (IH vs') in E; [|done]. by rewrite E, <- app_assoc.
Qed.

(** Scans in FoundationDB.  A scan without an error returns the rows stored from the
    start key on, in key order, restricted to the fields asked for, at most as many as
    asked for: fewer when there are fewer, and all of them when none is asked for.  The
    range is the table's: exactly the keys with its name and a colon in front.  A scan
    for a negative count does not succeed; the data are as they were. *)
Lemma fdb_scan_range key n fs c x :
  (∀ f, f ∈ fs → f ∈ fields codec) →
  (∀ rows s' vs, fdb_Scan (T := T) codec table key n fs (c, x) = Ok ((rows, None), s') →
     Forall2 (λ kv v, encodes p (snd kv) v) (fdb_entries (committed c) key) vs →
     0 <= n ∧ rows = restrict fs <$> (if n =? 0 then vs else take (Z.to_nat n) vs) ∧ committed (fst s') = committed c) ∧
  ∀ k v, (k, v) ∈ fdb_entries (committed c) key ↔
    committed c !! k = Some v ∧ ∃ y, k = getRowKey table "" ++ y ∧ bytes_le (bytes_of_string key) y = true.
Proof.
  intros Hfs. split; [|intros k v; apply fdb_entries_elem]. intros rows [c' x'] vs E Hv.
  unfold fdb_Scan in E. apply bind_Ok in E as (out & [c1 x1] & E1 & E).
  destruct out as [e|out]; run_inv. apply transact_read in E1 as [Hc Hr].
  - destruct (Hr _ eq_refl) as (t & t' & y & y' & Ht & E). apply bind_Ok in E as (items & [t1 y1] & E3 & E).
    apply in_tx_Ok in E3 as [E3 ->]. apply (law_ft_GetRange (seen := seen)) in E3 as [_ Hi]. rewrite Ht in Hi.
    apply bind_Ok in E as (u & s2 & E2 & E). unfold check_cap, lift in E2. destruct (Z.ltb_spec n 0) as [|Hn]; [done|].
    split; [done|split; [|exact Hc]]. unfold lift in E.
    destruct (range_rows codec fs items []) as [[e|out]|?|?|] eqn:Er; try done. injection E as -> _.
    eapply range_rows_Ok in Er; [exact Er|done|exact (Hi Hn)|].
    destruct (n =? 0); [exact Hv|]. by apply list.Forall2_take.
  - intros t y a t' y' E. apply bind_Ok in E as (items & [t1 y1] & E3 & E). apply in_tx_Ok in E3 as [E3 ->].
    apply (law_ft_GetRange (seen := seen)) in E3 as [Ht _]. apply bind_Ok in E as (u & [t2 y2] & E2 & E).
    apply lift_state in E2. apply lift_state in E. by simplify_eq.
Qed.
End fdb_spec.

(** ** A store for the witnesses *)

(** No commit is known to have taken place at first: every transaction runs twice. *)
#[global] Instance mem_FdbDatabase : FdbDatabase store store := {
  fdb_Transact X A f := λ s,
    '(r, s1) ← f s;
    match r with
    | inl e => Ok (inl e, (fst s, snd s1))
    | inr _ => '(r, s2) ← f s1; Ok (r, (match r with inl _ => fst s1 | inr _ => fst s2 end, snd s2))
    end
}.

#[global] Instance mem_FdbDatabaseLaws : FdbDatabaseLaws store store id id.
Proof.
  split. intros X A f c x r c' x' E. unfold fdb_Transact, mem_FdbDatabase in E.
  apply res_bind_Ok in E as ([r1 [t1 x1]] & E1 & E). destruct r1 as [e|a1].
  { injection E as <- <- _. exists c. split; [constructor|done]. }
  apply res_bind_Ok in E as ([r2 [t2 x2]] & E2 & E). exists t1.
  split; [eapply (unknown_commit id f c); [exact E1|constructor]|].
  destruct r2 as [e|a2]; injection E as <- <- _; [done|]. by exists t1, t2, x1, x2.
Qed.

#[global] Instance mem_FdbTx : FdbTx store := {
  ft_Get k := λ m, Ok (inr (m !! k), m);
  ft_Set k v := λ m, Ok (tt, <[k := v]> m);
  ft_Clear k := λ m, Ok (tt, delete k m);
  ft_GetRange lo hi n := λ m,
    Ok (inr <$> ((if n =? 0 then id else take (Z.to_nat n)) (range_entries m lo (Some hi))).*2, m)
}.

#[global] Instance mem_FdbTxLaws : FdbTxLaws store id.
Proof.
  split; cbn [ft_Get ft_Set ft_Clear ft_GetRange mem_FdbTx].
  - intros k t r t' [= <- <-]. split; [done|]. by intros v [= <-].
  - by intros k v t u t' [= _ <-].
  - by intros k t u t' [= _ <-].
  - intros lo hi n t items t' [= <- <-]. split; [done|]. intros _. apply items_of_entries.
Qed.

Lemma fdb_table_refines_witness :
  history_errors (fdb_table (C := store) (T := store) mem_order (NewRowCodec demo_props) "t") (∅ : store, NewBufPool [])
    = Some [false; false; false; false; false] ∧
  ∀ l s', table_history (fdb_table (C := store) (T := store) mem_order (NewRowCodec demo_props) "t") ex_calls (∅ : store, NewBufPool []) = Ok (l, s') →
    l.*1 = ex_calls ∧ ∃ m', table_run (λ m w, Some (fdb_apply m w)) true ∅ l m' ∧ fdb_holds demo_props id "t" s' m'.
Proof.
  split; [vm_compute; reflexivity|]. intros l s' E.
  apply (fdb_table_refines demo_props mem_order (λ m, reflexivity _) (C := store) (T := store) id id "t"
           ex_calls (∅, NewBufPool []) ∅ l s' ex_calls_fit (ex_empty_holds _) E).
Defined.

(** Only the row of the table, although another table follows. *)
Lemma ex_fdb_entries :
  Forall2 (λ kv v, encodes demo_props (snd kv) v) (fdb_entries "t" ex_two_tables "a") [ex_row].
Proof.
  pose proof ex_two_tables_entries as Hboth.
  assert (fdb_entries "t" ex_two_tables "a" = take 1 (kv_entries "t" ex_two_tables "a")) as -> by (vm_compute; reflexivity).
  exact (list.Forall2_take _ _ _ 1 Hboth).
Qed.

Lemma fdb_scan_range_witness :
  ∃ rows s', fdb_Scan (C := store) (T := store) (NewRowCodec demo_props) "t" "a" 3 [] (ex_two_tables, NewBufPool []) = Ok ((rows, None), s') ∧
    rows = restrict [] <$> take 3 [ex_row] ∧ id (fst s') = ex_two_tables.
Proof.
  destruct (fdb_scan_range demo_props (C := store) (T := store) id id "t" "a" 3 [] ex_two_tables (NewBufPool []) ex_no_fields) as [Hs _].
  assert (Hok : scan_succeeds (fdb_Scan (C := store) (T := store) (NewRowCodec demo_props) "t" "a" 3 [] (ex_two_tables, NewBufPool [])) = true)
    by (vm_compute; reflexivity).
  destruct (fdb_Scan _ _ _ _ _ _) as [[[rows [e|]] s']|?|?|] eqn:E; [done| |done..].
  exists rows, s'. split; [reflexivity|].
  destruct (Hs rows s' [ex_row] eq_refl ex_fdb_entries) as (_ & Hr & Hv). split; [exact Hr|exact Hv].
Defined.
