(* ===== verification/Spanner.v ===== *)
(** * db/spanner

    The Spanner driver: queries with named parameters and mutations.  The class
    [SpannerAdmin] is the administration client, [SpannerClient] the data client;
    waiting for an operation is part of it.  The state is the client and what verbose
    mode prints. *)

From S2P Require Import Prelude GoFloat GoStr GoText Props Util Ycsb TikvRows LocalKV Sql.

Record sp_statement := { SQL : string; Params : gmap string sql_arg }.

(** A value of a mutation is a string. *)
Inductive sp_mutation :=
  | SpUpdate (table : string) (cols values : list string)
  | SpInsertOrUpdate (table : string) (cols values : list string)
  | SpDelete (table key : string).

(** [sp_Query] gives the items [iter.Next] goes through: a row has its columns' names and
    values, NULL being [None]; a row whose columns are no strings is an error. *)
Class SpannerClient (C : Type) := {
  sp_Query : sp_statement → M C (list (error + list (string * option string)));
  sp_Apply : sp_mutation → M C (option error);
  sp_Close : M C unit
}.

(** [sp_GetDatabase] tells whether the state of the database is unspecified. *)
Class SpannerAdmin (A : Type) := {
  sp_GetDatabase : string → M A (error + bool);
  sp_CreateDatabase : string → string → M A (option error);
  sp_UpdateDatabaseDdl : string → list string → M A (option error)
}.

Record sp_state (C : Type) := { sp_client : C; sp_out : list sp_statement }.
Arguments sp_client {C} _.
Arguments sp_out {C} _.

(** [regexp.MustCompile("^(.*)/databases/(.*)$").FindStringSubmatch]: a dot is no line
    feed, and the first group is as long as possible. *)
Fixpoint last_split (sep s : string) : option (string * string) :=
  let here := if HasPrefix s sep then Some ("", drop_str (String.length sep) s) else None in
  match s with
  | EmptyString => here
  | String c s' => match last_split sep s' with Some (a, b) => Some (String c a, b) | None => here end
  end.

Definition database_id (dbName : string) : option (string * string) :=
  if Contains dbName (String line_feed "") then None else last_split "/databases/" dbName.

Section spanner.
Context {C A : Type} `{SpannerClient C} `{SpannerAdmin A} (order : row → list (string * bytes)).

Abbreviation S := (sp_state C).

Definition in_sp {X} (m : M C X) : M S X := zoom sp_client (λ c s, {| sp_client := c; sp_out := sp_out s |}) m.

(** The loop of [queryRows]: a NULL column is left out. *)
Fixpoint sp_rows (items : list (error + list (string * option string))) (vs : list row) : list row * option error :=
  match items with
  | [] => (vs, None)
  | inl e :: _ => ([], Some e)
  | inr cols :: items =>
      let m := foldl (λ (m : row) col, match snd col with Some v => <[fst col := bytes_of_string v]> m | None => m end) ∅ cols in
      sp_rows items (vs ++ [m])
  end.

Definition sp_queryRows (verbose : bool) (stmt : sp_statement) (count : Z) : M S (list row * option error) :=
  _ ← (if verbose then modify (λ s, {| sp_client := sp_client s; sp_out := sp_out s ++ [stmt] |}) else mret tt);
  items ← in_sp (sp_Query stmt);
  _ ← lift (check_cap count);
  mret (sp_rows items []).

Definition sp_read (table key : string) (fields : list string) : sp_statement :=
  {| SQL := "SELECT " +:+ columns fields +:+ " FROM " +:+ table +:+ " WHERE YCSB_KEY = @key";
     Params := {["key" := ArgString key]} |}.

Definition sp_scan (table startKey : string) (count : Z) (fields : list string) : sp_statement :=
  {| SQL := "SELECT " +:+ columns fields +:+ " FROM " +:+ table +:+ " WHERE YCSB_KEY >= @key LIMIT @limit";
     Params := <["limit" := ArgInt count]> {["key" := ArgString startKey]} |}.

(** Without a row it is a nil row. *)
Definition sp_Read (verbose : bool) (table key : string) (fields : list string) : M S (row * option error) :=
  '(rows, err) ← sp_queryRows verbose (sp_read table key fields) 1;
  mret match err, rows with
       | Some e, _ => (∅, Some e)
       | None, [] => (∅, None)
       | None, r :: _ => (r, None)
       end.

Definition sp_Scan (verbose : bool) (table startKey : string) (count : Z) (fields : list string) : M S (list row * option error) :=
  sp_queryRows verbose (sp_scan table startKey count fields) count.

Definition createMutations (key : string) (mutations : row) : list string * list string :=
  ("YCSB_KEY" :: (order mutations).*1, key :: (string_of_bytes <$> (order mutations).*2)).

Definition sp_Update (table key : string) (mutations : row) : M S (option error) :=
  let '(keys, values) := createMutations key mutations in in_sp (sp_Apply (SpUpdate table keys values)).

Definition sp_Insert (table key : string) (mutations : row) : M S (option error) :=
  let '(keys, values) := createMutations key mutations in in_sp (sp_Apply (SpInsertOrUpdate table keys values)).

Definition sp_Delete (table key : string) : M S (option error) := in_sp (sp_Apply (SpDelete table key)).

Definition sp_DB (verbose : bool) : DB S := {|
  Close := in_db (_ ← in_sp sp_Close; mret None);
  InitThread _ _ := mret tt;
  CleanupThread := mret tt;
  Read table key fs := in_db (sp_Read verbose table key fs);
  Scan table key n fs := in_db (sp_Scan verbose table key n fs);
  Update table key v := in_db (sp_Update table key v);
  Insert table key v := in_db (sp_Insert table key v);
  Delete table key := in_db (sp_Delete table key);
  as_BatchDB := None;
  as_AnalyzeDB := None;
  as_CountDB := None;
  as_CleanDB := None
|}.

(** *** Creating the database and the table *)

Context {P : Type} `{Properties P} (p : P).

Definition in_admin {X} (m : M A X) : M (A * S) X := zoom fst (λ a s, (a, snd s)) m.

Definition sp_createDatabase (dbName : string) : M A (error + string) :=
  match database_id dbName with
  | None => mret (inl ("Invalid database id " +:+ dbName))
  | Some (parent, name) =>
      d ← sp_GetDatabase dbName;
      match d with
      | inl e => mret (inl e)
      | inr unspecified =>
          err ← (if (unspecified : bool) then sp_CreateDatabase parent ("CREATE DATABASE `" +:+ name +:+ "`")
                 else mret None);
          mret match err with Some e => inl e | None => inr name end
      end
  end.

Definition exists_stmt (table : string) : sp_statement :=
  {| SQL := "SELECT t.table_name FROM information_schema.tables AS t " +:+ String line_feed "" +:+
            String "009" "WHERE t.table_catalog = '' AND t.table_schema = '' AND t.table_name = @name";
     Params := {["name" := ArgString table]} |}.

Definition sp_tableExisted (table : string) : M S (error + bool) :=
  items ← in_sp (sp_Query (exists_stmt table));
  mret match items with [] => inr false | inl e :: _ => inl e | inr _ :: _ => inr true end.

Definition sp_create_stmt (tableName : string) (fieldCount fieldLength : Z) : string :=
  "CREATE TABLE  " +:+ tableName +:+ " (YCSB_KEY STRING(" +:+ FormatInt fieldLength +:+ ")" +:+
  create_columns (λ i, ", FIELD" +:+ FormatInt i +:+ " STRING(" +:+ FormatInt fieldLength +:+ ")") fieldCount +:+
  ") PRIMARY KEY (YCSB_KEY)".

Definition sp_createTable (dbName : string) : M (A * S) (option error) :=
  let tableName := GetString p prop.TableName prop.TableNameDefault in
  let fieldCount := GetInt64 p prop.FieldCount prop.FieldCountDefault in
  let fieldLength := GetInt64 p prop.FieldLength prop.FieldLengthDefault in
  existed ← zoom snd (λ s st, (fst st, s)) (sp_tableExisted tableName);
  match existed with
  | inl e => mret (Some e)
  | inr existed =>
      dropped ← (if GetBool p prop.DropData prop.DropDataDefault && existed
                 then err ← in_admin (sp_UpdateDatabaseDdl dbName ["DROP TABLE " +:+ tableName]);
                      mret match err with Some e => inl e | None => inr false end
                 else mret (inr existed));
      match dropped with
      | inl e => mret (Some e)
      | inr true => mret None
      | inr false => in_admin (sp_UpdateDatabaseDdl dbName [sp_create_stmt tableName fieldCount fieldLength])
      end
  end.

(** [home] is what [user.Current] says of the home directory, [newAdmin] opens the
    administration client with the credentials of a file.  The driver is its verbose flag. *)
Definition sp_credentials (home : error + string) : error + string :=
  let credentials := GetString p "spanner.credentials" "" in
  if (String.length credentials =? 0)%nat
  then match home with inl e => inl e | inr h => inr (path_Join h ".spanner/credentials.json") end
  else inr credentials.

Definition sp_open (newClient : string → error + C) (admin : A) : res (error + bool * (A * S)) :=
  let dbName := GetString p "spanner.db" "" in
  if (String.length dbName =? 0)%nat
  then Ok (inl "must provide a database like projects/xxxx/instances/xxxx/databases/xxx")
  else
    let verbose := GetBool p prop.Verbose prop.VerboseDefault in
    '(d, admin) ← sp_createDatabase dbName admin;
    match d with
    | inl e => Ok (inl e)
    | inr _ =>
        match newClient dbName with
        | inl e => Ok (inl e)
        | inr client =>
            '(err, s) ← sp_createTable dbName (admin, {| sp_client := client; sp_out := [] |});
            Ok match err with Some e => inl e | None => inr (verbose, s) end
        end
    end.

Definition sp_Create (home : error + string) (newAdmin : string → error + A) (newClient : string → error + C)
    : res (error + bool * (A * S)) :=
  match sp_credentials home with
  | inl e => Ok (inl e)
  | inr credentials =>
      match newAdmin credentials with
      | inl e => Ok (inl e)
      | inr admin => sp_open newClient admin
      end
  end.
End spanner.

(** ** The id of a database *)

(** The split is the last one there is. *)
Lemma last_split_spec sep s : match last_split sep s with
  | Some (a, b) => s = a +:+ sep +:+ b ∧ ∀ a' b', s = a' +:+ sep +:+ b' → (String.length a' <= String.length a)%nat
  | None => ∀ a b, s ≠ a +:+ sep +:+ b
  end.
Proof.
  assert (Hhere : ∀ s, HasPrefix s sep = true → s = sep +:+ drop_str (String.length sep) s).
  { intros t [r ->]%HasPrefix_app. by rewrite drop_str_app. }
  assert (Hno : ∀ r, HasPrefix (sep +:+ r) sep = true) by (intros r; apply prefix_app).
  assert (Hlen : ∀ a' b', "" = a' +:+ sep +:+ b' → String.length a' = 0%nat).
  { intros a' b' E. apply (f_equal String.length) in E. rewrite str_length_app in E. cbn in E. lia. }
  induction s as [|c s IH]; cbn [last_split].
  - destruct (HasPrefix "" sep) eqn:E; [split; [by apply Hhere|]|].
    + intros a' b' E'. by rewrite (Hlen _ _ E').
    + intros [|] b E'; [|done]. change ("" +:+ sep +:+ b) with (sep +:+ b) in E'. by rewrite E', Hno in E.
  - destruct (last_split sep s) as [[a b]|].
    + destruct IH as [-> Hmax]. split; [done|]. intros [|c' a'] b' E'; [cbn; lia|]. injection E' as _ E'.
      specialize (Hmax _ _ E'). cbn. lia.
    + destruct (HasPrefix (String c s) sep) eqn:E.
      * split; [exact (Hhere _ E)|]. intros [|c' a'] b' E'; [done|]. injection E' as _ E'. by destruct (IH a' b').
      * intros [|c' a'] b' E'; [|injection E' as _ E'; by destruct (IH a' b')].
        change ("" +:+ sep +:+ b') with (sep +:+ b') in E'. by rewrite E', Hno in E.
Qed.

(** ** What is done to the table *)

Section ddl.
Context {C A : Type} `{SpannerClient C} `{SpannerAdmin A} {P : Type} `{Properties P} (p : P).

(** [ddl] are the statements that have been sent. *)
Class SpannerAdminLaws (ddl : A → list string) : Prop := {
  law_sp_Ddl : ∀ db sts a err a', sp_UpdateDatabaseDdl db sts a = Ok (err, a') → ddl a' = ddl a ++ sts
}.

Context (ddl : A → list string) `{!SpannerAdminLaws ddl}.

Lemma in_admin_Ok {X} (m : M A X) a (s : sp_state C) x a' s' :
  in_admin m (a, s) = Ok (x, (a', s')) → m a = Ok (x, a') ∧ s' = s.
Proof. unfold in_admin. intros E. apply zoom_Ok in E as (a1 & E & [= <- <-]). done. Qed.

Abbreviation drop := ("DROP TABLE " +:+ GetString p prop.TableName prop.TableNameDefault).
Abbreviation create := (sp_create_stmt (GetString p prop.TableName prop.TableNameDefault)
  (GetInt64 p prop.FieldCount prop.FieldCountDefault) (GetInt64 p prop.FieldLength prop.FieldLengthDefault)).

(** Opening Spanner and the table of records.  The table is dropped only when the
    option to drop data is set and it exists; it is created when it was missing or has
    been dropped, and then only; when the driver has been opened without an error, the
    statements sent are exactly those. *)
Lemma spanner_ddl dbName a s err a' s' :
  sp_createTable p dbName (a, s) = Ok (err, (a', s')) →
  ∃ items c, sp_Query (exists_stmt (GetString p prop.TableName prop.TableNameDefault)) (sp_client s) = Ok (items, c) ∧
  let expected := match items with
                  | [] => [create]
                  | inl _ :: _ => []
                  | inr _ :: _ => if GetBool p prop.DropData prop.DropDataDefault then [drop; create] else []
                  end in
  ∃ sent, ddl a' = ddl a ++ sent ∧ sent `prefix_of` expected ∧ (err = None → sent = expected).
Proof.
  intros E. unfold sp_createTable in E. apply bind_Ok in E as (ex & [a1 s1] & E1 & E).
  apply zoom_Ok in E1 as (s2 & E1 & [= -> ->]). unfold sp_tableExisted in E1. apply bind_Ok in E1 as (items & s3 & E1 & E2).
  unfold in_sp in E1. apply zoom_Ok in E1 as (c & E1 & ->). cbn [snd] in E1. exists items, c. split; [exact E1|].
  injection E2 as <- _. cbn [fst] in E. destruct items as [|[e|cols] items].
  - rewrite andb_false_r in E. apply bind_Ok in E as (d & s3 & E3 & E). injection E3 as <- <-.
    apply in_admin_Ok in E as [E _]. exists [create]. split; [by eapply law_sp_Ddl|done].
  - injection E as <- <- _. exists []. by rewrite app_nil_r.
  - rewrite andb_true_r in E. destruct (GetBool p prop.DropData prop.DropDataDefault).
    + apply bind_Ok in E as (d & [a3 s3] & E3 & E). apply bind_Ok in E3 as (err1 & [a4 s4] & E3 & E4).
      apply in_admin_Ok in E3 as [E3 ->]. apply law_sp_Ddl in E3. injection E4 as <- -> ->.
      destruct err1 as [e|].
      * injection E as <- <- _. exists [drop]. split; [done|]. split; [by exists [create]|done].
      * apply in_admin_Ok in E as [E _]. apply law_sp_Ddl in E. exists [drop; create]. split; [|done].
        by rewrite E, E3, <- app_assoc.
    + apply bind_Ok in E as (d & s3 & E3 & E). injection E3 as <- <-. injection E as <- <- _. exists [].
      by rewrite app_nil_r.
Qed.
End ddl.

(** ** The witness *)

(** A client that only knows whether the table exists, an administration that records. *)
#[global] Instance mem_SpannerClient : SpannerClient bool := {
  sp_Query _ := λ b, Ok (if b : bool then [inr [("table_name", Some "usertable")]] else [], b);
  sp_Apply _ := mret None;
  sp_Close := mret tt
}.

#[global] Instance mem_SpannerAdmin : SpannerAdmin (list string) := {
  sp_GetDatabase _ := mret (inr false);
  sp_CreateDatabase _ _ := mret None;
  sp_UpdateDatabaseDdl _ sts := λ l, Ok (None, l ++ sts)
}.

#[global] Instance mem_SpannerAdminLaws : SpannerAdminLaws (A := list string) id.
Proof. split. by intros db sts a err a' [= <- <-]. Qed.

Definition ex_spanner_props : ref_props := [("dropdata", "true"); ("fieldcount", "1")].

Lemma spanner_ddl_witness :
  ∃ err a' s', sp_createTable (C := bool) ex_spanner_props "db" ([], {| sp_client := true; sp_out := [] |}) = Ok (err, (a', s')) ∧
  ∃ items c, sp_Query (exists_stmt "usertable") true = Ok (items, c) ∧
  ∃ sent, a' = [] ++ sent ∧ (err = None → length sent = 2%nat).
Proof.
  eexists _, _, _. split; [vm_compute; reflexivity|].
  destruct (spanner_ddl (C := bool) (A := list string) ex_spanner_props id "db" [] {| sp_client := true; sp_out := [] |} None
    ["DROP TABLE usertable"; "CREATE TABLE  usertable (YCSB_KEY STRING(100), FIELD0 STRING(100)) PRIMARY KEY (YCSB_KEY)"]
    {| sp_client := true; sp_out := [] |}) as (items & c & Hq & sent & Hs & _ & Hall); [vm_compute; reflexivity|].
  exists items, c. split; [exact Hq|]. exists sent. split; [exact Hs|]. intros _. unfold id in Hs. cbn in Hs. rewrite <- Hs. reflexivity.
Defined.
