(* ===== verification/Mongo.v ===== *)
(** * db/mongodb

    The MongoDB driver: a record is a document under its key.  The client is the class
    [MongoClient]; what it does to the collections is the class of laws [MongoLaws], from
    which the driver implements the abstract table of LocalSpec.v. *)

From S2P Require Import Prelude GoFloat GoStr Props Row Util Ycsb KV TikvRows LocalKV LocalSpec.

(** A value of a document: a string (the key) or bytes. *)
Abbreviation bson_doc := (gmap string (string + bytes)).

(** [mg_FindOne] also decodes the document, [mg_Find] gives all documents from a key on,
    sorted, and the decoding of them all; [mg_UpdateOne] and [mg_DeleteOne] count the
    documents matched and deleted. *)
Class MongoClient (C : Type) := {
  mg_FindOne : string → string → gmap string bool → M C (error + row);
  mg_Find : string → string → gmap string bool → Z → M C (error + (error + list row));
  mg_InsertOne : string → bson_doc → M C (option error);
  mg_UpdateOne : string → string → row → M C (error + Z);
  mg_DeleteOne : string → string → M C (error + Z);
  mg_Disconnect : M C (option error);
  mg_Ping : M C (option error);
  mg_ListDatabaseNames : M C (option error)
}.

(** [projection := map[string]bool{"_id": false}] and the fields. *)
Definition mongo_projection (fields : list string) : gmap string bool :=
  foldl (λ m f, <[f := true]> m) {["_id" := false]} fields.

Definition mongo_doc (key : string) (values : row) : bson_doc := (inr <$> values) ∪ {["_id" := inl key]}.

Section mongo.
Context {C : Type} `{MongoClient C}.

Definition mongo_Read (table key : string) (fields : list string) : M C (row * option error) :=
  doc ← mg_FindOne table key (mongo_projection fields);
  mret match doc with inl e => (∅, Some ("Read error: " +:+ e)) | inr doc => (doc, None) end.

Definition mongo_Scan (table startKey : string) (count : Z) (fields : list string) : M C (list row * option error) :=
  docs ← mg_Find table startKey (mongo_projection fields) count;
  mret match docs with
       | inl e => ([], Some ("Scan error: " +:+ e))
       | inr (inl e) => ([], Some e)
       | inr (inr docs) => (docs, None)
       end.

Definition mongo_Insert (table key : string) (values : row) : M C (option error) :=
  err ← mg_InsertOne table (mongo_doc key values);
  mret match err with Some e => Some ("Insert error: " +:+ e) | None => None end.

Definition mongo_Update (table key : string) (values : row) : M C (option error) :=
  res ← mg_UpdateOne table key values;
  mret match res with
       | inl e => Some ("Update error: " +:+ e)
       | inr MatchedCount => if MatchedCount =? 1 then None else Some ("Update error: " +:+ key +:+ " not found")
       end.

Definition mongo_Delete (table key : string) : M C (option error) :=
  res ← mg_DeleteOne table key;
  mret match res with
       | inl e => Some ("Delete error: " +:+ e)
       | inr DeletedCount => if DeletedCount =? 1 then None else Some ("Delete error: " +:+ key +:+ " not found")
       end.

Definition mongo_DB : DB C := {|
  Close := in_db mg_Disconnect;
  InitThread _ _ := mret tt;
  CleanupThread := mret tt;
  Read table key fs := in_db (mongo_Read table key fs);
  Scan table key n fs := in_db (mongo_Scan table key n fs);
  Update table key v := in_db (mongo_Update table key v);
  Insert table key v := in_db (mongo_Insert table key v);
  Delete table key := in_db (mongo_Delete table key);
  as_BatchDB := None;
  as_AnalyzeDB := None;
  as_CountDB := None;
  as_CleanDB := None
|}.

(** *** Opening *)

Context {P : Type} `{Properties P} (p : P).

(** What is changed in the TLS configuration of the URI ([CA] is a pool of certificates),
    and the options. *)
Record mongo_tls (CA : Type) := { ServerName : option string; InsecureSkipVerify : bool; RootCAs : option CA }.
Record mongo_options (CA : Type) := {
  TLSConfig : option (mongo_tls CA);
  MaxPoolSize : Z;
  Auth : option (string * string * string)
}.

(** [readCA] reads a pool from a file and ends the process when it cannot. *)
Definition mongo_tls_of {CA} (hosts : list string) (readCA : string → res CA) : res (mongo_tls CA) :=
  let caFile := GetString p "mongodb.tls_ca_file" "" in
  server ← match hosts with [] => Ok None | h :: _ => s ← index (Split h ":") 0; Ok (Some s) end;
  ca ← (if negb (String.eqb caFile "") then pool ← readCA caFile; Ok (Some pool) else Ok None);
  Ok {| ServerName := server; InsecureSkipVerify := GetBool p "mongodb.tls_skip_verify" false; RootCAs := ca |}.

Definition mongo_auth : error + option (string * string * string) :=
  let authdb := GetString p "mongodb.authdb" "admin" in
  match Get p "mongodb.username", Get p "mongodb.password" with
  | Some username, Some password => inr (Some (authdb, username, password))
  | Some _, None => inl "mongodb.username is set, but mongodb.password is missing"
  | None, Some _ => inl "mongodb.password is set, but mongodb.username is missing"
  | None, None => inr None
  end.

(** [parse] gives the hosts of the URI, [uri_tls] whether it asks for TLS. *)
Definition mongo_Create {CA} (parse : string → error + list string) (uri_tls : string → bool) (readCA : string → res CA)
    (connect : string → mongo_options CA → error + C) : res (error + C) :=
  let uri := GetString p "mongodb.url" "mongodb://127.0.0.1:27017/ycsb?w=1" in
  match parse uri with
  | inl e => Ok (inl e)
  | inr hosts =>
      tls ← (if uri_tls uri then t ← mongo_tls_of hosts readCA; Ok (Some t) else Ok None);
      let t := u64 (GetInt64 p prop.ThreadCount prop.ThreadCountDefault) in
      match mongo_auth with
      | inl e => Ok (inl e)
      | inr auth =>
          match connect uri {| TLSConfig := tls; MaxPoolSize := t; Auth := auth |} with
          | inl e => Ok (inl e)
          | inr cli =>
              '(err, cli) ← mg_Ping cli;
              match err with
              | Some e => Ok (inl e)
              | None =>
                  '(err, cli) ← mg_ListDatabaseNames cli;
                  Ok match err with Some _ => inl "auth failed" | None => inr cli end
              end
          end
      end
  end.
End mongo.

(** ** What it does to a collection *)

(** A document without its key, and what a projection that hides the key leaves of it. *)
Definition doc_row (d : bson_doc) : row := omap (λ v, match v with inr b => Some b | inl _ => None end) (delete "_id" d).

Definition project (proj : gmap string bool) (v : row) : row :=
  if decide (map_Forall (λ _ b, b = false) proj) then v else filter (λ kv, proj !! kv.1 = Some true) v.

(** Names that are only names: not the key's, no path and no operator. *)
Definition plain_field (f : string) : Prop := f ≠ "_id" ∧ Contains f "." = false ∧ HasPrefix f "$" = false.

Definition plain_row (v : row) : Prop := ∀ f, f ∈ dom v → plain_field f.

Abbreviation collections := (gmap (string * string) row).

Definition set_fields (V : collections) (k : string * string) (values : row) : collections :=
  match V !! k with Some v => <[k := values ∪ v]> V | None => V end.

(** The rows of all collections, by collection and key.  A write with an error was not
    done, or was done and the answer lost. *)
Class MongoLaws (C : Type) `{MongoClient C} (view : C → collections) : Prop := {
  law_mg_FindOne : ∀ coll key proj c r c', mg_FindOne coll key proj c = Ok (r, c') → view c' = view c ∧
    (proj !! "_id" = Some false → ∀ d, r = inr d → ∃ v, view c !! (coll, key) = Some v ∧ d = project proj v);
  law_mg_InsertOne : ∀ coll key values c err c', plain_row values → mg_InsertOne coll (mongo_doc key values) c = Ok (err, c') →
    (view c !! (coll, key) = None ∧ view c' = <[(coll, key) := doc_row (mongo_doc key values)]> (view c)) ∨
    (err ≠ None ∧ view c' = view c);
  law_mg_UpdateOne : ∀ coll key values c r c', plain_row values → mg_UpdateOne coll key values c = Ok (r, c') →
    match r with
    | inr n => view c' = set_fields (view c) (coll, key) values ∧ n = (if decide (is_Some (view c !! (coll, key))) then 1 else 0)
    | inl _ => view c' = view c ∨ view c' = set_fields (view c) (coll, key) values
    end;
  law_mg_DeleteOne : ∀ coll key c r c', mg_DeleteOne coll key c = Ok (r, c') →
    match r with
    | inr n => view c' = delete (coll, key) (view c) ∧ n = (if decide (is_Some (view c !! (coll, key))) then 1 else 0)
    | inl _ => view c' = view c ∨ view c' = delete (coll, key) (view c)
    end
}.

(** The abstract table: inserting a record that exists fails, and so does updating or
    deleting one that does not. *)
Definition strict_apply (m : gmap string row) (w : table_write) : option (gmap string row) :=
  match w with
  | TInsert k v => if decide (m !! k = None) then Some (<[k := v]> m) else None
  | TUpdate k v => d ← m !! k; Some (<[k := merge_row v d]> m)
  | TDelete k => _ ← m !! k; Some (delete k m)
  end.

Definition plain_call (o : table_call) : Prop :=
  match o with
  | TRead _ fs => ∀ f, f ∈ fs → plain_field f
  | TWrite (TInsert _ v) | TWrite (TUpdate _ v) => plain_row v
  | TWrite (TDelete _) => True
  end.

Definition mongo_table {C} `{MongoClient C} (table : string) : Table C := {|
  t_Read := mongo_Read table;
  t_Insert := mongo_Insert table;
  t_Update := mongo_Update table;
  t_Delete := mongo_Delete table
|}.

Lemma doc_row_mongo key values : plain_row values → doc_row (mongo_doc key values) = values.
Proof.
  intros Hp. apply map_eq. intros f. unfold doc_row, mongo_doc. rewrite lookup_omap.
  destruct (decide (f = "_id")) as [->|Hf].
  - rewrite lookup_delete_eq. cbn. symmetry. apply not_elem_of_dom. intros Hd. by destruct (Hp _ Hd).
  - rewrite lookup_delete_ne, lookup_union_l by (done || by rewrite lookup_singleton_ne).
    rewrite lookup_fmap. by destruct (values !! f).
Qed.

Lemma mongo_projection_lookup fields f :
  plain_field f → mongo_projection fields !! f = (if decide (f ∈ fields) then Some true else None).
Proof.
  intros [Hf _]. unfold mongo_projection.
  assert (Hgen : ∀ (m : gmap string bool), m !! f = None ∨ m !! f = Some true →
    foldl (λ m f, <[f := true]> m) m fields !! f = if decide (f ∈ fields) then Some true else m !! f).
  { induction fields as [|g fields IH]; intros m Hm; cbn [foldl]; [done|].
    destruct (decide (f = g)) as [->|Hne].
    - rewrite IH by (right; by rewrite lookup_insert_eq). rewrite lookup_insert_eq.
      rewrite (decide_True (P := g ∈ g :: fields)) by set_solver. by case_decide.
    - rewrite IH, lookup_insert_ne by (done || by rewrite lookup_insert_ne). repeat case_decide; set_solver. }
  rewrite Hgen; rewrite lookup_singleton_ne by congruence; [done|by left].
Qed.

Lemma mongo_hides_id fields : (∀ f, f ∈ fields → plain_field f) → mongo_projection fields !! "_id" = Some false.
Proof.
  intros Hfs. unfold mongo_projection. assert (Hm : ({["_id" := false]} : gmap string bool) !! "_id" = Some false) by done.
  revert Hm. generalize ({["_id" := false]} : gmap string bool). induction fields as [|f fields IH]; intros m Hm; [done|].
  apply IH; [set_solver|]. rewrite lookup_insert_ne; [done|]. apply (Hfs f). set_solver.
Qed.

Lemma mongo_project fields v : (∀ f, f ∈ fields → plain_field f) → plain_row v → project (mongo_projection fields) v = restrict fields v.
Proof.
  intros Hfs Hv. unfold project, restrict. destruct fields as [|f fields].
  - rewrite decide_True; [done|]. intros k b Hk. unfold mongo_projection in Hk. cbn in Hk.
    by apply lookup_singleton_Some in Hk as [_ <-].
  - rewrite decide_False.
    + rewrite (decide_False (P := f :: fields = [])) by done. apply map_filter_ext. intros k b Hk.
      cbn [fst]. rewrite mongo_projection_lookup by (apply Hv; by eapply elem_of_dom_2).
      case_decide; naive_solver.
    + intros Hall. assert (Hf : mongo_projection (f :: fields) !! f = Some true)
        by (rewrite mongo_projection_lookup by (apply Hfs; set_solver); by rewrite decide_True by set_solver).
      by specialize (Hall _ _ Hf).
Qed.

(** The rows of one collection, all with plain fields. *)
Definition coll_holds (table : string) (V : collections) (m : gmap string row) : Prop :=
  ∀ k, V !! (table, k) = m !! k ∧ ∀ v, m !! k = Some v → plain_row v.

Lemma coll_insert table V m k v :
  coll_holds table V m → plain_row v → coll_holds table (<[(table, k) := v]> V) (<[k := v]> m).
Proof.
  intros Hm Hv j. destruct (decide (j = k)) as [->|Hne].
  - rewrite !lookup_insert_eq. split; [done|]. by intros v' [= <-].
  - rewrite !lookup_insert_ne by congruence. apply Hm.
Qed.

Lemma coll_delete table V m k : coll_holds table V m → coll_holds table (delete (table, k) V) (delete k m).
Proof.
  intros Hm j. destruct (decide (j = k)) as [->|Hne].
  - by rewrite !lookup_delete_eq.
  - rewrite !lookup_delete_ne by congruence. apply Hm.
Qed.

Lemma plain_union v d : plain_row v → plain_row d → plain_row (merge_row v d).
Proof. intros Hv Hd f. unfold merge_row. rewrite dom_union_L. set_solver. Qed.

(** Setting fields: the update of the abstract table, or nothing. *)
Lemma coll_update table V m k v :
  coll_holds table V m → plain_row v →
  match strict_apply m (TUpdate k v) with
  | Some m' => coll_holds table (set_fields V (table, k) v) m'
  | None => coll_holds table (set_fields V (table, k) v) m
  end.
Proof.
  intros Hm Hv. unfold set_fields. cbn [strict_apply]. destruct (Hm k) as [-> Hp].
  destruct (m !! k) as [d|]; [|done]. apply coll_insert; [done|]. by apply plain_union; [|apply Hp].
Qed.

Section mongo_spec.
Context {C : Type} `{MongoClient C} (view : C → collections) `{!MongoLaws C view} (table : string).

Definition mongo_holds (c : C) : gmap string row → Prop := coll_holds table (view c).

Abbreviation mongo_step := (table_step strict_apply false).

Lemma mongo_insert_step k v m c err c' :
  plain_row v → mongo_holds c m → mongo_Insert table k v c = Ok (err, c') →
  ∃ m', mongo_step m (TWrite (TInsert k v)) (Done err) m' ∧ mongo_holds c' m'.
Proof.
  intros Hv Hm E. unfold mongo_Insert in E. apply bind_Ok in E as (e & c1 & E & E'). run_inv. unfold mongo_holds in *.
  apply (law_mg_InsertOne (view := view)) in E as [[Hn ->]|[He ->]]; [| |done].
  - rewrite doc_row_mongo by done. exists (<[k := v]> m). split; [|by apply coll_insert].
    assert (strict_apply m (TInsert k v) = Some (<[k := v]> m)) by (cbn; rewrite decide_True; [done|by rewrite <- (proj1 (Hm k))]).
    destruct e; by constructor.
  - exists m. split; [|done]. destruct e; [constructor|done].
Qed.

Lemma mongo_update_step k v m c err c' :
  plain_row v → mongo_holds c m → mongo_Update table k v c = Ok (err, c') →
  ∃ m', mongo_step m (TWrite (TUpdate k v)) (Done err) m' ∧ mongo_holds c' m'.
Proof.
  intros Hv Hm E. unfold mongo_Update in E. apply bind_Ok in E as (r & c1 & E & E'). run_inv. unfold mongo_holds in *.
  apply (law_mg_UpdateOne (view := view)) in E; [|done]. pose proof (coll_update table (view c) m k v Hm Hv) as Hu.
  cbn [strict_apply] in Hu. destruct (Hm k) as [Hk _]. destruct r as [e|n].
  - destruct E as [->| ->]; [exists m; split; [constructor|done]|].
    destruct (m !! k) as [d|] eqn:Ek; cbn in Hu; (eexists; split; [|exact Hu]); [|constructor].
    apply step_unsure. cbn. by rewrite Ek.
  - destruct E as [-> ->]. rewrite Hk. destruct (m !! k) as [d|] eqn:Ek; cbn in Hu; (eexists; split; [|exact Hu]).
    + rewrite decide_True by done. apply step_done. cbn. by rewrite Ek.
    + rewrite decide_False by (by intros [? ?]). constructor.
Qed.

Lemma mongo_delete_step k m c err c' :
  mongo_holds c m → mongo_Delete table k c = Ok (err, c') →
  ∃ m', mongo_step m (TWrite (TDelete k)) (Done err) m' ∧ mongo_holds c' m'.
Proof.
  intros Hm E. unfold mongo_Delete in E. apply bind_Ok in E as (r & c1 & E & E'). run_inv. unfold mongo_holds in *.
  apply (law_mg_DeleteOne (view := view)) in E. pose proof (coll_delete table (view c) m k Hm) as Hd.
  destruct (Hm k) as [Hk _]. assert (Habs : m !! k = None → delete k m = m) by apply delete_id.
  destruct r as [e|n].
  - destruct E as [->| ->]; [exists m; split; [constructor|done]|].
    destruct (m !! k) as [d|] eqn:Ek; (eexists; split; [|exact Hd]).
    + apply step_unsure. cbn. by rewrite Ek.
    + rewrite Habs by done. constructor.
  - destruct E as [-> ->]. rewrite Hk. destruct (m !! k) as [d|] eqn:Ek; (eexists; split; [|exact Hd]).
    + rewrite decide_True by done. apply step_done. cbn. by rewrite Ek.
    + rewrite decide_False by (by intros [? ?]). rewrite Habs by done. constructor.
Qed.

(** C31: MongoDB as a table.  Every history of reads, inserts, updates and deletes with
    plain field names is a run of the abstract table in which inserting an existing
    record, and updating, deleting or reading an absent one, is an error; reads give the
    fields asked for and never the document's key. *)
Theorem mongo_table_refines : refines plain_call strict_apply false (mongo_table table) mongo_holds.
Proof.
  apply implements_refines. intros [k fs|[k v|k v|k]] c m a c' Hfit Hm E; cbn [table_do mongo_table t_Read t_Insert t_Update t_Delete] in E;
    [apply bind_Ok in E as ([r err] & c1 & E1 & E)|apply bind_Ok in E as (r & c1 & E1 & E)..]; run_inv.
  - unfold mongo_Read in E1. apply bind_Ok in E1 as (d & c1 & E1 & E). run_inv.
    apply (law_mg_FindOne (view := view)) in E1 as [Hc Hd]. exists m. unfold mongo_holds in *. rewrite Hc. split; [|done].
    destruct d as [e|d]; run_inv; [constructor|]. destruct (Hm k) as [Hk Hp].
    destruct (Hd (mongo_hides_id fs Hfit) _ eq_refl) as (v & Hv & ->). rewrite Hk in Hv.
    rewrite mongo_project by (done || by apply Hp). by constructor.
  - by eapply mongo_insert_step.
  - by eapply mongo_update_step.
  - by eapply mongo_delete_step.
Qed.
End mongo_spec.

(** ** A store that never fails, and the witness *)

Definition rows_of (coll : string) (V : collections) : gmap string row :=
  list_to_map (omap (λ kv : string * string * row, if String.eqb kv.1.1 coll then Some (kv.1.2, kv.2) else None) (map_to_list V)).

#[global] Instance mem_MongoClient : MongoClient collections := {
  mg_FindOne coll key proj := λ V,
    Ok (match V !! (coll, key) with Some v => inr (project proj v) | None => inl "mongo: no documents in result" end, V);
  mg_Find coll key proj n := λ V,
    let keys := filter (λ k, str_lt k key = false) (sorted_keys (rows_of coll V)) in
    Ok (inr (inr ((λ k, project proj (default ∅ (V !! (coll, k)))) <$> (if n =? 0 then keys else take (Z.to_nat n) keys))), V);
  mg_InsertOne coll doc := λ V,
    match doc !! "_id" with
    | Some (inl key) => if decide (V !! (coll, key) = None) then Ok (None, <[(coll, key) := doc_row doc]> V) else Ok (Some "duplicate key", V)
    | _ => Ok (Some "unsupported", V)
    end;
  mg_UpdateOne coll key values := λ V, Ok (inr (if decide (is_Some (V !! (coll, key))) then 1 else 0), set_fields V (coll, key) values);
  mg_DeleteOne coll key := λ V, Ok (inr (if decide (is_Some (V !! (coll, key))) then 1 else 0), delete (coll, key) V);
  mg_Disconnect := mret None;
  mg_Ping := mret None;
  mg_ListDatabaseNames := mret None
}.

#[global] Instance mem_MongoLaws : MongoLaws collections id.
Proof.
  split; cbn [mg_FindOne mg_InsertOne mg_UpdateOne mg_DeleteOne mem_MongoClient].
  - intros coll key proj V r V' [= <- <-]. split; [done|]. intros _ d. unfold id. destruct (V !! (coll, key)) as [v|]; [|done].
    intros [= <-]. by exists v.
  - intros coll key values V err V' Hp E. assert (Hid : mongo_doc key values !! "_id" = Some (inl key)).
    { unfold mongo_doc. rewrite lookup_union_r; [by rewrite lookup_singleton_eq|]. rewrite lookup_fmap.
      rewrite (proj1 (not_elem_of_dom values "_id")); [done|]. intros Hd. by destruct (Hp _ Hd). }
    rewrite Hid in E. unfold id. case_decide; injection E as <- <-; [by left|by right].
  - by intros coll key values V r V' _ [= <- <-].
  - by intros coll key V r V' [= <- <-].
Qed.

Lemma ex_calls_plain : Forall plain_call ex_calls.
Proof.
  assert (Hf : plain_field "field0" ∧ plain_field "field1") by (split; (split; [done|by vm_compute])).
  repeat (apply list.Forall_cons; split); try done; intros f Hd;
    first [by apply elem_of_nil in Hd | rewrite dom_singleton_L in Hd; apply elem_of_singleton in Hd as ->; apply Hf].
Qed.

(** The last call, the update of a deleted record, fails. *)
Lemma mongo_table_refines_witness :
  history_errors (mongo_table "t") (∅ : collections) = Some [false; false; false; false; true] ∧
  ∀ l V, table_history (mongo_table "t") ex_calls (∅ : collections) = Ok (l, V) →
    l.*1 = ex_calls ∧ ∃ m', table_run strict_apply false ∅ l m' ∧ mongo_holds id "t" V m'.
Proof.
  split; [vm_compute; reflexivity|]. intros l V E.
  apply (mongo_table_refines id "t" ex_calls ∅ ∅ l V ex_calls_plain); [|exact E].
  intros k. rewrite !lookup_empty. split; [reflexivity|]. intros v Hv. discriminate Hv.
Defined.
