(* ===== verification/Dynamo.v ===== *)
(** * db/dynamodb

    The DynamoDB driver.  Attributes and their conversions are the class [DynamoValues],
    the client the class [DynamoClient] (a waiter is part of it).  An insert writes the
    primary key into the map of its caller, so it gives that map back.  The driver is
    composed with the data integrity check of the workload in the end. *)

From S2P Require Import Prelude GoFloat GoRand GoStr Hash Props Row Generators AckCounter.
From S2P Require Import Zipfian Util Ycsb Core CoreSpec TikvRows.

(** Items of attributes: [item_of] has binary attributes only. *)
Class DynamoValues (I : Type) := {
  item_of : row → I;
  MarshalMap : row → error + I;
  UnmarshalMap : I → row → row * option error
}.

Inductive describe_error := ResourceNotFoundException | DescribeFailed (e : error).

(** [dy_UpdateItem] sets attributes; [None] is the missing expression of an update that
    sets none. *)
Class DynamoClient (C I : Type) := {
  dy_GetItem : string → I → bool → M C (error + I);
  dy_PutItem : string → I → M C (option error);
  dy_UpdateItem : string → I → option row → M C (option error);
  dy_DeleteItem : string → I → M C (option error);
  dy_DescribeTable : string → M C (option describe_error);
  dy_CreateTable : string → string → Z → Z → M C (option error);
  dy_DeleteTable : string → M C (option error);
  dy_WaitExists : string → M C (option error);
  dy_WaitNotExists : string → M C (option error)
}.

Record dynamodbWrapper := {
  tablename : string;
  primarykey : string;
  readCapacityUnits : Z;
  writeCapacityUnits : Z;
  consistentRead : bool;
  deleteAfterRun : bool;
  command : string;
  disableValidateResponseChecksum : bool
}.

Section dynamo.
Context {C I : Type} `{DynamoValues I} `{!DynamoClient C I} (r : dynamodbWrapper).

Definition GetKey (key : string) : I := item_of {[primarykey r := bytes_of_string key]}.

(** The fields asked for are ignored. *)
Definition dynamo_Read (table key : string) (fields : list string) : M C (row * option error) :=
  response ← dy_GetItem (tablename r) (GetKey key) (consistentRead r);
  mret match response with inl e => (∅, Some e) | inr item => UnmarshalMap item ∅ end.

Definition dynamo_Scan (table startKey : string) (count : Z) (fields : list string) : M C (list row * option error) :=
  mret ([], Some "scan is not supported").

(** The error of [Build] is overwritten; logging a failed update reads the expression,
    also when there is none. *)
Definition dynamo_Update (table key : string) (values : row) : M C (option error) :=
  let expr := if decide (values = ∅) then None else Some values in
  err ← dy_UpdateItem (tablename r) (GetKey key) expr;
  match err, expr with
  | Some _, None => panic "invalid memory address or nil pointer dereference"
  | _, _ => mret err
  end.

(** The caller's map comes back with the key in it. *)
Definition dynamo_Insert (table key : string) (values : row) : M C (option error * row) :=
  let values := <[primarykey r := bytes_of_string key]> values in
  match MarshalMap values with
  | inl e => panic e
  | inr item => err ← dy_PutItem (tablename r) item; mret (err, values)
  end.

Definition dynamo_Delete (table key : string) : M C (option error) := dy_DeleteItem (tablename r) (GetKey key).

(** *** The table *)

Definition tableExists : M C (bool * option error) :=
  err ← dy_DescribeTable (tablename r);
  mret match err with
       | None => (true, None)
       | Some ResourceNotFoundException => (false, None)
       | Some (DescribeFailed e) => (false, Some e)
       end.

Definition dynamo_createTable : M C (option error) :=
  err ← dy_CreateTable (tablename r) (primarykey r) (readCapacityUnits r) (writeCapacityUnits r);
  match err with Some e => mret (Some e) | None => dy_WaitExists (tablename r) end.

Definition deleteTable : M C (option error) :=
  err ← dy_DeleteTable (tablename r);
  match err with
  | Some e => exit ("Unable to delete table, " +:+ e)
  | None =>
      err ← dy_WaitNotExists (tablename r);
      match err with
      | Some e => exit ("Wait for table deletion failed. Here's why: " +:+ e)
      | None => mret None
      end
  end.

Definition dynamo_Close : M C (option error) :=
  if String.eqb "run" (command r) && deleteAfterRun r then deleteTable else mret None.

Definition dynamo_DB : DB C := {|
  Close := in_db dynamo_Close;
  InitThread _ _ := mret tt;
  CleanupThread := mret tt;
  Read table key fs := in_db (dynamo_Read table key fs);
  Scan table key n fs := in_db (dynamo_Scan table key n fs);
  Update table key v := in_db (dynamo_Update table key v);
  Insert table key v := in_db ('(err, _) ← dynamo_Insert table key v; mret err);
  Delete table key := in_db (dynamo_Delete table key);
  as_BatchDB := None;
  as_AnalyzeDB := None;
  as_CountDB := None;
  as_CleanDB := None
|}.

(** What [Create] does to the table: [load] makes a new one, everything else needs it. *)
Definition prepare_table {P} `{Properties P} (p : P) : M C (option error) :=
  '(exists_, err) ← tableExists;
  if String.eqb "load" (command r) then
    if (exists_ : bool) then
      if GetBool p "dynamodb.ensure.clean.table" true then _ ← deleteTable; dynamo_createTable else mret err
    else dynamo_createTable
  else
    if exists_ then mret err
    else exit ("dynamo table named " +:+ tablename r +:+ " does not exist. You need to run the load stage previous than 'run'...").
End dynamo.

(** *** Opening *)

Definition dynamo_wrapper {P} `{Properties P} (p : P) : dynamodbWrapper := {|
  tablename := GetString p "dynamodb.tablename" "ycsb";
  primarykey := GetString p "dynamodb.primarykey" "_key";
  readCapacityUnits := GetInt64 p "dynamodb.rc.units" 10;
  writeCapacityUnits := GetInt64 p "dynamodb.wc.units" 10;
  consistentRead := GetBool p "dynamodb.consistent.reads" false;
  deleteAfterRun := GetBool p "dynamodb.delete.after.run.stage" false;
  command := default "" (Get p prop.Command);
  disableValidateResponseChecksum := GetBool p "dynamodb.disableValidateResponseChecksum" false
|}.

(** The region and the endpoint the configuration is loaded with; [None] is the default. *)
Definition dynamo_config {P} `{Properties P} (p : P) : option string * option string :=
  let endpoint := GetString p "dynamodb.endpoint" "" in
  let region := GetString p "dynamodb.region" "" in
  let region := if Contains endpoint "localhost" && negb (String.eqb region "localhost") then "localhost" else region in
  if String.eqb endpoint "" then (if negb (String.eqb region "") then Some region else None, None)
  else (Some region, Some endpoint).

(** Also with an error the driver is given back. *)
Definition dynamo_Create {P C I} `{Properties P} `{DynamoClient C I} (p : P)
    (load : option string → option string → bool → error + C) : res (dynamodbWrapper * (C * option error)) :=
  let r := dynamo_wrapper p in
  let '(region, endpoint) := dynamo_config p in
  match load region endpoint (disableValidateResponseChecksum r) with
  | inl e => Exit ("unable to load SDK config, " +:+ e)
  | inr client => '(err, client) ← prepare_table (I := I) r p client; Ok (r, (client, err))
  end.

(** ** Reading back, and data integrity *)

(** Unmarshalling undoes marshalling; the table holds one item per key; reads asked to be
    consistent see it. *)
Class DynamoLaws (C I : Type) `{DynamoValues I} `{!DynamoClient C I} (table pk : string) (view : C → gmap string I) : Prop := {
  law_Marshal : ∀ v item, MarshalMap v = inr item → UnmarshalMap item ∅ = (v, None);
  law_dy_Put : ∀ key v item c c', v !! pk = Some (bytes_of_string key) → MarshalMap v = inr item →
    dy_PutItem table item c = Ok (None, c') → view c' = <[key := item]> (view c);
  law_dy_Get : ∀ key c item c', dy_GetItem table (item_of {[pk := bytes_of_string key]}) true c = Ok (inr item, c') →
    view c' = view c ∧ ∀ i, view c !! key = Some i → item = i
}.

Section dynamo_spec.
Context {C I : Type} `{DynamoValues I} `{!DynamoClient C I} (r : dynamodbWrapper) (view : C → gmap string I).
Context `{!DynamoLaws C I (tablename r) (primarykey r) view}.
Context {P : Type} `{Properties P} `{MathLib} {D : Type}.

(** C39: DynamoDB and data integrity.  A consistent read of a record just inserted returns
    the row with the primary key as one more field, whatever fields are asked for, and the
    insert has put that field into the map of its caller too.  The workload's data
    integrity check therefore ends the program on the very first such read, unless field
    values happen to be as long as the key. *)
Theorem dynamo_integrity_fails table key values fs c c1 mine found c2 n (w : World D) :
  consistentRead r = true →
  dynamo_Insert r table key values c = Ok ((None, mine), c1) →
  dynamo_Read r table key fs c1 = Ok ((found, None), c2) →
  found = <[primarykey r := bytes_of_string key]> values ∧ mine = found ∧
  (∀ k, k ≠ key → view c2 !! k = view c !! k) ∧
  (constant_length n w → n ≠ Z.of_nat (length (bytes_of_string key)) →
   verifyRow key found w = Exit "unexpected deterministic value").
Proof.
  intros Hcons Ei Er. unfold dynamo_Insert in Ei. set (v := <[primarykey r := bytes_of_string key]> values) in *.
  assert (Hv : v !! primarykey r = Some (bytes_of_string key)) by (unfold v; by rewrite lookup_insert_eq).
  destruct (MarshalMap v) as [e|item] eqn:Em; [done|]. apply bind_Ok in Ei as (err & c0 & Ep & Ei). run_inv.
  apply (law_dy_Put (view := view) _ _ _ _ _ Hv Em) in Ep.
  unfold dynamo_Read in Er. rewrite Hcons in Er. apply bind_Ok in Er as (resp & c3 & Eg & Er). run_inv.
  destruct resp as [e|i]; [done|]. apply (law_dy_Get (view := view)) in Eg as [Hc Hi].
  rewrite (Hi item) in H2 by (by rewrite Ep, lookup_insert_eq).
  rewrite (law_Marshal (view := view) _ _ Em) in H2. injection H2 as <-.
  split; [done|]. split; [done|]. split.
  - intros k Hk. by rewrite Hc, Ep, lookup_insert_ne.
  - intros Hn Hne. apply (verifyRow_exact n key v w Hn). exists (primarykey r), (bytes_of_string key). split; [done|].
    intros Hd. apply Hne. destruct Hn as (_ & Hn & _). apply (f_equal length) in Hd. rewrite det_value_length in Hd by lia. lia.
Qed.
End dynamo_spec.

(** ** A store that never fails, and the witness *)

#[global] Instance mem_DynamoValues : DynamoValues row := {
  item_of v := v;
  MarshalMap v := inr v;
  UnmarshalMap item data := (item ∪ data, None)
}.

Definition key_of (item : row) : string := string_of_bytes (default [] (item !! "_key")).

#[global] Instance mem_DynamoClient : DynamoClient (gmap string row) row := {
  dy_GetItem _ key _ := λ m, Ok (inr (default ∅ (m !! key_of key)), m);
  dy_PutItem _ item := λ m, Ok (None, <[key_of item := item]> m);
  dy_UpdateItem _ key expr := λ m, Ok (None, <[key_of key := default ∅ expr ∪ default key (m !! key_of key)]> m);
  dy_DeleteItem _ key := λ m, Ok (None, delete (key_of key) m);
  dy_DescribeTable _ := mret None;
  dy_CreateTable _ _ _ _ := mret None;
  dy_DeleteTable _ := mret None;
  dy_WaitExists _ := mret None;
  dy_WaitNotExists _ := mret None
}.

#[global] Instance mem_DynamoLaws table : DynamoLaws (gmap string row) row table "_key" id.
Proof.
  split; cbn [dy_GetItem dy_PutItem mem_DynamoClient MarshalMap UnmarshalMap item_of mem_DynamoValues].
  - intros v item [= <-]. by rewrite (right_id_L ∅ (∪)).
  - intros key v item c c' Hk [= <-] [= <-]. unfold id, key_of. rewrite Hk. cbn [default from_option id]. by rewrite string_of_bytes_of_string.
  - intros key c item c' [= <- <-]. split; [done|]. unfold id, key_of. rewrite lookup_singleton_eq. cbn [default from_option id].
    rewrite string_of_bytes_of_string. by intros i ->.
Qed.

Definition ex_dynamo : dynamodbWrapper := dynamo_wrapper ([("dynamodb.consistent.reads", "true")] : ref_props).

Definition insert_then_read : res (option error * row * (row * option error) * (gmap string row * gmap string row)) :=
  '(i, c1) ← dynamo_Insert ex_dynamo "t" "user7" ∅ (∅ : gmap string row);
  '(r, c2) ← dynamo_Read (I := row) ex_dynamo "t" "user7" [] c1;
  Ok (i, r, (c1, c2)).

Lemma ex_dynamo_reads : match insert_then_read with Ok ((None, _), (_, None), _) => true | _ => false end = true.
Proof. vm_compute. exact eq_refl. Qed.

Lemma dynamo_integrity_fails_witness :
  ∃ found, found = <[primarykey ex_dynamo := bytes_of_string "user7"]> ∅ ∧
    @verifyRow math_exp1 _ "user7" found (ex_world [] [] []) = Exit "unexpected deterministic value".
Proof.
  pose proof ex_dynamo_reads as Hok. unfold insert_then_read in Hok.
  destruct (dynamo_Insert ex_dynamo "t" "user7" ∅ (∅ : gmap string row)) as [[[err mine] c1]|?|?|] eqn:Ei; [|discriminate Hok..].
  cbn [mbind res_bind] in Hok.
  destruct (dynamo_Read ex_dynamo "t" "user7" [] c1) as [[[found err2] c2]|?|?|] eqn:Er; [|discriminate Hok..].
  destruct err as [e|]; [discriminate Hok|]. destruct err2 as [e|]; [discriminate Hok|].
  destruct (@dynamo_integrity_fails _ row _ _ ex_dynamo id _ math_exp1 _ "t" "user7" ∅ [] ∅ c1 mine found c2 30 (ex_world [] [] []) eq_refl Ei Er)
    as (Hrow & _ & _ & Hf).
  exists found. split; [exact Hrow|]. apply Hf; [apply ex_world_constant|]. vm_compute. discriminate.
Defined.
