(* ===== verification/Elastic.v ===== *)
(** * db/elasticsearch

    The Elasticsearch driver: writes go to a bulk indexer that sends them later, reads
    decode the answer to a request as if it were the row.  The client and the indexer are
    the class [ElasticClient]; [encoding/json] is Json.v. *)

From S2P Require Import Prelude GoFloat GoStr GoText Props Util Ycsb TikvRows Json.

(** What is queued: the callbacks only print. *)
Record bulk_item := { Action : string; DocumentID : string; Body : option string }.

(** [es_Get] gives the body of the response, whatever its status; [es_DeleteIndex] whether
    the response is an error; [es_CreateIndex] that and how the response prints.  A request
    that fails has no response. *)
Class ElasticClient (C : Type) := {
  es_Get : string → string → M C (error + string);
  es_DeleteIndex : string → M C (error + bool);
  es_CreateIndex : string → string → M C (error + bool * string);
  bi_Add : bulk_item → M C (option error);
  bi_Close : M C (option error)
}.

Record elastic := { indexName : string; es_verbose : bool }.

Section elastic.
Context {C : Type} `{ElasticClient C} (m : elastic).

(** The error of the decoder is dropped. *)
Definition elastic_Read (table key : string) (fields : list string) : M C (row * option error) :=
  res ← es_Get (indexName m) key;
  match res with
  | inl e => mret (∅, Some e)
  | inr body => '(r, _) ← lift (Decoder_Decode body ∅); mret (r, None)
  end.

Definition elastic_Scan (table startKey : string) (count : Z) (fields : list string) : M C (list row * option error) :=
  mret ([], Some "scan is not supported").

Definition elastic_Insert (table key : string) (values : row) : M C (option error) :=
  bi_Add {| Action := "index"; DocumentID := key; Body := Some (Marshal values) |}.

Definition elastic_Update (table key : string) (values : row) : M C (option error) :=
  bi_Add {| Action := "update"; DocumentID := key; Body := Some (Marshal values) |}.

Definition elastic_Delete (table key : string) : M C (option error) :=
  bi_Add {| Action := "delete"; DocumentID := key; Body := None |}.

(** Every thread closes the indexer they share. *)
Definition elastic_CleanupThread : M C unit := _ ← bi_Close; mret tt.

Definition elastic_DB : DB C := {|
  Close := mret None;
  InitThread _ _ := mret tt;
  CleanupThread := in_db elastic_CleanupThread;
  Read table key fs := in_db (elastic_Read table key fs);
  Scan table key n fs := in_db (elastic_Scan table key n fs);
  Update table key v := in_db (elastic_Update table key v);
  Insert table key v := in_db (elastic_Insert table key v);
  Delete table key := in_db (elastic_Delete table key);
  as_BatchDB := None;
  as_AnalyzeDB := None;
  as_CountDB := None;
  as_CleanDB := None
|}.
End elastic.

(** ** Opening *)

Section create.
Context {C X : Type} `{ElasticClient C} {P : Type} `{Properties P} (p : P).

(** The configuration of the client, without the functions in it and constants. *)
Definition es_client_settings : settings :=
  [("MaxRetries", SInt (GetInt p "es.max_retires" 10));
   ("Username", SString (GetString p "es.username" "elastic"));
   ("Password", SString (GetString p "es.password" ""));
   ("InsecureSkipVerify", SBool (GetBool p "es.insecure.ssl" false))].

Definition es_indexer_settings (numCPU : Z) : settings :=
  [("NumWorkers", SInt (GetInt p "es.bulk.num_workers" numCPU));
   ("FlushBytes", SInt (GetInt p "es.bulk.flush_bytes" 5000000));
   ("FlushInterval", SDuration (GetInt p "es.bulk.flush_interval_secs" 30 *! 1000000000));
   ("Refresh", SString (if GetInt p prop.BatchSize prop.DefaultBatchSize <=? 1 then "wait_for" else "false"))].

(** [json.Marshal] of the nested maps. *)
Definition es_mapping : string :=
  "{" +:+ quote "settings" +:+ ":{" +:+ quote "index" +:+ ":{" +:+
  quote "number_of_replicas" +:+ ":" +:+ FormatInt (GetInt p "es.number_of_replicas" 0) +:+ "," +:+
  quote "number_of_shards" +:+ ":" +:+ FormatInt (GetInt p "es.number_of_shards" 1) +:+ "}}}".

Definition es_index : string := GetString p "es.index" "ycsb".

(** What [Create] returns: a driver or nil, and an error or nil. *)
Abbreviation created := (option elastic * option error)%type.

Definition es_driver : created :=
  (Some {| indexName := es_index; es_verbose := GetBool p prop.Verbose prop.VerboseDefault |}, None).

(** The index of a load is made anew. *)
Definition es_recreate : M C created :=
  let failOnCreate := GetBool p "es.exit.on.index.create.fail" false in
  d ← es_DeleteIndex es_index;
  match d with
  | inl e => mret (None, Some e)
  | inr true => mret (None, None)
  | inr false =>
      c ← es_CreateIndex es_index es_mapping;
      match c with
      | inl e =>
          if failOnCreate then mret (None, Some e) else panic "invalid memory address or nil pointer dereference"
      | inr (isError, text) =>
          if isError && failOnCreate then mret (None, Some ("Cannot create index: " +:+ text)) else mret es_driver
      end
  end.

(** [newClient] and [newIndexer] are the constructors of the library; the indexer is made
    on the client. *)
Definition elastic_Create (numCPU : Z) (newClient : list string → settings → error + X)
    (newIndexer : X → string → settings → error + C) : res (created * option C) :=
  match newClient (Split (GetString p "es.hosts.list" "http://127.0.0.1:9200") ",") es_client_settings with
  | inl e => Ok ((None, Some e), None)
  | inr es =>
      match newIndexer es es_index (es_indexer_settings numCPU) with
      | inl e => Ok ((None, Some e), None)
      | inr c =>
          if String.eqb "load" (default "" (Get p prop.Command))
          then '(r, c) ← es_recreate c; Ok (r, Some c)
          else Ok (es_driver, Some c)
      end
  end.
End create.

(** ** What reads and failures give *)

Lemma decode_members_dom m l f : f ∈ dom (decode_members m l).1 ↔ f ∈ dom m ∨ f ∈ l.*1.
Proof.
  revert m. induction l as [|[k v] l IH]; intros m; cbn [decode_members].
  { cbn. rewrite elem_of_nil. naive_solver. }
  destruct (decode_bytes v) as [b e]. specialize (IH (<[k := b]> m)). destruct (decode_members (<[k := b]> m) l) as [m' e'].
  cbn [fst] in *. rewrite IH, dom_insert_L. cbn. rewrite elem_of_cons. set_solver.
Qed.

(** A member that occurs once has its own value. *)
Lemma decode_members_lookup m l k v : NoDup l.*1 → (k, v) ∈ l → (decode_members m l).1 !! k = Some (decode_bytes v).1.
Proof.
  assert (Hkeep : ∀ l m k, k ∉ l.*1 → (decode_members m l).1 !! k = m !! k).
  { clear. induction l as [|[k' v'] l IH]; intros m k Hk; [done|]. cbn [decode_members]. cbn in Hk. apply not_elem_of_cons in Hk as [Hne Hk].
    destruct (decode_bytes v') as [b e]. specialize (IH (<[k' := b]> m) k Hk). destruct (decode_members _ l) as [m' e'].
    cbn [fst] in *. by rewrite IH, lookup_insert_ne. }
  revert m. induction l as [|[k' v'] l IH]; intros m Hn Hin; [by apply elem_of_nil in Hin|]. cbn in Hn.
  apply list.NoDup_cons in Hn as [Hk' Hn]. cbn [decode_members]. apply elem_of_cons in Hin as [[= -> ->]|Hin].
  - specialize (Hkeep l (<[k' := (decode_bytes v').1]> m) k' Hk'). destruct (decode_bytes v') as [b e].
    cbn [fst] in *. destruct (decode_members _ l) as [m' e']. cbn [fst] in *. by rewrite Hkeep, lookup_insert_eq.
  - specialize (IH (<[k' := (decode_bytes v').1]> m) Hn Hin). destruct (decode_bytes v') as [b e]. cbn [fst] in *.
    by destruct (decode_members _ l) as [m' e'].
Qed.

Section elastic_spec.
Context {C : Type} `{ElasticClient C}.

(** Reading from Elasticsearch.  A read whose request got an answer reports success
    whatever the answer is.  When the answer is a JSON object, its members are the fields
    of the row that is returned: the document itself, an object under [_source], becomes
    an empty value, and no field stored in it is among them unless it is named like a
    member of the answer. *)
Lemma elastic_read_envelope (m : elastic) table key fs c body c1 :
  es_Get (indexName m) key c = Ok (inr body, c1) →
  ∃ r, elastic_Read m table key fs c = Ok ((r, None), c1) ∧
  ∀ l rest, parse_json body = Ok (Some (JObject l, rest)) →
    (∀ f, f ∈ dom r ↔ f ∈ l.*1) ∧
    ∀ doc, NoDup l.*1 → ("_source", JObject doc) ∈ l → r !! "_source" = Some [].
Proof.
  intros E. destruct (parse_json_total body) as [o Ho]. unfold elastic_Read. rewrite (bind_Ok_1 _ _ _ _ _ E).
  unfold Decoder_Decode. rewrite Ho. cbn [mbind res_bind].
  set (d := match o with Some (v, _) => decode_map ∅ v | None => (∅, Some SyntaxError) end).
  exists (fst d). split; [unfold lift, mbind, M_bind; by destruct d|].
  intros l rest [= ->]. cbn [decode_map] in d. destruct (decode_members ∅ l) as [r e] eqn:El. cbn [fst d]. split.
  - intros f. pose proof (decode_members_dom ∅ l f) as Hd. rewrite El in Hd. cbn [fst] in Hd. rewrite Hd, dom_empty_L. set_solver.
  - intros doc Hn Hin. pose proof (decode_members_lookup ∅ l _ _ Hn Hin) as Hl. by rewrite El in Hl.
Qed.
End elastic_spec.

(** A load whose index cannot be deleted because the server says so (and not because the
    request fails) gets neither a driver nor an error. *)
Lemma elastic_create_nothing {C} `{ElasticClient C} {P} `{Properties P} (p : P) c c1 :
  es_DeleteIndex (es_index p) c = Ok (inr true, c1) → es_recreate p c = Ok ((None, None), c1).
Proof. intros E. unfold es_recreate. by rewrite (bind_Ok_1 _ _ _ _ _ E). Qed.

(** ** The witness *)

(** A server with one answer, and what is queued. *)
#[global] Instance mem_ElasticClient : ElasticClient (string * list bulk_item) := {
  es_Get _ _ := λ s, Ok (inr (fst s), s);
  es_DeleteIndex _ := mret (inr false);
  es_CreateIndex _ _ := mret (inr (false, ""));
  bi_Add item := λ s, Ok (None, (fst s, snd s ++ [item]));
  bi_Close := mret None
}.

Definition ex_answer : string := dq "{'_index':'ycsb','_id':'u','found':true,'_source':{'f':'YWI='}}".

Definition ex_server : string * list bulk_item := (ex_answer, []).

Lemma elastic_read_envelope_witness :
  ∃ r, elastic_Read {| indexName := "ycsb"; es_verbose := false |} "t" "u" ["f"] ex_server = Ok ((r, None), ex_server) ∧
    r !! "_source" = Some [] ∧ "f" ∉ dom r.
Proof.
  destruct (elastic_read_envelope {| indexName := "ycsb"; es_verbose := false |} "t" "u" ["f"] ex_server ex_answer ex_server)
    as (r & Er & Hr); [reflexivity|].
  exists r. split; [exact Er|].
  destruct (Hr [("_index", JString "ycsb"); ("_id", JString "u"); ("found", JBool true); ("_source", JObject [("f", JString "YWI=")])] "")
    as [Hd Hs]; [vm_compute; reflexivity|].
  split; [apply (Hs [("f", JString "YWI=")])|].
  - apply (bool_decide_unpack _). vm_compute. exact I.
  - do 3 apply list_elem_of_further. apply list_elem_of_here.
  - rewrite Hd. apply (bool_decide_unpack _). vm_compute. exact I.
Defined.
