(* ===== verification/Aerospike.v ===== *)
(** * db/aerospike

    The Aerospike driver.  The client is the class [AerospikeClient] over keys [K]; a bin
    holds bytes or something else.  An update reads the record and writes it back in two
    calls, between which other clients may write: [as_Update] is [update_get] followed by
    [update_put]. *)

From S2P Require Import Prelude GoFloat GoStr Props Util Ycsb TikvRows.

Inductive as_value := AsBytes (b : bytes) | AsOther.
Abbreviation BinMap := (gmap string as_value).

Record as_record := { Bins : BinMap; Generation : Z }.

(** [NewWritePolicy] and [EXPECT_GEN_EQUAL]. *)
Record write_policy := { expected_generation : Z }.

(** A key that could not be made is nil.  [as_ScanAll] gives the results of the channel. *)
Class AerospikeClient (C K : Type) := {
  as_NewKey : string → string → string → error + K;
  as_Get : option K → M C (error + option as_record);
  as_Put : option write_policy → K → BinMap → M C (option error);
  as_PutBins : K → list (string * bytes) → M C (option error);
  as_Delete : K → M C (option error);
  as_ScanAll : string → string → M C (error + list (error + BinMap));
  as_Close : M C unit
}.

Definition not_bytes : error := "couldn't convert to byte array".

(** The loop over the bins of a record: the first bin that is no byte array is an error. *)
Fixpoint bins_row (bins : list (string * as_value)) (m : row) : row * option error :=
  match bins with
  | [] => (m, None)
  | (k, AsBytes b) :: bins => bins_row bins (<[k := b]> m)
  | (_, AsOther) :: _ => (∅, Some not_bytes)
  end.

Section aerospike.
Context {C K : Type} `{AerospikeClient C K} (ns : string).
(** The order in which Go ranges over a row and over bins. *)
Context (order : row → list (string * bytes)) (bin_order : BinMap → list (string * as_value)).

(** The error of [NewKey] is dropped; the fields asked for are ignored. *)
Definition aero_Read (table key : string) (fields : list string) : M C (row * option error) :=
  let asKey := match as_NewKey ns table key with inl _ => None | inr k => Some k end in
  record ← as_Get asKey;
  mret match record with
       | inl e => (∅, Some e)
       | inr None => (∅, None)
       | inr (Some record) => bins_row (bin_order (Bins record)) ∅
       end.

(** Neither the start key nor an order plays a part, and without fields there are none. *)
Fixpoint scan_results (fields : list string) (results : list (error + BinMap)) (count nRead : Z) (scanRes : list row)
    : list row * option error :=
  match results with
  | [] => (scanRes, None)
  | inl e :: _ => ([], Some e)
  | inr bins :: results =>
      let '(vals, err) := bins_row (filter (λ kv, kv.1 ∈ fields) (bin_order bins)) ∅ in
      match err with
      | Some e => ([], Some e)
      | None =>
          let nRead := nRead + 1 in
          if nRead =? count then (scanRes ++ [vals], None)
          else scan_results fields results count nRead (scanRes ++ [vals])
      end
  end.

Definition aero_Scan (table startKey : string) (count : Z) (fields : list string) : M C (list row * option error) :=
  recordset ← as_ScanAll ns table;
  mret match recordset with
       | inl e => ([], Some e)
       | inr results => scan_results fields results count 0 []
       end.

(** Up to the record that is read. *)
Definition update_get (table key : string) : M C (error + K * option as_record) :=
  match as_NewKey ns table key with
  | inl e => mret (inl e)
  | inr asKey =>
      record ← as_Get (Some asKey);
      mret match record with inl e => inl e | inr record => inr (asKey, record) end
  end.

(** The policy made from the record's generation is a new variable of the inner block: the
    one that is used stays nil. *)
Definition update_put (asKey : K) (record : option as_record) (values : row) : M C (option error) :=
  let bins := match record with Some record => Bins record | None => ∅ end in
  as_Put None asKey ((AsBytes <$> values) ∪ bins).

Definition aero_Update (table key : string) (values : row) : M C (option error) :=
  r ← update_get table key;
  match r with
  | inl e => mret (Some e)
  | inr (asKey, record) => update_put asKey record values
  end.

Definition aero_Insert (table key : string) (values : row) : M C (option error) :=
  match as_NewKey ns table key with
  | inl e => mret (Some e)
  | inr asKey => as_PutBins asKey (order values)
  end.

Definition aero_Delete (table key : string) : M C (option error) :=
  match as_NewKey ns table key with
  | inl e => mret (Some e)
  | inr asKey => as_Delete asKey
  end.

Definition aero_DB : DB C := {|
  Close := in_db (_ ← as_Close; mret None);
  InitThread _ _ := mret tt;
  CleanupThread := mret tt;
  Read table key fs := in_db (aero_Read table key fs);
  Scan table key n fs := in_db (aero_Scan table key n fs);
  Update table key v := in_db (aero_Update table key v);
  Insert table key v := in_db (aero_Insert table key v);
  Delete table key := in_db (aero_Delete table key);
  as_BatchDB := None;
  as_AnalyzeDB := None;
  as_CountDB := None;
  as_CleanDB := None
|}.
End aerospike.

(** The driver is given back with an error too. *)
Definition aero_Create {C P} `{Properties P} (p : P) (newClient : string → Z → C * option error) : string * (C * option error) :=
  (GetString p "aerospike.ns" "test", newClient (GetString p "aerospike.host" "localhost") (GetInt p "aerospike.port" 3000)).

(** ** Updates and other writers *)

(** Documented behaviour: a write sets the bins it has and keeps the others, and the
    generation grows.  Under a policy that expects a generation it is refused with a
    generation error ([gen_error]), and nothing is stored, when the record has another one;
    without a policy it never is. *)
Class AerospikeLaws (C K : Type) `{Countable K} `{!AerospikeClient C K} (view : C → gmap K as_record) (gen_error : error → bool) : Prop := {
  law_as_Get : ∀ k c r c', as_Get (Some k) c = Ok (inr r, c') → view c' = view c ∧ r = view c !! k;
  law_as_Put_answers : ∀ policy k bins c, ∃ r c', as_Put policy k bins c = Ok (r, c');
  law_as_Put : ∀ policy k bins c c', as_Put policy k bins c = Ok (None, c') →
    view c' = <[k := {| Bins := bins ∪ default ∅ (Bins <$> (view c !! k));
                        Generation := default 0 (Generation <$> (view c !! k)) + 1 |}]> (view c);
  law_as_Put_expected : ∀ pol k bins c r c', as_Put (Some pol) k bins c = Ok (r, c') →
    default 0 (Generation <$> (view c !! k)) ≠ expected_generation pol →
    view c' = view c ∧ ∃ e, r = Some e ∧ gen_error e = true;
  law_as_Put_nil : ∀ k bins c e c', as_Put None k bins c = Ok (Some e, c') → gen_error e = false
}.

Section aerospike_spec.
Context {C K : Type} `{Countable K} `{!AerospikeClient C K} (view : C → gmap K as_record) (gen_error : error → bool)
  `{!AerospikeLaws C K view gen_error} (ns : string).

(** C38: Concurrent updates in Aerospike.  Let others change the record between the read
    and the write of an update, so that its generation moves on ([c2] is any such state).
    The write is not refused for that: the update returns, with no error or with one that
    is no generation error.  Without an error the record ends with the fields the update
    sets and with the old value of every other field it had read, whatever the others wrote
    there in between. *)
Theorem aerospike_lost_updates table key values c0 asKey record c1 c2 :
  update_get ns table key c0 = Ok (inr (asKey, record), c1) →
  Generation <$> (view c2 !! asKey) ≠ Generation <$> (view c0 !! asKey) →
  ∃ err c3, update_put asKey record values c2 = Ok (err, c3) ∧
    match err with
    | Some e => gen_error e = false
    | None => ∃ final, view c3 !! asKey = Some final ∧
        (∀ f b, values !! f = Some b → Bins final !! f = Some (AsBytes b)) ∧
        ∀ f old, values !! f = None → default ∅ (Bins <$> (view c0 !! asKey)) !! f = Some old → Bins final !! f = Some old
    end.
Proof.
  intros E _. unfold update_get in E. destruct (as_NewKey ns table key) as [e|k]; [done|].
  apply bind_Ok in E as (r & c & E & E'). destruct r as [e|r]; run_inv.
  apply (law_as_Get (view := view)) in E as [_ ->]. unfold update_put.
  match goal with |- ∃ err c3, as_Put None ?k ?bins c2 = _ ∧ _ => destruct (law_as_Put_answers None k bins c2) as (err & c3 & Ep) end.
  exists err, c3. split; [exact Ep|]. destruct err as [e|]; [by eapply law_as_Put_nil|].
  apply (law_as_Put (view := view)) in Ep as ->. eexists. split; [by rewrite lookup_insert_eq|]. cbn [Bins]. split.
  - intros f b Hf. apply lookup_union_Some_l, lookup_union_Some_l. by rewrite lookup_fmap, Hf.
  - intros f old Hf Hold. apply lookup_union_Some_l. rewrite lookup_union_r by (by rewrite lookup_fmap, Hf).
    by destruct (view c0 !! asKey).
Qed.
End aerospike_spec.

(** A scan without fields returns rows without fields. *)
Lemma aerospike_scan_empty bin_order results count nRead scanRes rows :
  Forall (λ r, r = ∅) scanRes → scan_results bin_order [] results count nRead scanRes = (rows, None) → Forall (λ r, r = ∅) rows.
Proof.
  revert nRead scanRes. induction results as [|[e|bins] results IH]; intros nRead scanRes Hs E; cbn [scan_results] in E; [by injection E as <-|done|].
  assert (filter (λ kv : string * as_value, kv.1 ∈ []) (bin_order bins) = []) as Hf
    by (generalize (bin_order bins); intros l; induction l as [|kv l IHl]; [done|rewrite filter_cons_False; [exact IHl|apply not_elem_of_nil]]).
  rewrite Hf in E. cbn in E. assert (Hs' : Forall (λ r, r = ∅) (scanRes ++ [∅])) by (apply list.Forall_app_2; [done|by constructor]).
  destruct (_ =? count); [by injection E as <-|by eapply IH].
Qed.

(** ** A store that never fails, and the witness *)

#[global] Instance mem_AerospikeClient : AerospikeClient (gmap string as_record) string := {
  as_NewKey ns set key := inr key;
  as_Get k := λ m, Ok (inr (match k with Some k => m !! k | None => None end), m);
  as_Put policy k bins := λ m,
    let gen := default 0 (Generation <$> (m !! k)) in
    if match policy with Some pol => gen =? expected_generation pol | None => true end
    then Ok (None, <[k := {| Bins := bins ∪ default ∅ (Bins <$> (m !! k)); Generation := gen + 1 |}]> m)
    else Ok (Some "generation error", m);
  as_PutBins k bins := λ m,
    Ok (None, <[k := {| Bins := (AsBytes <$> list_to_map bins) ∪ default ∅ (Bins <$> (m !! k));
                        Generation := default 0 (Generation <$> (m !! k)) + 1 |}]> m);
  as_Delete k := λ m, Ok (None, delete k m);
  as_ScanAll _ _ := λ m, Ok (inr ((λ kv, inr (Bins kv.2)) <$> map_to_list m), m);
  as_Close := mret tt
}.

Definition mem_gen_error (e : error) : bool := String.eqb e "generation error".

#[global] Instance mem_AerospikeLaws : AerospikeLaws (gmap string as_record) string id mem_gen_error.
Proof.
  split; cbn [as_Get as_Put mem_AerospikeClient].
  - by intros k c r c' [= <- <-].
  - intros policy k bins c. case_match; by eexists _, _.
  - intros policy k bins c c' E. case_match; [by injection E as <-|done].
  - intros pol k bins c r c' E Hg. unfold id in *. rewrite (proj2 (Z.eqb_neq _ _) Hg) in E. injection E as <- <-. split; [done|by eexists].
  - by intros.
Qed.

(** The record when it is read, and after another client has changed field [g]. *)
Definition ex_before : gmap string as_record := {["k" := {| Bins := {["g" := AsBytes [x61]]}; Generation := 1 |}]}.
Definition ex_between : gmap string as_record := {["k" := {| Bins := {["g" := AsBytes [x62]]}; Generation := 2 |}]}.

(** With the policy the code makes and drops, the client would refuse the write. *)
Lemma aerospike_lost_updates_witness :
  (∃ e c, as_Put (C := gmap string as_record) (Some {| expected_generation := 1 |}) "k" ∅ ex_between = Ok (Some e, c) ∧
     mem_gen_error e = true) ∧
  ∃ c3, update_put (C := gmap string as_record) "k" (Some {| Bins := {["g" := AsBytes [x61]]}; Generation := 1 |}) {["f" := [x63]]} ex_between
          = Ok (None, c3) ∧
  ∃ final, c3 !! "k" = Some final ∧ Bins final !! "g" = Some (AsBytes [x61]).
Proof.
  split; [by eexists _, _|].
  edestruct (aerospike_lost_updates (C := gmap string as_record) (K := string) id mem_gen_error "ns" "t" "k" {["f" := [x63]]} ex_before "k"
    (Some {| Bins := {["g" := AsBytes [x61]]}; Generation := 1 |}) ex_before ex_between) as (err & c3 & E & Hr);
    [reflexivity|discriminate|].
  assert (match update_put (C := gmap string as_record) "k" (Some {| Bins := {["g" := AsBytes [x61]]}; Generation := 1 |})
    {["f" := [x63]]} ex_between with Ok (None, _) => true | _ => false end = true) as Hb by reflexivity.
  rewrite E in Hb. destruct err as [e|]; [discriminate Hb|]. exists c3. split; [exact E|].
  destruct Hr as (final & Hv & _ & Hold). exists final. split; [exact Hv|]. apply Hold; reflexivity.
Defined.
