(* ===== verification/Minio.v ===== *)
(** * db/minio

    The MinIO driver: an object holds one value.  The client is the class [MinioClient];
    reading an object to its end is part of [mn_GetObject]. *)

From S2P Require Import Prelude GoFloat GoStr Props Util Ycsb TikvRows LocalKV.

(** [mn_ListObjects] gives the keys of the objects with a prefix, as they come out of the
    channel. *)
Class MinioClient (C : Type) := {
  mn_GetObject : string → string → M C (error + bytes);
  mn_ListObjects : string → string → M C (list string);
  mn_PutObject : string → string → bytes → M C (option error);
  mn_RemoveObject : string → string → M C (option error)
}.

Section minio.
Context {C : Type} `{MinioClient C} (order : row → list (string * bytes)).

Definition minio_Read (table key : string) (fields : list string) : M C (row * option error) :=
  obj ← mn_GetObject table key;
  mret match obj with inl e => (∅, Some e) | inr bs => ({["field0" := bs]}, None) end.

(** [res[i] = map[string][]byte{obj.Key: nil}] *)
Fixpoint fill_keys (keys : list string) (i : nat) (count : Z) (rows : list row) : list row :=
  match keys with
  | [] => rows
  | key :: keys => if Z.of_nat i <? count then fill_keys keys (S i) count (<[i := {[key := []]}]> rows) else rows
  end.

(** The start key is taken for a prefix. *)
Definition minio_Scan (table startKey : string) (count : Z) (fields : list string) : M C (list row * option error) :=
  rows ← lift (make_rows count);
  keys ← mn_ListObjects table startKey;
  mret (fill_keys keys 0 count rows, None).

(** The first value that [range] comes to, nil without values. *)
Definition minio_value (values : row) : bytes := match order values with [] => [] | (_, v) :: _ => v end.

Definition minio_Update (table key : string) (values : row) : M C (option error) :=
  mn_PutObject table key (minio_value values).

Definition minio_Insert : string → string → row → M C (option error) := minio_Update.

Definition minio_Delete (table key : string) : M C (option error) := mn_RemoveObject table key.

Definition minio_DB : DB C := {|
  Close := mret None;
  InitThread _ _ := mret tt;
  CleanupThread := mret tt;
  Read table key fs := in_db (minio_Read table key fs);
  Scan table key n fs := in_db (minio_Scan table key n fs);
  Update table key v := in_db (minio_Update table key v);
  Insert table key v := in_db (minio_Insert table key v);
  Delete table key := in_db (minio_Delete table key);
  as_BatchDB := None;
  as_AnalyzeDB := None;
  as_CountDB := None;
  as_CleanDB := None
|}.
End minio.

Definition minio_Create {C P} `{Properties P} (p : P) (new : string → string → string → bool → error + C) : error + C :=
  new (GetString p "minio.endpoint" "http://127.0.0.1:9000") (GetString p "minio.access-key" "minio")
      (GetString p "minio.secret-key" "myminio") (GetBool p "minio.secure" false).

(** ** What is read back *)

Class MinioLaws (C : Type) `{MinioClient C} (view : C → gmap (string * string) bytes) : Prop := {
  law_mn_Get : ∀ b k c v c', mn_GetObject b k c = Ok (inr v, c') → view c' = view c ∧ view c !! (b, k) = Some v;
  law_mn_Put : ∀ b k v c c', mn_PutObject b k v c = Ok (None, c') → view c' = <[(b, k) := v]> (view c)
}.

Section minio_spec.
Context {C : Type} `{MinioClient C} (view : C → gmap (string * string) bytes) `{!MinioLaws C view}.
Context (order : row → list (string * bytes)) (Horder : ∀ m, order m ≡ₚ map_to_list m).

(** MinIO keeps one value.  A read after an insert or an update of a record returns
    one field, [field0], with one of the values written, whichever Go's iteration comes
    to first, under whatever name it was written.  What is read back is the row written
    exactly when that row has no field but [field0]. *)
Lemma minio_keeps_one_value table key values fs c c1 r c2 :
  values ≠ ∅ → minio_Update order table key values c = Ok (None, c1) → minio_Read table key fs c1 = Ok ((r, None), c2) →
  (∃ f v, values !! f = Some v ∧ r = {["field0" := v]}) ∧
  (r = values ↔ dom values = {["field0"]}) ∧
  ∀ k, k ≠ (table, key) → view c2 !! k = view c !! k.
Proof.
  intros Hne Eu Er. apply (law_mn_Put (view := view)) in Eu. unfold minio_Read in Er.
  apply bind_Ok in Er as (obj & c3 & Eg & Er). destruct obj as [e|bs]; run_inv.
  apply (law_mn_Get (view := view)) in Eg as [Hc Hv]. rewrite Eu, lookup_insert_eq in Hv. injection Hv as <-.
  assert (Hone : ∃ f, values !! f = Some (minio_value order values)).
  { unfold minio_value. destruct (order values) as [|[f v] l] eqn:Eo.
    - destruct Hne. apply map_to_list_empty_iff. apply Permutation_nil_r. by rewrite <- Horder, Eo.
    - exists f. apply elem_of_map_to_list. rewrite <- Horder, Eo. set_solver. }
  destruct Hone as [f Hf]. split; [by exists f, (minio_value order values)|]. split.
  - split; [intros <-; by rewrite dom_singleton_L|]. intros Hd. apply map_eq. intros g.
    assert (f = "field0") as -> by (apply elem_of_dom_2 in Hf; set_solver).
    destruct (decide (g = "field0")) as [->|Hg]; [by rewrite lookup_singleton_eq|].
    rewrite lookup_singleton_ne by done. symmetry. apply not_elem_of_dom. set_solver.
  - intros k Hk. by rewrite Hc, Eu, lookup_insert_ne.
Qed.
End minio_spec.

(** ** A store that never fails, and the witness *)

#[global] Instance mem_MinioClient : MinioClient (gmap (string * string) bytes) := {
  mn_GetObject b k := λ m, Ok (match m !! (b, k) with Some v => inr v | None => inl "The specified key does not exist." end, m);
  mn_ListObjects b prefix := λ m,
    Ok (filter (λ k, HasPrefix k prefix = true) (omap (λ kv : string * string * bytes, if String.eqb kv.1.1 b then Some kv.1.2 else None) (map_to_list m)), m);
  mn_PutObject b k v := λ m, Ok (None, <[(b, k) := v]> m);
  mn_RemoveObject b k := λ m, Ok (None, delete (b, k) m)
}.

#[global] Instance mem_MinioLaws : MinioLaws (gmap (string * string) bytes) id.
Proof.
  split; cbn [mn_GetObject mn_PutObject mem_MinioClient].
  - intros b k c v c' E. unfold id. destruct (c !! (b, k)); [|done]. by injection E as <- <-.
  - by intros b k v c c' [= <-].
Qed.

Lemma minio_keeps_one_value_witness :
  ∃ r, minio_Read "t" "k" [] ({[("t", "k") := [x61]]} : gmap (string * string) bytes) = Ok ((r, None), {[("t", "k") := [x61]]}) ∧
    (r = ({["f" := [x61]]} : row) ↔ dom ({["f" := [x61]]} : row) = {["field0"]}).
Proof.
  eexists. split; [reflexivity|].
  edestruct (minio_keeps_one_value (C := gmap (string * string) bytes) id mem_order (λ m, reflexivity _) "t" "k" {["f" := [x61]]} [] ∅)
    as (_ & Hr & _); [intros Hm; discriminate Hm|reflexivity|reflexivity|exact Hr].
Defined.
