(* ===== verification/Pegasus.v ===== *)
(** * db/pegasus

    The Pegasus driver: one table connector per thread, chosen by the thread's number,
    which [InitThread] keeps in the context.  Connectors go by their index; the client
    behind them is the class [PegasusClient].  A sort key may be nil ([None]). *)

From S2P Require Import Prelude GoFloat GoStr Props Util Ycsb TikvRows LocalKV Json.

Class PegasusClient (C : Type) := {
  pe_Get : nat → bytes → option bytes → M C (error + bytes);
  pe_Set : nat → bytes → option bytes → string → M C (option error);
  pe_Del : nat → bytes → option bytes → M C (option error);
  pe_CloseTable : nat → M C (option error);
  pe_Close : M C (option error);
  pe_OpenTable : string → M C (option error)
}.

(** The number of connectors, and the thread's number in the context. *)
Record pegasus_state (C : Type) := { pe_client : C; pe_sessions : nat; pe_tid : option Z }.
Arguments pe_client {C} _.
Arguments pe_sessions {C} _.
Arguments pe_tid {C} _.

(** [json.Unmarshal(data, value)] with a map instead of a pointer to one: an
    [InvalidUnmarshalError], and the map stays as it is. *)
Definition Unmarshal_value (data : bytes) (value : row) : row * option error :=
  (value, Some "json: Unmarshal(non-pointer map[string][]uint8)").

Section pegasus.
Context {C : Type} `{PegasusClient C}.

Abbreviation S := (pegasus_state C).

Definition in_pe {A} (m : M C A) : M S A :=
  zoom pe_client (λ c s, {| pe_client := c; pe_sessions := pe_sessions s; pe_tid := pe_tid s |}) m.

Definition pegasus_InitThread (threadId : Z) : M S unit :=
  modify (λ s, {| pe_client := pe_client s; pe_sessions := pe_sessions s; pe_tid := Some threadId |}).

(** [db.sessions[ctx.Value("tid").(int)]] *)
Definition session : M S nat := λ s,
  match pe_tid s with
  | None => Panic "interface conversion: interface {} is nil, not int"
  | Some tid =>
      if (0 <=? tid) && (tid <? Z.of_nat (pe_sessions s)) then Ok (Z.to_nat tid, s) else Panic "index out of range"
  end.

Fixpoint close_sessions (sessions : list nat) : M C (option error) :=
  match sessions with
  | [] => pe_Close
  | i :: sessions => err ← pe_CloseTable i; match err with Some e => mret (Some e) | None => close_sessions sessions end
  end.

Definition pegasus_Close : M S (option error) :=
  s ← get; in_pe (close_sessions (seq 0 (pe_sessions s))).

(** The fields that the decoded row has. *)
Definition pegasus_Read (table key : string) (fields : list string) : M S (row * option error) :=
  s ← session;
  raw ← in_pe (pe_Get s (bytes_of_string key) (Some []));
  mret match raw with
       | inl e => (∅, Some e)
       | inr rawValue =>
           let '(value, _) := Unmarshal_value rawValue ∅ in
           (foldl (λ m f, match value !! f with Some v => <[f := v]> m | None => m end) ∅ fields, None)
       end.

Definition pegasus_Scan (table startKey : string) (count : Z) (fields : list string) : M S (list row * option error) :=
  mret ([], None).

(** The two writes differ in the sort key. *)
Definition pegasus_Update (table key : string) (values : row) : M S (option error) :=
  s ← session; in_pe (pe_Set s (bytes_of_string key) None (Marshal values)).

Definition pegasus_Insert (table key : string) (values : row) : M S (option error) :=
  s ← session; in_pe (pe_Set s (bytes_of_string key) (Some []) (Marshal values)).

Definition pegasus_Delete (table key : string) : M S (option error) :=
  s ← session; in_pe (pe_Del s (bytes_of_string key) (Some [])).

Definition pegasus_DB : DB S := {|
  Close := in_db pegasus_Close;
  InitThread threadId _ := in_db (pegasus_InitThread threadId);
  CleanupThread := mret tt;
  Read table key fs := in_db (pegasus_Read table key fs);
  Scan table key n fs := in_db (pegasus_Scan table key n fs);
  Update table key v := in_db (pegasus_Update table key v);
  Insert table key v := in_db (pegasus_Insert table key v);
  Delete table key := in_db (pegasus_Delete table key);
  as_BatchDB := None;
  as_AnalyzeDB := None;
  as_CountDB := None;
  as_CleanDB := None
|}.

(** *** Opening *)

Fixpoint open_tables (tbName : string) (n : nat) : M C (option error) :=
  match n with
  | O => mret None
  | Datatypes.S n =>
      err ← pe_OpenTable tbName;
      match err with Some e => mret (Some e) | None => open_tables tbName n end
  end.

Definition pegasus_Create {P} `{MoreProperties P} (p : P) (newClient : list string → C) : res (error + S) :=
  conf ← MustGetString p "meta_servers";
  tbName ← MustGetString p "table";
  threadCount ← MustGetInt p "threadcount";
  if threadCount <? 0 then Panic "makeslice: len out of range"
  else
    '(err, c) ← open_tables tbName (Z.to_nat threadCount) (newClient (Split conf ","));
    Ok match err with
       | Some e => inl e
       | None => inr {| pe_client := c; pe_sessions := Z.to_nat threadCount; pe_tid := None |}
       end.
End pegasus.

(** ** What reads give *)

(** Reading from Pegasus: without an error the row is empty, whatever is stored and
    whichever fields are asked for. *)
Lemma pegasus_reads_nothing {C} `{PegasusClient C} table key fs s r s' :
  pegasus_Read table key fs s = Ok ((r, None), s') → r = ∅.
Proof.
  intros E. unfold pegasus_Read in E. apply bind_Ok in E as (i & s1 & _ & E). apply bind_Ok in E as (raw & s2 & _ & E).
  destruct raw as [e|v]; [by injection E|]. injection E as <- _. induction fs as [|f fs IH]; [done|]. cbn [foldl].
  by rewrite lookup_empty.
Qed.

(** The connector used is the one of the thread, for as many threads as were opened. *)
Lemma session_of_thread {C} (s : pegasus_state C) tid :
  pe_tid s = Some tid → 0 <= tid < Z.of_nat (pe_sessions s) → session s = Ok (Z.to_nat tid, s).
Proof.
  intros Ht Hr. unfold session. rewrite Ht. by rewrite (proj2 (Z.leb_le _ _)), (proj2 (Z.ltb_lt _ _)) by lia.
Qed.
