(* ===== verification/Scripts.v ===== *)
(** * The stand-alone programs: cas_conflict_check.go, check_keys.go, key_size_check.go

    Small programs that use the raw TiKV client directly.  Module [CasCheck] models the
    first, which measures how often a compare-and-swap loses against other goroutines: its
    goroutines are a step relation in which making the key generator, every draw from it,
    every call of the client and every access to a shared counter is one step; a draw that
    panics ends the process.  The other two print keys; they run on the class [RawKV].
    Lines with durations are left out. *)

From S2P Require Import Prelude GoFloat GoRand GoStr GoConv GoText Props Generators Zipfian GeneratorSpec Util Ycsb KV TikvRows TikvRaw TikvRawSpec.

(** ** cas_conflict_check.go *)

Module CasCheck.

Record options := {
  pdAddr : string; dist : string; numKeys : Z; numOps : Z; threads : Z; apiV1 : bool
}.

(** An argument that is no number counts as what [ParseInt] returns beside the error. *)
Definition int_arg (args : list string) (i : nat) (def : Z) : Z :=
  match args !! i with Some a => fst (ParseInt a) | None => def end.

(** [args] are [os.Args]. *)
Definition parse_args (args : list string) : options := {|
  pdAddr := default "127.0.0.1:2379" (args !! 1%nat);
  dist := default "zipfian" (args !! 2%nat);
  numKeys := int_arg args 3 100000;
  numOps := int_arg args 4 200000;
  threads := int_arg args 5 64;
  apiV1 := String.eqb (match args !! 6%nat with Some a => ToLower a | None => "v2" end) "v1"
|}.

Definition valueSize : Z := 100000.

Definition key (i : Z) : bytes := bytes_of_string ("cascheck:user" +:+ fmt_0wd 10 i).

(** [newVal[0] ^= 0xFF] on a copy of [prev] in a slice of [valueSize] bytes. *)
Definition newVal (prev : bytes) : bytes :=
  let n := Z.to_nat valueSize in
  match take n prev ++ replicate (n - length prev) x00 with
  | b :: l => byte_of_Z (Z.lxor (byte_to_Z b) 255) :: l
  | [] => []
  end.

(** The loading loop, over the [n] keys from [i] on. *)
Fixpoint preload {C} `{RawKV C} (value : bytes) (i : Z) (n : nat) : M C unit :=
  match n with
  | O => mret tt
  | S n => err ← raw_Put (key i) value; match err with Some e => panic e | None => preload value (i + 1) n end
  end.

(** Where a goroutine is: before making its generator, before taking a number, before the
    draw of a key, before the calls, before counting, or returned; [Crashed] is where a
    draw has panicked, which ends the process. *)
Inductive counter := Success | Conflict | Failure.
Inductive pc :=
| Creating | Taking | Drawing | Getting (k : bytes) | Putting (k : bytes) | Swapping (k prev : bytes)
| Counting (c : counter) | Returned | Crashed.

(** [s_gens] are the variables [keyGen] of the goroutines.  [s_quiet] is not in the
    program: the operations that end in no counter. *)
Record state := {
  s_store : store; s_pc : list pc; s_gens : gmap nat gen;
  doneCnt : Z; successCnt : Z; conflictCnt : Z; errCnt : Z; s_quiet : Z
}.

Definition goto (t : nat) (p : pc) (s : state) : state :=
  {| s_store := s_store s; s_pc := <[t := p]> (s_pc s); s_gens := s_gens s; doneCnt := doneCnt s; successCnt := successCnt s;
     conflictCnt := conflictCnt s; errCnt := errCnt s; s_quiet := s_quiet s |}.

Definition take_number (s : state) : state :=
  {| s_store := s_store s; s_pc := s_pc s; s_gens := s_gens s; doneCnt := doneCnt s +! 1; successCnt := successCnt s;
     conflictCnt := conflictCnt s; errCnt := errCnt s; s_quiet := s_quiet s |}.

Definition set_store (m : store) (s : state) : state :=
  {| s_store := m; s_pc := s_pc s; s_gens := s_gens s; doneCnt := doneCnt s; successCnt := successCnt s;
     conflictCnt := conflictCnt s; errCnt := errCnt s; s_quiet := s_quiet s |}.

Definition set_keyGen (t : nat) (g : gen) (s : state) : state :=
  {| s_store := s_store s; s_pc := s_pc s; s_gens := <[t := g]> (s_gens s); doneCnt := doneCnt s;
     successCnt := successCnt s; conflictCnt := conflictCnt s; errCnt := errCnt s; s_quiet := s_quiet s |}.

Definition quiet (s : state) : state :=
  {| s_store := s_store s; s_pc := s_pc s; s_gens := s_gens s; doneCnt := doneCnt s; successCnt := successCnt s;
     conflictCnt := conflictCnt s; errCnt := errCnt s; s_quiet := s_quiet s + 1 |}.

(** [atomic.AddInt64(&cnt, 1)] *)
Definition count (c : counter) (s : state) : state :=
  {| s_store := s_store s; s_pc := s_pc s; s_gens := s_gens s; doneCnt := doneCnt s;
     successCnt := match c with Success => successCnt s +! 1 | _ => successCnt s end;
     conflictCnt := match c with Conflict => conflictCnt s +! 1 | _ => conflictCnt s end;
     errCnt := match c with Failure => errCnt s +! 1 | _ => errCnt s end; s_quiet := s_quiet s |}.

Section steps.
Context `{MathLib} (o : options) (value : bytes).

(** [seed] is the throw-away source of the zipfian constructor. *)
Definition new_keyGen (seed : rand) : res gen :=
  if String.eqb (dist o) "zipfian"
  then z ← NewZipfianWithItems (numKeys o) ZipfianConstant seed; Ok (GZipfian z)
  else Ok (GUniform (NewUniform 0 (numKeys o -! 1))).

(** A step of goroutine [t].  Calls fail at any time, and a write that fails may have been
    done.  The random sources deliver any words. *)
Inductive step (s : state) (t : nat) : state → Prop :=
| step_create seed g : s_pc s !! t = Some Creating → new_keyGen seed = Ok g →
    step s t (goto t Taking (set_keyGen t g s))
| step_take : s_pc s !! t = Some Taking → doneCnt s +! 1 <= numOps o →
    step s t (goto t Drawing (take_number s))
| step_draw g tr i g' tr' : s_pc s !! t = Some Drawing → s_gens s !! t = Some g →
    gen_Next 0 g tr = Ok ((i, g'), tr') →
    step s t (goto t (Getting (key i)) (set_keyGen t g' s))
| step_draw_panic g tr e : s_pc s !! t = Some Drawing → s_gens s !! t = Some g →
    gen_Next 0 g tr = Panic e → step s t (goto t Crashed s)
| step_return : s_pc s !! t = Some Taking → numOps o < doneCnt s +! 1 →
    step s t (goto t Returned (take_number s))
| step_get_err k : s_pc s !! t = Some (Getting k) → step s t (goto t (Counting Failure) s)
| step_get_nil k : s_pc s !! t = Some (Getting k) → s_store s !! k = None → step s t (goto t (Putting k) s)
| step_get k prev : s_pc s !! t = Some (Getting k) → s_store s !! k = Some prev →
    step s t (goto t (Swapping k prev) s)
| step_put k : s_pc s !! t = Some (Putting k) →
    step s t (goto t Taking (quiet (set_store (<[k := value]> (s_store s)) s)))
| step_put_err k m : s_pc s !! t = Some (Putting k) → m = s_store s ∨ m = <[k := value]> (s_store s) →
    step s t (goto t (Counting Failure) (set_store m s))
| step_swap k prev : s_pc s !! t = Some (Swapping k prev) → s_store s !! k = Some prev →
    step s t (goto t (Counting Success) (set_store (<[k := newVal prev]> (s_store s)) s))
| step_conflict k prev : s_pc s !! t = Some (Swapping k prev) → s_store s !! k ≠ Some prev →
    step s t (goto t (Counting Conflict) s)
| step_swap_err k prev m : s_pc s !! t = Some (Swapping k prev) →
    m = s_store s ∨ (s_store s !! k = Some prev ∧ m = <[k := newVal prev]> (s_store s)) →
    step s t (goto t (Counting Failure) (set_store m s))
| step_count c : s_pc s !! t = Some (Counting c) → step s t (goto t Taking (count c s)).

(** A process that has crashed takes no further step. *)
Inductive steps : nat → state → state → Prop :=
| steps_nil s : steps 0 s s
| steps_snoc n s s1 t s2 : steps n s s1 → Crashed ∉ s_pc s1 → step s1 t s2 → steps (S n) s s2.
End steps.

(** The goroutines have just been started. *)
Definition start (o : options) (m : store) : state := {|
  s_store := m; s_pc := replicate (Z.to_nat (threads o)) Creating; s_gens := ∅;
  doneCnt := 0; successCnt := 0; conflictCnt := 0; errCnt := 0; s_quiet := 0
|}.

(** The report; the rate is printed when a swap has been answered. *)
Definition report (o : options) (s : state) : list string :=
  let total := successCnt s +! conflictCnt s in
  ["================ CAS 冲突率报告 ================";
   "distribution : " +:+ dist o;
   "keys/ops/threads: " +:+ FormatInt (numKeys o) +:+ " / " +:+ FormatInt (numOps o) +:+ " / " +:+ FormatInt (threads o);
   "CAS success  : " +:+ FormatInt (successCnt s);
   "CAS conflict : " +:+ FormatInt (conflictCnt s);
   "errors       : " +:+ FormatInt (errCnt s)] ++
  (if 0 <? total
   then ["conflict rate: " +:+ fmt_fixed 2 (f64_div (f64_mul (f64_of_Z (conflictCnt s)) (f64_of_Z 100)) (f64_of_Z total)) +:+ "%"]
   else []).

(** *** Every operation is counted, and the run ends *)

(** Goroutines in the middle of an operation, and those that have returned. *)
Definition busy (p : pc) : Z := match p with Creating | Taking | Returned => 0 | _ => 1 end.
Definition returned (p : pc) : Z := match p with Returned => 1 | _ => 0 end.

Lemma busy_bound l : 0 <= total_of busy l <= Z.of_nat (length l).
Proof. rewrite <- (Z.mul_1_l (Z.of_nat _)). apply total_of_bound; [intros []; cbn; lia|lia]. Qed.

Lemma returned_bound l : 0 <= total_of returned l <= Z.of_nat (length l).
Proof. rewrite <- (Z.mul_1_l (Z.of_nat _)). apply total_of_bound; [intros []; cbn; lia|lia]. Qed.

Section invariant.
Context `{MathLib} (o : options) (value : bytes).
Context (Hops : 0 <= numOps o) (Hthreads : 0 <= threads o) (Hsize : numOps o + threads o <= max_int64).

(** Taken numbers are finished operations, running ones, and one per goroutine returned. *)
Record counted (s : state) : Prop := {
  counted_threads : length (s_pc s) = Z.to_nat (threads o);
  counted_done : doneCnt s = successCnt s + conflictCnt s + errCnt s + s_quiet s + total_of busy (s_pc s) + total_of returned (s_pc s);
  counted_pos : 0 <= successCnt s ∧ 0 <= conflictCnt s ∧ 0 <= errCnt s ∧ 0 <= s_quiet s;
  counted_ops : doneCnt s - total_of returned (s_pc s) <= numOps o;
  counted_end : 0 < total_of returned (s_pc s) → doneCnt s - total_of returned (s_pc s) = numOps o
}.

Lemma counted_start m : counted (start o m).
Proof.
  assert (Hz : ∀ f, f Creating = 0 → total_of f (replicate (Z.to_nat (threads o)) Creating) = 0).
  { intros f Hf. induction (Z.to_nat (threads o)) as [|n IH]; cbn; [done|]. by rewrite Hf, IH. }
  split; cbn [s_pc start doneCnt successCnt conflictCnt errCnt s_quiet]; rewrite ?length_replicate, ?Hz by done; lia.
Qed.

Lemma counted_small s : counted s → 0 <= doneCnt s <= numOps o + total_of returned (s_pc s) ∧
  0 <= total_of busy (s_pc s) ∧ 0 <= total_of returned (s_pc s) <= Z.of_nat (length (s_pc s)).
Proof.
  intros [Hl Hd Hp Ho He]. pose proof (busy_bound (s_pc s)). pose proof (returned_bound (s_pc s)). lia.
Qed.

(** A goroutine that has not returned leaves room for one more number. *)
Lemma counted_room s t p : counted s → s_pc s !! t = Some p → p ≠ Returned → doneCnt s +! 1 = doneCnt s + 1.
Proof.
  intros Hc Ht Hp. destruct (counted_small s Hc) as (Hd & _ & Hr0 & _).
  assert (total_of returned (s_pc s) < Z.of_nat (length (s_pc s))).
  { clear Hc Hd Hr0. revert t Ht. induction (s_pc s) as [|x l IH]; intros [|t] Ht; cbn [total_of length] in *; [done..| |].
    - injection Ht as ->. pose proof (returned_bound l). assert (returned p = 0) by by destruct p. lia.
    - specialize (IH t Ht). assert (returned x <= 1) by (destruct x; cbn; lia). lia. }
  rewrite (counted_threads s Hc) in *. apply wrap64_id. unfold_width. lia.
Qed.

Lemma counted_step s t s' : counted s → step o value s t s' → counted s'.
Proof.
  intros Hc Hs. pose proof (counted_small s Hc) as (Hd & Hb & Hr). pose proof (busy_bound (s_pc s)) as Hbb.
  assert (Hfit : ∀ z, 0 <= z <= doneCnt s → int64_ok z) by (pose proof (counted_threads s Hc); unfold_width; lia).
  destruct Hc as [Hl Hdone Hpos Hops' Hend].
  inversion Hs; subst; match goal with H : s_pc s !! t = Some ?p |- _ =>
      pose proof (counted_room s t p ltac:(by split) H ltac:(done)) as Hroom;
      split; cbn [s_pc doneCnt successCnt conflictCnt errCnt s_quiet goto take_number set_store set_keyGen quiet count];
      rewrite ?length_insert, ?(total_of_insert busy _ _ _ _ H), ?(total_of_insert returned _ _ _ _ H) end;
    cbn [busy returned]; rewrite ?Hroom in *; try lia.
  all: pose proof (busy_bound (<[t := Taking]> (s_pc s))) as Hone; match goal with E : s_pc _ !! _ = Some _ |- _ => rewrite (total_of_insert _ _ _ _ _ E) in Hone end; cbn [busy] in Hone;
    destruct c; rewrite wrap64_id by (apply Hfit; lia); lia.
Qed.

Lemma counted_steps n m s : steps o value n (start o m) s → counted s.
Proof.
  remember (start o m) as s0 eqn:E. intros Hs. revert E. induction Hs as [s|n s s1 t s2 _ IH _ Hs]; intros ->; [apply counted_start|].
  by eapply counted_step; [apply IH|].
Qed.

Lemma all_returned l : (∀ p, p ∈ l → p = Returned) → total_of busy l = 0 ∧ total_of returned l = Z.of_nat (length l).
Proof.
  induction l as [|p l IH]; intros Hl; [done|]. destruct IH as [Hb Hr]; [set_solver|].
  rewrite (Hl p) by set_solver. cbn [total_of busy returned length]. lia.
Qed.

(** C8: The counters of the conflict check.  With at least one goroutine and numbers that
    fit an int64, however the goroutines interleave and whichever calls fail: at any time
    the numbers taken are the operations counted as success, conflict or error, those that
    only wrote a missing key and are counted nowhere, those under way, and one for every
    goroutine that has returned.  When all goroutines have returned, the operations counted
    and those counted nowhere are together exactly the configured number. *)
Theorem cas_counts_exact n m s :
  0 < threads o → steps o value n (start o m) s →
  doneCnt s = successCnt s + conflictCnt s + errCnt s + s_quiet s + total_of busy (s_pc s) + total_of returned (s_pc s) ∧
  ((∀ p, p ∈ s_pc s → p = Returned) →
    successCnt s + conflictCnt s + errCnt s + s_quiet s = numOps o ∧ doneCnt s = numOps o + threads o).
Proof.
  intros Ht Hs. apply counted_steps in Hs as [Hl Hd _ _ He]. split; [done|]. intros Hall.
  destruct (all_returned _ Hall) as [Hb Hr]. lia.
Qed.

(** What a goroutine still has to do before it takes its next number, at most. *)
Definition weight (p : pc) : Z :=
  match p with
  | Returned | Crashed => 0 | Taking => 1 | Creating | Counting _ => 2 | Putting _ | Swapping _ _ => 3
  | Getting _ => 4 | Drawing => 5
  end.

Definition measure (s : state) : Z := 5 * Z.max 0 (numOps o - doneCnt s) + total_of weight (s_pc s).

Lemma measure_step s t s' : counted s → step o value s t s' → measure s' < measure s.
Proof.
  intros Hc Hs. unfold measure. inversion Hs; subst; match goal with H : s_pc s !! t = Some ?p |- _ =>
      pose proof (counted_room s t p Hc H ltac:(done)) as Hroom;
      cbn [s_pc doneCnt goto take_number set_store set_keyGen quiet count]; rewrite (total_of_insert weight _ _ _ _ H) end;
    cbn [weight]; rewrite ?Hroom in *; lia.
Qed.

Lemma measure_steps n m s : steps o value n (start o m) s → Z.of_nat n + measure s <= 5 * numOps o + 2 * threads o.
Proof.
  remember (start o m) as s0 eqn:E. intros Hs. revert E. induction Hs as [s|n s s1 t s2 Hss IH _ Hs]; intros ->.
  - unfold measure. cbn [start doneCnt s_pc]. assert (total_of weight (replicate (Z.to_nat (threads o)) Creating) = 2 * threads o) as ->; [|lia].
    rewrite <- (Z2Nat.id (threads o)) at 2 by lia. induction (Z.to_nat (threads o)) as [|k IHk]; [done|]. cbn [replicate total_of weight]. lia.
  - specialize (IH eq_refl). pose proof (measure_step _ _ _ (counted_steps _ _ _ Hss) Hs). lia.
Qed.

(** *** The key generators *)

Context (Hkeys : int64_ok (numKeys o)).

(** A generator as the goroutine made it: zipfian, or uniform over [numKeys] keys. *)
Definition keyGen_ok (g : gen) : Prop :=
  if String.eqb (dist o) "zipfian" then ∃ z, g = GZipfian z ∧ zipf_typed z
  else ∃ u, g = GUniform u ∧ uni_interval u = numKeys o.

Lemma new_keyGen_ok seed g : new_keyGen o seed = Ok g → keyGen_ok g.
Proof.
  unfold new_keyGen, keyGen_ok, NewZipfianWithItems, NewZipfianWithRange. destruct (String.eqb _ _).
  - match goal with |- context [NewZipfian ?l ?h ?c ?z seed] => destruct (NewZipfian l h c z seed) as [z'|?|?|] eqn:E end; [|done..].
    intros [= <-]. eexists. split; [done|]. eapply NewZipfian_typed; [|exact E]. by vm_compute.
  - intros [= <-]. eexists. split; [done|]. cbn. rewrite Z.sub_0_r, (wrap64_id (numKeys o -! 1)) by apply wrap64_range.
    rewrite wrap64_add_l. replace (numKeys o - 1 + 1) with (numKeys o) by lia. by apply wrap64_id.
Qed.

(** One word is enough for a zipfian draw. *)
Lemma Zipfian_next_some z n : zipf_typed z → ∃ v z' tr', Zipfian_next z n [0] = Ok ((v, z'), tr').
Proof.
  intros Hz. unfold Zipfian_next. destruct (Zipfian_resize_typed z n Hz) as (z' & -> & _).
  assert (∃ f, Float64 [0] = Ok (f, [])) as [f Hf] by (vm_compute; eauto).
  unfold mbind, M_bind, lift. rewrite Hf. repeat case_match; by do 3 eexists.
Qed.

Lemma Int63n_some n : 0 < n <= max_int64 → ∃ v, Int63n n [0] = Ok (v, []).
Proof.
  intros Hn. unfold Int63n. rewrite (proj2 (Z.leb_gt n 0)) by lia. case_match; [by eexists|]. cbn [reject_loop].
  rewrite Z.land_0_l, Z.shiftr_0_l, (proj2 (Z.ltb_ge _ 0)); [by eexists|].
  pose proof (Z.mod_pos_bound two63 n). unfold two63, max_int64 in *. lia.
Qed.

(** A draw keeps the generator as it was made; it panics only over no keys, and the sources
    can deliver what it needs. *)
Lemma keyGen_draw g tr : keyGen_ok g →
  match gen_Next 0 g tr with
  | Ok ((_, g'), _) => keyGen_ok g' ∧ (String.eqb (dist o) "zipfian" = false → 0 < numKeys o)
  | Panic _ => String.eqb (dist o) "zipfian" = false ∧ numKeys o <= 0
  | Exit _ => False
  | Stuck => True
  end.
Proof.
  unfold keyGen_ok. destruct (String.eqb _ _) eqn:E.
  - intros (z & -> & Hz). cbn [gen_Next]. unfold wrap_gen, mbind, M_bind, Zipfian_Next.
    pose proof (Zipfian_next_post z (items z) tr False Hz) as Hp.
    destruct (Zipfian_next z (items z) tr) as [[[v z'] tr']|?|?|]; try done. destruct Hp as [_ Hz']. cbn. split; [by eexists|done].
  - intros (u & -> & Hu). cbn [gen_Next]. unfold wrap_gen, mbind, M_bind at 1, Uniform_Next.
    pose proof (Int63n_post_or (uni_interval u) tr (uni_interval u <= 0) id) as Hp. unfold mbind, M_bind.
    destruct (Int63n (uni_interval u) tr) as [[v tr']|?|?|]; cbn in *; [|by rewrite Hu in Hp|done..].
    split; [by eexists|lia].
Qed.

Lemma keyGen_draws g : keyGen_ok g →
  ∃ tr, (∃ v g' tr', gen_Next 0 g tr = Ok ((v, g'), tr')) ∨ (∃ e, gen_Next 0 g tr = Panic e).
Proof.
  unfold keyGen_ok. destruct (String.eqb _ _).
  - intros (z & -> & Hz). destruct (Zipfian_next_some z (items z) Hz) as (v & z' & tr' & E). exists [0]. left.
    cbn [gen_Next]. unfold wrap_gen, mbind, M_bind, Zipfian_Next. rewrite E. by do 3 eexists.
  - intros (u & -> & Hu). exists [0]. cbn [gen_Next]. unfold wrap_gen, Uniform_Next, mbind, M_bind.
    destruct (Z.leb_spec (uni_interval u) 0) as [Hn|Hn].
    + right. unfold Int63n. rewrite (proj2 (Z.leb_le _ 0) Hn). by eexists.
    + left. destruct (Int63n_some (uni_interval u) ltac:(unfold int64_ok in *; lia)) as [v ->]. by do 3 eexists.
Qed.

(** Before the first draw, or at the end. *)
Definition early (p : pc) : bool :=
  match p with Creating | Taking | Drawing | Returned | Crashed => true | _ => false end.

(** Goroutines that have made their generators hold them; a crash needs no keys to draw
    from, and without keys nothing comes of the run. *)
Record generators_held (m : store) (s : state) : Prop := {
  held_gens t p : s_pc s !! t = Some p → p ≠ Creating → ∃ g, s_gens s !! t = Some g ∧ keyGen_ok g;
  held_crash : Crashed ∈ s_pc s → String.eqb (dist o) "zipfian" = false ∧ numKeys o <= 0;
  held_barren : String.eqb (dist o) "zipfian" = false → numKeys o <= 0 →
    (∀ p, p ∈ s_pc s → early p = true) ∧ s_store s = m ∧
    successCnt s = 0 ∧ conflictCnt s = 0 ∧ errCnt s = 0 ∧ s_quiet s = 0
}.

Lemma held_goto m s s' t p :
  generators_held m s → (∃ q, s_pc s !! t = Some q) → s_pc s' = <[t := p]> (s_pc s) →
  (∀ u, u ≠ t → s_gens s' !! u = s_gens s !! u) →
  (p ≠ Creating → ∃ g, s_gens s' !! t = Some g ∧ keyGen_ok g) →
  (p = Crashed → String.eqb (dist o) "zipfian" = false ∧ numKeys o <= 0) →
  (String.eqb (dist o) "zipfian" = false → numKeys o <= 0 → early p = true ∧
    s_store s' = s_store s ∧ successCnt s' = successCnt s ∧ conflictCnt s' = conflictCnt s ∧
    errCnt s' = errCnt s ∧ s_quiet s' = s_quiet s) →
  generators_held m s'.
Proof.
  intros [Hg Hc Hb] [q Hq] Hp Hu Hgt Hct Hbt. split.
  - intros u x Hx Hn. rewrite Hp in Hx. destruct (decide (u = t)) as [->|Hne].
    + rewrite list_lookup_insert_eq in Hx by (by eapply lookup_lt_Some). injection Hx as <-. by apply Hgt.
    + rewrite list_lookup_insert_ne in Hx by done. rewrite Hu by done. by apply (Hg u x).
  - rewrite Hp. intros Hin. apply list_elem_of_lookup_1 in Hin as [u Hx]. destruct (decide (u = t)) as [->|Hne].
    + rewrite list_lookup_insert_eq in Hx by (by eapply lookup_lt_Some). injection Hx as ->. by apply Hct.
    + rewrite list_lookup_insert_ne in Hx by done. apply Hc. by eapply list_elem_of_lookup_2.
  - intros Hd Hk. destruct (Hbt Hd Hk) as (Hpp & -> & -> & -> & -> & ->). destruct (Hb Hd Hk) as (Hall & Hrest). split; [|done].
    rewrite Hp. intros x Hin. apply list_elem_of_lookup_1 in Hin as [u Hx]. destruct (decide (u = t)) as [->|Hne].
    + rewrite list_lookup_insert_eq in Hx by (by eapply lookup_lt_Some). by injection Hx as <-.
    + rewrite list_lookup_insert_ne in Hx by done. apply Hall. by eapply list_elem_of_lookup_2.
Qed.

(** The outcome of the draw of the step in hand. *)
Ltac draw_in Hd := match goal with E : gen_Next _ _ _ = _ |- _ => rewrite E in Hd end.

Lemma held_step m s t s' : generators_held m s → step o value s t s' → generators_held m s'.
Proof.
  intros Hh Hs. pose proof Hh as [Hg _ Hb].
  assert (Hno : ∀ p, s_pc s !! t = Some p → early p = false →
    ¬ (String.eqb (dist o) "zipfian" = false ∧ numKeys o <= 0)).
  { intros p Hp Hn [Hd Hk]. destruct (Hb Hd Hk) as [Hall _]. rewrite (Hall p) in Hn; [done|]. by eapply list_elem_of_lookup_2. }
  inversion Hs; subst; match goal with E : s_pc s !! t = Some ?p |- _ =>
    pose proof (Hno p E) as Hn; pose proof (Hg t p E) as Hgt; clear Hno;
    eapply held_goto; [exact Hh|by eexists|reflexivity|..] end;
    try done; try (intros u Hu; cbn; by rewrite ?lookup_insert_ne by done);
    try (intros Hp; cbn; rewrite ?lookup_insert_eq; first [by apply Hgt|done]);
    try (intros Hd Hk; exfalso; by apply Hn).
  - intros _. cbn. rewrite lookup_insert_eq. eexists. split; [done|by eapply new_keyGen_ok].
  - intros _. cbn. rewrite lookup_insert_eq. destruct (Hgt ltac:(done)) as (g0 & Eg & Hok). simplify_eq.
    pose proof (keyGen_draw _ tr Hok) as Hd. draw_in Hd. destruct Hd. by eexists.
  - intros Hd Hk. exfalso. destruct (Hgt ltac:(done)) as (g0 & Eg & Hok). simplify_eq.
    pose proof (keyGen_draw _ tr Hok) as Hdr. draw_in Hdr. destruct Hdr as [_ Hpos]. specialize (Hpos Hd). lia.
  - intros _. destruct (Hgt ltac:(done)) as (g0 & Eg & Hok). simplify_eq.
    pose proof (keyGen_draw _ tr Hok) as Hd. by draw_in Hd.
Qed.

Lemma held_steps n m s : steps o value n (start o m) s → generators_held m s.
Proof.
  remember (start o m) as s0 eqn:E. intros Hs. revert E. induction Hs as [s|n s s1 t s2 _ IH _ Hs]; intros ->.
  - assert (Hcr : ∀ p, p ∈ replicate (Z.to_nat (threads o)) Creating → p = Creating) by (intros p [-> _]%list.elem_of_replicate; done).
    split; cbn.
    + intros t p Hp Hn. destruct Hn. apply Hcr. by eapply list_elem_of_lookup_2.
    + intros Hin%Hcr. done.
    + intros _ _. split; [|done]. by intros p ->%Hcr.
  - by eapply held_step; [apply IH|].
Qed.

Lemma can_step m s t p :
  generators_held m s → Crashed ∉ s_pc s → s_pc s !! t = Some p → p ≠ Returned → ∃ s', step o value s t s'.
Proof.
  intros Hh Hc Ht Hp. destruct p as [| | |k|k|k prev|c| |].
  - destruct (String.eqb (dist o) "zipfian") eqn:E.
    + destruct (Zipfian_next_some (zipf_init 0 (numKeys o -! 1) ZipfianConstant
        (zetaStatic 0 (numKeys o -! 1 -! 0 +! 1) ZipfianConstant f64_zero))
        (items (zipf_init 0 (numKeys o -! 1) ZipfianConstant (zetaStatic 0 (numKeys o -! 1 -! 0 +! 1) ZipfianConstant f64_zero)))
        ltac:(split; [done|by vm_compute])) as (v & z & tr & Ez).
      eexists. apply (step_create _ _ _ _ [0] (GZipfian z)); [done|]. unfold new_keyGen. rewrite E.
      unfold NewZipfianWithItems, NewZipfianWithRange, NewZipfian, Zipfian_Next. by rewrite Ez.
    + eexists. apply (step_create _ _ _ _ [] (GUniform (NewUniform 0 (numKeys o -! 1)))); [done|]. unfold new_keyGen. by rewrite E.
  - destruct (decide (doneCnt s +! 1 <= numOps o)); eexists; [by apply step_take|apply step_return; [done|lia]].
  - destruct (held_gens m s Hh t _ Ht ltac:(done)) as (g & Eg & Hok).
    destruct (keyGen_draws g Hok) as (tr & [(v & g' & tr' & E)|[e E]]); eexists; [by eapply step_draw|by eapply step_draw_panic].
  - eexists. by eapply step_get_err.
  - eexists. by eapply step_put.
  - destruct (decide (s_store s !! k = Some prev)); eexists; [by eapply step_swap|by eapply step_conflict].
  - eexists. by eapply step_count.
  - done.
  - destruct Hc. by eapply list_elem_of_lookup_2.
Qed.

(** C9: The conflict check ends.  No run of its goroutines takes more than five steps per
    operation and two per goroutine.  The process crashes only when the keys are drawn
    uniformly from [numKeys <= 0] of them (an argument that is no number counts as 0), and
    then no call of the client was made and nothing was counted.  As long as it has not
    crashed, a goroutine that has not returned can go on: nothing waits for anything. *)
Theorem cas_run_ends n m s :
  steps o value n (start o m) s →
  Z.of_nat n <= 5 * numOps o + 2 * threads o ∧
  (dist o = "zipfian" ∨ 0 < numKeys o → Crashed ∉ s_pc s) ∧
  (dist o ≠ "zipfian" → numKeys o <= 0 →
    s_store s = m ∧ successCnt s = 0 ∧ conflictCnt s = 0 ∧ errCnt s = 0 ∧ s_quiet s = 0) ∧
  (Crashed ∉ s_pc s → ∀ t p, s_pc s !! t = Some p → p ≠ Returned → ∃ s', step o value s t s').
Proof.
  intros Hs. pose proof (held_steps n m s Hs) as Hh. split_and!.
  - pose proof (measure_steps n m s Hs) as Hm. assert (0 <= measure s); [|lia]. unfold measure.
    pose proof (total_of_bound weight 5 (s_pc s) ltac:(intros []; cbn; lia) ltac:(lia)). lia.
  - intros Hd Hin. destruct (held_crash m s Hh Hin) as [E Hk]. apply String.eqb_neq in E. destruct Hd; [done|lia].
  - intros Hd Hk. by apply (held_barren m s Hh (proj2 (String.eqb_neq _ _) Hd) Hk).
  - intros Hc t p. by apply (can_step m).
Qed.
End invariant.

(** One goroutine, one operation on a missing key. *)
Definition ex_options : options := {| pdAddr := ""; dist := "uniform"; numKeys := 1; numOps := 1; threads := 1; apiV1 := false |}.

(** The draws of a generator over one key leave it as it was, but for the last value. *)
Definition ex_gen : gen := GUniform (NewUniform 0 0).

Definition ex_end : state :=
  goto 0 Returned (take_number (goto 0 Taking (quiet (set_store (<[key 0 := []]> ∅)
    (goto 0 (Putting (key 0)) (goto 0 (Getting (key 0)) (set_keyGen 0 ex_gen (goto 0 Drawing (take_number
      (goto 0 Taking (set_keyGen 0 ex_gen (start ex_options ∅)))))))))))).

Lemma one_more `{MathLib} o value n s s1 s2 p :
  steps o value n s s1 → step o value s1 0 s2 → s_pc s1 = [p] → p ≠ Crashed → steps o value (S n) s s2.
Proof. intros Hs Hst E Hp. eapply steps_snoc; [exact Hs| |exact Hst]. rewrite E. set_solver. Qed.

Lemma ex_run : @steps math_exp1 ex_options [] 6 (start ex_options ∅) ex_end.
Proof.
  pose proof (@steps_nil math_exp1 ex_options [] (start ex_options ∅)) as Hs.
  eapply one_more in Hs; [|apply (step_create _ _ _ 0 [] ex_gen); reflexivity|reflexivity|done].
  eapply one_more in Hs; [|apply (step_take _ _ _ 0); [reflexivity|by vm_compute]|reflexivity|done].
  eapply one_more in Hs; [|apply (step_draw _ _ _ 0 ex_gen [0] 0 ex_gen []); [reflexivity|cbn; apply lookup_insert_eq|reflexivity]|reflexivity|done].
  eapply one_more in Hs; [|apply (step_get_nil _ _ _ 0 (key 0)); [reflexivity|apply lookup_empty]|reflexivity|done].
  eapply one_more in Hs; [|apply (step_put _ _ _ 0 (key 0)); reflexivity|reflexivity|done].
  eapply one_more in Hs; [|apply (step_return _ _ _ 0); [reflexivity|by vm_compute]|reflexivity|done].
  exact Hs.
Qed.

Lemma cas_counts_exact_witness :
  successCnt ex_end + conflictCnt ex_end + errCnt ex_end + s_quiet ex_end = 1 ∧ doneCnt ex_end = 1 + 1.
Proof.
  destruct (@cas_counts_exact math_exp1 ex_options [] ltac:(cbn; lia) ltac:(cbn; lia) ltac:(cbn; unfold max_int64; lia) 6 ∅ ex_end ltac:(cbn; lia) ex_run)
    as [_ Hend].
  apply Hend. intros p Hp. cbn in Hp. apply list_elem_of_singleton in Hp. exact Hp.
Defined.

Lemma cas_run_ends_witness : Z.of_nat 6 <= 5 * 1 + 2 * 1 ∧ Crashed ∉ s_pc ex_end.
Proof.
  destruct (@cas_run_ends math_exp1 ex_options [] ltac:(cbn; lia) ltac:(cbn; lia) ltac:(cbn; unfold max_int64; lia) ltac:(by vm_compute) 6 ∅ ex_end ex_run)
    as (Hn & Hc & _).
  split; [exact Hn|]. apply Hc. right. reflexivity.
Defined.
End CasCheck.

(** ** check_keys.go *)

(** [fmt.Printf("%d: %s\n", i, string(k))] for the keys from [i] on. *)
Fixpoint key_lines (i : nat) (keys : list bytes) : list string :=
  match keys with
  | [] => []
  | k :: keys => (FormatInt (Z.of_nat i) +:+ ": " +:+ string_of_bytes k) :: key_lines (S i) keys
  end.

Section check_keys.
Context {C : Type} `{RawKV C}.

(** The counting loop; a full batch is followed by another, the last one is printed when
    it is long enough. *)
Fixpoint check_loop (fuel : nat) (batchStart endKey : bytes) (count : Z) : M C (list string * Z) :=
  match fuel with
  | O => stuck
  | S f =>
      '(batchKeys, _, err) ← raw_Scan batchStart (Some endKey) 10000;
      match err with
      | Some e => panic e
      | None =>
          match list.last batchKeys with
          | None => mret ([], count)
          | Some k =>
              let n := length batchKeys in
              let count := count +! Z.of_nat n in
              if Z.of_nat n <? 10000 then
                mret (if (20 <=? n)%nat then "Last 20 keys:" :: key_lines (n - 20) (drop (n - 20) batchKeys) else [], count)
              else check_loop f (k ++ [x00]) endKey count
          end
      end
  end.

Definition check_keys (fuel : nat) : M C (list string) :=
  let startKey := getRowKey "usertable" "" in
  let endKey := end_boundary startKey in
  '(keys, _, err) ← raw_Scan startKey (Some endKey) 20;
  match err with
  | Some e => panic e
  | None =>
      '(lines, count) ← check_loop fuel startKey endKey 0;
      mret ("=== First 20 keys ===" :: key_lines 0 keys ++ [""; "=== Last 20 keys ==="] ++ lines ++
            [""; "Total count: " +:+ FormatInt count])
  end.

(** ** key_size_check.go *)

Fixpoint size_lines (mark : nat) (i : nat) (entries : list (bytes * bytes)) : list string :=
  match entries with
  | [] => []
  | (k, v) :: entries =>
      ("key=" +:+ string_of_bytes k +:+ "  value_len=" +:+ FormatInt (Z.of_nat (length v)) +:+ " bytes" +:+
       (if (i =? mark)%nat then "  <== 抽查" else "")) :: size_lines mark (S i) entries
  end.

Definition key_size_check : M C (list string) :=
  let startKey := bytes_of_string "usertable:" in
  '(keys, values, err) ← raw_Scan startKey (Some (end_boundary startKey)) 5;
  match err with
  | Some e => panic e
  | None =>
      match keys with
      | [] => mret ["no keys found"]
      | _ =>
          if (length values <? length keys)%nat then panic "index out of range"
          else mret (size_lines (length keys / 2) 0 (zip keys values))
      end
  end.
End check_keys.

Section counting.
Context {C : Type} `{RawKV C} (view : C → store) `{!RawKVLaws C view}.

(** The error of some call of [Scan]. *)
Definition scan_error (e : error) : Prop :=
  ∃ lo hi n (c : C) ks vs c', raw_Scan lo hi n c = Ok ((ks, vs, Some e), c').

(** The counting loop is the one of the driver's [Count], which returns the error where
    this one panics. *)
Lemma check_loop_as_driver fuel batchStart endKey n (s : raw_state C) :
  answers_scans (C := C) →
  match check_loop fuel batchStart endKey n (raw_client s) with
  | Ok ((_, count), c) => raw_count_loop fuel batchStart endKey n s =
      Ok ((count, None), {| raw_client := c; raw_pool := raw_pool s; raw_cache := raw_cache s |})
  | Panic e => scan_error e
  | Exit _ => False
  | Stuck => raw_count_loop fuel batchStart endKey n s = Stuck
  end.
Proof.
  intros Ha. revert batchStart n s. induction fuel as [|f IH]; intros batchStart n s; [done|]. cbn [check_loop raw_count_loop].
  unfold mbind, M_bind, in_client, zoom. unfold count_batch.
  destruct (Ha batchStart (Some endKey) 10000 (raw_client s)) as ([[keys vs] err] & c & Es). rewrite Es.
  destruct err as [e|]; [by do 7 eexists|]. destruct (list.last keys) as [k|]; [|done].
  destruct (Z.of_nat (length keys) <? 10000); [done|].
  apply (IH _ _ {| raw_client := c; raw_pool := raw_pool s; raw_cache := raw_cache s |}).
Qed.

(** C21: check_keys lists and counts the keys of "usertable".  On a client that answers
    its scans, with fuel for one scan per key and a count that fits an int64, the program
    ends: it prints the first 20 keys of the table's range, and its last line is the total,
    the number of keys in that range, which is also what the driver's [Count] returns when
    it returns no error; the store stays as it was.  Otherwise it panics with the error of a
    scan. *)
Theorem check_keys_counts_as_driver fuel (s : raw_state C) :
  answers_scans (C := C) → (length (table_entries view s "usertable") < fuel)%nat →
  Z.of_nat (length (table_entries view s "usertable")) <= max_int64 →
  match check_keys fuel (raw_client s) with
  | Ok (lines, c) =>
      (∃ rest, lines = "=== First 20 keys ===" :: key_lines 0 (take 20 (table_entries view s "usertable").*1) ++ rest) ∧
      list.last lines = Some ("Total count: " +:+ FormatInt (Z.of_nat (length (table_entries view s "usertable")))) ∧
      (∀ n s', raw_Count fuel "usertable" s = Ok ((n, None), s') →
        list.last lines = Some ("Total count: " +:+ FormatInt n)) ∧
      view c = store_of view s
  | Panic e => scan_error e
  | Exit _ | Stuck => False
  end.
Proof.
  intros Ha Hf Hm. unfold check_keys, mbind, M_bind.
  destruct (Ha (getRowKey "usertable" "") (Some (end_boundary (getRowKey "usertable" ""))) 20 (raw_client s))
    as ([[keys vs] err] & c & Es). rewrite Es. destruct err as [e|]; [by do 7 eexists|].
  apply (law_Scan (view := view)) in Es as (Hz & Hlen & Hv).
  set (s1 := {| raw_client := c; raw_pool := raw_pool s; raw_cache := raw_cache s |}).
  assert (Hs1 : store_of view s1 = store_of view s) by exact Hv. unfold table_entries in *.
  pose proof (check_loop_as_driver fuel (getRowKey "usertable" "") (end_boundary (getRowKey "usertable" "")) 0 s1 Ha) as Hl.
  destruct (raw_count_loop_exact view fuel (getRowKey "usertable" "") (end_boundary (getRowKey "usertable" "")) 0 s1 Ha
    ltac:(by rewrite Hs1) ltac:(done) ltac:(by rewrite Hs1)) as (x & err & s2 & Ex & Hx). rewrite Ex in Hl. rewrite Hs1 in Hx.
  destruct (raw_count_loop_exact view fuel (getRowKey "usertable" "") (end_boundary (getRowKey "usertable" "")) 0 s Ha
    Hf ltac:(done) Hm) as (y & erry & s3 & Ey & Hy).
  change (raw_client s1) with c in Hl. destruct (check_loop fuel _ _ 0 c) as [[[lines count] c']|e|?|]; [|done..].
  injection Hl as -> -> ->. destruct Hx as [-> Hc']. cbn [mret M_ret]. split_and!.
  - eexists. f_equal. f_equal. change (Z.to_nat 20) with 20%nat in Hz.
    change (store_of view s) with (view (raw_client s)). rewrite <- fmap_take, <- Hz. by rewrite fst_zip by lia.
  - by rewrite !app_assoc, (app_assoc _ [""] ["Total count: " +:+ _]) || (rewrite list.last_cons, !list.last_app; done).
  - intros n s' En. unfold raw_Count in En. rewrite Ey in En. simplify_eq. destruct Hy as [-> _]. by rewrite list.last_cons, !list.last_app.
  - exact Hc'.
Qed.
End counting.

Definition ex_usertable : store :=
  {[getRowKey "usertable" "1" := [x00]; getRowKey "usertable" "2" := [x01]; getRowKey "c" "3" := [x02]]}.

Lemma check_keys_counts_as_driver_witness :
  ∃ lines, check_keys 3 ex_usertable = Ok (lines, ex_usertable) ∧ list.last lines = Some "Total count: 2".
Proof.
  pose proof (check_keys_counts_as_driver id 3 (ex_raw_state ex_usertable) mem_answers_scans
    ltac:(vm_compute; lia) ltac:(vm_compute; discriminate)) as Ht.
  assert (match check_keys 3 ex_usertable with Ok _ => true | _ => false end = true) as Hb by (vm_compute; reflexivity).
  assert (length (table_entries id (ex_raw_state ex_usertable) "usertable") = 2%nat) as Hn by (vm_compute; reflexivity).
  assert (Some ("Total count: " +:+ FormatInt (Z.of_nat 2)) = Some "Total count: 2") as Hf by (vm_compute; reflexivity).
  cbn [raw_client ex_raw_state] in Ht. rewrite Hn, Hf in Ht. unfold store_of in Ht. cbn [raw_client ex_raw_state] in Ht.
  destruct (check_keys 3 ex_usertable) as [[lines c]|?|?|]; [|discriminate Hb..].
  destruct Ht as (_ & Hlast & _ & Hc). unfold id in Hc. subst c. exists lines. split; [reflexivity|exact Hlast].
Defined.
