(* ===== verification/Tls.v ===== *)
(** * pkg/util/tls.go

    Building a TLS configuration from files.  Reading files and parsing certificates are
    parameters; [q] is the verb [%q] of [fmt] on a string. *)

From S2P Require Import Prelude GoFloat GoStr Props Ycsb.

(** [Pool] is a pool of certificates, [Cert] a certificate with its key. *)
Record tls_config (Pool Cert : Type) := {
  tls_InsecureSkipVerify : bool;
  Renegotiation : string;
  tls_RootCAs : option Pool;
  Certificates : list Cert
}.
Arguments tls_InsecureSkipVerify {Pool Cert} _.
Arguments Renegotiation {Pool Cert} _.
Arguments tls_RootCAs {Pool Cert} _.
Arguments Certificates {Pool Cert} _.

Section tls.
Context {Pool Cert : Type} (NewCertPool : Pool) (AppendCertsFromPEM : Pool → bytes → option Pool).
Context (ReadFile : string → error + bytes) (LoadX509KeyPair : string → string → error + Cert) (q : string → string).

(** The error printed when nothing could be parsed is that of the read, which is nil. *)
Fixpoint add_certs (pool : Pool) (certFiles : list string) : error + Pool :=
  match certFiles with
  | [] => inr pool
  | certFile :: certFiles =>
      match ReadFile certFile with
      | inl e => inl ("could not read certificate " +:+ q certFile +:+ ": " +:+ e)
      | inr pem =>
          match AppendCertsFromPEM pool pem with
          | None => inl ("could not parse any PEM certificates " +:+ q certFile +:+ ": <nil>")
          | Some pool => add_certs pool certFiles
          end
      end
  end.

Definition makeCertPool : list string → error + Pool := add_certs NewCertPool.

Definition loadCertificate (config : tls_config Pool Cert) (certFile keyFile : string) : error + tls_config Pool Cert :=
  match LoadX509KeyPair certFile keyFile with
  | inl e => inl ("could not load keypair " +:+ certFile +:+ ":" +:+ keyFile +:+ ": " +:+ e)
  | inr cert => inr {| tls_InsecureSkipVerify := tls_InsecureSkipVerify config; Renegotiation := Renegotiation config;
                       tls_RootCAs := tls_RootCAs config; Certificates := [cert] |}
  end.

Definition CreateTLSConfig (caPath certPath keyPath : string) (insecureSkipVerify : bool) : error + tls_config Pool Cert :=
  let config cas := {| tls_InsecureSkipVerify := insecureSkipVerify; Renegotiation := "RenegotiateNever";
                       tls_RootCAs := cas; Certificates := [] |} in
  match (if negb (String.eqb caPath "")
         then match makeCertPool [caPath] with inl e => inl e | inr pool => inr (config (Some pool)) end
         else inr (config None)) with
  | inl e => inl e
  | inr c =>
      if negb (String.eqb certPath "") && negb (String.eqb keyPath "") then loadCertificate c certPath keyPath else inr c
  end.

(** A configuration that is made trusts exactly the authorities it was told to, and shows
    a certificate only with both halves of the pair; verification is on unless it was
    asked to be skipped. *)
Lemma CreateTLSConfig_Ok caPath certPath keyPath skip c :
  CreateTLSConfig caPath certPath keyPath skip = inr c →
  tls_InsecureSkipVerify c = skip ∧
  (tls_RootCAs c = None ↔ caPath = "") ∧
  (Certificates c = [] ↔ certPath = "" ∨ keyPath = "").
Proof.
  unfold CreateTLSConfig, loadCertificate. intros E.
  destruct (String.eqb_spec caPath ""), (String.eqb_spec certPath ""), (String.eqb_spec keyPath ""); cbn [negb andb] in E;
    repeat (case_match; simplify_eq/=); naive_solver.
Qed.
End tls.
