(* ===== verification/Shell.v ===== *)
(** * cmd/go-ycsb/shell.go: the interactive shell

    The commands of the shell on the wrapped database, the loop over the lines typed, and
    what it does with arguments.  cobra's choice of the command is the parameter
    [dispatch]; what is printed are the lines of [sh_out]. *)

From S2P Require Import Prelude GoFloat GoStr GoText Props Util Ycsb Measurement Client System Cmd.

(** A line of output; [PrintField] is the format [%s=%q] of a field and its value. *)
Inductive shell_line := PrintLine (s : string) | PrintField (field : string) (value : bytes) | PrintUsage.

Record shell_state (D : Type) := { sh_env : Env D; sh_table : string; sh_out : list shell_line }.
Arguments sh_env {D} _.
Arguments sh_table {D} _.
Arguments sh_out {D} _.

Inductive shell_command := ShRead | ShScan | ShInsert | ShUpdate | ShDelete | ShTable.

(** [cobra.MinimumNArgs] of the commands; [table] has [MaximumNArgs(1)]. *)
Definition args_ok (c : shell_command) (args : list string) : bool :=
  match c with
  | ShRead | ShDelete => (1 <=? length args)%nat
  | ShScan | ShInsert | ShUpdate => (2 <=? length args)%nat
  | ShTable => (length args <=? 1)%nat
  end.

(** What [Readline] gives: a line, or an error. *)
Inductive read_result := ReadLine (s : string) | ErrInterrupt | ReadEOF | ReadError (e : error).

Section shell.
Context {D : Type} (order : row → list (string * bytes)) (is_nil : row → bool) (db : DB D).
Context (dispatch : list string → option (shell_command * list string)).

Abbreviation S := (shell_state D).

Definition in_shell {A} (m : M (Env D) A) : M S A :=
  zoom sh_env (λ e s, {| sh_env := e; sh_table := sh_table s; sh_out := sh_out s |}) m.

Definition print_lines (l : list shell_line) : M S unit :=
  modify (λ s, {| sh_env := sh_env s; sh_table := sh_table s; sh_out := sh_out s ++ l |}).

Definition print (s : string) : M S unit := print_lines [PrintLine s].

Definition arg (args : list string) (i : nat) : res string := index args i.

(** [for key, value := range row] *)
Definition row_lines (r : row) : list shell_line := (λ kv, PrintField (fst kv) (snd kv)) <$> order r.

(** [is_nil] says whether the row is the nil map: only an empty row can be. *)
Definition runShellReadCommand (args : list string) : M S unit :=
  key ← lift (arg args 0);
  s ← get;
  '(row, err) ← in_shell (Read db (sh_table s) key (drop 1 args));
  match err with
  | Some e => print ("Read " +:+ key +:+ " failed " +:+ e)
  | None =>
      if is_nil row then print ("Read empty for " +:+ key)
      else print_lines (PrintLine ("Read " +:+ key +:+ " ok") :: row_lines row)
  end.

Fixpoint record_lines (i : Z) (rows : list row) : list shell_line :=
  match rows with
  | [] => []
  | r :: rows => PrintLine ("Record " +:+ FormatInt (i + 1)) :: row_lines r ++ record_lines (i + 1) rows
  end.

Definition dashes : string := "--------------------------------".

Definition runShellScanCommand (args : list string) : M S unit :=
  key ← lift (arg args 0);
  count ← lift (arg args 1);
  match ParseInt count with
  | (_, Some _) => print ("invalid record count " +:+ count +:+ " for scan")
  | (recordCount, None) =>
      s ← get;
      '(rows, err) ← in_shell (Scan db (sh_table s) key recordCount (drop 2 args));
      match err with
      | Some e => print ("Scan from " +:+ key +:+ " with " +:+ FormatInt recordCount +:+ " failed " +:+ e)
      | None =>
          if decide (rows = []) then print "0 records"
          else print_lines (PrintLine dashes :: record_lines 0 rows ++ [PrintLine dashes])
      end
  end.

(** [sep := strings.SplitN(arg, "=", 2); values[sep[0]] = []byte(sep[1])] *)
Fixpoint parse_values (args : list string) (values : row) : res row :=
  match args with
  | [] => Ok values
  | a :: args =>
      let sep := SplitN2 a "=" in
      field ← index sep 0;
      value ← index sep 1;
      parse_values args (<[field := bytes_of_string value]> values)
  end.

(** Insert and update: the same but for the call and the messages. *)
Definition run_write (name : string) (call : string → string → row → M (Env D) (option error)) (args : list string)
    : M S unit :=
  key ← lift (arg args 0);
  values ← lift (parse_values (drop 1 args) ∅);
  s ← get;
  err ← in_shell (call (sh_table s) key values);
  match err with
  | Some e => print (name +:+ " " +:+ key +:+ " failed " +:+ e)
  | None => print (name +:+ " " +:+ key +:+ " ok")
  end.

Definition runShellInsertCommand : list string → M S unit := run_write "Insert" (Insert db).
Definition runShellUpdateCommand : list string → M S unit := run_write "Update" (Update db).

Definition runShellDeleteCommand (args : list string) : M S unit :=
  key ← lift (arg args 0);
  s ← get;
  err ← in_shell (Delete db (sh_table s) key);
  match err with
  | Some e => print ("Delete " +:+ key +:+ " failed " +:+ e)
  | None => print ("Delete " +:+ key +:+ " ok")
  end.

Definition set_table (t : string) : M S unit :=
  modify (λ s, {| sh_env := sh_env s; sh_table := t; sh_out := sh_out s |}).

Definition runShellTableCommand (args : list string) : M S unit :=
  _ ← match args with [t] => set_table t | _ => mret tt end;
  s ← get;
  print ("Using table " +:+ sh_table s).

Definition runShellCommand (args : list string) : M S unit :=
  match dispatch args with
  | None => print_lines [PrintUsage]
  | Some (c, args) =>
      if negb (args_ok c args) then print_lines [PrintUsage] else
      match c with
      | ShRead => runShellReadCommand args
      | ShScan => runShellScanCommand args
      | ShInsert => runShellInsertCommand args
      | ShUpdate => runShellUpdateCommand args
      | ShDelete => runShellDeleteCommand args
      | ShTable => runShellTableCommand args
      end
  end.

(** The loop, over what is typed; it gives back what is left. *)
Fixpoint shellLoop (input : list read_result) : M S (list read_result) :=
  match input with
  | [] => stuck
  | ErrInterrupt :: input | ReadEOF :: input => mret input
  | ReadError _ :: input => shellLoop input
  | ReadLine line :: input =>
      if String.eqb line "exit" then mret input
      else _ ← runShellCommand (Split (TrimSpace line) " "); shellLoop input
  end.
End shell.

(** The command: one thread of the workload and of the database around the loop. *)
Section command.
Context {P : Type} `{Properties P} {W D HD PW : Type} `{HDR HD}.
Context (new_props : P) (load_files : list string → res P)
        (workloadCreators : gmap string (P → error + W))
        (dbCreators : gmap string (P → M D (error + DB D))).
Context (wl_InitThread : W → Z → Z → M (Env D) unit) (wl_CleanupThread : W → M (Env D) unit).
Context (order : row → list (string * bytes)) (is_nil : row → bool)
        (dispatch : list string → option (shell_command * list string)).

Definition runShellCommandFunc (fl : flags) (dbName : string) (d0 : D) (clock : list Z) (input : list read_result)
    : res (shell_state D) :=
  g ← initialGlobal (HD := HD) (PW := PW) new_props load_files workloadCreators dbCreators fl dbName id d0;
  '(_, s) ← (
    _ ← in_shell (wl_InitThread (globalWorkload g) 0 1);
    _ ← in_shell (InitThread (globalDB g) 0 1);
    _ ← shellLoop order is_nil (globalDB g) dispatch input;
    _ ← in_shell (CleanupThread (globalDB g));
    in_shell (wl_CleanupThread (globalWorkload g)))
    {| sh_env := start_env (globalState g) clock; sh_table := tableName g; sh_out := [] |};
  Ok s.
End command.

(** ** What the shell does with its arguments *)

(** The row of a list of assignments: a later one of the same field wins. *)
Definition assigned (kvs : list (string * string)) : row :=
  foldl (λ m kv, <[fst kv := bytes_of_string (snd kv)]> m) ∅ kvs.

Lemma parse_values_ok kvs m :
  Forall assignment_ok kvs →
  parse_values (assignment <$> kvs) m = Ok (foldl (λ m kv, <[fst kv := bytes_of_string (snd kv)]> m) m kvs).
Proof.
  intros Hk. revert m. induction Hk as [|kv kvs Hkv _ IH]; intros m; [done|].
  cbn [fmap list_fmap parse_values]. rewrite (SplitN2_assignment kv Hkv). apply IH.
Qed.

Lemma parse_values_bad args m a :
  a ∈ args → all_in (without "=") a = true → parse_values args m = Panic "index out of range".
Proof.
  intros Ha Hw. revert m. induction args as [|b args IH]; intros m; [by apply elem_of_nil in Ha|].
  cbn [parse_values]. destruct (assignment_cases b) as [(kv & -> & Hkv)|Hb].
  - rewrite (SplitN2_assignment kv Hkv). apply elem_of_cons in Ha as [->|Ha]; [|by apply IH].
    pose proof (SplitN2_without _ Hw) as E. by rewrite (SplitN2_assignment kv Hkv) in E.
  - by rewrite (SplitN2_without b Hb).
Qed.

(** Insert and update in the shell.  With assignments [field=value] as arguments they
    call the database once, with the row of these assignments (a value may hold further
    [=], a later assignment of a field wins), and print its answer; an argument without
    [=] anywhere among them makes the shell panic, and nothing is called.  Every argument
    is of one of the two forms. *)
Lemma shell_arguments {D} (db : DB D) (key : string) s :
  (∀ kvs, Forall assignment_ok kvs →
     runShellInsertCommand db (key :: (assignment <$> kvs)) s =
       (err ← in_shell (Insert db (sh_table s) key (assigned kvs));
        print (match err with Some e => "Insert " +:+ key +:+ " failed " +:+ e | None => "Insert " +:+ key +:+ " ok" end)) s ∧
     runShellUpdateCommand db (key :: (assignment <$> kvs)) s =
       (err ← in_shell (Update db (sh_table s) key (assigned kvs));
        print (match err with Some e => "Update " +:+ key +:+ " failed " +:+ e | None => "Update " +:+ key +:+ " ok" end)) s) ∧
  (∀ args a, a ∈ args → all_in (without "=") a = true →
     runShellInsertCommand db (key :: args) s = Panic "index out of range" ∧
     runShellUpdateCommand db (key :: args) s = Panic "index out of range") ∧
  ∀ a, (∃ kv, a = assignment kv ∧ assignment_ok kv) ∨ all_in (without "=") a = true.
Proof.
  split; [|split; [|apply assignment_cases]].
  - intros kvs Hk. unfold runShellInsertCommand, runShellUpdateCommand, run_write, lift, get, mbind, M_bind, arg.
    cbn [index lookup list_lookup drop]. rewrite (parse_values_ok kvs ∅ Hk). fold (assigned kvs).
    split; destruct (in_shell _ s) as [[[e|] s1]|?|?|]; reflexivity.
  - intros args a Ha Hw. unfold runShellInsertCommand, runShellUpdateCommand, run_write, lift, get, mbind, M_bind, arg.
    cbn [index lookup list_lookup drop]. by rewrite (parse_values_bad args ∅ a Ha Hw).
Qed.

