(* ===== verification/Cli.v ===== *)
(** * cmd/go-ycsb: the commands and their flags

    The [new...Command] functions declare flags to cobra, which binds each to a variable of
    package main.  How a flag takes a value is pflag's: the class [Pflag], with its
    documented behaviour as laws.  Parsing the command line is cobra's; the variables it
    leaves are the [flags] the commands of Cmd.v and Shell.v run with. *)

From S2P Require Import Prelude GoFloat GoStr GoConv GoText Props Util Ycsb Measurement Cmd Shell.

(** The variables of package main that flags are bound to. *)
Inductive variable :=
| VPropertyFiles | VPropertyValues | VTableName | VThreadsArg | VTargetArg | VReportInterval | VPromeServer | VBenchNo | VStatistic
| VCountThreads | VCountBatch | VCleanConfirm.


(** [StringSliceVarP], [StringArrayVarP], [StringVar], [IntVar], [BoolVar]. *)
Inductive kind := StringSlice | StringArray | String_ | Int_ | Bool_.

Inductive value := Strings (l : list string) | AString (s : string) | AnInt (z : Z) | ABool (b : bool).

Record flag := { bound : variable; flag_name : string; shorthand : string; flag_kind : kind; default_value : value }.

(** [Set] of a flag: whether it has been set before, its value, and the new text. *)
Class Pflag := { flag_Set : kind → bool → value → string → error + value }.

(** Documented behaviour: an array takes its values as they are, a slice splits them at
    commas; the first one replaces the default. *)
Definition plain_text (s : string) : bool :=
  all_in (λ c, negb (existsb (Ascii.eqb c) [","; dquote; line_feed; "013"]%char)) s.

Class PflagLaws `{Pflag} : Prop := {
  law_array : ∀ changed l s, flag_Set StringArray changed (Strings l) s = inr (Strings ((if changed : bool then l else []) ++ [s]));
  law_slice : ∀ changed l ss, ss ≠ [] → Forall (λ s, s ≠ "" ∧ plain_text s = true) ss →
    flag_Set StringSlice changed (Strings l) (Join ss ",") = inr (Strings ((if changed : bool then l else []) ++ ss))
}.

(** ** The declarations *)

Definition property_flags (props : kind) : list flag := [
  {| bound := VPropertyFiles; flag_name := "property_file"; shorthand := "P"; flag_kind := StringSlice; default_value := Strings [] |};
  {| bound := VPropertyValues; flag_name := "prop"; shorthand := "p"; flag_kind := props; default_value := Strings [] |};
  {| bound := VTableName; flag_name := "table"; shorthand := ""; flag_kind := String_; default_value := AString "" |}].

Definition initClientCommand : list flag := property_flags StringArray ++ [
  {| bound := VThreadsArg; flag_name := "threads"; shorthand := ""; flag_kind := Int_; default_value := AnInt 1 |};
  {| bound := VTargetArg; flag_name := "target"; shorthand := ""; flag_kind := Int_; default_value := AnInt 0 |};
  {| bound := VReportInterval; flag_name := "interval"; shorthand := ""; flag_kind := Int_; default_value := AnInt 10 |};
  {| bound := VPromeServer; flag_name := "prome-server"; shorthand := ""; flag_kind := String_; default_value := AString "" |};
  {| bound := VBenchNo; flag_name := "bench-no"; shorthand := ""; flag_kind := String_; default_value := AString "" |};
  {| bound := VStatistic; flag_name := "statistic"; shorthand := ""; flag_kind := Bool_; default_value := ABool false |}].

(** The function a command runs. *)
Inductive action := RunLoad | RunTrans | RunCount | RunClean | RunShell.

Record command := { Use : string; Flags : list flag; Args : flags → list string → bool; Run : action }.

(** [cobra.MinimumNArgs(1)] *)
Definition MinimumNArgs1 (fl : flags) (args : list string) : bool := negb (bool_decide (args = [])).

Definition newLoadCommand : command :=
  {| Use := "load db"; Flags := initClientCommand; Args := client_args_ok; Run := RunLoad |}.
Definition newRunCommand : command :=
  {| Use := "run db"; Flags := initClientCommand; Args := client_args_ok; Run := RunTrans |}.
Definition newCountCommand : command := {|
  Use := "count db"; Args := MinimumNArgs1; Run := RunCount;
  Flags := property_flags StringArray ++ [
    {| bound := VCountThreads; flag_name := "threads"; shorthand := ""; flag_kind := Int_; default_value := AnInt 10 |};
    {| bound := VCountBatch; flag_name := "batch"; shorthand := ""; flag_kind := Int_; default_value := AnInt 1000 |}] |}.
Definition newCleanCommand : command := {|
  Use := "clean db"; Args := MinimumNArgs1; Run := RunClean;
  Flags := property_flags StringArray ++ [
    {| bound := VCleanConfirm; flag_name := "confirm"; shorthand := ""; flag_kind := Bool_; default_value := ABool false |}] |}.
Definition newShellCommand : command := {|
  Use := "shell db"; Args := MinimumNArgs1; Run := RunShell; Flags := property_flags StringSlice |}.

(** The commands [main] adds to the root. *)
Definition rootCommands : list command := [newShellCommand; newLoadCommand; newRunCommand; newCountCommand; newCleanCommand].

(** ** What becomes of a property value *)

Section values.
Context `{Pflag} `{!PflagLaws}.

(** The flag [-p] of a command. *)
Definition prop_flag (k : kind) : flag :=
  {| bound := VPropertyValues; flag_name := "prop"; shorthand := "p"; flag_kind := k; default_value := Strings [] |}.

(** Load, run, count and clean declare [-p] as an array, so a text given with it is one
    value, whatever characters it has; the shell declares a slice: a text that has a comma
    is two values, and the second one is refused as a property without a value. *)
Lemma property_flag_values {P} `{Properties P} (p : P) kv second :
  Forall (λ s, s ≠ "" ∧ plain_text s = true) [assignment kv; second] →
  assignment_ok kv → all_in (without "=") second = true →
  (∀ c s, c ∈ [newLoadCommand; newRunCommand; newCountCommand; newCleanCommand] →
     prop_flag StringArray ∈ Flags c ∧
     flag_Set (flag_kind (prop_flag StringArray)) false (default_value (prop_flag StringArray)) s = inr (Strings [s])) ∧
  prop_flag StringSlice ∈ Flags newShellCommand ∧
  ∃ vs, flag_Set (flag_kind (prop_flag StringSlice)) false (default_value (prop_flag StringSlice))
          (Join [assignment kv; second] ",") = inr (Strings vs) ∧
    set_properties p vs = Exit ("bad property: `" +:+ second +:+ "`, expected format `name=value`").
Proof.
  intros Hs Hkv H2. split; [|split].
  - intros c s Hc. split; [|apply law_array]. rewrite !elem_of_cons in Hc.
    destruct Hc as [->|[->|[->|[->|Hc]]]]; [right; left..|by apply elem_of_nil in Hc].
  - right; left.
  - eexists. split; [apply law_slice; [done|exact Hs]|]. cbn [app set_properties].
    by rewrite (SplitN2_assignment kv Hkv), (SplitN2_without second H2).
Qed.

(** No command declares a name twice, and commands that bind the same variable give it the
    same default. *)
Lemma declarations_agree :
  Forall (λ c, NoDup (flag_name <$> Flags c)) rootCommands ∧
  ∀ f f', f ∈ concat (Flags <$> rootCommands) → f' ∈ concat (Flags <$> rootCommands) →
    bound f = bound f' → default_value f = default_value f'.
Proof.
  split.
  - repeat (constructor; [by apply (bool_decide_unpack _); vm_compute|]). constructor.
  - assert (Forall (λ f, default_value f = match bound f with
      | VPropertyFiles | VPropertyValues => Strings [] | VTableName | VPromeServer | VBenchNo => AString ""
      | VThreadsArg => AnInt 1 | VTargetArg => AnInt 0 | VReportInterval => AnInt 10 | VStatistic | VCleanConfirm => ABool false
      | VCountThreads => AnInt 10 | VCountBatch => AnInt 1000 end) (concat (Flags <$> rootCommands))) as Hd by (cbn; repeat constructor).
    rewrite list.Forall_forall in Hd. intros f f' Hf Hf' E. by rewrite (Hd f Hf), (Hd f' Hf'), E.
Qed.
End values.

(** pflag on flags without quotes. *)
Definition demo_pflag : Pflag := {|
  flag_Set k changed v s :=
    let old := match v with Strings l => if changed : bool then l else [] | _ => [] end in
    match k with
    | StringArray => inr (Strings (old ++ [s]))
    | StringSlice => inr (Strings (old ++ Split s ","))
    | String_ => inr (AString s)
    | Int_ => match ParseInt s with (z, None) => inr (AnInt z) | (_, Some _) => inl "invalid argument" end
    | Bool_ => inr (ABool (String.eqb s "true"))
    end
|}.

Lemma plain_text_comma s : plain_text s = true → all_in (without ",") s = true.
Proof.
  unfold plain_text, all_in, without. induction s as [|c s IH]; [done|]. simpl. intros [Hc Hs]%andb_true_iff.
  rewrite (IH Hs), andb_true_r. apply negb_true_iff in Hc. by apply orb_false_iff in Hc as [-> _].
Qed.

Lemma Split_Join ss : ss ≠ [] → Forall (λ s, s ≠ "" ∧ plain_text s = true) ss → Split (Join ss ",") "," = ss.
Proof.
  intros Hne Hs. induction Hs as [|s ss [_ Hs] _ IH]; [done|]. apply plain_text_comma in Hs. destruct ss as [|s' ss]; [by apply Split_without|].
  change (Join (s :: s' :: ss) ",") with (s +:+ String "," (Join (s' :: ss) ",")). by rewrite Split_app, IH.
Qed.

#[global] Instance demo_PflagLaws : @PflagLaws demo_pflag.
Proof. split; [done|]. intros changed l ss Hne Hs. cbn [flag_Set demo_pflag]. by rewrite Split_Join. Qed.
